(** * lambda-razberry: the Alexa smart-home adapter, revision by revision

    The repository holds several revisions of one AWS Lambda handler that
    translates Alexa smart-home directives into HTTP calls against a device
    backend, and the backend's answers into Alexa event envelopes.

    This development embeds five of them, each in a module of its own:
    - [Index]    : [src/index.js]  (versioned envelopes, PUT, no playback)
    - [CodeV3]   : the third file of [src/code.js]  (adds playback; the
                   shim rejects every status but 200)
    - [Latest]   : [src/unnamed/part_000]  (https, POST, ['#']-encoded
                   endpoint ids, bodies parsed inside the shim)
    - [Legacy]   : the first file of [src/unnamed/part_001]  (payload
                   version 2)
    - [Callback] : the first file of [src/code.js]  (payload version 2,
                   callbacks instead of promises)

    How the code is modelled:
    - JavaScript values are the JSON universe plus [undefined].  A number
      is an integer-valued double, printed as JavaScript prints it.  An
      object lists its own properties; a property named [toString] or
      [hasOwnProperty] shadows the inherited method, so that a conversion
      to text ([ToString]) or the loop of [assign] can throw.
    - A handler is a computation in [M]: it reads the host (clock,
      [JSON.parse], backend, environment), threads a state (clock readings
      taken, requests issued, what the Lambda context was told) and ends
      with a value, a thrown error, or a fault that leaves it without a
      reply.  A promise is the computation that settles it: [then_] is
      sequencing, [catch_] handles a throw, [detach] ends a chain.
    - [http.request] is the one of Node.js 10 and later: it throws on a
      path with a character it refuses ([unescaped]) and issues nothing.
      The configured host and port are taken to be ones Node accepts.
    - The transport is opaque: a request that completes ends in a socket
      error or in a full response.  A request that never completes is
      outside the model, as is the Lambda lifecycle.
    - A log line prints nothing the handler depends on; it is kept where
      building its text converts a value of the event, which can throw
      ([to_string]), and dropped where it only passes values along. *)

From Stdlib Require Import String Ascii List ZArith Bool Lia Permutation.
From Stdlib Require Import DecimalString DecimalZ.
Import ListNotations.
Open Scope string_scope.

Set Warnings "-register-all".

(* ================================================================== *)
(** ** JavaScript values *)

(** The JSON universe plus [undefined].  An object lists its own properties
    in the order of their creation, the first binding of a key being the
    property; [own_properties] below gives the order of enumeration.  A
    number [JNum n] is the double nearest to the integer [n]: every integer
    below 2^53 in magnitude is itself.  A string is a sequence of UTF-16
    code units written in UTF-8 (a lone surrogate as its three bytes). *)
Inductive JSValue : Type :=
| JUndefined
| JNull
| JBool (b : bool)
| JNum (n : Z)
| JStr (s : string)
| JArr (xs : list JSValue)
| JObj (props : list (string * JSValue)).

(** An [Error] object: [message] (like [stack]) is an own property that is
    NOT enumerable; Node's system errors carry enumerable extras
    ([code], [errno], [syscall], ...). *)
Record JSError : Type := mkError {
  err_name : string;
  message : string;
  enumerable : list (string * JSValue)
}.

Definition TypeError (msg : string) : JSError := mkError "TypeError" msg [].
Definition SyntaxError (msg : string) : JSError := mkError "SyntaxError" msg [].
(** [new Error(msg)] *)
Definition Error (msg : string) : JSError := mkError "Error" msg [].

(** ToBoolean *)
Definition truthy (v : JSValue) : bool :=
  match v with
  | JUndefined | JNull => false
  | JBool b => b
  | JNum n => negb (n =? 0)%Z
  | JStr s => negb (s =? "")
  | JArr _ | JObj _ => true
  end.

(** [a && b] on values: the first falsy operand, else the last. *)
Definition js_and (a : JSValue) (b : JSValue) : JSValue :=
  if truthy a then b else a.

Definition is_undefined (v : JSValue) : bool :=
  match v with JUndefined => true | _ => false end.

Definition is_nullish (v : JSValue) : bool :=
  match v with JUndefined | JNull => true | _ => false end.

(** [typeof v === 'string'] *)
Definition typeof_string (v : JSValue) : bool :=
  match v with JStr _ => true | _ => false end.

(** [a === b] where one side is a string literal *)
Definition strict_eq_str (v : JSValue) (lit : string) : bool :=
  match v with JStr s => s =? lit | _ => false end.

(* ------------------------------------------------------------------ *)
(** *** Numbers *)

Definition string_of_Z (n : Z) : string := NilZero.string_of_int (Z.to_int n).

(** The number of decimal digits of a non-negative integer. *)
Definition digits (x : Z) : Z := Z.of_nat (String.length (string_of_Z x)).

(** The double nearest to a non-negative integer, ties to even; a result
    from 2^1024 on stands for [Infinity]. *)
Definition round_to_double (y : Z) : Z :=
  if (y <? 2 ^ 53)%Z then y
  else
    let u := (2 ^ (Z.log2 y - 52))%Z in
    let q := (y / u)%Z in
    let r := (y mod u)%Z in
    if (2 * r <? u)%Z then (q * u)%Z
    else if (u <? 2 * r)%Z then ((q + 1) * u)%Z
    else if Z.even q then (q * u)%Z else ((q + 1) * u)%Z.

Definition is_infinite (n : Z) : bool :=
  (2 ^ 1024 <=? round_to_double (Z.abs n))%Z.

(** The decimal with the fewest significant digits that reads back as the
    double [x]; of two with as many digits, the nearer to [x], then the
    even one.  [k] counts the significant digits tried. *)
Fixpoint shortest (fuel : nat) (k : Z) (x : Z) : Z :=
  match fuel with
  | O => x
  | S fuel' =>
      let p := (10 ^ (digits x - k))%Z in
      let lo := (x / p * p)%Z in
      let hi := (lo + p)%Z in
      let lo_ok := (round_to_double lo =? x)%Z in
      let hi_ok := (round_to_double hi =? x)%Z in
      if (digits x <=? k)%Z then x
      else if lo_ok && hi_ok then
        if (x - lo <? hi - x)%Z then lo
        else if (hi - x <? x - lo)%Z then hi
        else if Z.even (lo / p) then lo else hi
      else if lo_ok then lo
      else if hi_ok then hi
      else shortest fuel' (k + 1)%Z x
  end.

Fixpoint drop_zeros (cs : list ascii) : list ascii :=
  match cs with
  | c :: rest => if Ascii.eqb c "0" then drop_zeros rest else cs
  | [] => []
  end.

(** [d.ddde+n]: the significant digits of [v], then the exponent. *)
Definition exponent_form (v : Z) : string :=
  let exponent := "e+" ++ string_of_Z (digits v - 1) in
  match rev (drop_zeros (rev (list_ascii_of_string (string_of_Z v)))) with
  | [] => string_of_Z v
  | [d] => String d exponent
  | d :: rest => String d ("." ++ string_of_list_ascii rest ++ exponent)
  end.

(** Number::toString of a double from 2^53 on. *)
Definition large_text (x : Z) : string :=
  if (2 ^ 1024 <=? x)%Z then "Infinity"
  else
    let v := shortest 17 1 x in
    if (digits v <=? 21)%Z then string_of_Z v else exponent_form v.

(** Number::toString: an integer below 2^53 prints its digits; a larger
    one prints the shortest decimal that reads back as its double, in
    exponent form from 10^21 on. *)
Definition Number_toString (n : Z) : string :=
  if (Z.abs n <? 2 ^ 53)%Z then string_of_Z n
  else (if (n <? 0)%Z then "-" else "") ++ large_text (round_to_double (Z.abs n)).

(** A number inside [JSON.stringify]: an infinity prints as [null]. *)
Definition JSON_number (n : Z) : string :=
  if is_infinite n then "null" else Number_toString n.

(* ------------------------------------------------------------------ *)
(** *** Strings *)

Definition dquote : string := String (ascii_of_nat 34) EmptyString.
Definition backslash : string := String (ascii_of_nat 92) EmptyString.

Fixpoint join (sep : string) (parts : list string) : string :=
  match parts with
  | [] => EmptyString
  | [p] => p
  | p :: rest => p ++ sep ++ join sep rest
  end.

Definition hex_digit (n : nat) : string :=
  match n with
  | 0 => "0" | 1 => "1" | 2 => "2" | 3 => "3" | 4 => "4" | 5 => "5"
  | 6 => "6" | 7 => "7" | 8 => "8" | 9 => "9" | 10 => "a" | 11 => "b"
  | 12 => "c" | 13 => "d" | 14 => "e" | _ => "f"
  end.

(** One character inside a JSON string literal. *)
Definition escape_char (c : ascii) : string :=
  let n := nat_of_ascii c in
  if Nat.eqb n 34 then backslash ++ dquote
  else if Nat.eqb n 92 then backslash ++ backslash
  else if Nat.eqb n 8 then backslash ++ "b"
  else if Nat.eqb n 9 then backslash ++ "t"
  else if Nat.eqb n 10 then backslash ++ "n"
  else if Nat.eqb n 12 then backslash ++ "f"
  else if Nat.eqb n 13 then backslash ++ "r"
  else if Nat.ltb n 32 then backslash ++ "u00" ++ hex_digit (n / 16) ++ hex_digit (n mod 16)
  else String c EmptyString.

(** The escape of a lone surrogate, from the last two of its three bytes. *)
Definition escape_surrogate (b1 b2 : nat) : string :=
  backslash ++ "ud" ++ hex_digit (8 + (b1 mod 64 - 32) / 4)
    ++ hex_digit ((b1 mod 4) * 4 + (b2 mod 64) / 16) ++ hex_digit (b2 mod 16).

(** The inside of a JSON string literal: quotes, backslashes, control
    characters and lone surrogates are escaped, nothing else. *)
Fixpoint escape (s : string) : string :=
  match s with
  | EmptyString => EmptyString
  | String c rest =>
      match rest with
      | String c1 (String c2 rest') =>
          if Nat.eqb (nat_of_ascii c) 237 && Nat.leb 160 (nat_of_ascii c1)
          then escape_surrogate (nat_of_ascii c1) (nat_of_ascii c2) ++ escape rest'
          else escape_char c ++ escape rest
      | _ => escape_char c ++ escape rest
      end
  end.

Definition quote (s : string) : string := dquote ++ escape s ++ dquote.

Fixpoint skip (n : nat) (s : string) : string :=
  match n, s with
  | S m, String _ rest => skip m rest
  | _, _ => s
  end.

(** [s.startsWith(p)] *)
Fixpoint starts_with (p s : string) : bool :=
  match p, s with
  | EmptyString, _ => true
  | String a p', String b s' => Ascii.eqb a b && starts_with p' s'
  | String _ _, EmptyString => false
  end.

(** [hay.includes(needle)] *)
Fixpoint includes (needle hay : string) : bool :=
  starts_with needle hay ||
  match hay with
  | EmptyString => false
  | String _ rest => includes needle rest
  end.

(** [s.replace(pat, rep)] with a string pattern: the first occurrence only.
    ([rep] holds no [$]: the code replaces by ['#'] and ['.'].) *)
Fixpoint replace (pat rep s : string) : string :=
  if starts_with pat s then rep ++ skip (String.length pat) s
  else match s with
       | EmptyString => EmptyString
       | String c rest => String c (replace pat rep rest)
       end.

(** JavaScript's white space and line terminators, as UTF-8 byte sequences. *)
Definition white_space : list (list nat) :=
  [ [9]; [10]; [11]; [12]; [13]; [32]; [194; 160]; [225; 154; 128];
    [226; 128; 128]; [226; 128; 129]; [226; 128; 130]; [226; 128; 131];
    [226; 128; 132]; [226; 128; 133]; [226; 128; 134]; [226; 128; 135];
    [226; 128; 136]; [226; 128; 137]; [226; 128; 138]; [226; 128; 168];
    [226; 128; 169]; [226; 128; 175]; [226; 129; 159]; [227; 128; 128];
    [239; 187; 191] ].

Fixpoint strip (tok bytes : list nat) : option (list nat) :=
  match tok, bytes with
  | [], _ => Some bytes
  | t :: tok', b :: bytes' => if Nat.eqb t b then strip tok' bytes' else None
  | _ :: _, [] => None
  end.

Fixpoint strip_any (toks : list (list nat)) (bytes : list nat) : option (list nat) :=
  match toks with
  | [] => None
  | tok :: rest =>
      match strip tok bytes with
      | Some bytes' => Some bytes'
      | None => strip_any rest bytes
      end
  end.

Fixpoint trim_start (fuel : nat) (toks : list (list nat)) (bytes : list nat) : list nat :=
  match fuel with
  | 0 => bytes
  | S fuel' =>
      match strip_any toks bytes with
      | Some bytes' => trim_start fuel' toks bytes'
      | None => bytes
      end
  end.

Definition bytes_of (s : string) : list nat := map nat_of_ascii (list_ascii_of_string s).
Definition of_bytes (bs : list nat) : string := string_of_list_ascii (map ascii_of_nat bs).

(** [s.trim()] *)
Definition trim (s : string) : string :=
  let front := trim_start (String.length s) white_space (bytes_of s) in
  let back := trim_start (String.length s) (map (@rev nat) white_space) (rev front) in
  of_bytes (rev back).

(** The three bytes of a surrogate code unit. *)
Definition surrogate_bytes (u : Z) : list nat :=
  [237; Z.to_nat (128 + (u / 64) mod 64); Z.to_nat (128 + u mod 64)].

(** The two surrogates of a character of four bytes. *)
Definition surrogates (b0 b1 b2 b3 : nat) : list string :=
  let cp := ((Z.of_nat b0 mod 8) * 262144 + (Z.of_nat b1 mod 64) * 4096
             + (Z.of_nat b2 mod 64) * 64 + Z.of_nat b3 mod 64)%Z in
  [of_bytes (surrogate_bytes (55296 + (cp - 65536) / 1024));
   of_bytes (surrogate_bytes (56320 + (cp - 65536) mod 1024))].

(** The code units of a string, each as a string of its own: a character
    of four bytes is a pair of surrogates. *)
Fixpoint code_units (fuel : nat) (bytes : list nat) : list string :=
  match fuel, bytes with
  | S fuel', b0 :: b1 :: b2 :: b3 :: rest =>
      if Nat.leb 240 b0 then (surrogates b0 b1 b2 b3 ++ code_units fuel' rest)%list
      else if Nat.leb 224 b0 then of_bytes [b0; b1; b2] :: code_units fuel' (b3 :: rest)
      else if Nat.leb 192 b0 then of_bytes [b0; b1] :: code_units fuel' (b2 :: b3 :: rest)
      else of_bytes [b0] :: code_units fuel' (b1 :: b2 :: b3 :: rest)
  | S fuel', b0 :: b1 :: b2 :: rest =>
      if Nat.leb 224 b0 then of_bytes [b0; b1; b2] :: code_units fuel' rest
      else if Nat.leb 192 b0 then of_bytes [b0; b1] :: code_units fuel' (b2 :: rest)
      else of_bytes [b0] :: code_units fuel' (b1 :: b2 :: rest)
  | S fuel', b0 :: b1 :: rest =>
      if Nat.leb 192 b0 then of_bytes [b0; b1] :: code_units fuel' rest
      else of_bytes [b0] :: code_units fuel' (b1 :: rest)
  | S fuel', [b0] => [of_bytes [b0]]
  | _, _ => []
  end.

(** The characters [http.request] refuses in a path: every one below
    U+0021 or above U+00FF.  In UTF-8 these are the bytes below 33 and the
    bytes above 195 (a character above U+00FF has one, a character up to
    U+00FF has none). *)
Definition unescaped (path : string) : bool :=
  existsb (fun b => Nat.ltb b 33 || Nat.ltb 195 b) (bytes_of path).

(* ------------------------------------------------------------------ *)
(** *** Objects *)

(** The own property [k], [undefined] when there is none. *)
Fixpoint lookup (k : string) (props : list (string * JSValue)) : JSValue :=
  match props with
  | [] => JUndefined
  | (k', v) :: rest => if k' =? k then v else lookup k rest
  end.

Fixpoint has_key (k : string) (props : list (string * JSValue)) : bool :=
  match props with
  | [] => false
  | (k', _) :: rest => (k' =? k) || has_key k rest
  end.

(** [target[k] = v]: an existing property keeps its place, a new one is
    created last. *)
Fixpoint set_prop (k : string) (v : JSValue) (props : list (string * JSValue))
  : list (string * JSValue) :=
  match props with
  | [] => [(k, v)]
  | (k', v') :: rest =>
      if k' =? k then (k', v) :: rest else (k', v') :: set_prop k v rest
  end.

Fixpoint digits_value (s : string) (acc : Z) : option Z :=
  match s with
  | EmptyString => Some acc
  | String c rest =>
      let n := nat_of_ascii c in
      if Nat.leb 48 n && Nat.leb n 57
      then digits_value rest (10 * acc + Z.of_nat (n - 48))%Z
      else None
  end.

(** An array index: the canonical text of an integer from 0 to 2^32 - 2. *)
Definition array_index (k : string) : option Z :=
  match k, digits_value k 0 with
  | String _ _, Some n =>
      if (string_of_Z n =? k) && (n <=? 4294967294)%Z then Some n else None
  | _, _ => None
  end.

(** The first binding of each key. *)
Fixpoint distinct {V} (seen : list string) (props : list (string * V)) : list (string * V) :=
  match props with
  | [] => []
  | (k, v) :: rest =>
      if existsb (String.eqb k) seen then distinct seen rest
      else (k, v) :: distinct (k :: seen) rest
  end.

Fixpoint insert_index {V} (n : Z) (kv : string * V) (sorted : list (Z * (string * V)))
  : list (Z * (string * V)) :=
  match sorted with
  | [] => [(n, kv)]
  | (m, kv') :: rest =>
      if (n <? m)%Z then (n, kv) :: sorted else (m, kv') :: insert_index n kv rest
  end.

Fixpoint index_properties {V} (props : list (string * V)) : list (Z * (string * V)) :=
  match props with
  | [] => []
  | (k, v) :: rest =>
      match array_index k with
      | Some n => insert_index n (k, v) (index_properties rest)
      | None => index_properties rest
      end
  end.

Definition named_property {V} (kv : string * V) : bool :=
  match array_index (fst kv) with Some _ => false | None => true end.

(** The own properties in the order of enumeration ([for]-[in],
    [Object.keys], [JSON.stringify], [Object.assign]): array indices in
    ascending order, then the other keys in the order of their creation. *)
Definition own_properties {V} (props : list (string * V)) : list (string * V) :=
  let ps := distinct [] props in
  (map snd (index_properties ps) ++ filter named_property ps)%list.

Fixpoint indexed (i : nat) (xs : list JSValue) : list (string * JSValue) :=
  match xs with
  | [] => []
  | x :: rest => (string_of_Z (Z.of_nat i), x) :: indexed (S i) rest
  end.

(** The own enumerable properties of a value, in the order of enumeration:
    the elements of an array and the code units of a string under their
    indices. *)
Definition own_enumerable (source : JSValue) : list (string * JSValue) :=
  match source with
  | JObj props => own_properties props
  | JArr xs => indexed 0 xs
  | JStr s => indexed 0 (map JStr (code_units (String.length s) (bytes_of s)))
  | _ => []
  end.

(** [target[k] = v] on an object literal: the key [__proto__] goes to the
    setter of [Object.prototype] and creates no property. *)
Definition assign_prop (target : list (string * JSValue)) (kv : string * JSValue)
  : list (string * JSValue) :=
  if fst kv =? "__proto__" then target else set_prop (fst kv) (snd kv) target.

(** [Object.assign(target, source)] on a target that is an object literal. *)
Definition Object_assign (target : list (string * JSValue)) (source : JSValue)
  : list (string * JSValue) :=
  fold_left assign_prop (own_enumerable source) target.

(** [assign(target, source)], the loop of the code: it calls
    [source.hasOwnProperty] at each key, which is no function when the
    source has a property of that name ([None]: a TypeError). *)
Definition assign (target : list (string * JSValue)) (source : JSValue)
  : option (list (string * JSValue)) :=
  match source with
  | JObj props =>
      if has_key "hasOwnProperty" props then None else Some (Object_assign target source)
  | _ => Some (Object_assign target source)
  end.

(** The keys the loop copies from the entries of a source. *)
Definition copied (k : string) (entries : list (string * JSValue)) : bool :=
  has_key k entries && negb (k =? "__proto__").

(* ------------------------------------------------------------------ *)
(** *** Conversions to text *)

(** ToString, as a template literal, [+] with a string, [RegExp.test] and
    [hasOwnProperty] apply it to a value of the JSON universe.  An object
    prints as [[object Object]] through [Object.prototype.toString]; with a
    property [toString] of its own, which is no function, the conversion
    throws a TypeError ([None]).  An array joins the texts of its
    elements. *)
Fixpoint ToString (v : JSValue) : option string :=
  match v with
  | JUndefined => Some "undefined"
  | JNull => Some "null"
  | JBool true => Some "true"
  | JBool false => Some "false"
  | JNum n => Some (Number_toString n)
  | JStr s => Some s
  | JArr xs =>
      option_map (join ",")
        ((fix texts (xs : list JSValue) : option (list string) :=
            match xs with
            | [] => Some []
            | x :: rest =>
                match (if is_nullish x then Some EmptyString else ToString x), texts rest with
                | Some t, Some ts => Some (t :: ts)
                | _, _ => None
                end
            end) xs)
  | JObj props => if has_key "toString" props then None else Some "[object Object]"
  end.

(** The text [JSON.stringify] produces for a value that is not [undefined];
    an [undefined] array element prints as [null], an [undefined] property
    is left out, the properties come in the order of enumeration. *)
Fixpoint stringify (v : JSValue) : string :=
  match v with
  | JUndefined => "null"
  | JNull => "null"
  | JBool true => "true"
  | JBool false => "false"
  | JNum n => JSON_number n
  | JStr s => quote s
  | JArr xs => "[" ++ join "," (map stringify xs) ++ "]"
  | JObj props =>
      "{" ++ join ","
        (flat_map (fun kt =>
           match snd kt with
           | Some text => [quote (fst kt) ++ ":" ++ text]
           | None => []
           end)
           (own_properties
              (map (fun kv =>
                      match kv with
                      | (k, JUndefined) => (k, None)
                      | (k, x) => (k, Some (stringify x))
                      end) props))) ++ "}"
  end.

(** [`${JSON.stringify(v)}`] *)
Definition JSON_stringify_text (v : JSValue) : string :=
  match v with
  | JUndefined => "undefined"
  | _ => stringify v
  end.

(** [JSON.stringify(error)] sees only the enumerable own properties. *)
Definition JSON_stringify_error (e : JSError) : string :=
  stringify (JObj (enumerable e)).


(* ------------------------------------------------------------------ *)
(** *** A JSON reader for the examples

    The theorems below hold for whatever [JSON.parse] the host has; the
    examples run the handlers with this reader, which accepts JSON whose
    numbers are integers and whose strings use the two-character escapes
    (no [\u]); on such text it returns what [JSON.parse] returns. *)

Definition is_json_space (c : ascii) : bool :=
  let n := nat_of_ascii c in
  Nat.eqb n 32 || Nat.eqb n 9 || Nat.eqb n 10 || Nat.eqb n 13.

Fixpoint skip_space (s : string) : string :=
  match s with
  | String c rest => if is_json_space c then skip_space rest else s
  | EmptyString => s
  end.

Definition is_digit (c : ascii) : bool :=
  let n := nat_of_ascii c in Nat.leb 48 n && Nat.leb n 57.

Definition unescape (c : ascii) : option ascii :=
  let n := nat_of_ascii c in
  if Nat.eqb n 34 then Some c
  else if Nat.eqb n 92 then Some c
  else if Nat.eqb n 47 then Some c
  else if Nat.eqb n 98 then Some (ascii_of_nat 8)
  else if Nat.eqb n 102 then Some (ascii_of_nat 12)
  else if Nat.eqb n 110 then Some (ascii_of_nat 10)
  else if Nat.eqb n 114 then Some (ascii_of_nat 13)
  else if Nat.eqb n 116 then Some (ascii_of_nat 9)
  else None.

(** The characters after an opening quote, up to the closing one. *)
Fixpoint read_string (s : string) : option (string * string) :=
  match s with
  | EmptyString => None
  | String c rest =>
      let n := nat_of_ascii c in
      if Nat.eqb n 34 then Some (EmptyString, rest)
      else if Nat.ltb n 32 then None
      else if Nat.eqb n 92 then
        match rest with
        | String e rest' =>
            match unescape e, read_string rest' with
            | Some c', Some (body, after) => Some (String c' body, after)
            | _, _ => None
            end
        | EmptyString => None
        end
      else
        match read_string rest with
        | Some (body, after) => Some (String c body, after)
        | None => None
        end
  end.

Fixpoint read_digits (s : string) (acc : Z) : Z * string :=
  match s with
  | String c rest =>
      if is_digit c then read_digits rest (10 * acc + Z.of_nat (nat_of_ascii c - 48))
      else (acc, s)
  | EmptyString => (acc, s)
  end.

(** An integer (an optional minus sign, then 0 or digits without a leading
    zero), not followed by a fraction or an exponent. *)
Definition read_number (s : string) : option (Z * string) :=
  let '(negative, body) :=
    match s with
    | String c rest => if Nat.eqb (nat_of_ascii c) 45 then (true, rest) else (false, s)
    | EmptyString => (false, s)
    end in
  match body with
  | String d rest =>
      if is_digit d then
        let '(n, after) :=
          if Nat.eqb (nat_of_ascii d) 48 then (0%Z, rest) else read_digits body 0 in
        match after with
        | String x _ =>
            if is_digit x || Nat.eqb (nat_of_ascii x) 46
               || Nat.eqb (nat_of_ascii x) 101 || Nat.eqb (nat_of_ascii x) 69
            then None
            else Some (if negative then (- n)%Z else n, after)
        | EmptyString => Some (if negative then (- n)%Z else n, after)
        end
      else None
  | EmptyString => None
  end.

Definition read_literal (lit : string) (v : JSValue) (s : string) : option (JSValue * string) :=
  if starts_with lit s then Some (v, skip (String.length lit) s) else None.

Fixpoint read_value (fuel : nat) (s : string) : option (JSValue * string) :=
  match fuel with
  | 0 => None
  | S fuel' =>
      match skip_space s with
      | EmptyString => None
      | String c rest =>
          let n := nat_of_ascii c in
          if Nat.eqb n 91 then
            match skip_space rest with
            | String c' rest' =>
                if Nat.eqb (nat_of_ascii c') 93 then Some (JArr [], rest')
                else match read_elements fuel' rest with
                     | Some (xs, after) => Some (JArr xs, after)
                     | None => None
                     end
            | EmptyString => None
            end
          else if Nat.eqb n 123 then
            match skip_space rest with
            | String c' rest' =>
                if Nat.eqb (nat_of_ascii c') 125 then Some (JObj [], rest')
                else match read_members fuel' rest with
                     | Some (kvs, after) =>
                         Some (JObj (fold_left (fun t kv => set_prop (fst kv) (snd kv) t) kvs []),
                               after)
                     | None => None
                     end
            | EmptyString => None
            end
          else if Nat.eqb n 34 then
            match read_string rest with
            | Some (body, after) => Some (JStr body, after)
            | None => None
            end
          else if Nat.eqb n 116 then read_literal "true" (JBool true) (String c rest)
          else if Nat.eqb n 102 then read_literal "false" (JBool false) (String c rest)
          else if Nat.eqb n 110 then read_literal "null" JNull (String c rest)
          else match read_number (String c rest) with
               | Some (z, after) => Some (JNum z, after)
               | None => None
               end
      end
  end
with read_elements (fuel : nat) (s : string) : option (list JSValue * string) :=
  match fuel with
  | 0 => None
  | S fuel' =>
      match read_value fuel' s with
      | Some (v, after) =>
          match skip_space after with
          | String c rest =>
              if Nat.eqb (nat_of_ascii c) 44 then
                match read_elements fuel' rest with
                | Some (vs, after') => Some (v :: vs, after')
                | None => None
                end
              else if Nat.eqb (nat_of_ascii c) 93 then Some ([v], rest)
              else None
          | EmptyString => None
          end
      | None => None
      end
  end
with read_members (fuel : nat) (s : string) : option (list (string * JSValue) * string) :=
  match fuel with
  | 0 => None
  | S fuel' =>
      match skip_space s with
      | String q rest =>
          if Nat.eqb (nat_of_ascii q) 34 then
            match read_string rest with
            | Some (k, after_key) =>
                match skip_space after_key with
                | String colon after_colon =>
                    if Nat.eqb (nat_of_ascii colon) 58 then
                      match read_value fuel' after_colon with
                      | Some (v, after) =>
                          match skip_space after with
                          | String c rest' =>
                              if Nat.eqb (nat_of_ascii c) 44 then
                                match read_members fuel' rest' with
                                | Some (kvs, after') => Some ((k, v) :: kvs, after')
                                | None => None
                                end
                              else if Nat.eqb (nat_of_ascii c) 125 then Some ([(k, v)], rest')
                              else None
                          | EmptyString => None
                          end
                      | None => None
                      end
                    else None
                | EmptyString => None
                end
            | None => None
            end
          else None
      | EmptyString => None
      end
  end.

Definition read_json (text : string) : option JSValue :=
  match read_value (2 * String.length text + 2) text with
  | Some (v, after) =>
      match skip_space after with
      | EmptyString => Some v
      | String _ _ => None
      end
  | None => None
  end.

(* ================================================================== *)
(** ** The runtime: results, the host, the handler monad *)

(** What stops an invocation without a reply. *)
Inductive Fault : Type :=
| UncaughtException (e : JSError)   (* thrown inside an event listener *)
| UnhandledRejection (e : JSError). (* a rejected promise nobody handles *)

(** A computation ends with a value, with a thrown error (a rejected promise
    when the computation is a promise), or it never settles. *)
Inductive Result (A : Type) : Type :=
| Ok (a : A)
| Throw (e : JSError)
| Stuck (f : Fault).
Arguments Ok {A} a.
Arguments Throw {A} e.
Arguments Stuck {A} f.

(** One [http.request]: the options object and what was written to it. *)
Record Request : Type := mkRequest {
  options : JSValue;
  written : option string
}.

(** How a request that completes ends: the socket fails, or a response
    arrives in full. *)
Inductive Answer : Type :=
| SocketError (e : JSError)
| Response (statusCode : Z) (headers : JSValue) (responseText : string).

(** Everything the handler takes from where it runs. *)
Record Host : Type := mkHost {
  remoteHost : JSValue;                     (* process.env.REMOTE_HOST *)
  remotePort : JSValue;                     (* process.env.REMOTE_PORT *)
  clock : nat -> Z;                         (* the n-th reading of Date.now() *)
  JSON_parse : string -> option JSValue;    (* None: SyntaxError *)
  backend : Request -> Answer
}.

(** What the Lambda context was told. *)
Inductive Reply : Type :=
| Succeeded (v : JSValue)
| Failed (v : JSValue).

Record St : Type := mkSt {
  ticks : nat;               (* clock readings taken so far *)
  sent : list Request;       (* requests issued, oldest first *)
  replies : list Reply       (* context.succeed / context.fail calls, oldest first *)
}.

Definition start : St := mkSt 0 [] [].

Definition M (A : Type) : Type := Host -> St -> Result A * St.

Definition ret {A} (a : A) : M A := fun _ s => (Ok a, s).
Definition throw {A} (e : JSError) : M A := fun _ s => (Throw e, s).
Definition bind {A B} (m : M A) (k : A -> M B) : M B :=
  fun h s =>
    match m h s with
    | (Ok a, s') => k a h s'
    | (Throw e, s') => (Throw e, s')
    | (Stuck f, s') => (Stuck f, s')
    end.

Declare Scope js_scope.
Delimit Scope js_scope with js.
Notation "x <- m ;; k" := (bind m (fun x => k))
  (at level 100, m at next level, right associativity) : js_scope.
Notation "m ;; k" := (bind m (fun _ => k))
  (at level 100, right associativity) : js_scope.
Open Scope js_scope.

(** [p.then(f)]: [f] runs on fulfilment; what it throws rejects the result. *)
Definition then_ {A B} (p : M A) (f : A -> M B) : M B := bind p f.

(** [p.catch(g)] *)
Definition catch_ {A} (p : M A) (g : JSError -> M A) : M A :=
  fun h s =>
    match p h s with
    | (Throw e, s') => g e h s'
    | r => r
    end.

(** The end of a promise chain: nobody is left to see a rejection. *)
Definition detach {A} (p : M A) : M unit :=
  fun h s =>
    match p h s with
    | (Ok _, s') => (Ok tt, s')
    | (Throw e, s') => (Stuck (UnhandledRejection e), s')
    | (Stuck f, s') => (Stuck f, s')
    end.

(** Code run by an event emitter: what it throws is caught by nobody. *)
Definition listener {A} (p : M A) : M A :=
  fun h s =>
    match p h s with
    | (Throw e, s') => (Stuck (UncaughtException e), s')
    | r => r
    end.

(** [Date.now()] *)
Definition Date_now : M JSValue :=
  fun h s => (Ok (JNum (clock h (ticks s))), mkSt (S (ticks s)) (sent s) (replies s)).

(** [JSON.parse(text)] *)
Definition parse (text : string) : M JSValue :=
  fun h s =>
    match JSON_parse h text with
    | Some v => (Ok v, s)
    | None => (Throw (SyntaxError "Unexpected token in JSON"), s)
    end.

(** [http.request] throws before it sends anything when the [path] of its
    options holds a character it refuses.  (Options given as a URL are
    escaped by the URL parser.) *)
Definition refused (opts : JSValue) : bool :=
  match opts with
  | JObj props =>
      match lookup "path" props with
      | JStr path => unescaped path
      | _ => false
      end
  | _ => false
  end.

(** The error of a refused path; its [code] is enumerable. *)
Definition ERR_UNESCAPED_CHARACTERS : JSError :=
  mkError "TypeError" "Request path contains unescaped characters"
    [("code", JStr "ERR_UNESCAPED_CHARACTERS")].

(** [http.request(options, ...)], [write], [end], up to the request's end:
    a refused request throws and is never issued. *)
Definition request (opts : JSValue) (postData : option string) : M Answer :=
  fun h s =>
    if refused opts then (Throw ERR_UNESCAPED_CHARACTERS, s)
    else
      let r := mkRequest opts postData in
      (Ok (backend h r), mkSt (ticks s) (sent s ++ [r]) (replies s)).

(** A conversion to text where the code has one: a template literal, [+]
    with a string, [RegExp.test], [hasOwnProperty]. *)
Definition to_string (v : JSValue) : M string :=
  match ToString v with
  | Some text => ret text
  | None => throw (TypeError "Cannot convert object to primitive value")
  end.

(** [assign(target, source)] *)
Definition assignM (target : list (string * JSValue)) (source : JSValue) : M JSValue :=
  match assign target source with
  | Some props => ret (JObj props)
  | None => throw (TypeError "source.hasOwnProperty is not a function")
  end.

(** The TypeError of a property read or a method call on [undefined] or
    [null]. *)
Definition cannot_read (k : string) (v : JSValue) : JSError :=
  TypeError ("Cannot read property '" ++ k ++ "' of "
               ++ match v with JNull => "null" | _ => "undefined" end).

Definition env_remoteHost : M JSValue := fun h s => (Ok (remoteHost h), s).
Definition env_remotePort : M JSValue := fun h s => (Ok (remotePort h), s).

(** The Lambda context object ([succeed], [fail], [done]; no [success]). *)
Inductive Context : Type := LambdaContext.

Definition context_succeed (context : Context) (v : JSValue) : M unit :=
  fun _ s => (Ok tt, mkSt (ticks s) (sent s) (replies s ++ [Succeeded v])).

Definition context_fail (context : Context) (v : JSValue) : M unit :=
  fun _ s => (Ok tt, mkSt (ticks s) (sent s) (replies s ++ [Failed v])).

(** [context.success(v)]: the argument is evaluated, then the call of
    [undefined] throws. *)
Definition context_success (context : Context) (v : JSValue) : M unit :=
  throw (TypeError "context.success is not a function").

(** [v.k]: throws on [undefined] and [null]; the properties the handlers
    read ([directive], [header], [name], [id], ...) are own properties of
    objects only. *)
Definition prop (v : JSValue) (k : string) : M JSValue :=
  match v with
  | JUndefined | JNull => throw (cannot_read k v)
  | JObj props => ret (lookup k props)
  | _ => ret JUndefined
  end.

Fixpoint prop_path (v : JSValue) (ks : list string) : M JSValue :=
  match ks with
  | [] => ret v
  | k :: rest => x <- prop v k ;; prop_path x rest
  end.

(** [a && b], [b] evaluated only when [a] is truthy *)
Definition and_then (a : JSValue) (b : M JSValue) : M JSValue :=
  if truthy a then b else ret a.

(** [v.trim()] *)
Definition method_trim (v : JSValue) : M JSValue :=
  match v with
  | JStr s => ret (JStr (trim s))
  | JUndefined | JNull => throw (cannot_read "trim" v)
  | _ => throw (TypeError "trim is not a function")
  end.

(** [v.replace(pat, rep)] *)
Definition method_replace (v : JSValue) (pat rep : string) : M JSValue :=
  match v with
  | JStr s => ret (JStr (replace pat rep s))
  | JUndefined | JNull => throw (cannot_read "replace" v)
  | _ => throw (TypeError "replace is not a function")
  end.

Fixpoint filterM (keep : JSValue -> M JSValue) (xs : list JSValue) : M (list JSValue) :=
  match xs with
  | [] => ret []
  | x :: rest =>
      k <- keep x ;;
      ys <- filterM keep rest ;;
      ret (if truthy k then x :: ys else ys)
  end.

Fixpoint mapM (f : JSValue -> M JSValue) (xs : list JSValue) : M (list JSValue) :=
  match xs with
  | [] => ret []
  | x :: rest => y <- f x ;; ys <- mapM f rest ;; ret (y :: ys)
  end.

(** [v.filter(keep)]: only arrays have the method. *)
Definition method_filter (v : JSValue) (keep : JSValue -> M JSValue) : M JSValue :=
  match v with
  | JArr xs => ys <- filterM keep xs ;; ret (JArr ys)
  | JUndefined | JNull => throw (cannot_read "filter" v)
  | _ => throw (TypeError "filter is not a function")
  end.

(** [v.map(f)] on the array a [filter] returned *)
Definition method_map (v : JSValue) (f : JSValue -> M JSValue) : M JSValue :=
  match v with
  | JArr xs => ys <- mapM f xs ;; ret (JArr ys)
  | JUndefined | JNull => throw (cannot_read "map" v)
  | _ => throw (TypeError "map is not a function")
  end.

(** Running a handler from a fresh invocation. *)
Definition run (h : Host) (m : M unit) : Result unit * St := m h start.

(* ================================================================== *)
(** ** Constants shared by the versioned revisions *)

(** [ERROR_TYPES] *)
Inductive ErrorType : Type :=
| endpointUnreachable | noSuchEndpoint | invalidValue | valueOutOfRange
| temperatureValueOutOfRange | invalidDirective | firmwareOutOfRange
| hardwareMalfunction | rateLimitExceeded | invalidAuthorizationCredential
| expiredAuthorizationCredential | internalError.

Definition ERROR_TYPES (t : ErrorType) : string :=
  match t with
  | endpointUnreachable => "ENDPOINT_UNREACHABLE"
  | noSuchEndpoint => "NO_SUCH_ENDPOINT"
  | invalidValue => "INVALID_VALUE"
  | valueOutOfRange => "VALUE_OUT_OF_RANGE"
  | temperatureValueOutOfRange => "TEMPERATURE_VALUE_OUT_OF_RANGE"
  | invalidDirective => "INVALID_DIRECTIVE"
  | firmwareOutOfRange => "FIRMWARE_OUT_OF_RANGE"
  | hardwareMalfunction => "HARDWARE_MALFUNCTION"
  | rateLimitExceeded => "RATE_LIMIT_EXCEEDED"
  | invalidAuthorizationCredential => "INVALID_AUTHORIZATION_CREDENTIAL"
  | expiredAuthorizationCredential => "EXPIRED_AUTHORIZATION_CREDENTIAL"
  | internalError => "INTERNAL_ERROR"
  end.

(** [SUPPORTED_INTERFACES] *)
Definition Alexa_Discovery : string := "Alexa.Discovery".
Definition Alexa_PowerController : string := "Alexa.PowerController".
Definition Alexa_ChannelController : string := "Alexa.ChannelController".
Definition Alexa_PlaybackController : string := "Alexa.PlaybackController".
Definition Alexa_InputController : string := "Alexa.InputController".
Definition Alexa_StepSpeaker : string := "Alexa.StepSpeaker".

(** [SUPPORTED_PLAYBACK_DIRECTIVES] *)
Definition SUPPORTED_PLAYBACK_DIRECTIVES : list string :=
  ["FastForward"; "Next"; "Pause"; "Play"; "Previous"; "Rewind"; "StartOver"; "Stop"].

(** [/^TurnO(n|ff)$/.test(v)]: the pattern is anchored at both ends and
    [test] applies ToString. *)
Definition test_TurnOnOff (v : JSValue) : M bool :=
  text <- to_string v ;;
  ret ((text =? "TurnOn") || (text =? "TurnOff")).

(** [getCapability(_interface)] (the same in every versioned revision) *)
Definition getCapability (_interface : string) : JSValue :=
  JObj [("interface", JStr _interface); ("type", JStr "AlexaInterface"); ("version", JStr "1.0")].

(** The request body of a call: [JSON.stringify] of an object literal. *)
Definition stringify_object (props : list (string * JSValue)) : string :=
  stringify (JObj props).

(* ================================================================== *)
(** ** [src/index.js] *)

Module Index.

Definition SUPPORTED_ENDPOINT_TYPES : list (string * JSValue) :=
  [("switchBinary", JStr "switchBinary"); ("roku", JStr "roku"); ("television", JStr "television")].

Definition getOptions (postData : option string) : M JSValue :=
  hostname <- env_remoteHost ;;
  port <- env_remotePort ;;
  ret (JObj [("hostname", hostname); ("port", port);
             ("headers", JObj [("accept", JStr "*/*");
                               ("Content-Type", JStr "application/json");
                               ("Content-Length",
                                 JNum (match postData with
                                       | Some s => Z.of_nat (String.length s)
                                       | None => 0
                                       end))])]).

(** What the executor throws, a refused request included, rejects the
    promise. *)
Definition httpPromise (opts : JSValue) (postData : option string) : M JSValue :=
  answer <- request opts postData ;;
  match answer with
  | SocketError error => throw error
  | Response statusCode headers responseText =>
      ret (JObj [("statusCode", JNum statusCode); ("headers", headers);
                 ("responseText", JStr responseText)])
  end.

Definition get (path : string) : M JSValue :=
  o <- getOptions None ;;
  opts <- assignM [("method", JStr "GET"); ("path", JStr path)] o ;;
  httpPromise opts None.

Definition put (path : string) (postData : string) : M JSValue :=
  o <- getOptions (Some postData) ;;
  opts <- assignM [("method", JStr "PUT"); ("path", JStr path)] o ;;
  httpPromise opts (Some postData).

Definition isEventValid (event : JSValue) : M JSValue :=
  and_then event (
    directive <- prop event "directive" ;;
    and_then directive (
      header <- prop directive "header" ;;
      and_then header (
        namespace <- prop header "namespace" ;;
        and_then namespace (prop header "name")))).

Definition getResponse (namespace name : string) (payload : JSValue) : M JSValue :=
  now <- Date_now ;;
  messageId <- to_string now ;;
  ret (JObj [("event", JObj [
         ("header", JObj [("messageId", JStr messageId);
                          ("name", JStr name);
                          ("namespace", JStr namespace);
                          ("payloadVersion", JStr "3")]);
         ("payload", if is_undefined payload then JObj [] else payload)])]).

Definition getErrorResponse (type : ErrorType) (message : string) : M JSValue :=
  getResponse "Alexa" "ErrorResponse"
    (JObj [("type", JStr (ERROR_TYPES type)); ("message", JStr message)]).

(** [hasOwnProperty] converts its argument to a property key. *)
Definition isEndpointSupported (endpoint : JSValue) : M JSValue :=
  and_then endpoint (
    id <- prop endpoint "id" ;;
    and_then id (
      name <- prop endpoint "name" ;;
      and_then name (
        description <- prop endpoint "description" ;;
        and_then description (
          manufacturer <- prop endpoint "manufacturer" ;;
          and_then manufacturer (
            type <- prop endpoint "type" ;;
            key <- to_string type ;;
            ret (JBool (has_key key SUPPORTED_ENDPOINT_TYPES))))))).

Definition getEndpointCapabilities (endpoint : JSValue) : M JSValue :=
  type <- prop endpoint "type" ;;
  let ret0 : list JSValue := [] in
  let ret1 :=
    if strict_eq_str type "switchBinary" || strict_eq_str type "television"
    then (ret0 ++ [getCapability Alexa_PowerController])%list else ret0 in
  let ret2 :=
    if strict_eq_str type "television" || strict_eq_str type "roku"
    then (ret1 ++ [getCapability Alexa_ChannelController;
                   getCapability Alexa_PlaybackController])%list
    else ret1 in
  let ret3 :=
    if strict_eq_str type "television"
    then (ret2 ++ [getCapability Alexa_StepSpeaker;
                   getCapability Alexa_InputController])%list
    else ret2 in
  ret (JArr ret3).

Definition getDiscoveryAlexaResponse (alexaEndpoints : JSValue) : M JSValue :=
  getResponse Alexa_Discovery "Discover.Response" (JObj [("endpoints", alexaEndpoints)]).

(** [JSON.parse(endpointResponse.responseText)]: [JSON.parse] converts its
    argument to text. *)
Definition parse_responseText (endpointResponse : JSValue) : M JSValue :=
  responseText <- prop endpointResponse "responseText" ;;
  text <- to_string responseText ;;
  parse text.

Definition getPowerControlAlexaResponse (endpointResponse : JSValue) : M JSValue :=
  power <- parse_responseText endpointResponse ;;
  state <- prop power "state" ;;
  isoTimestamp <- prop power "isoTimestamp" ;;
  uncertaintyMs <- prop power "uncertaintyMs" ;;
  response <- getResponse "Alexa" "Response" JUndefined ;;
  assignM
    [("context", JObj [("properties", JArr [JObj [
        ("namespace", JStr Alexa_PowerController);
        ("name", JStr "powerState");
        ("value", state);
        ("timeOfSample", isoTimestamp);
        ("uncertaintyInMilliseconds", uncertaintyMs)]])])]
    response.

(** The callback [handleDiscoveryEvent] maps over the supported endpoints. *)
Definition toAlexaEndpoint (endpoint : JSValue) : M JSValue :=
  id <- prop endpoint "id" ;;
  manufacturer <- prop endpoint "manufacturer" ;;
  name <- prop endpoint "name" ;;
  description <- prop endpoint "description" ;;
  capabilities <- getEndpointCapabilities endpoint ;;
  ret (JObj [("endpointId", id);
             ("manufacturerName", manufacturer);
             ("friendlyName", name);
             ("description", description);
             ("displayCategories", JArr []);
             ("capabilities", capabilities)]).

Definition handleDiscoveryEvent (event : JSValue) (context : Context) : M unit :=
  token <- prop_path event ["directive"; "payload"; "scope"; "token"] ;;
  accessToken <- method_trim token ;;
  tokenText <- to_string accessToken ;;
  detach (
    catch_ (
      then_ (then_ (then_
        (get ("/endpoints?access_token=" ++ tokenText))
        parse_responseText)
        (fun endpoints =>
           supported <- method_filter endpoints isEndpointSupported ;;
           method_map supported toAlexaEndpoint))
        (fun alexaEndpoints =>
           r <- getDiscoveryAlexaResponse alexaEndpoints ;;
           context_succeed context r))
      (fun getError =>
         r <- getDiscoveryAlexaResponse (JArr []) ;;
         context_succeed context r)).

Definition getHttpStatusErrorResponse (response : JSValue) : M JSValue :=
  statusCode <- prop response "statusCode" ;;
  statusText <- to_string statusCode ;;
  getErrorResponse internalError ("Unexpected HTTP statusCode: " ++ statusText).

Definition getPutErrorResponse (error : JSError) : M JSValue :=
  getErrorResponse endpointUnreachable
    ("Failed PUT request: " ++ JSON_stringify_error error).

Definition status_is_200 (response : JSValue) : M bool :=
  statusCode <- prop response "statusCode" ;;
  ret (match statusCode with JNum 200 => true | _ => false end).

(** The template literal of the path is evaluated before [put] is called:
    a value that does not convert makes the handler throw. *)
Definition handlePowerControlEvent (event : JSValue) (context : Context) : M unit :=
  directiveName <- prop_path event ["directive"; "header"; "name"] ;;
  supported <- test_TurnOnOff directiveName ;;
  if negb supported then
    nameText <- to_string directiveName ;;
    r <- getErrorResponse invalidDirective ("Unsupported directive name: " ++ nameText) ;;
    context_fail context r
  else
    endpointId <- prop_path event ["directive"; "endpoint"; "endpointId"] ;;
    accessToken <- prop_path event ["directive"; "endpoint"; "scope"; "token"] ;;
    let postData := stringify_object
      [("state", JStr (if strict_eq_str directiveName "TurnOn" then "on" else "off"))] in
    idText <- to_string endpointId ;;
    tokenText <- to_string accessToken ;;
    detach (
      catch_ (
        then_ (put ("/endpoints/" ++ idText ++ "/power?access_token=" ++ tokenText) postData)
          (fun endpointResponse =>
             ok <- status_is_200 endpointResponse ;;
             if ok then
               r <- getPowerControlAlexaResponse endpointResponse ;;
               context_succeed context r
             else
               r <- getHttpStatusErrorResponse endpointResponse ;;
               context_fail context r))
        (fun putError =>
           r <- getPutErrorResponse putError ;;
           context_fail context r)).

Definition getAlexaChannelResponse (endpointResponse : JSValue) : M JSValue :=
  channel <- parse_responseText endpointResponse ;;
  value <- prop channel "channel" ;;
  isoTimestamp <- prop channel "isoTimestamp" ;;
  uncertaintyMs <- prop channel "uncertaintyMs" ;;
  response <- getResponse "Alexa" "Response" JUndefined ;;
  assignM
    [("context", JObj [("properties", JArr [JObj [
        ("namespace", JStr "Alexa.ChannelController");
        ("name", JStr "channel");
        ("value", value);
        ("timeOfSample", isoTimestamp);
        ("uncertaintyInMilliseconds", uncertaintyMs)]])])]
    response.

(** The tail shared by the two channel handlers: [context.success] is not
    a method of the Lambda context. *)
Definition channel_chain (context : Context) (p : M JSValue) : M unit :=
  detach (
    catch_ (
      then_ p
        (fun endpointResponse =>
           ok <- status_is_200 endpointResponse ;;
           if ok then
             r <- getAlexaChannelResponse endpointResponse ;;
             context_success context r
           else
             r <- getHttpStatusErrorResponse endpointResponse ;;
             context_fail context r))
      (fun putError =>
         r <- getPutErrorResponse putError ;;
         context_fail context r)).

Definition handleChangeChannelEvent (event : JSValue) (context : Context) : M unit :=
  endpointId <- prop_path event ["directive"; "endpoint"; "endpointId"] ;;
  accessToken <- prop_path event ["directive"; "endpoint"; "scope"; "token"] ;;
  channelMetadata <- prop_path event ["directive"; "payload"; "channelMetadata"] ;;
  channel <- prop_path event ["directive"; "payload"; "channel"] ;;
  combined <- assignM [("metadata", channelMetadata)] channel ;;
  let postData := stringify combined in
  idText <- to_string endpointId ;;
  tokenText <- to_string accessToken ;;
  channel_chain context
    (put ("/endpoints/" ++ idText ++ "/channel?access_token=" ++ tokenText) postData).

Definition handleSkipChannelsEvent (event : JSValue) (context : Context) : M unit :=
  endpointId <- prop_path event ["directive"; "endpoint"; "endpointId"] ;;
  channelCount <- prop_path event ["directive"; "payload"; "channelCount"] ;;
  let postData := stringify_object [("channelCount", channelCount)] in
  idText <- to_string endpointId ;;
  channel_chain context (put ("/devices/" ++ idText ++ "/channel") postData).

Definition handleChannelControlEvent (event : JSValue) (context : Context) : M unit :=
  directiveName <- prop_path event ["directive"; "header"; "name"] ;;
  if strict_eq_str directiveName "ChangeChannel" then handleChangeChannelEvent event context
  else if strict_eq_str directiveName "SkipChannels" then handleSkipChannelsEvent event context
  else
    nameText <- to_string directiveName ;;
    r <- getErrorResponse invalidDirective ("Unexpected directiveName: " ++ nameText) ;;
    context_fail context r.

Definition handleInputControlEvent (event : JSValue) (context : Context) : M unit :=
  r <- getErrorResponse internalError "Not yet implemented" ;;
  context_fail context r.

Definition handleStepSpeakerEvent (event : JSValue) (context : Context) : M unit :=
  r <- getErrorResponse internalError "Not yet implemented" ;;
  context_fail context r.

(** [exports.handler] *)
Definition handler (event : JSValue) (context : Context) : M unit :=
  valid <- isEventValid event ;;
  if truthy valid then
    namespace <- prop_path event ["directive"; "header"; "namespace"] ;;
    if strict_eq_str namespace Alexa_Discovery then handleDiscoveryEvent event context
    else if strict_eq_str namespace Alexa_PowerController then handlePowerControlEvent event context
    else if strict_eq_str namespace Alexa_InputController then handleInputControlEvent event context
    else if strict_eq_str namespace Alexa_ChannelController then handleChannelControlEvent event context
    else if strict_eq_str namespace Alexa_StepSpeaker then handleStepSpeakerEvent event context
    else
      namespaceText <- to_string namespace ;;
      r <- getErrorResponse internalError ("Unsupported namespace: " ++ namespaceText) ;;
      context_fail context r
  else
    r <- getErrorResponse internalError ("Invalid event: " ++ JSON_stringify_text event) ;;
    context_fail context r.

End Index.

(* ================================================================== *)
(** ** The third file of [src/code.js] *)

Module CodeV3.

Definition SUPPORTED_ENDPOINT_TYPES : list (string * JSValue) :=
  Index.SUPPORTED_ENDPOINT_TYPES.

(** The request as in [index.js], followed by a [then] that turns every
    status but 200 into a rejection. *)
Definition httpPromise (opts : JSValue) (postData : option string) : M JSValue :=
  then_ (Index.httpPromise opts postData)
    (fun response =>
       statusCode <- prop response "statusCode" ;;
       match statusCode with
       | JNum 200 => ret response
       | _ =>
           statusText <- to_string statusCode ;;
           throw (Error ("HTTP " ++ statusText))
       end).

Definition getOptions : option string -> M JSValue := Index.getOptions.

Definition get (path : string) : M JSValue :=
  o <- getOptions None ;;
  opts <- assignM [("method", JStr "GET"); ("path", JStr path)] o ;;
  httpPromise opts None.

Definition put (path : string) (postData : string) : M JSValue :=
  o <- getOptions (Some postData) ;;
  opts <- assignM [("method", JStr "PUT"); ("path", JStr path)] o ;;
  httpPromise opts (Some postData).

Definition isEventValid : JSValue -> M JSValue := Index.isEventValid.
Definition getResponse : string -> string -> JSValue -> M JSValue := Index.getResponse.
Definition getErrorResponse : ErrorType -> string -> M JSValue := Index.getErrorResponse.
Definition isEndpointSupported : JSValue -> M JSValue := Index.isEndpointSupported.

Definition getEndpointCapabilities (endpoint : JSValue) : M JSValue :=
  type <- prop endpoint "type" ;;
  let ret0 : list JSValue := [] in
  let ret1 :=
    if strict_eq_str type "switchBinary" || strict_eq_str type "television"
    then (ret0 ++ [getCapability Alexa_PowerController])%list else ret0 in
  let ret2 :=
    if strict_eq_str type "television" || strict_eq_str type "roku"
    then (ret1 ++ [getCapability Alexa_ChannelController])%list else ret1 in
  let ret3 :=
    if strict_eq_str type "television"
    then (ret2 ++ [getCapability Alexa_StepSpeaker;
                   getCapability Alexa_InputController])%list
    else ret2 in
  let ret4 :=
    if strict_eq_str type "roku"
    then (ret3 ++ [getCapability Alexa_PlaybackController])%list else ret3 in
  ret (JArr ret4).

Definition getDiscoveryAlexaResponse : JSValue -> M JSValue := Index.getDiscoveryAlexaResponse.
Definition getPowerControlAlexaResponse : JSValue -> M JSValue :=
  Index.getPowerControlAlexaResponse.

Definition getDirectiveName (event : JSValue) : M JSValue :=
  prop_path event ["directive"; "header"; "name"].

Definition failInvalidDirective (context : Context) (directiveName : JSValue) : M unit :=
  nameText <- to_string directiveName ;;
  r <- getErrorResponse invalidDirective ("Unsupported directive: " ++ nameText) ;;
  context_fail context r.

Definition toAlexaEndpoint (endpoint : JSValue) : M JSValue :=
  id <- prop endpoint "id" ;;
  manufacturer <- prop endpoint "manufacturer" ;;
  name <- prop endpoint "name" ;;
  description <- prop endpoint "description" ;;
  capabilities <- getEndpointCapabilities endpoint ;;
  ret (JObj [("endpointId", id);
             ("manufacturerName", manufacturer);
             ("friendlyName", name);
             ("description", description);
             ("displayCategories", JArr []);
             ("capabilities", capabilities)]).

Definition handleDiscoveryEvent (event : JSValue) (context : Context) : M unit :=
  token <- prop_path event ["directive"; "payload"; "scope"; "token"] ;;
  accessToken <- method_trim token ;;
  tokenText <- to_string accessToken ;;
  detach (
    catch_ (
      then_ (then_ (then_
        (get ("/endpoints?access_token=" ++ tokenText))
        Index.parse_responseText)
        (fun endpoints =>
           supported <- method_filter endpoints isEndpointSupported ;;
           method_map supported toAlexaEndpoint))
        (fun alexaEndpoints =>
           r <- getDiscoveryAlexaResponse alexaEndpoints ;;
           context_succeed context r))
      (fun getError =>
         r <- getDiscoveryAlexaResponse (JArr []) ;;
         context_succeed context r)).

Definition getEndpointId (event : JSValue) : M JSValue :=
  prop_path event ["directive"; "endpoint"; "endpointId"].

Definition getEndpointToken (event : JSValue) : M JSValue :=
  prop_path event ["directive"; "endpoint"; "scope"; "token"].

Definition getPutErrorResponse : JSError -> M JSValue := Index.getPutErrorResponse.

Definition handlePowerControlEvent (event : JSValue) (context : Context) : M unit :=
  directiveName <- getDirectiveName event ;;
  supported <- test_TurnOnOff directiveName ;;
  if negb supported then failInvalidDirective context directiveName
  else
    endpointId <- getEndpointId event ;;
    accessToken <- getEndpointToken event ;;
    let postData := stringify_object
      [("state", JStr (if strict_eq_str directiveName "TurnOn" then "on" else "off"))] in
    idText <- to_string endpointId ;;
    tokenText <- to_string accessToken ;;
    detach (
      catch_ (
        then_ (put ("/endpoints/" ++ idText ++ "/power?access_token=" ++ tokenText) postData)
          (fun endpointResponse =>
             r <- getPowerControlAlexaResponse endpointResponse ;;
             context_succeed context r))
        (fun putError =>
           r <- getPutErrorResponse putError ;;
           context_fail context r)).

Definition getChannelAlexaResponse : JSValue -> M JSValue := Index.getAlexaChannelResponse.

Definition getInputAlexaResponse (endpointResponse : JSValue) : M JSValue :=
  input <- Index.parse_responseText endpointResponse ;;
  name <- prop input "name" ;;
  isoTimestamp <- prop input "isoTimestamp" ;;
  uncertaintyMs <- prop input "uncertaintyMs" ;;
  response <- getResponse "Alexa" "Response" JUndefined ;;
  assignM
    [("context", JObj [("properties", JArr [JObj [
        ("namespace", JStr "Alexa.InputController");
        ("name", JStr "input");
        ("value", name);
        ("timeOfSample", isoTimestamp);
        ("uncertaintyInMilliseconds", uncertaintyMs)]])])]
    response.

Definition getStepSpeakerAlexaResponse (endpointResponse : JSValue) : M JSValue :=
  getResponse "Alexa" "Response" JUndefined.

(** [put(...).then(r => context.success(reply(r))).catch(e => context.fail(...))] *)
Definition success_chain (context : Context) (p : M JSValue) (reply : JSValue -> M JSValue)
  : M unit :=
  detach (
    catch_ (
      then_ p (fun endpointResponse =>
                 r <- reply endpointResponse ;;
                 context_success context r))
      (fun putError =>
         r <- getPutErrorResponse putError ;;
         context_fail context r)).

Definition handleChangeChannelEvent (event : JSValue) (context : Context) : M unit :=
  endpointId <- getEndpointId event ;;
  accessToken <- getEndpointToken event ;;
  channelMetadata <- prop_path event ["directive"; "payload"; "channelMetadata"] ;;
  channel <- prop_path event ["directive"; "payload"; "channel"] ;;
  combined <- assignM [("metadata", channelMetadata)] channel ;;
  let postData := stringify combined in
  idText <- to_string endpointId ;;
  tokenText <- to_string accessToken ;;
  success_chain context
    (put ("/endpoints/" ++ idText ++ "/channel?access_token=" ++ tokenText) postData)
    getChannelAlexaResponse.

Definition handleSkipChannelsEvent (event : JSValue) (context : Context) : M unit :=
  endpointId <- getEndpointId event ;;
  channelCount <- prop_path event ["directive"; "payload"; "channelCount"] ;;
  let postData := stringify_object [("channelCount", channelCount)] in
  idText <- to_string endpointId ;;
  success_chain context
    (put ("/endpoints/" ++ idText ++ "/channel") postData)
    getChannelAlexaResponse.

Definition handleChannelControlEvent (event : JSValue) (context : Context) : M unit :=
  directiveName <- getDirectiveName event ;;
  if strict_eq_str directiveName "ChangeChannel" then handleChangeChannelEvent event context
  else if strict_eq_str directiveName "SkipChannels" then handleSkipChannelsEvent event context
  else failInvalidDirective context directiveName.

Definition handleInputControlEvent (event : JSValue) (context : Context) : M unit :=
  directiveName <- getDirectiveName event ;;
  endpointId <- getEndpointId event ;;
  accessToken <- getEndpointToken event ;;
  input <- prop_path event ["directive"; "payload"; "input"] ;;
  let postData := stringify_object [("name", input)] in
  if strict_eq_str directiveName "SelectInput" then
    idText <- to_string endpointId ;;
    tokenText <- to_string accessToken ;;
    success_chain context
      (put ("/endpoints/" ++ idText ++ "/input?access_token=" ++ tokenText) postData)
      getInputAlexaResponse
  else failInvalidDirective context directiveName.

Definition handleStepSpeakerEvent (event : JSValue) (context : Context) : M unit :=
  directiveName <- getDirectiveName event ;;
  endpointId <- getEndpointId event ;;
  accessToken <- getEndpointToken event ;;
  postData <-
    (if strict_eq_str directiveName "SetMute" then
       mute <- prop_path event ["directive"; "payload"; "mute"] ;;
       ret (Some (stringify_object [("mute", mute)]))
     else if strict_eq_str directiveName "AdjustVolume" then
       volumeSteps <- prop_path event ["directive"; "payload"; "volumeSteps"] ;;
       ret (Some (stringify_object [("volumeSteps", volumeSteps)]))
     else ret None) ;;
  match postData with
  | None => failInvalidDirective context directiveName
  | Some postData =>
      idText <- to_string endpointId ;;
      tokenText <- to_string accessToken ;;
      success_chain context
        (put ("/endpoints/" ++ idText ++ "/volume?accessToken=" ++ tokenText) postData)
        getStepSpeakerAlexaResponse
  end.

(** [SUPPORTED_PLAYBACK_DIRECTIVES.indexOf(directiveName) !== -1]:
    [indexOf] compares with [===]. *)
Definition isPlaybackDirectiveValid (directiveName : JSValue) : bool :=
  existsb (strict_eq_str directiveName) SUPPORTED_PLAYBACK_DIRECTIVES.

Definition getPlaybackControlAlexaResponse (endpointResponse : JSValue) : M JSValue :=
  getResponse "Alexa" "Response" JUndefined.

Definition handlePlaybackControlEvent (event : JSValue) (context : Context) : M unit :=
  directiveName <- getDirectiveName event ;;
  endpointId <- getEndpointId event ;;
  accessToken <- getEndpointToken event ;;
  if isPlaybackDirectiveValid directiveName then
    let postData := stringify_object [("directive", directiveName)] in
    idText <- to_string endpointId ;;
    tokenText <- to_string accessToken ;;
    success_chain context
      (put ("/endpoints/" ++ idText ++ "/playback?accessToken=" ++ tokenText) postData)
      getPlaybackControlAlexaResponse
  else failInvalidDirective context directiveName.

(** [exports.handler] *)
Definition handler (event : JSValue) (context : Context) : M unit :=
  valid <- isEventValid event ;;
  if truthy valid then
    namespace <- prop_path event ["directive"; "header"; "namespace"] ;;
    if strict_eq_str namespace Alexa_Discovery then handleDiscoveryEvent event context
    else if strict_eq_str namespace Alexa_PowerController then handlePowerControlEvent event context
    else if strict_eq_str namespace Alexa_InputController then handleInputControlEvent event context
    else if strict_eq_str namespace Alexa_ChannelController then handleChannelControlEvent event context
    else if strict_eq_str namespace Alexa_StepSpeaker then handleStepSpeakerEvent event context
    else if strict_eq_str namespace Alexa_PlaybackController then handlePlaybackControlEvent event context
    else
      namespaceText <- to_string namespace ;;
      r <- getErrorResponse internalError ("Unsupported namespace: " ++ namespaceText) ;;
      context_fail context r
  else
    r <- getErrorResponse internalError ("Invalid event: " ++ JSON_stringify_text event) ;;
    context_fail context r.

End CodeV3.

(* ================================================================== *)
(** ** [src/unnamed/part_000]: the latest revision *)

Module Latest.

Definition SUPPORTED_ENDPOINT_TYPES : list (string * JSValue) :=
  [("zwitch", JStr "zwitch"); ("roku", JStr "roku"); ("television", JStr "television")].

(** The shim reads the clock when it starts and again in each listener (for
    the elapsed time it logs).  The ['end'] listener parses the body before
    it resolves: a body that does not parse throws inside the listener, and
    the promise stays pending.  A refused request throws inside the
    executor and rejects the promise. *)
Definition httpPromise (opts : JSValue) (postString : option string) : M JSValue :=
  startMs <- Date_now ;;
  answer <- request opts postString ;;
  match answer with
  | SocketError error => Date_now ;; throw error
  | Response statusCode headers data =>
      if (statusCode =? 200)%Z then listener (Date_now ;; parse data)
      else Date_now ;; throw (Error ("HTTP " ++ Number_toString statusCode))
  end.

Definition getOptions (postString : option string) : M JSValue :=
  hostname <- env_remoteHost ;;
  port <- env_remotePort ;;
  ret (JObj [("hostname", hostname); ("port", port);
             ("headers", JObj [("Accept", JStr "*/*");
                               ("Content-Type", JStr "application/json");
                               ("Content-Length",
                                 JNum (match postString with
                                       | Some s => Z.of_nat (String.length s)
                                       | None => 0
                                       end))])]).

Definition get (path : string) : M JSValue :=
  o <- getOptions None ;;
  httpPromise (JObj (Object_assign [("method", JStr "GET"); ("path", JStr path)] o)) None.

(** [postData] is an object at every call: its body is its JSON. *)
Definition post (path : string) (postData : list (string * JSValue)) : M JSValue :=
  let postBody := stringify_object postData in
  o <- getOptions (Some postBody) ;;
  httpPromise (JObj (Object_assign [("method", JStr "POST"); ("path", JStr path)] o))
    (Some postBody).

Definition isEventValid (event : JSValue) : M JSValue :=
  and_then event (
    directive <- prop event "directive" ;;
    and_then directive (
      header <- prop directive "header" ;;
      and_then header (
        namespace <- prop header "namespace" ;;
        and_then namespace (prop header "name")))).

Definition getReply (namespace name : string) (payload : JSValue) : M JSValue :=
  now <- Date_now ;;
  messageId <- to_string now ;;
  ret (JObj [("event", JObj [
         ("header", JObj [("messageId", JStr messageId);
                          ("name", JStr name);
                          ("namespace", JStr namespace);
                          ("payloadVersion", JStr "3")]);
         ("payload", if truthy payload then payload else JObj [])])]).

(** An argument of [getErrorReply] after the type: a value or an [Error]. *)
Inductive Arg : Type :=
| AVal (v : JSValue)
| AErr (e : JSError).

(** What [join] prints for
    [typeof arg === 'object' ? JSON.stringify(arg) : arg]: the JSON of an
    object, an array or [null]; nothing for [undefined]; the text of
    another primitive. *)
Definition show_arg (arg : Arg) : string :=
  match arg with
  | AErr e => JSON_stringify_error e
  | AVal (JNull as v) | AVal (JArr _ as v) | AVal (JObj _ as v) => stringify v
  | AVal JUndefined => EmptyString
  | AVal (JBool true) => "true"
  | AVal (JBool false) => "false"
  | AVal (JNum n) => Number_toString n
  | AVal (JStr s) => s
  end.

(** [getErrorReply(type, ...rest)]: the message joins the rest with spaces. *)
Definition getErrorReply (type : ErrorType) (rest : list Arg) : M JSValue :=
  getReply "Alexa" "ErrorResponse"
    (JObj [("type", JStr (ERROR_TYPES type)); ("message", JStr (join " " (map show_arg rest)))]).

Definition isEndpointSupported (endpoint : JSValue) : M JSValue :=
  and_then endpoint (
    id <- prop endpoint "id" ;;
    and_then id (
      name <- prop endpoint "name" ;;
      and_then name (
        description <- prop endpoint "description" ;;
        and_then description (
          manufacturer <- prop endpoint "manufacturer" ;;
          and_then manufacturer (
            type <- prop endpoint "type" ;;
            key <- to_string type ;;
            ret (JBool (has_key key SUPPORTED_ENDPOINT_TYPES))))))).

Definition getEndpointCapabilities (endpoint : JSValue) : M JSValue :=
  type <- prop endpoint "type" ;;
  let ret0 : list JSValue := [] in
  let ret1 :=
    if strict_eq_str type "zwitch" || strict_eq_str type "television"
    then (ret0 ++ [getCapability Alexa_PowerController])%list else ret0 in
  let ret2 :=
    if strict_eq_str type "television" || strict_eq_str type "roku"
    then (ret1 ++ [getCapability Alexa_ChannelController])%list else ret1 in
  let ret3 :=
    if strict_eq_str type "television"
    then (ret2 ++ [getCapability Alexa_StepSpeaker;
                   getCapability Alexa_InputController])%list
    else ret2 in
  let ret4 :=
    if strict_eq_str type "roku"
    then (ret3 ++ [getCapability Alexa_PlaybackController])%list else ret3 in
  ret (JArr ret4).

(** The callback [getDiscoveryReply] maps over the supported endpoints. *)
Definition toAlexaEndpoint (endpoint : JSValue) : M JSValue :=
  id <- prop endpoint "id" ;;
  endpointId <- method_replace id "." "#" ;;
  manufacturer <- prop endpoint "manufacturer" ;;
  name <- prop endpoint "name" ;;
  description <- prop endpoint "description" ;;
  capabilities <- getEndpointCapabilities endpoint ;;
  ret (JObj [("endpointId", endpointId);
             ("manufacturerName", manufacturer);
             ("friendlyName", name);
             ("description", description);
             ("displayCategories", JArr []);
             ("capabilities", capabilities)]).

Definition getDiscoveryReply (endpoints : JSValue) : M JSValue :=
  supported <- method_filter endpoints isEndpointSupported ;;
  compatibleEndpoints <- method_map supported toAlexaEndpoint ;;
  getReply Alexa_Discovery "Discover.Response" (JObj [("endpoints", compatibleEndpoints)]).

Definition getPowerControlReply (power : JSValue) : M JSValue :=
  state <- prop power "state" ;;
  isoTimestamp <- prop power "isoTimestamp" ;;
  uncertaintyMs <- prop power "uncertaintyMs" ;;
  reply <- getReply "Alexa" "Response" JUndefined ;;
  ret (JObj (Object_assign
    [("context", JObj [("properties", JArr [JObj [
        ("namespace", JStr Alexa_PowerController);
        ("name", JStr "powerState");
        ("value", state);
        ("timeOfSample", isoTimestamp);
        ("uncertaintyInMilliseconds", uncertaintyMs)]])])]
    reply)).

Definition getDirectiveName (event : JSValue) : M JSValue :=
  prop_path event ["directive"; "header"; "name"].

Definition getInvalidDirectiveReply (directiveName : JSValue) : M JSValue :=
  getErrorReply invalidDirective [AVal directiveName].

(** [succeed(reply, context)]; a missing argument is [None]. *)
Definition succeed (reply : JSValue) (context : option Context) : M unit :=
  match context with
  | Some c => context_succeed c reply
  | None => throw (TypeError "Cannot read property 'succeed' of undefined")
  end.

(** [fail(reply, context)] *)
Definition fail (reply : JSValue) (context : option Context) : M unit :=
  match context with
  | Some c => context_fail c reply
  | None => throw (TypeError "Cannot read property 'fail' of undefined")
  end.

Definition handleDiscoveryEvent (event : JSValue) (context : Context) : M unit :=
  token <- prop_path event ["directive"; "payload"; "scope"; "token"] ;;
  accessToken <- method_trim token ;;
  tokenText <- to_string accessToken ;;
  detach (
    catch_ (
      then_ (then_
        (get ("/endpoints?access_token=" ++ tokenText))
        getDiscoveryReply)
        (fun reply => succeed reply (Some context)))
      (fun error =>
         r <- getDiscoveryReply (JArr []) ;;
         context_succeed context r)).

Definition getEndpointId (event : JSValue) : M JSValue :=
  endpointId <- prop_path event ["directive"; "endpoint"; "endpointId"] ;;
  method_replace endpointId "#" ".".

Definition getEndpointToken (event : JSValue) : M JSValue :=
  prop_path event ["directive"; "endpoint"; "scope"; "token"].

Definition getServiceErrorReply (error : JSError) : M JSValue :=
  getErrorReply endpointUnreachable [AErr error].

(** [p.then(reply).then(r => succeed(r, context)).catch(e => fail(getServiceErrorReply(e), context))] *)
Definition reply_chain (context : Context) (p : M JSValue) (reply : JSValue -> M JSValue)
  : M unit :=
  detach (
    catch_ (
      then_ (then_ p reply) (fun r => succeed r (Some context)))
      (fun error =>
         r <- getServiceErrorReply error ;;
         fail r (Some context))).

Definition handlePowerControlEvent (event : JSValue) (context : Context) : M unit :=
  directiveName <- getDirectiveName event ;;
  supported <- test_TurnOnOff directiveName ;;
  if negb supported then
    r <- getInvalidDirectiveReply directiveName ;;
    fail r (Some context)
  else
    endpointId <- getEndpointId event ;;
    accessToken <- getEndpointToken event ;;
    let postData :=
      [("state", JStr (if strict_eq_str directiveName "TurnOn" then "on" else "off"))] in
    idText <- to_string endpointId ;;
    tokenText <- to_string accessToken ;;
    reply_chain context
      (post ("/endpoints/" ++ idText ++ "/power?access_token=" ++ tokenText) postData)
      getPowerControlReply.

Definition getChannelReply (channel : JSValue) : M JSValue :=
  state <- prop channel "state" ;;
  isoTimestamp <- prop channel "isoTimestamp" ;;
  uncertaintyMs <- prop channel "uncertaintyMs" ;;
  reply <- getReply "Alexa" "Response" JUndefined ;;
  ret (JObj (Object_assign
    [("context", JObj [("properties", JArr [JObj [
        ("namespace", JStr "Alexa.ChannelController");
        ("name", JStr "channel");
        ("value", JObj [("number", state)]);
        ("timeOfSample", isoTimestamp);
        ("uncertaintyInMilliseconds", uncertaintyMs)]])])]
    reply)).

Definition getInputReply (input : JSValue) : M JSValue :=
  state <- prop input "state" ;;
  isoTimestamp <- prop input "isoTimestamp" ;;
  uncertaintyMs <- prop input "uncertaintyMs" ;;
  reply <- getReply "Alexa" "Response" JUndefined ;;
  ret (JObj (Object_assign
    [("context", JObj [("properties", JArr [JObj [
        ("namespace", JStr "Alexa.InputController");
        ("name", JStr "input");
        ("value", state);
        ("timeOfSample", isoTimestamp);
        ("uncertaintyInMilliseconds", uncertaintyMs)]])])]
    reply)).

Definition getStepSpeakerReply (_ : JSValue) : M JSValue :=
  getReply "Alexa" "Response" JUndefined.

Definition handleChangeChannelEvent (event : JSValue) (context : Context) : M unit :=
  endpointId <- getEndpointId event ;;
  accessToken <- getEndpointToken event ;;
  channelMetadata <- prop_path event ["directive"; "payload"; "channelMetadata"] ;;
  channel <- prop_path event ["directive"; "payload"; "channel"] ;;
  let postData := Object_assign [("metadata", channelMetadata)] channel in
  idText <- to_string endpointId ;;
  tokenText <- to_string accessToken ;;
  reply_chain context
    (post ("/endpoints/" ++ idText ++ "/channel?access_token=" ++ tokenText) postData)
    getChannelReply.

Definition handleSkipChannelsEvent (event : JSValue) (context : Context) : M unit :=
  endpointId <- getEndpointId event ;;
  channelCount <- prop_path event ["directive"; "payload"; "channelCount"] ;;
  let postData := [("delta", channelCount)] in
  idText <- to_string endpointId ;;
  reply_chain context
    (post ("/endpoints/" ++ idText ++ "/channel") postData)
    getChannelReply.

Definition handleChannelControlEvent (event : JSValue) (context : Context) : M unit :=
  directiveName <- getDirectiveName event ;;
  if strict_eq_str directiveName "ChangeChannel" then handleChangeChannelEvent event context
  else if strict_eq_str directiveName "SkipChannels" then handleSkipChannelsEvent event context
  else
    r <- getInvalidDirectiveReply directiveName ;;
    fail r (Some context).

(** The [catch] of this handler closes its parenthesis early:
    [.catch(error => fail(getServiceErrorReply(error)), context)], so [fail]
    runs without a context. *)
Definition handleInputControlEvent (event : JSValue) (context : Context) : M unit :=
  directiveName <- getDirectiveName event ;;
  endpointId <- getEndpointId event ;;
  accessToken <- getEndpointToken event ;;
  input <- prop_path event ["directive"; "payload"; "input"] ;;
  let postData := [("input", input)] in
  if strict_eq_str directiveName "SelectInput" then
    idText <- to_string endpointId ;;
    tokenText <- to_string accessToken ;;
    detach (
      catch_ (
        then_ (then_
          (post ("/endpoints/" ++ idText ++ "/input?access_token=" ++ tokenText) postData)
          getInputReply)
          (fun reply => succeed reply (Some context)))
        (fun error =>
           r <- getServiceErrorReply error ;;
           fail r None))
  else
    r <- getInvalidDirectiveReply directiveName ;;
    fail r (Some context).

Definition handleStepSpeakerEvent (event : JSValue) (context : Context) : M unit :=
  directiveName <- getDirectiveName event ;;
  endpointId <- getEndpointId event ;;
  accessToken <- getEndpointToken event ;;
  postData <-
    (if strict_eq_str directiveName "SetMute" then
       mute <- prop_path event ["directive"; "payload"; "mute"] ;;
       ret (Some [("mute", mute)])
     else if strict_eq_str directiveName "AdjustVolume" then
       volumeSteps <- prop_path event ["directive"; "payload"; "volumeSteps"] ;;
       ret (Some [("delta", volumeSteps)])
     else ret None) ;;
  match postData with
  | None =>
      r <- getInvalidDirectiveReply directiveName ;;
      fail r (Some context)
  | Some postData =>
      idText <- to_string endpointId ;;
      tokenText <- to_string accessToken ;;
      reply_chain context
        (post ("/endpoints/" ++ idText ++ "/volume?accessToken=" ++ tokenText) postData)
        getStepSpeakerReply
  end.

Definition isPlaybackDirectiveValid (directiveName : JSValue) : bool :=
  existsb (strict_eq_str directiveName) SUPPORTED_PLAYBACK_DIRECTIVES.

Definition getPlaybackControlReply (response : JSValue) : M JSValue :=
  reply <- getReply "Alexa" "Response" JUndefined ;;
  ret (JObj (Object_assign [("context", JObj [("properties", JArr [])])] reply)).

Definition handlePlaybackControlEvent (event : JSValue) (context : Context) : M unit :=
  directiveName <- getDirectiveName event ;;
  endpointId <- getEndpointId event ;;
  accessToken <- getEndpointToken event ;;
  if isPlaybackDirectiveValid directiveName then
    let postData := [("directive", directiveName)] in
    idText <- to_string endpointId ;;
    tokenText <- to_string accessToken ;;
    reply_chain context
      (post ("/endpoints/" ++ idText ++ "/playback?accessToken=" ++ tokenText) postData)
      getPlaybackControlReply
  else
    r <- getInvalidDirectiveReply directiveName ;;
    fail r (Some context).

(** [exports.handler] *)
Definition handler (event : JSValue) (context : Context) : M unit :=
  valid <- isEventValid event ;;
  if truthy valid then
    namespace <- prop_path event ["directive"; "header"; "namespace"] ;;
    if strict_eq_str namespace Alexa_Discovery then handleDiscoveryEvent event context
    else if strict_eq_str namespace Alexa_PowerController then handlePowerControlEvent event context
    else if strict_eq_str namespace Alexa_InputController then handleInputControlEvent event context
    else if strict_eq_str namespace Alexa_ChannelController then handleChannelControlEvent event context
    else if strict_eq_str namespace Alexa_StepSpeaker then handleStepSpeakerEvent event context
    else if strict_eq_str namespace Alexa_PlaybackController then handlePlaybackControlEvent event context
    else
      r <- getErrorReply internalError [AVal (JStr "Unsupported namespace"); AVal namespace] ;;
      fail r (Some context)
  else
    r <- getErrorReply internalError [AVal (JStr "Invalid event"); AVal event] ;;
    fail r (Some context).

End Latest.

(* ================================================================== *)
(** ** The first file of [src/unnamed/part_001]: the legacy envelope *)

Module Legacy.

(** [getResponse(name, namespace, payload)] *)
Definition getResponse (name namespace : string) (payload : JSValue) : M JSValue :=
  now <- Date_now ;;
  messageId <- to_string now ;;
  ret (JObj [("header", JObj [("messageId", JStr messageId);
                              ("name", JStr name);
                              ("namespace", JStr namespace);
                              ("payloadVersion", JStr "2")]);
             ("payload", if is_undefined payload then JObj [] else payload)]).

Definition getDiscoveryResponse (discoveredAppliances : JSValue) : M JSValue :=
  getResponse "DiscoverAppliancesResponse" "Alexa.ConnectedHome.Discovery" discoveredAppliances.

Definition httpPromise : JSValue -> option string -> M JSValue := Index.httpPromise.
Definition getOptions : option string -> M JSValue := Index.getOptions.

Definition get (path : string) (opts : JSValue) : M JSValue :=
  o <- assignM [("method", JStr "GET"); ("path", JStr path)] opts ;;
  httpPromise o None.

Definition put (path : string) (postData : string) (opts : JSValue) : M JSValue :=
  o <- assignM [("method", JStr "PUT"); ("path", JStr path)] opts ;;
  httpPromise o (Some postData).

(** [/^(on|off)$/.test(v)] *)
Definition test_on_off (v : JSValue) : M bool :=
  text <- to_string v ;;
  ret ((text =? "on") || (text =? "off")).

(** The filter of [handleDiscovery]; it reads [appliance.id] unguarded. *)
Definition isApplianceValid (appliance : JSValue) : M JSValue :=
  id <- prop appliance "id" ;;
  and_then id (
    metrics <- prop appliance "metrics" ;;
    and_then metrics (
      title <- prop metrics "title" ;;
      and_then title (
        level <- prop metrics "level" ;;
        and_then level (
          ok <- test_on_off level ;;
          ret (JBool ok))))).

Definition toAppliance (appliance : JSValue) : M JSValue :=
  id <- prop appliance "id" ;;
  title <- prop_path appliance ["metrics"; "title"] ;;
  ret (JObj [("applianceId", id);
             ("manufacturerName", JStr "Unknown");
             ("modelName", JStr "Unknown");
             ("version", JStr "Unknown");
             ("friendlyName", title);
             ("friendlyDescription", title);
             ("isReachable", JBool true);
             ("actions", JArr [JStr "turnOn"; JStr "turnOff"])]).

(** The first callback logs [`rawResponse: ${response.responseText}`]
    before it parses. *)
Definition handleDiscovery (event : JSValue) (context : Context) : M unit :=
  token <- prop_path event ["payload"; "accessToken"] ;;
  accessToken <- method_trim token ;;
  tokenText <- to_string accessToken ;;
  o <- getOptions None ;;
  detach (
    catch_ (
      then_ (then_ (then_
        (get ("/devices?access_token=" ++ tokenText) o)
        (fun response =>
           responseText <- prop response "responseText" ;;
           to_string responseText ;;
           Index.parse_responseText response))
        (fun appliances =>
           valid <- method_filter appliances isApplianceValid ;;
           method_map valid toAppliance))
        (fun validAppliances =>
           response <- getDiscoveryResponse validAppliances ;;
           context_succeed context response))
      (fun error =>
         response <- getDiscoveryResponse (JArr []) ;;
         context_succeed context response)).

(** [name.match(/^TurnO(n|ff)Request$/)]: only strings have [match]. *)
Definition match_TurnOnOffRequest (name : JSValue) : M bool :=
  match name with
  | JStr s => ret ((s =? "TurnOnRequest") || (s =? "TurnOffRequest"))
  | JUndefined | JNull => throw (cannot_read "match" name)
  | _ => throw (TypeError "match is not a function")
  end.

Definition handleControl (event : JSValue) (context : Context) : M unit :=
  name <- prop_path event ["header"; "name"] ;;
  matched <- match_TurnOnOffRequest name ;;
  if negb matched then
    r <- getResponse "UnsupportedOperationError" "Alexa.ConnectedHome.Control" JUndefined ;;
    context_fail context r
  else
    applianceId <- prop_path event ["payload"; "appliance"; "applianceId"] ;;
    token <- prop_path event ["payload"; "accessToken"] ;;
    accessToken <- method_trim token ;;
    let postData := stringify_object
      [("level", JStr (if strict_eq_str name "TurnOnRequest" then "on" else "off"))] in
    idText <- to_string applianceId ;;
    tokenText <- to_string accessToken ;;
    o <- getOptions (Some postData) ;;
    detach (
      catch_ (
        then_ (put ("/devices/" ++ idText ++ "?access_token=" ++ tokenText) postData o)
          (fun response =>
             ok <- Index.status_is_200 response ;;
             if ok then
               confirmation <- getResponse
                 (if strict_eq_str name "TurnOnRequest"
                  then "TurnOnConfirmation" else "TurnOffConfirmation")
                 "Alexa.ConnectedHome.Control" JUndefined ;;
               context_succeed context confirmation
             else
               statusCode <- prop response "statusCode" ;;
               statusText <- to_string statusCode ;;
               throw (Error ("Unexpected HTTP statusCode " ++ statusText))))
        (fun error =>
           r <- getResponse "DependentServiceUnavailableError" "Alexa.ContextHome.Control"
                  (JObj [("dependentServiceName", JStr "z-way-relay")]) ;;
           context_fail context r)).

(** [exports.handler]: the default branch logs
    [`Unsupported namespace: ${event.header.namespace}`] before it fails. *)
Definition handler (event : JSValue) (context : Context) : M unit :=
  namespace <- prop_path event ["header"; "namespace"] ;;
  if strict_eq_str namespace "Alexa.ConnectedHome.Discovery" then handleDiscovery event context
  else if strict_eq_str namespace "Alexa.ConnectedHome.Control" then handleControl event context
  else
    logged <- prop_path event ["header"; "namespace"] ;;
    to_string logged ;;
    r <- getResponse "UnsupportedOperationError" "Alexa.ConnectedHome.Control" JUndefined ;;
    context_fail context r.

End Legacy.


(* ================================================================== *)
(** ** Reading values in statements *)

(** [v.k] where nothing throws: [undefined] off an object. *)
Definition field (v : JSValue) (k : string) : JSValue :=
  match v with
  | JObj props => lookup k props
  | _ => JUndefined
  end.

Definition at_path (v : JSValue) (ks : list string) : JSValue :=
  fold_left field ks v.

(** Every property read along [ks] is made on a value other than
    [undefined] and [null]. *)
Fixpoint readable (v : JSValue) (ks : list string) : bool :=
  match ks with
  | [] => true
  | k :: rest => negb (is_nullish v) && readable (field v k) rest
  end.

(** [event.directive.header.k] *)
Definition header_field (event : JSValue) (k : string) : JSValue :=
  at_path event ["directive"; "header"; k].

(** The value [isEventValid] returns. *)
Definition validity (event : JSValue) : JSValue :=
  js_and event
    (js_and (field event "directive")
       (js_and (at_path event ["directive"; "header"])
          (js_and (header_field event "namespace") (header_field event "name")))).

(** An [Alexa]/[ErrorResponse] event of the given type. *)
Definition is_error_envelope (type : ErrorType) (envelope : JSValue) : bool :=
  strict_eq_str (at_path envelope ["event"; "header"; "namespace"]) "Alexa"
  && strict_eq_str (at_path envelope ["event"; "header"; "name"]) "ErrorResponse"
  && strict_eq_str (at_path envelope ["event"; "payload"; "type"]) (ERROR_TYPES type).

(** The [message] of an error envelope. *)
Definition error_message (envelope : JSValue) : string :=
  match at_path envelope ["event"; "payload"; "message"] with
  | JStr text => text
  | _ => EmptyString
  end.

(** An [Alexa.Discovery]/[Discover.Response] event. *)
Definition is_discovery_response (envelope : JSValue) : bool :=
  strict_eq_str (at_path envelope ["event"; "header"; "namespace"]) Alexa_Discovery
  && strict_eq_str (at_path envelope ["event"; "header"; "name"]) "Discover.Response".

(** The handler returned, issued no request and told the context exactly
    one failure, an error envelope of the given type. *)
Definition failed_without_transport (type : ErrorType) (r : Result unit * St) : Prop :=
  fst r = Ok tt /\ sent (snd r) = [] /\
  exists envelope, replies (snd r) = [Failed envelope] /\ is_error_envelope type envelope = true.

(* ------------------------------------------------------------------ *)
(** *** Requests and responses *)

(** The object a shim resolves with. *)
Definition response_object (statusCode : Z) (headers : JSValue) (responseText : string)
  : JSValue :=
  JObj [("statusCode", JNum statusCode); ("headers", headers);
        ("responseText", JStr responseText)].

Definition rejected {A} (r : Result A * St) : bool :=
  match fst r with Throw _ => true | _ => false end.

Definition resolved {A} (r : Result A * St) : bool :=
  match fst r with Ok _ => true | _ => false end.

Definition is_socket_error (a : Answer) : bool :=
  match a with SocketError _ => true | Response _ _ _ => false end.

Definition status_is_not_200 (a : Answer) : bool :=
  match a with SocketError _ => false | Response sc _ _ => negb (sc =? 200)%Z end.

(** The state after a shim of [index.js] or [code.js] issued [r]. *)
Definition issued (s : St) (r : Request) : St :=
  mkSt (ticks s) (sent s ++ [r]) (replies s).

(** The state after the shim of the latest revision issued [r] and its
    listener ran: two readings of the clock later. *)
Definition Latest_issued (s : St) (r : Request) : St :=
  mkSt (S (S (ticks s))) (sent s ++ [r]) (replies s).

(** The request [put] and [get] of [index.js] build. *)
Definition Index_request (h : Host) (method path : string) (body : option string) : Request :=
  mkRequest
    (JObj [("method", JStr method); ("path", JStr path);
           ("hostname", remoteHost h); ("port", remotePort h);
           ("headers", JObj [("accept", JStr "*/*");
                             ("Content-Type", JStr "application/json");
                             ("Content-Length",
                               JNum (match body with
                                     | Some s => Z.of_nat (String.length s)
                                     | None => 0
                                     end))])])
    body.

(** The request [post] and [get] of the latest revision build. *)
Definition Latest_request (h : Host) (method path : string) (body : option string) : Request :=
  mkRequest
    (JObj [("method", JStr method); ("path", JStr path);
           ("hostname", remoteHost h); ("port", remotePort h);
           ("headers", JObj [("Accept", JStr "*/*");
                             ("Content-Type", JStr "application/json");
                             ("Content-Length",
                               JNum (match body with
                                     | Some s => Z.of_nat (String.length s)
                                     | None => 0
                                     end))])])
    body.

(* ------------------------------------------------------------------ *)
(** *** Envelopes *)

(** The header of an outbound envelope: under [event] in the versioned
    shape, at the top in the legacy one. *)
Definition versioned_header (envelope : JSValue) (k : string) : JSValue :=
  at_path envelope ["event"; "header"; k].

Definition legacy_header (envelope : JSValue) (k : string) : JSValue :=
  at_path envelope ["header"; k].

(** The reading of the clock an invocation takes next. *)
Definition next_reading (h : Host) (s : St) : Z := clock h (ticks s).

(** The discovery response [index.js] builds at clock reading [t]. *)
Definition discovery_response (t : Z) (endpoints : JSValue) : JSValue :=
  JObj [("event", JObj [
    ("header", JObj [("messageId", JStr (Number_toString t));
                     ("name", JStr "Discover.Response");
                     ("namespace", JStr Alexa_Discovery);
                     ("payloadVersion", JStr "3")]);
    ("payload", JObj [("endpoints", endpoints)])])].

(** [event.directive.endpoint.scope.token] *)
Definition endpoint_token (event : JSValue) : JSValue :=
  at_path event ["directive"; "endpoint"; "scope"; "token"].


(** The reported-state property of a power reply. *)
Definition power_property (power : JSValue) : JSValue :=
  JObj [("namespace", JStr Alexa_PowerController);
        ("name", JStr "powerState");
        ("value", field power "state");
        ("timeOfSample", field power "isoTimestamp");
        ("uncertaintyInMilliseconds", field power "uncertaintyMs")].


(* ------------------------------------------------------------------ *)
(** *** The tables of the specification *)

(** The table of the specification (section 4.3), by device type. *)
Definition capabilitiesFor (deviceType : JSValue) : list string :=
  if strict_eq_str deviceType "switchBinary" then
    [Alexa_PowerController]
  else if strict_eq_str deviceType "television" then
    [Alexa_PowerController; Alexa_ChannelController; Alexa_PlaybackController;
     Alexa_StepSpeaker; Alexa_InputController]
  else if strict_eq_str deviceType "roku" then
    [Alexa_ChannelController; Alexa_PlaybackController]
  else [].

(** What the resolver of [code.js] computes: no playback for a television. *)
Definition capabilitiesFor_code (deviceType : JSValue) : list string :=
  if strict_eq_str deviceType "switchBinary" then
    [Alexa_PowerController]
  else if strict_eq_str deviceType "television" then
    [Alexa_PowerController; Alexa_ChannelController;
     Alexa_StepSpeaker; Alexa_InputController]
  else if strict_eq_str deviceType "roku" then
    [Alexa_ChannelController; Alexa_PlaybackController]
  else [].

(** The directive names of each namespace (the routing table of the
    specification, section 4.4). *)
Definition supported_names (namespace : string) : list string :=
  if namespace =? Alexa_Discovery then ["Discover"]
  else if namespace =? Alexa_PowerController then ["TurnOn"; "TurnOff"]
  else if namespace =? Alexa_ChannelController then ["ChangeChannel"; "SkipChannels"]
  else if namespace =? Alexa_InputController then ["SelectInput"]
  else if namespace =? Alexa_StepSpeaker then ["SetMute"; "AdjustVolume"]
  else if namespace =? Alexa_PlaybackController then SUPPORTED_PLAYBACK_DIRECTIVES
  else [].

(* ------------------------------------------------------------------ *)
(** *** Dispatch, by revision *)

(** The branch a namespace selects, per revision. *)
Definition Index_route (namespace : string) (event : JSValue) (context : Context) : M unit :=
  if namespace =? Alexa_Discovery then Index.handleDiscoveryEvent event context
  else if namespace =? Alexa_PowerController then Index.handlePowerControlEvent event context
  else if namespace =? Alexa_InputController then Index.handleInputControlEvent event context
  else if namespace =? Alexa_ChannelController then Index.handleChannelControlEvent event context
  else if namespace =? Alexa_StepSpeaker then Index.handleStepSpeakerEvent event context
  else
    r <- Index.getErrorResponse internalError ("Unsupported namespace: " ++ namespace) ;;
    context_fail context r.

Definition CodeV3_route (namespace : string) (event : JSValue) (context : Context) : M unit :=
  if namespace =? Alexa_Discovery then CodeV3.handleDiscoveryEvent event context
  else if namespace =? Alexa_PowerController then CodeV3.handlePowerControlEvent event context
  else if namespace =? Alexa_InputController then CodeV3.handleInputControlEvent event context
  else if namespace =? Alexa_ChannelController then CodeV3.handleChannelControlEvent event context
  else if namespace =? Alexa_StepSpeaker then CodeV3.handleStepSpeakerEvent event context
  else if namespace =? Alexa_PlaybackController then CodeV3.handlePlaybackControlEvent event context
  else
    r <- CodeV3.getErrorResponse internalError ("Unsupported namespace: " ++ namespace) ;;
    context_fail context r.

Definition Latest_route (namespace : string) (event : JSValue) (context : Context) : M unit :=
  if namespace =? Alexa_Discovery then Latest.handleDiscoveryEvent event context
  else if namespace =? Alexa_PowerController then Latest.handlePowerControlEvent event context
  else if namespace =? Alexa_InputController then Latest.handleInputControlEvent event context
  else if namespace =? Alexa_ChannelController then Latest.handleChannelControlEvent event context
  else if namespace =? Alexa_StepSpeaker then Latest.handleStepSpeakerEvent event context
  else if namespace =? Alexa_PlaybackController then Latest.handlePlaybackControlEvent event context
  else
    r <- Latest.getErrorReply internalError
           [Latest.AVal (JStr "Unsupported namespace"); Latest.AVal (JStr namespace)] ;;
    Latest.fail r (Some context).

(** What [handleDiscoveryEvent] does with a response before it replies. *)
Definition Index_endpoints_of (endpointResponse : JSValue) : M JSValue :=
  endpoints <- Index.parse_responseText endpointResponse ;;
  supported <- method_filter endpoints Index.isEndpointSupported ;;
  method_map supported Index.toAlexaEndpoint.

(* ------------------------------------------------------------------ *)
(** *** Device ids *)

Fixpoint count_char (c : ascii) (s : string) : nat :=
  match s with
  | EmptyString => 0
  | String x rest => (if Ascii.eqb x c then 1 else 0) + count_char c rest
  end.

(** What discovery publishes for a device id, and what a control handler
    reads back. *)
Definition encode_id (id : string) : string := replace "." "#" id.
Definition decode_id (endpointId : string) : string := replace "#" "." endpointId.

(** A device descriptor discovery publishes: an object with a non-empty
    string id, truthy name, description and manufacturer, and a supported
    type. *)
Definition publishable (device : JSValue) : bool :=
  match field device "id" with
  | JStr id => negb (id =? "")
  | _ => false
  end
  && truthy (field device "name")
  && truthy (field device "description")
  && truthy (field device "manufacturer")
  && match ToString (field device "type") with
     | Some key => has_key key Latest.SUPPORTED_ENDPOINT_TYPES
     | None => false
     end.

(** The id of a device whose id is a string. *)
Definition device_id (device : JSValue) : string :=
  match field device "id" with
  | JStr id => id
  | _ => EmptyString
  end.

(** The [endpointId]s of a discovery reply, in order. *)
Definition published_ids (reply : JSValue) : list JSValue :=
  match at_path reply ["event"; "payload"; "endpoints"] with
  | JArr endpoints => map (fun e => field e "endpointId") endpoints
  | _ => []
  end.

(** What [toAlexaEndpoint] of the latest revision returns for a device. *)
Definition published (device : JSValue) : JSValue :=
  JObj [("endpointId", JStr (encode_id (device_id device)));
        ("manufacturerName", field device "manufacturer");
        ("friendlyName", field device "name");
        ("description", field device "description");
        ("displayCategories", JArr []);
        ("capabilities",
          JArr (let type := field device "type" in
                (if strict_eq_str type "zwitch" || strict_eq_str type "television"
                 then [getCapability Alexa_PowerController] else [])
                ++ (if strict_eq_str type "television" || strict_eq_str type "roku"
                    then [getCapability Alexa_ChannelController] else [])
                ++ (if strict_eq_str type "television"
                    then [getCapability Alexa_StepSpeaker;
                          getCapability Alexa_InputController] else [])
                ++ (if strict_eq_str type "roku"
                    then [getCapability Alexa_PlaybackController] else []))%list)].

(* ------------------------------------------------------------------ *)
(** *** Properties of computations *)

(** A computation that leaves the state alone and settles. *)
Definition quiet {A} (m : M A) : Prop :=
  forall h s, exists r, m h s = (r, s) /\ forall f, r <> Stuck f.

(* ------------------------------------------------------------------ *)
(** *** Hosts, events and devices of the examples *)

(** A host for the examples: the clock starts at 1000 and advances by one
    millisecond a reading, the backend gives every request the same answer. *)
Definition example_host (answer : Answer) : Host :=
  mkHost (JStr "backend.local") (JStr "8083") (fun n => 1000 + Z.of_nat n)%Z read_json
    (fun _ => answer).

(** A host whose clock stands still at [t]. *)
Definition frozen_host (t : Z) (answer : Answer) : Host :=
  mkHost (JStr "backend.local") (JStr "8083") (fun _ => t) read_json (fun _ => answer).

(** A versioned directive for endpoint [endpointId] with bearer token [tok]. *)
Definition directive (namespace name endpointId : string) : JSValue :=
  JObj [("directive", JObj [
    ("header", JObj [("namespace", JStr namespace); ("name", JStr name);
                     ("payloadVersion", JStr "3")]);
    ("endpoint", JObj [("endpointId", JStr endpointId);
                       ("scope", JObj [("type", JStr "BearerToken"); ("token", JStr "tok")])]);
    ("payload", JObj [("scope", JObj [("type", JStr "BearerToken"); ("token", JStr "tok")])])])].

(** The body of the example: the backend answers 200 with [{"state":"on"}]. *)
Definition state_on_text : string :=
  "{" ++ dquote ++ "state" ++ dquote ++ ":" ++ dquote ++ "on" ++ dquote ++ "}".


(** Node's error for a connection reset: its text is in [message], which
    [JSON.stringify] does not see; [code] is enumerable. *)
Definition socket_hang_up : JSError :=
  mkError "Error" "socket hang up" [("code", JStr "ECONNRESET")].

(** A Z-Wave device id with one dot. *)
Definition zway_device : JSValue :=
  JObj [("id", JStr "ZWayVDev_zway_2-0-37.1"); ("name", JStr "Lamp");
        ("description", JStr "Living room lamp"); ("manufacturer", JStr "Fibaro");
        ("type", JStr "zwitch")].

(* ================================================================== *)
(** ** What an invocation adds to the state *)

(** The requests and the replies a computation adds on host [h], and how it
    ends. *)
Definition effect {A} (h : Host) (m : M A)
    (post : Result A -> list Request -> list Reply -> Prop) : Prop :=
  forall s, exists rs ps,
    sent (snd (m h s)) = (sent s ++ rs)%list
    /\ replies (snd (m h s)) = (replies s ++ ps)%list
    /\ post (fst (m h s)) rs ps.

(** Neither a request nor a reply. *)
Definition inert {A} (h : Host) (m : M A) : Prop :=
  effect h m (fun _ rs ps => rs = [] /\ ps = []).

(** No request; one reply, which satisfies [Q], when the computation
    returns, and none when it throws or faults. *)
Definition responder {A} (h : Host) (Q : Reply -> Prop) (m : M A) : Prop :=
  effect h m (fun r rs ps =>
    rs = [] /\ match r with
               | Ok _ => exists p, ps = [p] /\ Q p
               | _ => ps = []
               end).

(** No reply, and one request, which satisfies [P], or none when Node
    refused it. *)
Definition requester {A} (h : Host) (P : Request -> Prop) (m : M A) : Prop :=
  effect h m (fun _ rs ps => ps = [] /\ (rs = [] \/ exists q, rs = [q] /\ P q)).

(** At most one request, which satisfies [P]; one reply, which satisfies
    [Q], when the computation returns, and none when it throws or faults. *)
Definition disciplined {A} (h : Host) (P : Request -> Prop) (Q : Reply -> Prop)
    (m : M A) : Prop :=
  effect h m (fun r rs ps =>
    (rs = [] \/ exists q, rs = [q] /\ P q)
    /\ match r with
       | Ok _ => exists p, ps = [p] /\ Q p
       | _ => ps = []
       end).

(** What a computation can return on host [h]. *)
Definition yields {A} (h : Host) (m : M A) (Q : A -> Prop) : Prop :=
  forall s a s', m h s = (Ok a, s') -> Q a.

(** The outcome of an invocation: one reply when it returned, none when it
    threw or faulted. *)
Definition replied_once (r : Result unit * St) : Prop :=
  match fst r with
  | Ok _ => exists reply, replies (snd r) = [reply]
  | _ => replies (snd r) = []
  end.

(** The outcome of a handler that issued one request, a POST of the latest
    revision to [path]. *)
Definition posted (h : Host) (path : string) (outcome : Result unit * St) : Prop :=
  exists body, sent (snd outcome) = [Latest_request h "POST" path (Some body)].

(** A request of [index.js], [code.js] or the legacy revision: a GET
    without a body or a PUT with one, to the configured host, its
    [Content-Length] the length of what is written. *)
Definition Index_call (h : Host) (r : Request) : Prop :=
  exists path,
    r = Index_request h "GET" path None
    \/ exists body, r = Index_request h "PUT" path (Some body).

(** A request of the latest revision: a GET without a body or a POST with
    one. *)
Definition Latest_call (h : Host) (r : Request) : Prop :=
  exists path,
    r = Latest_request h "GET" path None
    \/ exists body, r = Latest_request h "POST" path (Some body).

(** An [Alexa]/[Response] event. *)
Definition is_response_envelope (envelope : JSValue) : bool :=
  strict_eq_str (versioned_header envelope "namespace") "Alexa"
  && strict_eq_str (versioned_header envelope "name") "Response".

(** The header every versioned envelope carries: a string [messageId] and
    payload version 3. *)
Definition has_versioned_header (envelope : JSValue) : bool :=
  typeof_string (versioned_header envelope "messageId")
  && strict_eq_str (versioned_header envelope "payloadVersion") "3".

(** What the versioned revisions tell the context: a success is a response
    or a discovery response; a failure is an error response of one of three
    types. *)
Definition versioned_reply (p : Reply) : Prop :=
  match p with
  | Succeeded envelope =>
      has_versioned_header envelope
      && (is_response_envelope envelope || is_discovery_response envelope) = true
  | Failed envelope =>
      has_versioned_header envelope
      && (is_error_envelope internalError envelope
          || is_error_envelope invalidDirective envelope
          || is_error_envelope endpointUnreachable envelope) = true
  end.

(** A failure reply. *)
Definition is_failure (p : Reply) : Prop :=
  match p with Failed _ => True | Succeeded _ => False end.

(** A success reply. *)
Definition is_success (p : Reply) : Prop :=
  match p with Succeeded _ => True | Failed _ => False end.

(** The envelope [getResponse] and [getReply] build at clock reading [t]. *)
Definition versioned_envelope (t : Z) (namespace name : string) (payload : JSValue)
  : JSValue :=
  JObj [("event", JObj [
    ("header", JObj [("messageId", JStr (Number_toString t));
                     ("name", JStr name);
                     ("namespace", JStr namespace);
                     ("payloadVersion", JStr "3")]);
    ("payload", payload)])].

(** The state one reading of the clock later. *)
Definition ticked (s : St) : St := mkSt (S (ticks s)) (sent s) (replies s).

(** The options [getOptions] of [index.js] returns on host [h]. *)
Definition Index_options (h : Host) (body : option string) : JSValue :=
  JObj [("hostname", remoteHost h); ("port", remotePort h);
        ("headers", JObj [("accept", JStr "*/*");
                          ("Content-Type", JStr "application/json");
                          ("Content-Length",
                            JNum (match body with
                                  | Some s => Z.of_nat (String.length s)
                                  | None => 0
                                  end))])].

(** A legacy envelope with the given namespace and name: a string
    [messageId] and payload version 2. *)
Definition is_legacy_envelope (namespace name : string) (envelope : JSValue) : bool :=
  strict_eq_str (legacy_header envelope "namespace") namespace
  && strict_eq_str (legacy_header envelope "name") name
  && strict_eq_str (legacy_header envelope "payloadVersion") "2"
  && typeof_string (legacy_header envelope "messageId").

(** What the legacy revision tells the context. *)
Definition legacy_reply (p : Reply) : Prop :=
  match p with
  | Succeeded envelope =>
      is_legacy_envelope "Alexa.ConnectedHome.Discovery" "DiscoverAppliancesResponse" envelope
      || is_legacy_envelope "Alexa.ConnectedHome.Control" "TurnOnConfirmation" envelope
      || is_legacy_envelope "Alexa.ConnectedHome.Control" "TurnOffConfirmation" envelope
      = true
  | Failed envelope =>
      is_legacy_envelope "Alexa.ConnectedHome.Control" "UnsupportedOperationError" envelope
      || is_legacy_envelope "Alexa.ContextHome.Control" "DependentServiceUnavailableError"
           envelope
      = true
  end.

(** The envelope the legacy [getResponse] builds at clock reading [t]. *)
Definition legacy_envelope (t : Z) (name namespace : string) (payload : JSValue) : JSValue :=
  JObj [("header", JObj [("messageId", JStr (Number_toString t));
                         ("name", JStr name);
                         ("namespace", JStr namespace);
                         ("payloadVersion", JStr "2")]);
        ("payload", payload)].

(* ------------------------------------------------------------------ *)
(** *** What discovery publishes *)

(** The filter of discovery in the versioned revisions, as a predicate on
    the device; [types] is the revision's [SUPPORTED_ENDPOINT_TYPES]. *)
Definition supported_in (types : list (string * JSValue)) (device : JSValue) : bool :=
  truthy device
  && truthy (field device "id")
  && truthy (field device "name")
  && truthy (field device "description")
  && truthy (field device "manufacturer")
  && match ToString (field device "type") with
     | Some key => has_key key types
     | None => false
     end.

(** A device on which the filter throws: it passes the tests before the
    last, and its [type] does not convert to a property key. *)
Definition type_unreadable (device : JSValue) : bool :=
  truthy device
  && truthy (field device "id")
  && truthy (field device "name")
  && truthy (field device "description")
  && truthy (field device "manufacturer")
  && match ToString (field device "type") with
     | Some _ => false
     | None => true
     end.

(** The endpoint [index.js] and [code.js] publish for a device: its id as
    it is, and the capabilities of its type. *)
Definition endpoint_of (capabilities : JSValue -> list string) (device : JSValue) : JSValue :=
  JObj [("endpointId", field device "id");
        ("manufacturerName", field device "manufacturer");
        ("friendlyName", field device "name");
        ("description", field device "description");
        ("displayCategories", JArr []);
        ("capabilities", JArr (map getCapability (capabilities (field device "type"))))].

(** What a parsed body publishes: the endpoints of the supported devices, in
    the order of the body; nothing when the body is not an array, and
    nothing when the filter throws on one of the devices. *)
Definition published_by (supported : JSValue -> bool) (endpoint : JSValue -> JSValue)
    (body : option JSValue) : JSValue :=
  match body with
  | Some (JArr devices) =>
      if existsb type_unreadable devices then JArr []
      else JArr (map endpoint (filter supported devices))
  | _ => JArr []
  end.

(** The endpoint list of [index.js], by the transport's answer: the status
    is not looked at. *)
Definition Index_discovered (h : Host) (answer : Answer) : JSValue :=
  match answer with
  | SocketError _ => JArr []
  | Response _ _ text =>
      published_by (supported_in Index.SUPPORTED_ENDPOINT_TYPES) (endpoint_of capabilitiesFor)
        (JSON_parse h text)
  end.

(** The endpoint list of [code.js]: empty at every status but 200. *)
Definition CodeV3_discovered (h : Host) (answer : Answer) : JSValue :=
  match answer with
  | SocketError _ => JArr []
  | Response statusCode _ text =>
      if (statusCode =? 200)%Z then
        published_by (supported_in CodeV3.SUPPORTED_ENDPOINT_TYPES)
          (endpoint_of capabilitiesFor_code) (JSON_parse h text)
      else JArr []
  end.

(** What [handleDiscoveryEvent] of [code.js] does with a response before it
    replies. *)
Definition CodeV3_endpoints_of (endpointResponse : JSValue) : M JSValue :=
  endpoints <- Index.parse_responseText endpointResponse ;;
  supported <- method_filter endpoints CodeV3.isEndpointSupported ;;
  method_map supported CodeV3.toAlexaEndpoint.

(** The endpoint list of the latest revision for a parsed body: the
    endpoints of the supported devices when each of them has a string id;
    nothing when one of them has not ([replace] is called on the id), when
    the filter throws on a device, or when the body is not an array. *)
Definition Latest_published_by (body : JSValue) : JSValue :=
  match body with
  | JArr devices =>
      let supported := filter (supported_in Latest.SUPPORTED_ENDPOINT_TYPES) devices in
      if negb (existsb type_unreadable devices)
         && forallb (fun d => typeof_string (field d "id")) supported
      then JArr (map published supported)
      else JArr []
  | _ => JArr []
  end.

(* ------------------------------------------------------------------ *)
(** *** What a power directive is answered with *)

(** The error response built at clock reading [t]. *)
Definition error_envelope (t : Z) (type : ErrorType) (message : string) : JSValue :=
  versioned_envelope t "Alexa" "ErrorResponse"
    (JObj [("type", JStr (ERROR_TYPES type)); ("message", JStr message)]).

(** The response built at clock reading [t] that reports the state of the
    parsed body [power]. *)
Definition power_response (t : Z) (power : JSValue) : JSValue :=
  JObj (Object_assign [("context", JObj [("properties", JArr [power_property power])])]
          (versioned_envelope t "Alexa" "Response" (JObj []))).

(** The state a TurnOn or a TurnOff asks for. *)
Definition requested_state (name : string) : string :=
  if name =? "TurnOn" then "on" else "off".

(** The path of a power request, from the texts of the endpoint id and of
    the token. *)
Definition power_path (endpointId token : string) : string :=
  "/endpoints/" ++ endpointId ++ "/power?access_token=" ++ token.

(* ------------------------------------------------------------------ *)
(** *** Ids that survive the round trip *)

(** A ['#'] occurs in the id before its first ['.'] (or the id has a ['#']
    and no ['.']). *)
Fixpoint hash_before_dot (id : string) : bool :=
  match id with
  | EmptyString => false
  | String c rest =>
      if Ascii.eqb "#" c then true
      else if Ascii.eqb "." c then false
      else hash_before_dot rest
  end.

(* ------------------------------------------------------------------ *)
(** *** The legacy revision *)

(** The filter of the legacy discovery, on a value other than [undefined]
    and [null]. *)
Definition appliance_valid (appliance : JSValue) : bool :=
  truthy (field appliance "id")
  && truthy (field appliance "metrics")
  && truthy (at_path appliance ["metrics"; "title"])
  && truthy (at_path appliance ["metrics"; "level"])
  && match ToString (at_path appliance ["metrics"; "level"]) with
     | Some level => (level =? "on") || (level =? "off")
     | None => false
     end.

(** An appliance on which the filter throws: it passes the tests before
    the last, and its level does not convert to text. *)
Definition level_unreadable (appliance : JSValue) : bool :=
  truthy (field appliance "id")
  && truthy (field appliance "metrics")
  && truthy (at_path appliance ["metrics"; "title"])
  && truthy (at_path appliance ["metrics"; "level"])
  && match ToString (at_path appliance ["metrics"; "level"]) with
     | Some _ => false
     | None => true
     end.

(** The appliance the legacy discovery publishes for a device. *)
Definition appliance_of (appliance : JSValue) : JSValue :=
  JObj [("applianceId", field appliance "id");
        ("manufacturerName", JStr "Unknown");
        ("modelName", JStr "Unknown");
        ("version", JStr "Unknown");
        ("friendlyName", at_path appliance ["metrics"; "title"]);
        ("friendlyDescription", at_path appliance ["metrics"; "title"]);
        ("isReachable", JBool true);
        ("actions", JArr [JStr "turnOn"; JStr "turnOff"])].

(** The appliance list of the legacy discovery, by the transport's answer:
    the filter reads [appliance.id] unguarded and applies a pattern to the
    level, so one [null] in the body, or one level that does not convert to
    text, empties the list. *)
Definition Legacy_discovered (h : Host) (answer : Answer) : JSValue :=
  match answer with
  | SocketError _ => JArr []
  | Response _ _ text =>
      match JSON_parse h text with
      | Some (JArr appliances) =>
          if existsb (fun a => is_nullish a || level_unreadable a) appliances then JArr []
          else JArr (map appliance_of (filter appliance_valid appliances))
      | _ => JArr []
      end
  end.

(** What [handleDiscovery] does with a response before it replies. *)
Definition Legacy_appliances_of (response : JSValue) : M JSValue :=
  appliances <- (responseText <- prop response "responseText" ;;
                 to_string responseText ;;
                 Index.parse_responseText response) ;;
  valid <- method_filter appliances Legacy.isApplianceValid ;;
  method_map valid Legacy.toAppliance.

(** The level a TurnOnRequest or a TurnOffRequest asks for, and the name of
    its confirmation. *)
Definition requested_level (name : string) : string :=
  if name =? "TurnOnRequest" then "on" else "off".

Definition confirmation_name (name : string) : string :=
  if name =? "TurnOnRequest" then "TurnOnConfirmation" else "TurnOffConfirmation".

(* ------------------------------------------------------------------ *)
(** *** More devices and events for the examples *)

(** Devices as the backend of [index.js] lists them: a switch, a
    television, and a device that lacks a name, a description and a
    manufacturer. *)
Definition wall_switch : JSValue :=
  JObj [("id", JStr "switch-1"); ("name", JStr "Wall switch");
        ("description", JStr "Hallway"); ("manufacturer", JStr "Fibaro");
        ("type", JStr "switchBinary")].

Definition television : JSValue :=
  JObj [("id", JStr "tv-1"); ("name", JStr "Television");
        ("description", JStr "Living room"); ("manufacturer", JStr "LG");
        ("type", JStr "television")].

Definition nameless_device : JSValue :=
  JObj [("id", JStr "x-1"); ("type", JStr "roku")].

(** A supported device of the latest revision whose id is a number. *)
Definition numbered_device : JSValue :=
  JObj [("id", JNum 7); ("name", JStr "Stick"); ("description", JStr "Bedroom");
        ("manufacturer", JStr "Roku"); ("type", JStr "roku")].

(** The body a backend sends for a list of devices. *)
Definition body_of (devices : list JSValue) : string := stringify (JArr devices).

(** A versioned directive that has a header and nothing else. *)
Definition bare_directive (namespace name : string) : JSValue :=
  JObj [("directive", JObj [
    ("header", JObj [("namespace", JStr namespace); ("name", JStr name);
                     ("payloadVersion", JStr "3")])])].

(** A legacy request for appliance ["lamp-1"]; its access token has blanks
    around it. *)
Definition legacy_request (namespace name : string) : JSValue :=
  JObj [("header", JObj [("namespace", JStr namespace); ("name", JStr name);
                         ("payloadVersion", JStr "2")]);
        ("payload", JObj [("accessToken", JStr " tok ");
                          ("appliance", JObj [("applianceId", JStr "lamp-1")])])].


(** Legacy devices: a lamp that is on, and a dimmer whose level is a
    number. *)
Definition legacy_lamp : JSValue :=
  JObj [("id", JStr "lamp-1");
        ("metrics", JObj [("title", JStr "Lamp"); ("level", JStr "on")])].

Definition legacy_dimmer : JSValue :=
  JObj [("id", JStr "dimmer-1");
        ("metrics", JObj [("title", JStr "Dimmer"); ("level", JNum 40)])].

(* ================================================================== *)
(** ** The first file of [src/code.js]: callbacks, no promises *)

Module Callback.

(** [generateError(name, namespace)] *)
Definition generateError (name namespace : string) : M JSValue :=
  now <- Date_now ;;
  messageId <- to_string now ;;
  ret (JObj [("header", JObj [("messageId", JStr messageId);
                              ("namespace", JStr namespace);
                              ("name", JStr name);
                              ("payloadVersion", JStr "2")]);
             ("payload", JObj [])]).

(** The [getDiscoveryResponse] local to [handleDiscovery] *)
Definition getDiscoveryResponse (discoveredAppliances : JSValue) : M JSValue :=
  now <- Date_now ;;
  messageId <- to_string now ;;
  ret (JObj [("header", JObj [("messageId", JStr messageId);
                              ("name", JStr "DiscoverAppliancesResponse");
                              ("namespace", JStr "Alexa.ConnectedHome.Discovery");
                              ("payloadVersion", JStr "2")]);
             ("payload", JObj [("discoveredAppliances", discoveredAppliances)])]).

(** The test of the [forEach] callback: the level is compared with [===]. *)
Definition isDeviceValid (device : JSValue) : M JSValue :=
  id <- prop device "id" ;;
  and_then id (
    metrics <- prop device "metrics" ;;
    and_then metrics (
      title <- prop metrics "title" ;;
      and_then title (
        level <- prop metrics "level" ;;
        and_then level (
          ret (JBool (strict_eq_str level "on" || strict_eq_str level "off")))))).

(** The appliance the [forEach] callback pushes. *)
Definition toAppliance (device : JSValue) : M JSValue :=
  id <- prop device "id" ;;
  title <- prop_path device ["metrics"; "title"] ;;
  ret (JObj [("applianceId", id);
             ("manufacturerName", JStr "Unknown");
             ("modelName", JStr "Unknown");
             ("version", JStr "Unknown");
             ("friendlyName", title);
             ("friendlyDescription", title);
             ("isReachable", JBool true);
             ("actions", JArr [JStr "turnOn"; JStr "turnOff"])]).

(** The [forEach] over the parsed body, pushing onto [discoveredAppliances]. *)
Fixpoint collect (devices : list JSValue) (discoveredAppliances : list JSValue)
  : M (list JSValue) :=
  match devices with
  | [] => ret discoveredAppliances
  | device :: rest =>
      valid <- isDeviceValid device ;;
      if truthy valid then
        appliance <- toAppliance device ;;
        collect rest (discoveredAppliances ++ [appliance])%list
      else collect rest discoveredAppliances
  end.

(** [v.forEach(...)]: only arrays have the method. *)
Definition method_forEach (v : JSValue) (discoveredAppliances : list JSValue)
  : M (list JSValue) :=
  match v with
  | JArr devices => collect devices discoveredAppliances
  | JUndefined | JNull => throw (cannot_read "forEach" v)
  | _ => throw (TypeError "forEach is not a function")
  end.

(** [http.get(url, callback).on('error', ...)]: the URL is a concatenation
    with [+]; the body is parsed and filtered inside the ['end'] listener of
    the response. *)
Definition handleDiscovery (event : JSValue) (context : Context) : M unit :=
  token <- prop_path event ["payload"; "accessToken"] ;;
  accessToken <- method_trim token ;;
  host <- env_remoteHost ;;
  hostText <- to_string host ;;
  port <- env_remotePort ;;
  portText <- to_string port ;;
  tokenText <- to_string accessToken ;;
  answer <- request (JStr ("http://" ++ hostText ++ ":" ++ portText
                             ++ "/devices?access_token=" ++ tokenText)) None ;;
  match answer with
  | Response _ _ message =>
      listener (
        body <- parse message ;;
        discoveredAppliances <- method_forEach body [] ;;
        result <- getDiscoveryResponse (JArr discoveredAppliances) ;;
        context_succeed context result)
  | SocketError _ =>
      listener (
        result <- getDiscoveryResponse (JArr []) ;;
        context_succeed context result)
  end.

(** [http.request] is called by the handler itself: a refused path makes
    the handler throw.  The ['end'] listener of the response confirms
    without a look at the status or at the body. *)
Definition handleControl (event : JSValue) (context : Context) : M unit :=
  name <- prop_path event ["header"; "name"] ;;
  matched <- Legacy.match_TurnOnOffRequest name ;;
  if negb matched then
    r <- generateError "UnsupportedOperationError" "Alexa.ConnectedHome.Control" ;;
    context_fail context r
  else
    applianceId <- prop_path event ["payload"; "appliance"; "applianceId"] ;;
    token <- prop_path event ["payload"; "accessToken"] ;;
    accessToken <- method_trim token ;;
    idText <- to_string applianceId ;;
    tokenText <- to_string accessToken ;;
    let basePath := "/devices/" ++ idText ++ "?access_token=" ++ tokenText in
    let postData := stringify_object
      [("level", JStr (if strict_eq_str name "TurnOnRequest" then "on" else "off"))] in
    host <- env_remoteHost ;;
    port <- env_remotePort ;;
    let opts :=
      JObj [("method", JStr "PUT"); ("hostname", host); ("port", port);
            ("path", JStr basePath);
            ("headers", JObj [("accept", JStr "*/*");
                              ("Content-Type", JStr "application/json");
                              ("Content-Length", JNum (Z.of_nat (String.length postData)))])] in
    answer <- request opts (Some postData) ;;
    match answer with
    | Response _ _ _ =>
        listener (
          now <- Date_now ;;
          messageId <- to_string now ;;
          context_succeed context
            (JObj [("header", JObj [
                      ("messageId", JStr messageId);
                      ("namespace", JStr "Alexa.ConnectedHome.Control");
                      ("name", JStr (if strict_eq_str name "TurnOnRequest"
                                     then "TurnOnConfirmation" else "TurnOffConfirmation"));
                      ("payloadVersion", JStr "2")]);
                   ("payload", JObj [])]))
    | SocketError error =>
        listener (
          r <- generateError "DependentServiceUnavailableError" "Alexa.ConnectedHome.Control" ;;
          context_fail context r)
    end.

(** [exports.handler]: it logs ['Event received: ' + event] first; an
    unknown namespace is logged with ['Unsupported namespace: ' + ...] and
    fails with a bare string. *)
Definition handler (event : JSValue) (context : Context) : M unit :=
  to_string event ;;
  namespace <- prop_path event ["header"; "namespace"] ;;
  if strict_eq_str namespace "Alexa.ConnectedHome.Discovery" then handleDiscovery event context
  else if strict_eq_str namespace "Alexa.ConnectedHome.Control" then handleControl event context
  else
    logged <- prop_path event ["header"; "namespace"] ;;
    to_string logged ;;
    context_fail context (JStr "Something went wrong").

End Callback.

(* ------------------------------------------------------------------ *)
(** *** What the callback revision sends and answers *)

(** The envelope of a control reply at clock reading [t]. *)
Definition callback_envelope (t : Z) (namespace name : string) : JSValue :=
  JObj [("header", JObj [("messageId", JStr (Number_toString t));
                         ("namespace", JStr namespace);
                         ("name", JStr name);
                         ("payloadVersion", JStr "2")]);
        ("payload", JObj [])].

(** The discovery response at clock reading [t]. *)
Definition callback_discovery_response (t : Z) (appliances : JSValue) : JSValue :=
  JObj [("header", JObj [("messageId", JStr (Number_toString t));
                         ("name", JStr "DiscoverAppliancesResponse");
                         ("namespace", JStr "Alexa.ConnectedHome.Discovery");
                         ("payloadVersion", JStr "2")]);
        ("payload", JObj [("discoveredAppliances", appliances)])].

(** The GET of discovery: [http.get] is handed a URL, built from the
    texts of the configured host and port. *)
Definition Callback_get (host port accessToken : string) : Request :=
  mkRequest
    (JStr ("http://" ++ host ++ ":" ++ port ++ "/devices?access_token=" ++ accessToken))
    None.

(** The PUT of a control request. *)
Definition Callback_put (h : Host) (path body : string) : Request :=
  mkRequest
    (JObj [("method", JStr "PUT"); ("hostname", remoteHost h); ("port", remotePort h);
           ("path", JStr path);
           ("headers", JObj [("accept", JStr "*/*");
                             ("Content-Type", JStr "application/json");
                             ("Content-Length", JNum (Z.of_nat (String.length body)))])])
    (Some body).

(** The test of the callback revision's [forEach]: the level is the string
    ["on"] or the string ["off"]. *)
Definition device_valid (device : JSValue) : bool :=
  truthy (field device "id")
  && truthy (field device "metrics")
  && truthy (at_path device ["metrics"; "title"])
  && truthy (at_path device ["metrics"; "level"])
  && (strict_eq_str (at_path device ["metrics"; "level"]) "on"
      || strict_eq_str (at_path device ["metrics"; "level"]) "off").

(** The appliance list of the callback revision, when there is one: a body
    that does not parse, is not an array or holds a [null] makes the
    listener throw. *)
Definition Callback_discovered (h : Host) (answer : Answer) : option JSValue :=
  match answer with
  | SocketError _ => Some (JArr [])
  | Response _ _ text =>
      match JSON_parse h text with
      | Some (JArr devices) =>
          if existsb is_nullish devices then None
          else Some (JArr (map appliance_of (filter device_valid devices)))
      | _ => None
      end
  end.


(** A request of the callback revision: the GET of discovery or the PUT of
    a control request. *)
Definition Callback_call (h : Host) (r : Request) : Prop :=
  (exists host port accessToken,
     ToString (remoteHost h) = Some host /\ ToString (remotePort h) = Some port
     /\ r = Callback_get host port accessToken)
  \/ (exists path body, r = Callback_put h path body).

(** What the callback revision tells the context: [succeed] is given a
    discovery response or a confirmation, [fail] an error envelope or the
    bare string of an unknown namespace. *)
Definition callback_reply (p : Reply) : Prop :=
  match p with
  | Succeeded envelope =>
      is_legacy_envelope "Alexa.ConnectedHome.Discovery" "DiscoverAppliancesResponse" envelope
      || is_legacy_envelope "Alexa.ConnectedHome.Control" "TurnOnConfirmation" envelope
      || is_legacy_envelope "Alexa.ConnectedHome.Control" "TurnOffConfirmation" envelope
      = true
  | Failed v =>
      v = JStr "Something went wrong"
      \/ is_legacy_envelope "Alexa.ConnectedHome.Control" "UnsupportedOperationError" v
         || is_legacy_envelope "Alexa.ConnectedHome.Control" "DependentServiceUnavailableError" v
         = true
  end.
(* ================================================================== *)
(** ** Stepping through handler code *)

Lemma bind_ok {A B} (m : M A) (k : A -> M B) h s a s' :
  m h s = (Ok a, s') -> bind m k h s = k a h s'.
Proof. intros H. unfold bind. rewrite H. reflexivity. Qed.

Lemma bind_assoc {A B C} (m : M A) (f : A -> M B) (g : B -> M C) h s :
  bind (bind m f) g h s = bind m (fun a => bind (f a) g) h s.
Proof. unfold bind. destruct (m h s) as [[a | e | x] s']; reflexivity. Qed.

Lemma at_path_undefined ks : at_path JUndefined ks = JUndefined.
Proof. induction ks as [| k ks IH]; [reflexivity | exact IH]. Qed.

Lemma prop_field v k h s :
  is_nullish v = false -> prop v k h s = (Ok (field v k), s).
Proof. destruct v; simpl; intros E; try discriminate; reflexivity. Qed.

Lemma prop_path_readable ks : forall v h s,
  readable v ks = true -> prop_path v ks h s = (Ok (at_path v ks), s).
Proof.
  induction ks as [| k ks IH]; intros v h s R; simpl in *.
  - reflexivity.
  - apply andb_true_iff in R. destruct R as [N R].
    apply negb_true_iff in N.
    rewrite (bind_ok _ _ h s (field v k) s (prop_field v k h s N)).
    apply IH. exact R.
Qed.

Lemma truthy_not_nullish v : truthy v = true -> is_nullish v = false.
Proof. destruct v; simpl; intros E; try discriminate; reflexivity. Qed.

Lemma truthy_js_and a b : truthy (js_and a b) = truthy a && truthy b.
Proof. unfold js_and. destruct (truthy a) eqn:E; simpl; [reflexivity | exact E]. Qed.

Lemma and_then_prop v k (cont : JSValue -> M JSValue) h s :
  and_then v (x <- prop v k ;; cont x) h s =
  if truthy v then cont (field v k) h s else (Ok v, s).
Proof.
  unfold and_then. destruct (truthy v) eqn:E; [| reflexivity].
  apply bind_ok, prop_field, truthy_not_nullish, E.
Qed.

Lemma field_defined v k : field v k <> JUndefined -> exists props, v = JObj props.
Proof. destruct v; simpl; intros D; try (exfalso; apply D; reflexivity). eexists; reflexivity. Qed.

Lemma field_defined_truthy v k : field v k <> JUndefined -> truthy v = true.
Proof. intros D. destruct (field_defined v k D) as [props ->]. reflexivity. Qed.

Lemma at_path_defined_readable ks : forall v,
  at_path v ks <> JUndefined -> readable v ks = true.
Proof.
  induction ks as [| k ks IH]; intros v D; [reflexivity |].
  simpl. change (at_path v (k :: ks)) with (at_path (field v k) ks) in D.
  rewrite (IH _ D), andb_true_r.
  destruct v; simpl in *; try reflexivity;
    exfalso; apply D; apply at_path_undefined.
Qed.

(* ------------------------------------------------------------------ *)
(** *** Strings *)

Lemma to_int_normal (n : Z) : Decimal.norm (Z.to_int n) = Z.to_int n.
Proof. rewrite <- DecimalZ.to_of, DecimalZ.of_to. reflexivity. Qed.

Lemma string_of_Z_parses (n : Z) :
  NilZero.int_of_string (string_of_Z n) = Some (Z.to_int n).
Proof.
  unfold string_of_Z. apply NilZero.isi; intros E;
    pose proof (to_int_normal n) as N; rewrite E in N; discriminate N.
Qed.

Lemma string_of_Z_nonempty (n : Z) : string_of_Z n <> EmptyString.
Proof.
  intros E. pose proof (string_of_Z_parses n) as P. rewrite E in P. discriminate P.
Qed.

Lemma string_of_Z_inj (a b : Z) : string_of_Z a = string_of_Z b -> a = b.
Proof.
  intros E. apply DecimalZ.to_int_inj.
  pose proof (string_of_Z_parses a) as Pa. rewrite E, string_of_Z_parses in Pa.
  congruence.
Qed.

Lemma bytes_of_app (a b : string) : bytes_of (a ++ b) = (bytes_of a ++ bytes_of b)%list.
Proof.
  unfold bytes_of. induction a as [| c a IH]; [reflexivity |].
  simpl. rewrite IH. reflexivity.
Qed.

(** A text holds a character Node refuses when one of its parts does. *)
Lemma unescaped_app (a b : string) : unescaped (a ++ b) = unescaped a || unescaped b.
Proof. unfold unescaped. rewrite bytes_of_app. apply existsb_app. Qed.

Lemma replace_char_cons (a : ascii) (rep : string) (c : ascii) (rest : string) :
  replace (String a EmptyString) rep (String c rest)
  = if Ascii.eqb a c then rep ++ rest
    else String c (replace (String a EmptyString) rep rest).
Proof. cbn -[Ascii.eqb]. rewrite andb_true_r. reflexivity. Qed.

Lemma includes_char_cons (a c : ascii) (rest : string) :
  includes (String a EmptyString) (String c rest)
  = Ascii.eqb a c || includes (String a EmptyString) rest.
Proof. cbn -[Ascii.eqb]. rewrite andb_true_r. reflexivity. Qed.

(** Decoding undoes encoding on every id without a ['#'], however many
    dots it has. *)
Lemma decode_encode (id : string) : includes "#" id = false -> decode_id (encode_id id) = id.
Proof.
  unfold decode_id, encode_id.
  induction id as [| c rest IH]; intros NoHash; [reflexivity |].
  rewrite includes_char_cons in NoHash. apply orb_false_iff in NoHash.
  destruct NoHash as [NotHash NoHashRest].
  rewrite replace_char_cons.
  destruct (Ascii.eqb_spec "." c) as [<- | NotDot].
  - reflexivity.
  - rewrite replace_char_cons, NotHash, (IH NoHashRest). reflexivity.
Qed.

(* ------------------------------------------------------------------ *)
(** *** Validity and dispatch *)

(** [isEventValid] never throws and returns [validity event]. *)
Lemma isEventValid_validity event h s :
  Index.isEventValid event h s = (Ok (validity event), s).
Proof.
  unfold Index.isEventValid, validity, header_field, at_path, js_and. simpl.
  rewrite and_then_prop. destruct (truthy event); [| reflexivity].
  rewrite and_then_prop. destruct (truthy (field event "directive")); [| reflexivity].
  rewrite and_then_prop.
  destruct (truthy (field (field event "directive") "header")) eqn:H; [| reflexivity].
  unfold and_then.
  destruct (truthy (field (field (field event "directive") "header") "namespace"));
    [| reflexivity].
  apply prop_field, truthy_not_nullish, H.
Qed.

Lemma truthy_validity event :
  truthy (validity event) =
  truthy event && truthy (field event "directive")
  && truthy (at_path event ["directive"; "header"])
  && truthy (header_field event "namespace") && truthy (header_field event "name").
Proof.
  unfold validity. rewrite !truthy_js_and. rewrite !andb_assoc. reflexivity.
Qed.

Lemma missing_invalid event :
  truthy (header_field event "namespace") = false
  \/ truthy (header_field event "name") = false ->
  truthy (validity event) = false.
Proof.
  rewrite truthy_validity. intros [H | H]; rewrite H.
  - rewrite andb_false_r. reflexivity.
  - apply andb_false_r.
Qed.

(** A valid event has a header to read from. *)
Lemma valid_header_readable event k :
  truthy (validity event) = true -> readable event ["directive"; "header"; k] = true.
Proof.
  rewrite truthy_validity. intros H.
  repeat (apply andb_true_iff in H; destruct H as [H ?]).
  simpl. unfold at_path in *. simpl in *.
  rewrite !truthy_not_nullish by assumption. reflexivity.
Qed.

(** An event whose header carries non-empty strings for [namespace] and
    [name] is valid. *)
Lemma header_strings_valid event namespace name :
  header_field event "namespace" = JStr namespace ->
  header_field event "name" = JStr name ->
  namespace <> EmptyString -> name <> EmptyString ->
  truthy (validity event) = true.
Proof.
  intros Hns Hn Ens En. rewrite truthy_validity, Hns, Hn.
  unfold header_field, at_path in *. simpl in *.
  assert (D : field (field (field event "directive") "header") "namespace" <> JUndefined)
    by (rewrite Hns; discriminate).
  pose proof (field_defined_truthy _ _ D) as T3.
  assert (D2 : field (field event "directive") "header" <> JUndefined)
    by (intros E; rewrite E in T3; discriminate T3).
  pose proof (field_defined_truthy _ _ D2) as T2.
  assert (D1 : field event "directive" <> JUndefined)
    by (intros E; rewrite E in T2; discriminate T2).
  pose proof (field_defined_truthy _ _ D1) as T1.
  rewrite T1, T2, T3. simpl.
  destruct (String.eqb_spec namespace ""); [contradiction |].
  destruct (String.eqb_spec name ""); [contradiction |]. reflexivity.
Qed.

Section Routing.

Variables (h : Host) (event : JSValue) (context : Context) (namespace : string).
Hypothesis Valid : truthy (validity event) = true.
Hypothesis Namespace : header_field event "namespace" = JStr namespace.

Lemma read_namespace s :
  prop_path event ["directive"; "header"; "namespace"] h s = (Ok (JStr namespace), s).
Proof.
  rewrite (prop_path_readable _ _ h s (valid_header_readable event "namespace" Valid)).
  f_equal. f_equal. exact Namespace.
Qed.

Lemma read_name s :
  prop_path event ["directive"; "header"; "name"] h s = (Ok (header_field event "name"), s).
Proof.
  apply (prop_path_readable _ _ h s (valid_header_readable event "name" Valid)).
Qed.

Lemma Index_handler_routes :
  run h (Index.handler event context) = run h (Index_route namespace event context).
Proof.
  unfold run, Index.handler.
  rewrite (bind_ok _ _ h start _ _ (isEventValid_validity event h start)), Valid.
  rewrite (bind_ok _ _ h start _ _ (read_namespace start)).
  reflexivity.
Qed.

Lemma CodeV3_handler_routes :
  run h (CodeV3.handler event context) = run h (CodeV3_route namespace event context).
Proof.
  unfold run, CodeV3.handler, CodeV3.isEventValid.
  rewrite (bind_ok _ _ h start _ _ (isEventValid_validity event h start)), Valid.
  rewrite (bind_ok _ _ h start _ _ (read_namespace start)).
  reflexivity.
Qed.

Lemma Latest_handler_routes :
  run h (Latest.handler event context) = run h (Latest_route namespace event context).
Proof.
  unfold run, Latest.handler. change Latest.isEventValid with Index.isEventValid.
  rewrite (bind_ok _ _ h start _ _ (isEventValid_validity event h start)), Valid.
  rewrite (bind_ok _ _ h start _ _ (read_namespace start)).
  reflexivity.
Qed.

End Routing.

(* ------------------------------------------------------------------ *)
(** *** The transport, call by call *)

Lemma request_issued opts postData h s :
  refused opts = false ->
  request opts postData h s
  = (Ok (backend h (mkRequest opts postData)), issued s (mkRequest opts postData)).
Proof. intros R. unfold request. rewrite R. reflexivity. Qed.

Lemma request_refused opts postData h s :
  refused opts = true -> request opts postData h s = (Throw ERR_UNESCAPED_CHARACTERS, s).
Proof. intros R. unfold request. rewrite R. reflexivity. Qed.

Lemma to_string_ok v text h s : ToString v = Some text -> to_string v h s = (Ok text, s).
Proof. intros T. unfold to_string. rewrite T. reflexivity. Qed.

Lemma to_string_throws v h s :
  ToString v = None ->
  to_string v h s = (Throw (TypeError "Cannot convert object to primitive value"), s).
Proof. intros T. unfold to_string. rewrite T. reflexivity. Qed.

Lemma assignM_ok target source props h s :
  assign target source = Some props -> assignM target source h s = (Ok (JObj props), s).
Proof. intros A. unfold assignM. rewrite A. reflexivity. Qed.

(** Below 2^53 a number prints its digits. *)
Lemma Number_toString_digits (n : Z) :
  (Z.abs n < 2 ^ 53)%Z -> Number_toString n = string_of_Z n.
Proof.
  intros B. unfold Number_toString.
  destruct (Z.ltb_spec (Z.abs n) (2 ^ 53)) as [_ | L]; [reflexivity | lia].
Qed.

Lemma status_200_cases (sc : Z) :
  (sc = 200%Z /\ (sc =? 200)%Z = true) \/
  ((sc =? 200)%Z = false /\
   match JNum sc with JNum 200 => false | _ => true end = true).
Proof.
  destruct (Z.eqb_spec sc 200) as [E | N]; [left; split; [exact E | reflexivity] |].
  right. split; [reflexivity |].
  destruct sc as [| p | p]; try reflexivity.
  do 8 (destruct p as [p | p |]; try reflexivity).
  exfalso. apply N. reflexivity.
Qed.

Lemma Index_httpPromise_spec opts postData h s :
  refused opts = false ->
  Index.httpPromise opts postData h s =
  (match backend h (mkRequest opts postData) with
   | SocketError e => Throw e
   | Response sc hd text => Ok (response_object sc hd text)
   end, issued s (mkRequest opts postData)).
Proof.
  intros R. unfold Index.httpPromise.
  rewrite (bind_ok _ _ h s _ _ (request_issued opts postData h s R)).
  destruct (backend h _); reflexivity.
Qed.

Lemma Index_httpPromise_refused opts postData h s :
  refused opts = true ->
  Index.httpPromise opts postData h s = (Throw ERR_UNESCAPED_CHARACTERS, s).
Proof.
  intros R. unfold Index.httpPromise, bind. rewrite (request_refused opts postData h s R).
  reflexivity.
Qed.

Lemma CodeV3_httpPromise_spec opts postData h s :
  refused opts = false ->
  CodeV3.httpPromise opts postData h s =
  (match backend h (mkRequest opts postData) with
   | SocketError e => Throw e
   | Response sc hd text =>
       if (sc =? 200)%Z then Ok (response_object sc hd text)
       else Throw (Error ("HTTP " ++ Number_toString sc))
   end, issued s (mkRequest opts postData)).
Proof.
  intros R. unfold CodeV3.httpPromise, then_. unfold bind at 1.
  rewrite (Index_httpPromise_spec _ _ _ _ R).
  destruct (backend h _) as [e | sc hd text]; [reflexivity |].
  destruct (status_200_cases sc) as [[-> _] | [F NE]]; [reflexivity |].
  rewrite F. unfold bind, to_string. simpl.
  destruct sc as [| p | p]; try reflexivity.
  do 8 (destruct p as [p | p |]; try reflexivity). discriminate NE.
Qed.

Lemma CodeV3_httpPromise_refused opts postData h s :
  refused opts = true ->
  CodeV3.httpPromise opts postData h s = (Throw ERR_UNESCAPED_CHARACTERS, s).
Proof.
  intros R. unfold CodeV3.httpPromise, then_, bind.
  rewrite (Index_httpPromise_refused _ _ _ _ R). reflexivity.
Qed.

Lemma Index_get_spec path h s :
  unescaped path = false ->
  Index.get path h s =
  (match backend h (Index_request h "GET" path None) with
   | SocketError e => Throw e
   | Response sc hd text => Ok (response_object sc hd text)
   end, issued s (Index_request h "GET" path None)).
Proof.
  intros U. unfold Index.get, Index.getOptions, bind at 1, env_remoteHost, env_remotePort, ret.
  simpl. apply Index_httpPromise_spec. exact U.
Qed.

Lemma Index_get_refused path h s :
  unescaped path = true -> Index.get path h s = (Throw ERR_UNESCAPED_CHARACTERS, s).
Proof.
  intros U. unfold Index.get, Index.getOptions, bind at 1, env_remoteHost, env_remotePort, ret.
  simpl. apply Index_httpPromise_refused. exact U.
Qed.

Lemma Index_put_spec path body h s :
  unescaped path = false ->
  Index.put path body h s =
  (match backend h (Index_request h "PUT" path (Some body)) with
   | SocketError e => Throw e
   | Response sc hd text => Ok (response_object sc hd text)
   end, issued s (Index_request h "PUT" path (Some body))).
Proof.
  intros U. unfold Index.put, Index.getOptions, bind at 1, env_remoteHost, env_remotePort, ret.
  simpl. apply Index_httpPromise_spec. exact U.
Qed.

Lemma Index_put_refused path body h s :
  unescaped path = true -> Index.put path body h s = (Throw ERR_UNESCAPED_CHARACTERS, s).
Proof.
  intros U. unfold Index.put, Index.getOptions, bind at 1, env_remoteHost, env_remotePort, ret.
  simpl. apply Index_httpPromise_refused. exact U.
Qed.

Lemma CodeV3_put_spec path body h s :
  unescaped path = false ->
  CodeV3.put path body h s =
  (match backend h (Index_request h "PUT" path (Some body)) with
   | SocketError e => Throw e
   | Response sc hd text =>
       if (sc =? 200)%Z then Ok (response_object sc hd text)
       else Throw (Error ("HTTP " ++ Number_toString sc))
   end, issued s (Index_request h "PUT" path (Some body))).
Proof.
  intros U. unfold CodeV3.put, CodeV3.getOptions, Index.getOptions, bind at 1, env_remoteHost,
    env_remotePort, ret. simpl.
  apply CodeV3_httpPromise_spec. exact U.
Qed.

Lemma CodeV3_put_refused path body h s :
  unescaped path = true -> CodeV3.put path body h s = (Throw ERR_UNESCAPED_CHARACTERS, s).
Proof.
  intros U. unfold CodeV3.put, CodeV3.getOptions, Index.getOptions, bind at 1, env_remoteHost,
    env_remotePort, ret. simpl.
  apply CodeV3_httpPromise_refused. exact U.
Qed.

Lemma Latest_httpPromise_spec opts postString h s :
  refused opts = false ->
  Latest.httpPromise opts postString h s =
  (match backend h (mkRequest opts postString) with
   | SocketError e => Throw e
   | Response sc hd text =>
       if (sc =? 200)%Z then
         match JSON_parse h text with
         | Some v => Ok v
         | None => Stuck (UncaughtException (SyntaxError "Unexpected token in JSON"))
         end
       else Throw (Error ("HTTP " ++ Number_toString sc))
   end, Latest_issued s (mkRequest opts postString)).
Proof.
  intros R. unfold Latest.httpPromise.
  rewrite (bind_ok _ _ h s _ _
             (eq_refl : Date_now h s = (Ok (JNum (clock h (ticks s))), ticked s))).
  rewrite (bind_ok _ _ h _ _ _ (request_issued opts postString h _ R)).
  unfold Latest_issued, issued, ticked, listener, parse, bind, throw, Date_now. simpl.
  destruct (backend h _) as [e | sc hd text]; [reflexivity |].
  destruct (sc =? 200)%Z; [| reflexivity].
  destruct (JSON_parse h text); reflexivity.
Qed.

(** A refused request of the latest shim: the clock was read once, nothing
    was sent. *)
Lemma Latest_httpPromise_refused opts postString h s :
  refused opts = true ->
  Latest.httpPromise opts postString h s = (Throw ERR_UNESCAPED_CHARACTERS, ticked s).
Proof.
  intros R. unfold Latest.httpPromise.
  rewrite (bind_ok _ _ h s _ _
             (eq_refl : Date_now h s = (Ok (JNum (clock h (ticks s))), ticked s))).
  unfold bind. rewrite (request_refused opts postString h _ R). reflexivity.
Qed.

Lemma Latest_post_spec path postData h s :
  unescaped path = false ->
  let req := Latest_request h "POST" path (Some (stringify_object postData)) in
  Latest.post path postData h s =
  (match backend h req with
   | SocketError e => Throw e
   | Response sc hd text =>
       if (sc =? 200)%Z then
         match JSON_parse h text with
         | Some v => Ok v
         | None => Stuck (UncaughtException (SyntaxError "Unexpected token in JSON"))
         end
       else Throw (Error ("HTTP " ++ Number_toString sc))
   end, Latest_issued s req).
Proof.
  intros U. cbv zeta.
  change (Latest.post path postData h s)
    with (Latest.httpPromise
            (options (Latest_request h "POST" path (Some (stringify_object postData))))
            (Some (stringify_object postData)) h s).
  apply Latest_httpPromise_spec. exact U.
Qed.

(** A refused POST: the clock was read once, nothing was sent. *)
Lemma Latest_post_refused path postData h s :
  unescaped path = true ->
  Latest.post path postData h s = (Throw ERR_UNESCAPED_CHARACTERS, ticked s).
Proof.
  intros U.
  change (Latest.post path postData h s)
    with (Latest.httpPromise
            (options (Latest_request h "POST" path (Some (stringify_object postData))))
            (Some (stringify_object postData)) h s).
  apply Latest_httpPromise_refused. exact U.
Qed.

(** [getEndpointId] on an event that carries a string. *)
Lemma Latest_getEndpointId_spec event id h s :
  at_path event ["directive"; "endpoint"; "endpointId"] = JStr id ->
  Latest.getEndpointId event h s = (Ok (JStr (replace "#" "." id)), s).
Proof.
  intros E. unfold Latest.getEndpointId.
  assert (R : readable event ["directive"; "endpoint"; "endpointId"] = true)
    by (apply at_path_defined_readable; rewrite E; discriminate).
  rewrite (bind_ok _ _ h s _ _ (prop_path_readable _ _ h s R)), E. reflexivity.
Qed.

(* ------------------------------------------------------------------ *)
(** *** Computations that leave the state alone *)

Lemma quiet_ret {A} (a : A) : quiet (ret a).
Proof. intros h s. exists (Ok a). split; [reflexivity | discriminate]. Qed.

Lemma quiet_throw {A} (e : JSError) : quiet (@throw A e).
Proof. intros h s. exists (Throw e). split; [reflexivity | discriminate]. Qed.

Lemma quiet_bind {A B} (m : M A) (k : A -> M B) :
  quiet m -> (forall a, quiet (k a)) -> quiet (bind m k).
Proof.
  intros Qm Qk h s. destruct (Qm h s) as [r [E NS]]. unfold bind. rewrite E.
  destruct r as [a | e | f].
  - apply Qk.
  - exists (Throw e). split; [reflexivity | discriminate].
  - exfalso. apply (NS f). reflexivity.
Qed.

Lemma quiet_prop v k : quiet (prop v k).
Proof. destruct v; simpl; first [apply quiet_ret | apply quiet_throw]. Qed.

Lemma quiet_parse text : quiet (parse text).
Proof.
  intros h s. unfold parse. destruct (JSON_parse h text) as [v |].
  - exists (Ok v). split; [reflexivity | discriminate].
  - eexists. split; [reflexivity | discriminate].
Qed.

Lemma quiet_and_then a (b : M JSValue) : quiet b -> quiet (and_then a b).
Proof. intros Q. unfold and_then. destruct (truthy a); [exact Q | apply quiet_ret]. Qed.

Lemma quiet_to_string v : quiet (to_string v).
Proof. unfold to_string. destruct (ToString v); [apply quiet_ret | apply quiet_throw]. Qed.

Lemma quiet_assignM target source : quiet (assignM target source).
Proof.
  unfold assignM. destruct (assign target source); [apply quiet_ret | apply quiet_throw].
Qed.

Lemma quiet_filterM keep xs : (forall x, quiet (keep x)) -> quiet (filterM keep xs).
Proof.
  intros Q. induction xs as [| x xs IH]; simpl.
  - apply quiet_ret.
  - apply quiet_bind; [apply Q | intros k].
    apply quiet_bind; [exact IH | intros ys]. apply quiet_ret.
Qed.

Lemma quiet_mapM f xs : (forall x, quiet (f x)) -> quiet (mapM f xs).
Proof.
  intros Q. induction xs as [| x xs IH]; simpl.
  - apply quiet_ret.
  - apply quiet_bind; [apply Q | intros y].
    apply quiet_bind; [exact IH | intros ys]. apply quiet_ret.
Qed.

Lemma quiet_method_filter v keep : (forall x, quiet (keep x)) -> quiet (method_filter v keep).
Proof.
  intros Q. destruct v; simpl; try apply quiet_throw.
  apply quiet_bind; [apply quiet_filterM, Q | intros ys; apply quiet_ret].
Qed.

Lemma quiet_method_map v f : (forall x, quiet (f x)) -> quiet (method_map v f).
Proof.
  intros Q. destruct v; simpl; try apply quiet_throw.
  apply quiet_bind; [apply quiet_mapM, Q | intros ys; apply quiet_ret].
Qed.

Ltac quiet_steps :=
  repeat first
    [ apply quiet_ret
    | apply quiet_throw
    | apply quiet_prop
    | apply quiet_parse
    | apply quiet_to_string
    | apply quiet_assignM
    | apply quiet_and_then
    | apply quiet_bind; [| intros ?] ].

Lemma quiet_Index_isEndpointSupported endpoint : quiet (Index.isEndpointSupported endpoint).
Proof. unfold Index.isEndpointSupported. quiet_steps. Qed.

Lemma quiet_Index_toAlexaEndpoint endpoint : quiet (Index.toAlexaEndpoint endpoint).
Proof. unfold Index.toAlexaEndpoint, Index.getEndpointCapabilities. quiet_steps. Qed.

Lemma quiet_Index_endpoints_of endpointResponse : quiet (Index_endpoints_of endpointResponse).
Proof.
  unfold Index_endpoints_of.
  apply quiet_bind; [unfold Index.parse_responseText; quiet_steps | intros endpoints].
  apply quiet_bind; [apply quiet_method_filter, quiet_Index_isEndpointSupported | intros ys].
  apply quiet_method_map, quiet_Index_toAlexaEndpoint.
Qed.

(* ================================================================== *)
(** ** C1: discovery *)

(** C1, at a 200 whose body is not JSON.  In the latest revision the shim
    parses the body inside the response's ['end'] listener: the SyntaxError
    is thrown there, the promise never settles, and the context is told
    nothing.  [index.js], which parses inside the promise chain, answers the
    same transport with a discovery response whose endpoint list is empty. *)
Theorem latest_discovery_unparsable_body :
  let h := example_host (Response 200 (JObj []) "<html>") in
  let discover := directive Alexa_Discovery "Discover" "e1" in
  JSON_parse h "<html>" = None
  /\ run h (Latest.handler discover LambdaContext)
     = (Stuck (UncaughtException (SyntaxError "Unexpected token in JSON")),
        mkSt 2 [Latest_request h "GET" "/endpoints?access_token=tok" None] [])
  /\ exists envelope,
       run h (Index.handler discover LambdaContext)
         = (Ok tt, mkSt 1 [Index_request h "GET" "/endpoints?access_token=tok" None]
                     [Succeeded envelope])
       /\ is_discovery_response envelope = true
       /\ at_path envelope ["event"; "payload"; "endpoints"] = JArr [].
Proof.
  cbv zeta. split; [reflexivity |]. split; [reflexivity |].
  eexists. split; [vm_compute; reflexivity | repeat split].
Qed.

(** For every Discovery directive that carries a string token, whatever the
    transport does and whatever the body holds, [index.js] tells the
    context one success: a discovery response.  It issues its one GET
    unless Node refuses the path.  When the path is refused, the socket
    fails or the body does not parse, the endpoint list is empty. *)
Lemma Index_discovery_always_succeeds (h : Host) (event : JSValue) (context : Context)
    (name token : string) :
  header_field event "namespace" = JStr Alexa_Discovery ->
  header_field event "name" = JStr name ->
  name <> EmptyString ->
  at_path event ["directive"; "payload"; "scope"; "token"] = JStr token ->
  let path := "/endpoints?access_token=" ++ trim token in
  let req := Index_request h "GET" path None in
  exists endpoints,
    run h (Index.handler event context)
      = (Ok tt, mkSt 1 (if unescaped path then [] else [req])
                  [Succeeded (discovery_response (clock h 0) endpoints)])
    /\ (unescaped path = true -> endpoints = JArr [])
    /\ (match backend h req with
        | SocketError _ => endpoints = JArr []
        | Response _ _ text => JSON_parse h text = None -> endpoints = JArr []
        end).
Proof.
  intros Namespace Name NonEmpty Token. cbv zeta.
  assert (Valid : truthy (validity event) = true)
    by (apply (header_strings_valid event _ _ Namespace Name); [discriminate | exact NonEmpty]).
  assert (RT : readable event ["directive"; "payload"; "scope"; "token"] = true)
    by (apply at_path_defined_readable; rewrite Token; discriminate).
  rewrite (Index_handler_routes h event context _ Valid Namespace).
  unfold Index_route, run, Index.handleDiscoveryEvent. simpl (_ =? _). cbv iota.
  rewrite (bind_ok _ _ h start _ _ (prop_path_readable _ _ h start RT)), Token.
  simpl (method_trim _). unfold bind at 1. unfold ret at 1. cbv iota beta.
  rewrite (bind_ok _ _ h start _ _ (to_string_ok (JStr _) _ h start eq_refl)).
  unfold detach, catch_, then_.
  rewrite !bind_assoc. unfold bind at 1.
  destruct (unescaped ("/endpoints?access_token=" ++ trim token)) eqn:U.
  { rewrite (Index_get_refused _ h start U). exists (JArr []).
    split; [reflexivity |]. split; [reflexivity |].
    destruct (backend h _); reflexivity. }
  rewrite (Index_get_spec _ h start U).
  destruct (backend h _) as [e | sc hd text].
  - exists (JArr []). split; [reflexivity | split; [discriminate | reflexivity]].
  - rewrite <- bind_assoc.
    destruct (quiet_Index_endpoints_of (response_object sc hd text) h
                (issued start (Index_request h "GET"
                   ("/endpoints?access_token=" ++ trim token) None)))
      as [r [E NS]].
    assert (P : JSON_parse h text = None -> exists e, r = Throw e).
    { intros PN.
      unfold Index_endpoints_of, Index.parse_responseText, response_object, bind, prop,
        parse in E.
      simpl in E. rewrite PN in E. injection E as <-. eexists; reflexivity. }
    unfold Index_endpoints_of in E.
    unfold bind at 1. rewrite E.
    destruct r as [endpoints | e | f].
    + exists endpoints. split; [reflexivity |]. split; [discriminate |].
      intros PN. destruct (P PN) as [e D]. discriminate D.
    + exists (JArr []). split; [reflexivity | split; [discriminate | reflexivity]].
    + exfalso. apply (NS f). reflexivity.
Qed.

(* ================================================================== *)
(** ** C2: the capability resolver *)

Ltac by_device_type t :=
  destruct t as [| | b | n | name | xs | ps]; try reflexivity;
  unfold strict_eq_str;
  destruct (String.eqb_spec name "switchBinary") as [-> | _]; [reflexivity |];
  destruct (String.eqb_spec name "television") as [-> | _]; [reflexivity |];
  destruct (String.eqb_spec name "roku") as [-> | _]; reflexivity.

(** C2, as the code has it.  For every device descriptor, the resolver of
    [index.js] returns exactly the capabilities of the specification's table
    for the descriptor's type (none for a type outside the table); the
    resolver of [code.js] returns the same except for a television, which
    gets power, channel, step-speaker and input but no playback. *)
Theorem capabilities_by_revision (h : Host) (s : St) (props : list (string * JSValue)) :
  Index.getEndpointCapabilities (JObj props) h s
    = (Ok (JArr (map getCapability (capabilitiesFor (lookup "type" props)))), s)
  /\ CodeV3.getEndpointCapabilities (JObj props) h s
    = (Ok (JArr (map getCapability (capabilitiesFor_code (lookup "type" props)))), s)
  /\ (forall t, strict_eq_str t "television" = false ->
         capabilitiesFor_code t = capabilitiesFor t)
  /\ capabilitiesFor_code (JStr "television")
     = [Alexa_PowerController; Alexa_ChannelController;
        Alexa_StepSpeaker; Alexa_InputController].
Proof.
  unfold Index.getEndpointCapabilities, CodeV3.getEndpointCapabilities,
    capabilitiesFor, capabilitiesFor_code, bind, prop, ret.
  repeat split.
  - by_device_type (lookup "type" props).
  - by_device_type (lookup "type" props).
  - intros t T. rewrite T. reflexivity.
Qed.

(** The resolver of [code.js] on a television: four capabilities, playback
    not among them, where the table has five. *)
Lemma capabilities_television_counterexample :
  fst (CodeV3.getEndpointCapabilities (JObj [("type", JStr "television")])
         (example_host (SocketError (Error "unused"))) start)
    = Ok (JArr (map getCapability
           [Alexa_PowerController; Alexa_ChannelController;
            Alexa_StepSpeaker; Alexa_InputController]))
  /\ capabilitiesFor (JStr "television")
    = [Alexa_PowerController; Alexa_ChannelController; Alexa_PlaybackController;
       Alexa_StepSpeaker; Alexa_InputController].
Proof. split; reflexivity. Qed.

(* ================================================================== *)
(** ** C3: malformed envelopes *)

(** C3.  In each versioned revision ([index.js], the third file of
    [code.js], the latest one), an inbound envelope whose directive header
    has no [namespace] or no [name] (the field is missing, or it holds a
    falsy value such as [null] or the empty string) makes the handler fail
    with an [INTERNAL_ERROR] error envelope; the handler returns before it
    dispatches and issues no request. *)
Theorem malformed_event_internal_error (h : Host) (event : JSValue) (context : Context) :
  truthy (header_field event "namespace") = false
  \/ truthy (header_field event "name") = false ->
  failed_without_transport internalError (run h (Index.handler event context))
  /\ failed_without_transport internalError (run h (CodeV3.handler event context))
  /\ failed_without_transport internalError (run h (Latest.handler event context)).
Proof.
  intros Missing. apply missing_invalid in Missing.
  unfold run, Index.handler, CodeV3.handler, Latest.handler,
    CodeV3.isEventValid, CodeV3.getErrorResponse.
  change Latest.isEventValid with Index.isEventValid.
  rewrite !(bind_ok _ _ h start _ _ (isEventValid_validity event h start)).
  rewrite Missing.
  repeat split; try reflexivity; eexists; split; reflexivity.
Qed.

(** The empty object is malformed: it has no directive at all. *)
Lemma malformed_event_internal_error_witness :
  header_field (JObj []) "namespace" = JUndefined
  /\ failed_without_transport internalError
       (run (example_host (SocketError (Error "unused"))) (Index.handler (JObj []) LambdaContext)).
Proof.
  split; [reflexivity |].
  apply (malformed_event_internal_error
           (example_host (SocketError (Error "unused"))) (JObj []) LambdaContext).
  left; reflexivity.
Defined.

(* ================================================================== *)
(** ** C4: directive names outside a namespace's set *)

Lemma not_turn_on_off name h s :
  ~ In name ["TurnOn"; "TurnOff"] -> test_TurnOnOff (JStr name) h s = (Ok false, s).
Proof.
  intros NotIn. unfold test_TurnOnOff.
  rewrite (bind_ok _ _ h s _ _ (to_string_ok (JStr name) name h s eq_refl)). unfold ret.
  destruct (String.eqb_spec name "TurnOn") as [-> | _];
    [exfalso; apply NotIn; simpl; tauto |].
  destruct (String.eqb_spec name "TurnOff") as [-> | _];
    [exfalso; apply NotIn; simpl; tauto | reflexivity].
Qed.

Lemma turn_on_off name h s :
  In name ["TurnOn"; "TurnOff"] -> test_TurnOnOff (JStr name) h s = (Ok true, s).
Proof.
  intros Member. simpl in Member. destruct Member as [<- | [<- | []]]; reflexivity.
Qed.

(** A name outside a list is not [===] to any of its members. *)
Lemma not_in_not_eq name names candidate :
  ~ In name names -> In candidate names -> strict_eq_str (JStr name) candidate = false.
Proof.
  intros NotIn Member. simpl.
  destruct (String.eqb_spec name candidate) as [-> | _]; [contradiction | reflexivity].
Qed.

Lemma not_in_not_playback name :
  ~ In name SUPPORTED_PLAYBACK_DIRECTIVES -> CodeV3.isPlaybackDirectiveValid (JStr name) = false.
Proof.
  intros NotIn. unfold CodeV3.isPlaybackDirectiveValid.
  apply not_true_is_false. intros E. apply existsb_exists in E.
  destruct E as [candidate [Member Eq]].
  rewrite (not_in_not_eq name _ candidate NotIn Member) in Eq. discriminate Eq.
Qed.

(** C4, as the code has it.  A directive with a non-empty name outside
    the supported set of its namespace makes the handler fail with an
    [INVALID_DIRECTIVE] error envelope, and no request is issued:
    in all three versioned revisions for [Alexa.PowerController] and
    [Alexa.ChannelController]; in the third file of [code.js] and in the
    latest revision also for [Alexa.InputController], [Alexa.StepSpeaker]
    and [Alexa.PlaybackController], when the directive carries a string
    endpoint id and a scope to read the token from (and, for the input
    controller, a payload). *)
Theorem unsupported_name_invalid_directive (h : Host) (event : JSValue) (context : Context)
    (namespace name : string) :
  header_field event "namespace" = JStr namespace ->
  header_field event "name" = JStr name ->
  name <> EmptyString ->
  ~ In name (supported_names namespace) ->
  (namespace = Alexa_PowerController \/ namespace = Alexa_ChannelController ->
   failed_without_transport invalidDirective (run h (Index.handler event context))
   /\ failed_without_transport invalidDirective (run h (CodeV3.handler event context))
   /\ failed_without_transport invalidDirective (run h (Latest.handler event context)))
  /\ (namespace = Alexa_InputController \/ namespace = Alexa_StepSpeaker
      \/ namespace = Alexa_PlaybackController ->
      forall endpointId,
        at_path event ["directive"; "endpoint"; "endpointId"] = JStr endpointId ->
        readable event ["directive"; "endpoint"; "scope"; "token"] = true ->
        (namespace = Alexa_InputController ->
         readable event ["directive"; "payload"; "input"] = true) ->
        failed_without_transport invalidDirective (run h (CodeV3.handler event context))
        /\ failed_without_transport invalidDirective (run h (Latest.handler event context))).
Proof.
  intros Namespace Name NonEmpty Unsupported.
  assert (Valid : namespace <> EmptyString -> truthy (validity event) = true)
    by (intros N; apply (header_strings_valid event _ _ Namespace Name N NonEmpty)).
  split.
  - intros Which.
    assert (V : truthy (validity event) = true)
      by (apply Valid; destruct Which as [-> | ->]; discriminate).
    rewrite (Index_handler_routes h event context _ V Namespace).
    rewrite (CodeV3_handler_routes h event context _ V Namespace).
    rewrite (Latest_handler_routes h event context _ V Namespace).
    destruct Which as [-> | ->];
      unfold supported_names in Unsupported; simpl (_ =? _) in Unsupported;
      cbv iota in Unsupported;
      unfold Index_route, CodeV3_route, Latest_route, run; simpl (_ =? _); cbv iota.
    + unfold Index.handlePowerControlEvent, CodeV3.handlePowerControlEvent,
        Latest.handlePowerControlEvent, CodeV3.getDirectiveName, Latest.getDirectiveName.
      rewrite !(bind_ok _ _ h start _ _ (read_name h event V start)), Name.
      rewrite !(bind_ok _ _ h start _ _ (not_turn_on_off name h start Unsupported)).
      simpl (negb _). cbv iota.
      repeat split; try reflexivity; eexists; split; reflexivity.
    + unfold Index.handleChannelControlEvent, CodeV3.handleChannelControlEvent,
        Latest.handleChannelControlEvent, CodeV3.getDirectiveName, Latest.getDirectiveName.
      rewrite !(bind_ok _ _ h start _ _ (read_name h event V start)), Name.
      rewrite !(not_in_not_eq name _ "ChangeChannel" Unsupported) by (simpl; tauto).
      rewrite !(not_in_not_eq name _ "SkipChannels" Unsupported) by (simpl; tauto).
      repeat split; try reflexivity; eexists; split; reflexivity.
  - intros Which endpointId Endpoint Scope Payload.
    assert (V : truthy (validity event) = true)
      by (apply Valid; destruct Which as [-> | [-> | ->]]; discriminate).
    assert (RE : readable event ["directive"; "endpoint"; "endpointId"] = true)
      by (apply at_path_defined_readable; rewrite Endpoint; discriminate).
    rewrite (CodeV3_handler_routes h event context _ V Namespace).
    rewrite (Latest_handler_routes h event context _ V Namespace).
    destruct Which as [-> | [-> | ->]];
      unfold supported_names in Unsupported; simpl (_ =? _) in Unsupported;
      cbv iota in Unsupported;
      unfold CodeV3_route, Latest_route, run; simpl (_ =? _); cbv iota.
    + unfold CodeV3.handleInputControlEvent, Latest.handleInputControlEvent,
        CodeV3.getDirectiveName, Latest.getDirectiveName, CodeV3.getEndpointId,
        CodeV3.getEndpointToken, Latest.getEndpointToken.
      rewrite !(bind_ok _ _ h start _ _ (read_name h event V start)), Name.
      rewrite (bind_ok _ _ h start _ _ (prop_path_readable _ _ h start RE)).
      rewrite (bind_ok _ _ h start _ _ (Latest_getEndpointId_spec event _ h start Endpoint)).
      rewrite !(bind_ok _ _ h start _ _ (prop_path_readable _ _ h start Scope)).
      rewrite !(bind_ok _ _ h start _ _ (prop_path_readable _ _ h start (Payload eq_refl))).
      rewrite !(not_in_not_eq name _ "SelectInput" Unsupported) by (simpl; tauto).
      repeat split; try reflexivity; eexists; split; reflexivity.
    + unfold CodeV3.handleStepSpeakerEvent, Latest.handleStepSpeakerEvent,
        CodeV3.getDirectiveName, Latest.getDirectiveName, CodeV3.getEndpointId,
        CodeV3.getEndpointToken, Latest.getEndpointToken.
      rewrite !(bind_ok _ _ h start _ _ (read_name h event V start)), Name.
      rewrite (bind_ok _ _ h start _ _ (prop_path_readable _ _ h start RE)).
      rewrite (bind_ok _ _ h start _ _ (Latest_getEndpointId_spec event _ h start Endpoint)).
      rewrite !(bind_ok _ _ h start _ _ (prop_path_readable _ _ h start Scope)).
      rewrite !(not_in_not_eq name _ "SetMute" Unsupported) by (simpl; tauto).
      rewrite !(not_in_not_eq name _ "AdjustVolume" Unsupported) by (simpl; tauto).
      repeat split; try reflexivity; eexists; split; reflexivity.
    + unfold CodeV3.handlePlaybackControlEvent, Latest.handlePlaybackControlEvent,
        CodeV3.getDirectiveName, Latest.getDirectiveName, CodeV3.getEndpointId,
        CodeV3.getEndpointToken, Latest.getEndpointToken.
      rewrite !(bind_ok _ _ h start _ _ (read_name h event V start)), Name.
      rewrite (bind_ok _ _ h start _ _ (prop_path_readable _ _ h start RE)).
      rewrite (bind_ok _ _ h start _ _ (Latest_getEndpointId_spec event _ h start Endpoint)).
      rewrite !(bind_ok _ _ h start _ _ (prop_path_readable _ _ h start Scope)).
      change (Latest.isPlaybackDirectiveValid (JStr name))
        with (CodeV3.isPlaybackDirectiveValid (JStr name)).
      rewrite !(not_in_not_playback name Unsupported).
      repeat split; try reflexivity; eexists; split; reflexivity.
Qed.

(** A power directive named "Dim", and a playback directive named "Eject". *)
Lemma unsupported_name_invalid_directive_witness :
  let h := example_host (SocketError (Error "unused")) in
  (failed_without_transport invalidDirective
     (run h (Index.handler (directive Alexa_PowerController "Dim" "e1") LambdaContext))
   /\ failed_without_transport invalidDirective
        (run h (Latest.handler (directive Alexa_PowerController "Dim" "e1") LambdaContext)))
  /\ failed_without_transport invalidDirective
       (run h (Latest.handler (directive Alexa_PlaybackController "Eject" "e1") LambdaContext)).
Proof.
  cbv zeta. split.
  - destruct (unsupported_name_invalid_directive
                (example_host (SocketError (Error "unused")))
                (directive Alexa_PowerController "Dim" "e1") LambdaContext
                Alexa_PowerController "Dim" eq_refl eq_refl) as [Power _].
    + discriminate.
    + simpl. intros [E | [E | []]]; discriminate E.
    + destruct (Power (or_introl eq_refl)) as [I [_ L]]. split; assumption.
  - destruct (unsupported_name_invalid_directive
                (example_host (SocketError (Error "unused")))
                (directive Alexa_PlaybackController "Eject" "e1") LambdaContext
                Alexa_PlaybackController "Eject" eq_refl eq_refl) as [_ Playback].
    + discriminate.
    + simpl. intros E. repeat (destruct E as [E | E]; [discriminate E |]). exact E.
    + apply (Playback (or_intror (or_intror eq_refl)) "e1" eq_refl eq_refl).
      intros E. discriminate E.
Defined.

(** The claim as stated fails for the Discovery namespace, whose handler
    never looks at the directive name: a Discovery directive named "TurnOn"
    is answered by a GET and a discovery response.  It also fails for the
    InputController namespace of [index.js], where every name is answered
    with INTERNAL_ERROR. *)
Lemma unsupported_name_counterexample :
  let h := example_host (Response 200 (JObj []) "[]") in
  (sent (snd (run h (Index.handler (directive Alexa_Discovery "TurnOn" "e1") LambdaContext)))
     = [Index_request h "GET" "/endpoints?access_token=tok" None]
   /\ exists envelope,
        replies (snd (run h (Index.handler (directive Alexa_Discovery "TurnOn" "e1")
                               LambdaContext)))
          = [Succeeded envelope]
        /\ is_discovery_response envelope = true)
  /\ (exists envelope,
        replies (snd (run h (Index.handler (directive Alexa_InputController "Dim" "e1")
                               LambdaContext)))
          = [Failed envelope]
        /\ is_error_envelope internalError envelope = true
        /\ is_error_envelope invalidDirective envelope = false).
Proof.
  cbv zeta. split; [split; [reflexivity | eexists; split; reflexivity] |].
  eexists. repeat split.
Qed.

(* ================================================================== *)
(** ** C6: message identifiers and payload versions *)

(** Every envelope builder reads the clock once and stamps the text of the
    reading, together with its revision's payload version. *)
Lemma envelope_headers (h : Host) (s : St) (namespace name : string) (payload : JSValue) :
  exists versioned latest legacy,
    Index.getResponse namespace name payload h s
      = (Ok versioned, mkSt (S (ticks s)) (sent s) (replies s))
    /\ Latest.getReply namespace name payload h s
      = (Ok latest, mkSt (S (ticks s)) (sent s) (replies s))
    /\ Legacy.getResponse name namespace payload h s
      = (Ok legacy, mkSt (S (ticks s)) (sent s) (replies s))
    /\ versioned_header versioned "messageId" = JStr (Number_toString (next_reading h s))
    /\ versioned_header latest "messageId" = JStr (Number_toString (next_reading h s))
    /\ legacy_header legacy "messageId" = JStr (Number_toString (next_reading h s))
    /\ versioned_header versioned "payloadVersion" = JStr "3"
    /\ versioned_header latest "payloadVersion" = JStr "3"
    /\ legacy_header legacy "payloadVersion" = JStr "2".
Proof.
  do 3 eexists. repeat split.
Qed.

(** Two envelopes carry the same identifier exactly when they were built
    at the same reading of the clock (a reading of [Date.now()] is an
    integer below 2^53 in magnitude, so its text is its digits). *)
Lemma messageId_equal_iff_same_reading (h1 h2 : Host) (s1 s2 : St)
    (ns1 n1 ns2 n2 : string) (p1 p2 : JSValue) (e1 e2 : JSValue) :
  (Z.abs (next_reading h1 s1) < 2 ^ 53)%Z ->
  (Z.abs (next_reading h2 s2) < 2 ^ 53)%Z ->
  fst (Index.getResponse ns1 n1 p1 h1 s1) = Ok e1 ->
  fst (Index.getResponse ns2 n2 p2 h2 s2) = Ok e2 ->
  (versioned_header e1 "messageId" = versioned_header e2 "messageId"
   <-> next_reading h1 s1 = next_reading h2 s2).
Proof.
  intros B1 B2 E1 E2. simpl in E1, E2. injection E1 as <-. injection E2 as <-.
  unfold versioned_header, next_reading in *.
  change (JStr (Number_toString (clock h1 (ticks s1)))
          = JStr (Number_toString (clock h2 (ticks s2)))
          <-> clock h1 (ticks s1) = clock h2 (ticks s2)).
  rewrite (Number_toString_digits _ B1), (Number_toString_digits _ B2). split.
  - intros E. injection E as E. apply string_of_Z_inj. exact E.
  - intros ->. reflexivity.
Qed.

(** C6, at two invocations within one millisecond.  With the clock at
    1700000000000 for both, [index.js] answers an unsupported power
    directive and a malformed event with two different error envelopes that
    carry the same [messageId]; each is non-empty and each envelope has
    payload version 3. *)
Theorem messageId_collides_within_a_millisecond :
  let h := frozen_host 1700000000000 (SocketError (Error "unused")) in
  let first := run h (Index.handler (directive Alexa_PowerController "Dim" "e1") LambdaContext) in
  let second := run h (Index.handler (JObj []) LambdaContext) in
  exists e1 e2,
    replies (snd first) = [Failed e1]
    /\ replies (snd second) = [Failed e2]
    /\ versioned_header e1 "messageId" = JStr "1700000000000"
    /\ versioned_header e2 "messageId" = JStr "1700000000000"
    /\ at_path e1 ["event"; "payload"; "type"] = JStr "INVALID_DIRECTIVE"
    /\ at_path e2 ["event"; "payload"; "type"] = JStr "INTERNAL_ERROR"
    /\ versioned_header e1 "payloadVersion" = JStr "3"
    /\ versioned_header e2 "payloadVersion" = JStr "3".
Proof.
  cbv zeta. do 2 eexists. repeat split.
Qed.

(* ================================================================== *)
(** ** C7: playback routing *)

Lemma playback_name_valid name :
  In name SUPPORTED_PLAYBACK_DIRECTIVES ->
  CodeV3.isPlaybackDirectiveValid (JStr name) = true /\ name <> EmptyString.
Proof.
  intros I. simpl in I.
  repeat (destruct I as [<- | I]; [split; [reflexivity | discriminate] |]).
  contradiction.
Qed.

(** C7, as the code has it.  In the third file of [code.js] and in the
    latest revision, a directive with namespace [Alexa.PlaybackController]
    and one of the eight playback names is handled by the playback handler:
    the handler's run is the playback handler's run, not the
    unsupported-namespace reply.  [index.js] has no playback handler: there
    the directive is answered with INTERNAL_ERROR (unsupported namespace)
    and no request. *)
Theorem playback_routed_where_implemented (h : Host) (event : JSValue) (context : Context)
    (name : string) :
  header_field event "namespace" = JStr Alexa_PlaybackController ->
  header_field event "name" = JStr name ->
  In name SUPPORTED_PLAYBACK_DIRECTIVES ->
  run h (CodeV3.handler event context) = run h (CodeV3.handlePlaybackControlEvent event context)
  /\ run h (Latest.handler event context)
     = run h (Latest.handlePlaybackControlEvent event context)
  /\ failed_without_transport internalError (run h (Index.handler event context)).
Proof.
  intros Namespace Name Supported.
  destruct (playback_name_valid name Supported) as [PV NonEmpty].
  assert (Valid : truthy (validity event) = true)
    by (apply (header_strings_valid event _ _ Namespace Name); [discriminate | exact NonEmpty]).
  rewrite (Index_handler_routes h event context _ Valid Namespace).
  rewrite (CodeV3_handler_routes h event context _ Valid Namespace).
  rewrite (Latest_handler_routes h event context _ Valid Namespace).
  split; [reflexivity |]. split; [reflexivity |].
  unfold Index_route, run. simpl (_ =? _). cbv iota.
  split; [reflexivity | split; [reflexivity | eexists; split; reflexivity]].
Qed.

(** A Play directive for endpoint ["e1"]: the latest revision runs its
    playback handler, which posts the directive. *)
Lemma playback_routed_where_implemented_witness :
  let h := example_host (Response 200 (JObj []) "{}") in
  let event := directive Alexa_PlaybackController "Play" "e1" in
  In "Play" SUPPORTED_PLAYBACK_DIRECTIVES
  /\ run h (Latest.handler event LambdaContext)
     = run h (Latest.handlePlaybackControlEvent event LambdaContext)
  /\ sent (snd (run h (Latest.handlePlaybackControlEvent event LambdaContext)))
     = [Latest_request h "POST" "/endpoints/e1/playback?accessToken=tok"
          (Some (stringify_object [("directive", JStr "Play")]))].
Proof.
  cbv zeta.
  assert (Play : In "Play" SUPPORTED_PLAYBACK_DIRECTIVES) by (simpl; tauto).
  destruct (playback_routed_where_implemented
              (example_host (Response 200 (JObj []) "{}"))
              (directive Alexa_PlaybackController "Play" "e1") LambdaContext "Play"
              eq_refl eq_refl Play) as [_ [Routed _]].
  split; [exact Play |]. split; [exact Routed |]. reflexivity.
Defined.

(** The claim as stated fails on [index.js]: a Play directive ends in the
    unsupported-namespace branch. *)
Lemma playback_index_counterexample :
  exists envelope,
    run (example_host (Response 200 (JObj []) "{}"))
        (Index.handler (directive Alexa_PlaybackController "Play" "e1") LambdaContext)
      = (Ok tt, mkSt 1 [] [Failed envelope])
    /\ is_error_envelope internalError envelope = true
    /\ error_message envelope = "Unsupported namespace: Alexa.PlaybackController".
Proof. eexists. repeat split. Qed.

(* ================================================================== *)
(** ** C8: the transport shim *)

(** C8, as the code has it.  Each shim settles.  When Node accepts the
    options, the shim issues the one request and resolves with the status
    code, the headers and the accumulated text, or rejects: the shim of
    [index.js] rejects exactly on a socket error and resolves on every
    status; the shim of [code.js] rejects exactly on a socket error or a
    status other than 200.  The two revisions treat a non-200 status
    differently.  When Node refuses the options (a path with an unescaped
    character), [http.request] throws inside the executor: no request is
    issued and both shims reject with that error. *)
Theorem shim_settles_by_revision (h : Host) (s : St) (opts : JSValue)
    (postData : option string) :
  let answer := backend h (mkRequest opts postData) in
  let index := Index.httpPromise opts postData h s in
  let code := CodeV3.httpPromise opts postData h s in
  if refused opts
  then index = (Throw ERR_UNESCAPED_CHARACTERS, s)
       /\ code = (Throw ERR_UNESCAPED_CHARACTERS, s)
  else
  sent (snd index) = (sent s ++ [mkRequest opts postData])%list
  /\ sent (snd code) = (sent s ++ [mkRequest opts postData])%list
  /\ rejected index = is_socket_error answer
  /\ rejected code = is_socket_error answer || status_is_not_200 answer
  /\ resolved index = negb (rejected index)
  /\ resolved code = negb (rejected code)
  /\ match answer with
     | SocketError error => fst index = Throw error /\ fst code = Throw error
     | Response statusCode headers text =>
         fst index = Ok (response_object statusCode headers text)
         /\ fst code =
              if (statusCode =? 200)%Z
              then Ok (response_object statusCode headers text)
              else Throw (Error ("HTTP " ++ Number_toString statusCode))
     end.
Proof.
  cbv zeta. destruct (refused opts) eqn:R.
  - split; [apply Index_httpPromise_refused | apply CodeV3_httpPromise_refused]; exact R.
  - rewrite (Index_httpPromise_spec opts postData h s R).
    rewrite (CodeV3_httpPromise_spec opts postData h s R).
    unfold rejected, resolved.
    destruct (backend h (mkRequest opts postData)) as [error | sc hd text]; simpl.
    + repeat split; reflexivity.
    + destruct (status_200_cases sc) as [[E T] | [F NE]].
      * subst sc. simpl. repeat split; reflexivity.
      * rewrite F. simpl. repeat split; reflexivity.
Qed.

(** The claim as stated fails at a 500: the shim of [index.js] resolves,
    the shim of [code.js] rejects. *)
Lemma shim_non_200_counterexample :
  fst (Index.httpPromise (JObj [("method", JStr "GET"); ("path", JStr "/endpoints")]) None
         (example_host (Response 500 (JObj []) "oops")) start)
    = Ok (response_object 500 (JObj []) "oops")
  /\ fst (CodeV3.httpPromise (JObj [("method", JStr "GET"); ("path", JStr "/endpoints")]) None
            (example_host (Response 500 (JObj []) "oops")) start)
    = Throw (Error "HTTP 500").
Proof. split; reflexivity. Qed.

(* ================================================================== *)
(** ** C9: transport failures on control directives *)

(** C9, at three failing transports.
    (1) [index.js], TurnOn for ["e1"], the socket fails with "socket hang
    up": the handler fails with an ENDPOINT_UNREACHABLE envelope whose
    message is [Failed PUT request: {"code":"ECONNRESET"}]; the error's
    message is not part of it.
    (2) Latest revision, TurnOn for ["e1"], the backend answers 500: the
    shim rejects with [Error("HTTP 500")] and the handler fails with an
    ENDPOINT_UNREACHABLE envelope whose message is [{}].
    (3) Latest revision, SelectInput for ["e1"], the socket fails: [fail] is
    called without the context, the rejection is unhandled and the context
    is told nothing. *)
Theorem transport_failure_drops_error_message :
  let turn_on := directive Alexa_PowerController "TurnOn" "e1" in
  let select_input := directive Alexa_InputController "SelectInput" "e1" in
  (exists envelope,
     run (example_host (SocketError socket_hang_up)) (Index.handler turn_on LambdaContext)
       = (Ok tt,
          mkSt 1 [Index_request (example_host (SocketError socket_hang_up)) "PUT"
                    "/endpoints/e1/power?access_token=tok"
                    (Some (stringify_object [("state", JStr "on")]))]
            [Failed envelope])
     /\ is_error_envelope endpointUnreachable envelope = true
     /\ error_message envelope
        = "Failed PUT request: {" ++ dquote ++ "code" ++ dquote ++ ":"
            ++ dquote ++ "ECONNRESET" ++ dquote ++ "}"
     /\ includes (message socket_hang_up) (error_message envelope) = false)
  /\ (exists envelope,
        fst (Latest.post "/endpoints/e1/power?access_token=tok" [("state", JStr "on")]
               (example_host (Response 500 (JObj []) "oops")) start)
          = Throw (Error "HTTP 500")
        /\ replies (snd (run (example_host (Response 500 (JObj []) "oops"))
                            (Latest.handler turn_on LambdaContext)))
           = [Failed envelope]
        /\ is_error_envelope endpointUnreachable envelope = true
        /\ error_message envelope = "{}"
        /\ includes "HTTP 500" (error_message envelope) = false)
  /\ run (example_host (SocketError socket_hang_up)) (Latest.handler select_input LambdaContext)
     = (Stuck (UnhandledRejection (TypeError "Cannot read property 'fail' of undefined")),
        mkSt 3 [Latest_request (example_host (SocketError socket_hang_up)) "POST"
                  "/endpoints/e1/input?access_token=tok"
                  (Some (stringify_object [("input", JUndefined)]))]
          []).
Proof.
  cbv zeta. split; [| split].
  - eexists. split; [vm_compute; reflexivity | repeat split].
  - eexists. split; [reflexivity |]. split; [vm_compute; reflexivity | repeat split].
  - reflexivity.
Qed.

(* ================================================================== *)
(** ** One request and one reply an invocation *)

Section Effects.

Variable h : Host.

Lemma effect_unchanged {A} (m : M A) :
  (forall s, sent (snd (m h s)) = sent s /\ replies (snd (m h s)) = replies s) ->
  inert h m.
Proof.
  intros U s. destruct (U s) as [Es Ep]. exists [], [].
  rewrite !app_nil_r. repeat split; assumption.
Qed.

Lemma quiet_inert {A} (m : M A) : quiet m -> inert h m.
Proof.
  intros Q. apply effect_unchanged. intros s.
  destruct (Q h s) as [r [E _]]. rewrite E. split; reflexivity.
Qed.

Lemma inert_ret {A} (a : A) : inert h (ret a).
Proof. apply quiet_inert, quiet_ret. Qed.

Lemma inert_throw {A} (e : JSError) : inert h (@throw A e).
Proof. apply quiet_inert, quiet_throw. Qed.

(** An inert computation in front changes nothing of what follows. *)
Lemma inert_then_yields {A B} (post : Result B -> list Request -> list Reply -> Prop)
    (m : M A) (k : A -> M B) (R : A -> Prop) :
  inert h m -> yields h m R -> (forall a, R a -> effect h (k a) post) ->
  (forall e, post (Throw e) [] []) -> (forall f, post (Stuck f) [] []) ->
  effect h (bind m k) post.
Proof.
  intros Im Ym Ek Pt Ps s. destruct (Im s) as [rs [ps [Es [Ep [-> ->]]]]].
  rewrite app_nil_r in Es, Ep. unfold bind. pose proof (Ym s) as Y.
  destruct (m h s) as [[a | e | f] s1]; simpl in Es, Ep.
  - destruct (Ek a (Y a s1 eq_refl) s1) as [rs [ps [Es1 [Ep1 Post]]]].
    exists rs, ps. rewrite Es1, Ep1, Es, Ep. repeat split. exact Post.
  - exists [], []. simpl. rewrite Es, Ep, !app_nil_r. repeat split. apply Pt.
  - exists [], []. simpl. rewrite Es, Ep, !app_nil_r. repeat split. apply Ps.
Qed.

Lemma inert_then {A B} (post : Result B -> list Request -> list Reply -> Prop)
    (m : M A) (k : A -> M B) :
  inert h m -> (forall a, effect h (k a) post) ->
  (forall e, post (Throw e) [] []) -> (forall f, post (Stuck f) [] []) ->
  effect h (bind m k) post.
Proof.
  intros Im Ek. apply (inert_then_yields post m k (fun _ => True)); auto.
  intros s a s' _. exact I.
Qed.

Lemma inert_bind {A B} (m : M A) (k : A -> M B) :
  inert h m -> (forall a, inert h (k a)) -> inert h (bind m k).
Proof. intros Im Ik. apply inert_then; auto. Qed.

Lemma responder_bind {A B} Q (m : M A) (k : A -> M B) :
  inert h m -> (forall a, responder h Q (k a)) -> responder h Q (bind m k).
Proof. intros Im Rk. apply inert_then; auto. Qed.

Lemma disciplined_bind {A B} P Q (m : M A) (k : A -> M B) :
  inert h m -> (forall a, disciplined h P Q (k a)) -> disciplined h P Q (bind m k).
Proof. intros Im Dk. apply inert_then; auto. Qed.

Lemma disciplined_bind_yields {A B} P Q (m : M A) (k : A -> M B) (R : A -> Prop) :
  inert h m -> yields h m R -> (forall a, R a -> disciplined h P Q (k a)) ->
  disciplined h P Q (bind m k).
Proof. intros Im Ym Dk. apply (inert_then_yields _ m k R); auto. Qed.

Lemma responder_throw {A} Q (e : JSError) : responder h Q (@throw A e).
Proof. intros s. exists [], []. rewrite !app_nil_r. repeat split. Qed.

Lemma responder_disciplined {A} P Q (m : M A) : responder h Q m -> disciplined h P Q m.
Proof.
  intros R s. destruct (R s) as [rs [ps [Es [Ep [-> Post]]]]].
  exists [], ps. repeat split; auto.
Qed.

Lemma responder_weaken {A} (Q Q' : Reply -> Prop) (m : M A) :
  (forall p, Q p -> Q' p) -> responder h Q m -> responder h Q' m.
Proof.
  intros W R s. destruct (R s) as [rs [ps [Es [Ep [-> Post]]]]].
  exists [], ps. repeat split; auto.
  destruct (fst (m h s)); auto. destruct Post as [p [-> Qp]]. exists p. auto.
Qed.

(** [context.succeed] and [context.fail] on what a builder returns. *)
Lemma responder_succeed Q context (m : M JSValue) :
  inert h m -> yields h m (fun v => Q (Succeeded v)) ->
  responder h Q (r <- m ;; context_succeed context r).
Proof.
  intros Im Ym. apply (inert_then_yields _ m _ (fun v => Q (Succeeded v))); auto.
  intros v Qv s. exists [], [Succeeded v]. rewrite app_nil_r. simpl.
  repeat split. exists (Succeeded v). auto.
Qed.

Lemma responder_fail Q context (m : M JSValue) :
  inert h m -> yields h m (fun v => Q (Failed v)) ->
  responder h Q (r <- m ;; context_fail context r).
Proof.
  intros Im Ym. apply (inert_then_yields _ m _ (fun v => Q (Failed v))); auto.
  intros v Qv s. exists [], [Failed v]. rewrite app_nil_r. simpl.
  repeat split. exists (Failed v). auto.
Qed.

(** A promise that issued its request keeps it through a [then] that is
    inert. *)
Lemma requester_then {A B} P (p : M A) (k : A -> M B) :
  requester h P p -> (forall a, inert h (k a)) -> requester h P (then_ p k).
Proof.
  intros Rp Ik s. destruct (Rp s) as [rs [ps [Es [Ep [-> Post]]]]].
  rewrite app_nil_r in Ep. unfold then_, bind.
  destruct (p h s) as [[a | e | f] s1]; simpl in Es, Ep.
  - destruct (Ik a s1) as [rs1 [ps1 [Es1 [Ep1 [-> ->]]]]].
    rewrite app_nil_r in Es1, Ep1.
    exists rs, []. rewrite Es1, Ep1, Es, Ep, app_nil_r. repeat split. exact Post.
  - exists rs, []. simpl. rewrite Es, Ep, app_nil_r. repeat split. exact Post.
  - exists rs, []. simpl. rewrite Es, Ep, app_nil_r. repeat split. exact Post.
Qed.

Lemma yields_any {A} (m : M A) : yields h m (fun _ => True).
Proof. intros s a s' _. exact I. Qed.

(** A promise chain: the request, then a reply from the fulfilment
    callback or, when something was thrown on the way, from the rejection
    callback. *)
Lemma disciplined_chain_yields {A} P Q (R : A -> Prop) (p : M A) (f : A -> M unit)
    (g : JSError -> M unit) :
  requester h P p -> yields h p R ->
  (forall v, R v -> responder h Q (f v)) -> (forall e, responder h Q (g e)) ->
  disciplined h P Q (detach (catch_ (then_ p f) g)).
Proof.
  intros Rp Yp Rf Rg s. destruct (Rp s) as [rs [ps [Es [Ep [-> Rs]]]]].
  rewrite app_nil_r in Ep. unfold detach, catch_, then_, bind.
  assert (Caught : forall e s1, sent s1 = (sent s ++ rs)%list -> replies s1 = replies s ->
    exists rs ps,
      sent (snd (let (r, s') := g e h s1 in
                 match r with
                 | Ok _ => (Ok tt, s')
                 | Throw e' => (Stuck (UnhandledRejection e'), s')
                 | Stuck f' => (Stuck f', s')
                 end)) = (sent s ++ rs)%list
      /\ replies (snd (let (r, s') := g e h s1 in
                 match r with
                 | Ok _ => (Ok tt, s')
                 | Throw e' => (Stuck (UnhandledRejection e'), s')
                 | Stuck f' => (Stuck f', s')
                 end)) = (replies s ++ ps)%list
      /\ ((rs = [] \/ exists q, rs = [q] /\ P q)
          /\ match fst (let (r, s') := g e h s1 in
                 match r with
                 | Ok _ => (Ok tt, s')
                 | Throw e' => (Stuck (UnhandledRejection e'), s')
                 | Stuck f' => (Stuck f', s')
                 end) with
             | Ok _ => exists p, ps = [p] /\ Q p
             | _ => ps = []
             end)).
  { intros e s1 Es1 Ep1. destruct (Rg e s1) as [rs2 [ps2 [Es2 [Ep2 [-> Post]]]]].
    rewrite app_nil_r in Es2. exists rs, ps2.
    destruct (g e h s1) as [[u | e' | f'] s2]; simpl in *;
      rewrite Es2, Ep2, Es1, Ep1; repeat split; eauto. }
  pose proof (Yp s) as Y.
  destruct (p h s) as [[a | e | f0] s1]; simpl in Es, Ep.
  - destruct (Rf a (Y a s1 eq_refl) s1) as [rs1 [ps1 [Es1 [Ep1 [-> Post]]]]].
    rewrite app_nil_r in Es1.
    destruct (f a h s1) as [[u | e | f1] s2] eqn:Ef; simpl in *.
    + exists rs, ps1. rewrite Es1, Ep1, Es, Ep. repeat split; eauto.
    + subst ps1. rewrite app_nil_r in Ep1. apply Caught; congruence.
    + subst ps1. exists rs, []. rewrite Es1, Ep1, Es, Ep. repeat split; eauto.
  - apply Caught; assumption.
  - exists rs, []. simpl. rewrite Es, Ep, app_nil_r. repeat split; eauto.
Qed.

Lemma disciplined_chain {A} P Q (p : M A) (f : A -> M unit) (g : JSError -> M unit) :
  requester h P p -> (forall v, responder h Q (f v)) -> (forall e, responder h Q (g e)) ->
  disciplined h P Q (detach (catch_ (then_ p f) g)).
Proof.
  intros Rp Rf Rg.
  apply (disciplined_chain_yields P Q (fun _ => True)); auto. apply yields_any.
Qed.

(** From a fresh invocation. *)
Lemma disciplined_run P Q (m : M unit) :
  disciplined h P Q m ->
  replied_once (run h m)
  /\ (length (sent (snd (run h m))) <= 1)%nat
  /\ Forall P (sent (snd (run h m)))
  /\ Forall Q (replies (snd (run h m))).
Proof.
  intros D. destruct (D start) as [rs [ps [Es [Ep [Rs Post]]]]].
  unfold replied_once, run. simpl in Es, Ep. rewrite Es, Ep.
  split; [| split; [| split]].
  - destruct (fst (m h start)); auto. destruct Post as [p [-> _]]. eauto.
  - destruct Rs as [-> | [q [-> _]]]; simpl; lia.
  - destruct Rs as [-> | [q [-> Pq]]]; repeat constructor; auto.
  - destruct (fst (m h start)); try (rewrite Post; constructor).
    destruct Post as [p [-> Qp]]. repeat constructor; auto.
Qed.

Lemma inert_prop v k : inert h (prop v k).
Proof. apply quiet_inert, quiet_prop. Qed.

Lemma inert_prop_path ks : forall v, inert h (prop_path v ks).
Proof.
  induction ks as [| k ks IH]; intros v; simpl; [apply inert_ret |].
  apply inert_bind; [apply inert_prop | intros x; apply IH].
Qed.

Lemma inert_parse text : inert h (parse text).
Proof. apply quiet_inert, quiet_parse. Qed.

Lemma inert_to_string v : inert h (to_string v).
Proof. apply quiet_inert, quiet_to_string. Qed.

Lemma inert_assignM target source : inert h (assignM target source).
Proof. apply quiet_inert, quiet_assignM. Qed.

Lemma inert_test_TurnOnOff v : inert h (test_TurnOnOff v).
Proof. apply quiet_inert. unfold test_TurnOnOff. quiet_steps. Qed.

Lemma inert_Index_parse_responseText r : inert h (Index.parse_responseText r).
Proof. apply quiet_inert. unfold Index.parse_responseText. quiet_steps. Qed.

Lemma yields_to_string v : yields h (to_string v) (fun text => ToString v = Some text).
Proof.
  intros s a s' E. unfold to_string in E.
  destruct (ToString v); [injection E as <- _; reflexivity | discriminate E].
Qed.

Lemma inert_Date_now : inert h Date_now.
Proof. apply effect_unchanged. intros s. split; reflexivity. Qed.

Lemma inert_env_remoteHost : inert h env_remoteHost.
Proof. apply effect_unchanged. intros s. split; reflexivity. Qed.

Lemma inert_env_remotePort : inert h env_remotePort.
Proof. apply effect_unchanged. intros s. split; reflexivity. Qed.

Lemma inert_and_then a (b : M JSValue) : inert h b -> inert h (and_then a b).
Proof. intros I. unfold and_then. destruct (truthy a); [exact I | apply inert_ret]. Qed.

Lemma inert_method_trim v : inert h (method_trim v).
Proof. destruct v; simpl; first [apply inert_ret | apply inert_throw]. Qed.

Lemma inert_method_replace v pat rep : inert h (method_replace v pat rep).
Proof. destruct v; simpl; first [apply inert_ret | apply inert_throw]. Qed.

Lemma inert_filterM keep xs : (forall x, inert h (keep x)) -> inert h (filterM keep xs).
Proof.
  intros I. induction xs as [| x xs IH]; simpl; [apply inert_ret |].
  apply inert_bind; [apply I | intros k].
  apply inert_bind; [exact IH | intros ys; apply inert_ret].
Qed.

Lemma inert_mapM f xs : (forall x, inert h (f x)) -> inert h (mapM f xs).
Proof.
  intros I. induction xs as [| x xs IH]; simpl; [apply inert_ret |].
  apply inert_bind; [apply I | intros y].
  apply inert_bind; [exact IH | intros ys; apply inert_ret].
Qed.

Lemma inert_method_filter v keep :
  (forall x, inert h (keep x)) -> inert h (method_filter v keep).
Proof.
  intros I. destruct v; simpl; try apply inert_throw.
  apply inert_bind; [apply inert_filterM, I | intros ys; apply inert_ret].
Qed.

Lemma inert_method_map v f : (forall x, inert h (f x)) -> inert h (method_map v f).
Proof.
  intros I. destruct v; simpl; try apply inert_throw.
  apply inert_bind; [apply inert_mapM, I | intros ys; apply inert_ret].
Qed.

Lemma yields_ret {A} (a : A) (Q : A -> Prop) : Q a -> yields h (ret a) Q.
Proof. intros Qa s b s' E. injection E as <- _. exact Qa. Qed.

Lemma yields_throw {A} (e : JSError) (Q : A -> Prop) : yields h (throw e) Q.
Proof. intros s b s' E. discriminate E. Qed.

Lemma yields_bind_with {A B} (m : M A) (k : A -> M B) (R : A -> Prop) (Q : B -> Prop) :
  yields h m R -> (forall a, R a -> yields h (k a) Q) -> yields h (bind m k) Q.
Proof.
  intros Ym Yk s b s' E. unfold bind in E. pose proof (Ym s) as Y.
  destruct (m h s) as [[a | e | f] s1]; try discriminate E.
  apply (Yk a (Y a s1 eq_refl) s1 b s' E).
Qed.

Lemma yields_bind {A B} (m : M A) (k : A -> M B) (Q : B -> Prop) :
  (forall a, yields h (k a) Q) -> yields h (bind m k) Q.
Proof.
  intros Yk. apply (yields_bind_with m k (fun _ => True)); auto.
  intros s a s' _. exact I.
Qed.

(** The envelope builders read the clock and nothing else. *)
Lemma Index_getResponse_spec namespace name payload s :
  Index.getResponse namespace name payload h s
  = (Ok (versioned_envelope (clock h (ticks s)) namespace name
           (if is_undefined payload then JObj [] else payload)), ticked s).
Proof. reflexivity. Qed.

Lemma Latest_getReply_spec namespace name payload s :
  Latest.getReply namespace name payload h s
  = (Ok (versioned_envelope (clock h (ticks s)) namespace name
           (if truthy payload then payload else JObj [])), ticked s).
Proof. reflexivity. Qed.

Lemma inert_Index_getResponse namespace name payload :
  inert h (Index.getResponse namespace name payload).
Proof. apply effect_unchanged. intros s. split; reflexivity. Qed.

Lemma inert_Latest_getReply namespace name payload :
  inert h (Latest.getReply namespace name payload).
Proof. apply effect_unchanged. intros s. split; reflexivity. Qed.

Lemma inert_Legacy_getResponse name namespace payload :
  inert h (Legacy.getResponse name namespace payload).
Proof. apply effect_unchanged. intros s. split; reflexivity. Qed.

Lemma yields_Index_getResponse namespace name payload :
  yields h (Index.getResponse namespace name payload)
    (fun v => exists t, v = versioned_envelope t namespace name
                              (if is_undefined payload then JObj [] else payload)).
Proof.
  intros s a s' E. rewrite Index_getResponse_spec in E. injection E as <- _. eauto.
Qed.

Lemma yields_Latest_getReply namespace name payload :
  yields h (Latest.getReply namespace name payload)
    (fun v => exists t, v = versioned_envelope t namespace name
                              (if truthy payload then payload else JObj [])).
Proof.
  intros s a s' E. rewrite Latest_getReply_spec in E. injection E as <- _. eauto.
Qed.

End Effects.

Ltac inert_steps :=
  repeat first
    [ apply inert_ret
    | apply inert_throw
    | apply inert_prop
    | apply inert_prop_path
    | apply inert_parse
    | apply inert_to_string
    | apply inert_assignM
    | apply inert_test_TurnOnOff
    | apply inert_Index_parse_responseText
    | apply inert_Date_now
    | apply inert_env_remoteHost
    | apply inert_env_remotePort
    | apply inert_method_trim
    | apply inert_method_replace
    | apply inert_Index_getResponse
    | apply inert_Latest_getReply
    | apply inert_Legacy_getResponse
    | apply inert_and_then
    | apply inert_bind; [| intros ?]
    | match goal with
      | |- inert _ (if ?b then _ else _) => destruct b
      | |- inert _ (match ?x with _ => _ end) => destruct x
      end ].

(** Peel the reads and conversions in front of a reply or of a chain. *)
Ltac peel :=
  repeat match goal with
         | |- responder _ _ (bind _ (fun r => context_fail _ r)) => fail 1
         | |- responder _ _ (bind _ (fun r => context_succeed _ r)) => fail 1
         | |- responder _ _ (bind _ (context_fail _)) => fail 1
         | |- responder _ _ (bind _ (context_succeed _)) => fail 1
         | |- responder _ _ (bind _ (fun r => Latest.fail r _)) => fail 1
         | |- _ => first [apply disciplined_bind | apply responder_bind];
                   [solve [inert_steps] | intros ?]
         end.

(** A builder that ends in [assign(..., getResponse(...))] or in
    [getResponse(...)]: peel the reads, then look at the envelope. *)
Ltac yields_envelope :=
  repeat match goal with
         | |- yields _ (bind (Index.getResponse _ _ _) _) _ =>
             eapply yields_bind_with; [apply yields_Index_getResponse |];
             intros ? [? ->]; apply yields_ret
         | |- yields _ (bind (Latest.getReply _ _ _) _) _ =>
             eapply yields_bind_with; [apply yields_Latest_getReply |];
             intros ? [? ->]; apply yields_ret
         | |- yields _ (Index.getResponse _ _ _) _ =>
             intros ? ? ? E; rewrite Index_getResponse_spec in E; injection E as <- _
         | |- yields _ (Latest.getReply _ _ _) _ =>
             intros ? ? ? E; rewrite Latest_getReply_spec in E; injection E as <- _
         | |- yields _ (bind _ _) _ => apply yields_bind; intros ?
         end.

(* ------------------------------------------------------------------ *)
(** *** [index.js] *)

Section IndexDiscipline.

Variable h : Host.

Lemma Index_error_reply type message :
  In type [internalError; invalidDirective; endpointUnreachable] ->
  yields h (Index.getErrorResponse type message) (fun v => versioned_reply (Failed v)).
Proof.
  intros T. unfold Index.getErrorResponse. yields_envelope.
  simpl in T. destruct T as [<- | [<- | [<- | []]]]; reflexivity.
Qed.

Lemma inert_Index_getErrorResponse type message :
  inert h (Index.getErrorResponse type message).
Proof. unfold Index.getErrorResponse. inert_steps. Qed.

Lemma Index_fails type message context :
  In type [internalError; invalidDirective; endpointUnreachable] ->
  responder h versioned_reply
    (r <- Index.getErrorResponse type message ;; context_fail context r).
Proof.
  intros T. apply responder_fail;
    [apply inert_Index_getErrorResponse | apply Index_error_reply, T].
Qed.

Lemma requester_Index_get path : requester h (Index_call h) (Index.get path).
Proof.
  intros s. destruct (unescaped path) eqn:U.
  - rewrite (Index_get_refused path h s U). exists [], []. simpl. rewrite !app_nil_r.
    repeat split. left. reflexivity.
  - rewrite (Index_get_spec path h s U).
    exists [Index_request h "GET" path None], []. simpl. rewrite app_nil_r.
    repeat split. right. eexists. split; [reflexivity |]. exists path. left. reflexivity.
Qed.

Lemma requester_Index_put path body : requester h (Index_call h) (Index.put path body).
Proof.
  intros s. destruct (unescaped path) eqn:U.
  - rewrite (Index_put_refused path body h s U). exists [], []. simpl. rewrite !app_nil_r.
    repeat split. left. reflexivity.
  - rewrite (Index_put_spec path body h s U).
    exists [Index_request h "PUT" path (Some body)], []. simpl. rewrite app_nil_r.
    repeat split. right. eexists. split; [reflexivity |].
    exists path. right. exists body. reflexivity.
Qed.

Lemma inert_Index_isEndpointSupported endpoint : inert h (Index.isEndpointSupported endpoint).
Proof. apply quiet_inert, quiet_Index_isEndpointSupported. Qed.

Lemma inert_Index_toAlexaEndpoint endpoint : inert h (Index.toAlexaEndpoint endpoint).
Proof. apply quiet_inert, quiet_Index_toAlexaEndpoint. Qed.

Lemma inert_Index_discovery_reply endpoints : inert h (Index.getDiscoveryAlexaResponse endpoints).
Proof. unfold Index.getDiscoveryAlexaResponse. inert_steps. Qed.

Lemma Index_discovery_reply endpoints :
  yields h (Index.getDiscoveryAlexaResponse endpoints) (fun v => versioned_reply (Succeeded v)).
Proof. unfold Index.getDiscoveryAlexaResponse. yields_envelope. reflexivity. Qed.

Lemma inert_Index_power_reply r : inert h (Index.getPowerControlAlexaResponse r).
Proof. unfold Index.getPowerControlAlexaResponse. inert_steps. Qed.

Lemma Index_power_reply r :
  yields h (Index.getPowerControlAlexaResponse r) (fun v => versioned_reply (Succeeded v)).
Proof. unfold Index.getPowerControlAlexaResponse. yields_envelope. reflexivity. Qed.

Lemma inert_Index_channel_reply r : inert h (Index.getAlexaChannelResponse r).
Proof. unfold Index.getAlexaChannelResponse. inert_steps. Qed.

Lemma inert_Index_status_reply r : inert h (Index.getHttpStatusErrorResponse r).
Proof. unfold Index.getHttpStatusErrorResponse, Index.getErrorResponse. inert_steps. Qed.

Lemma Index_status_reply r :
  yields h (Index.getHttpStatusErrorResponse r) (fun v => versioned_reply (Failed v)).
Proof.
  unfold Index.getHttpStatusErrorResponse. apply yields_bind. intros statusCode.
  apply yields_bind. intros statusText. apply Index_error_reply. simpl. tauto.
Qed.

Lemma Index_put_error_fails Q error context :
  (forall v, versioned_reply (Failed v) -> Q (Failed v)) ->
  responder h Q (r <- Index.getPutErrorResponse error ;; context_fail context r).
Proof.
  intros W. unfold Index.getPutErrorResponse. apply responder_fail.
  - apply inert_Index_getErrorResponse.
  - intros s a s' E. apply W.
    apply (Index_error_reply endpointUnreachable _ (or_intror (or_intror (or_introl eq_refl)))
             s a s' E).
Qed.

Lemma Index_discovery_disciplined event context :
  disciplined h (Index_call h) versioned_reply (Index.handleDiscoveryEvent event context).
Proof.
  unfold Index.handleDiscoveryEvent. peel.
  apply disciplined_chain.
  - apply requester_then; [apply requester_then; [apply requester_Index_get |] |].
    + intros endpointResponse. inert_steps.
    + intros endpoints.
      apply inert_bind;
        [apply inert_method_filter, inert_Index_isEndpointSupported | intros supported].
      apply inert_method_map, inert_Index_toAlexaEndpoint.
  - intros alexaEndpoints.
    apply responder_succeed; [apply inert_Index_discovery_reply | apply Index_discovery_reply].
  - intros getError.
    apply responder_succeed; [apply inert_Index_discovery_reply | apply Index_discovery_reply].
Qed.

Lemma Index_power_disciplined event context :
  disciplined h (Index_call h) versioned_reply (Index.handlePowerControlEvent event context).
Proof.
  unfold Index.handlePowerControlEvent. peel.
  destruct (negb _).
  - apply responder_disciplined. peel. apply Index_fails. simpl. tauto.
  - peel. apply disciplined_chain.
    + apply requester_Index_put.
    + intros endpointResponse.
      apply responder_bind; [unfold Index.status_is_200; inert_steps | intros ok].
      destruct ok.
      * apply responder_succeed; [apply inert_Index_power_reply | apply Index_power_reply].
      * apply responder_fail; [apply inert_Index_status_reply | apply Index_status_reply].
    + intros putError. apply Index_put_error_fails. auto.
Qed.

(** The tail of the channel handlers: [context.success] throws, so the
    only reply a chain can give is a failure. *)
Lemma Index_channel_chain_disciplined Q context path body :
  (forall v, versioned_reply (Failed v) -> Q (Failed v)) ->
  disciplined h (Index_call h) Q (Index.channel_chain context (Index.put path body)).
Proof.
  intros W. unfold Index.channel_chain. apply disciplined_chain.
  - apply requester_Index_put.
  - intros endpointResponse.
    apply responder_bind; [unfold Index.status_is_200; inert_steps | intros ok].
    destruct ok.
    + apply responder_bind; [apply inert_Index_channel_reply | intros r].
      apply responder_throw.
    + apply responder_fail; [apply inert_Index_status_reply |].
      intros s a s' E. apply W. apply (Index_status_reply _ s a s' E).
  - intros putError. apply Index_put_error_fails, W.
Qed.

Lemma Index_channel_disciplined Q event context :
  (forall v, versioned_reply (Failed v) -> Q (Failed v)) ->
  disciplined h (Index_call h) Q (Index.handleChannelControlEvent event context).
Proof.
  intros W. unfold Index.handleChannelControlEvent. peel.
  destruct (strict_eq_str _ _).
  - unfold Index.handleChangeChannelEvent. peel.
    apply Index_channel_chain_disciplined, W.
  - destruct (strict_eq_str _ _).
    + unfold Index.handleSkipChannelsEvent. peel.
      apply Index_channel_chain_disciplined, W.
    + apply responder_disciplined. peel.
      apply responder_fail; [apply inert_Index_getErrorResponse |].
      intros s r s' E. apply W.
      apply (Index_error_reply invalidDirective _ (or_intror (or_introl eq_refl)) s r s' E).
Qed.

Lemma inert_isEventValid event : inert h (Index.isEventValid event).
Proof.
  apply effect_unchanged. intros s. rewrite isEventValid_validity. split; reflexivity.
Qed.

Lemma Index_handler_disciplined event context :
  disciplined h (Index_call h) versioned_reply (Index.handler event context).
Proof.
  unfold Index.handler.
  apply disciplined_bind; [apply inert_isEventValid | intros valid].
  destruct (truthy valid).
  - apply disciplined_bind; [apply inert_prop_path | intros namespace].
    destruct (strict_eq_str _ _); [apply Index_discovery_disciplined |].
    destruct (strict_eq_str _ _); [apply Index_power_disciplined |].
    destruct (strict_eq_str _ _);
      [apply responder_disciplined, Index_fails; simpl; tauto |].
    destruct (strict_eq_str _ _); [apply Index_channel_disciplined; auto |].
    destruct (strict_eq_str _ _);
      [apply responder_disciplined, Index_fails; simpl; tauto |].
    apply responder_disciplined. peel. apply Index_fails. simpl. tauto.
  - apply responder_disciplined, Index_fails. simpl. tauto.
Qed.

End IndexDiscipline.

(* ------------------------------------------------------------------ *)
(** *** The third file of [code.js] *)

Section CodeV3Discipline.

Variable h : Host.

Lemma CodeV3_get_spec path s :
  unescaped path = false ->
  CodeV3.get path h s =
  (match backend h (Index_request h "GET" path None) with
   | SocketError e => Throw e
   | Response sc hd text =>
       if (sc =? 200)%Z then Ok (response_object sc hd text)
       else Throw (Error ("HTTP " ++ Number_toString sc))
   end, issued s (Index_request h "GET" path None)).
Proof.
  intros U. unfold CodeV3.get, CodeV3.getOptions, Index.getOptions, bind at 1, env_remoteHost,
    env_remotePort, ret. simpl.
  apply CodeV3_httpPromise_spec. exact U.
Qed.

Lemma CodeV3_get_refused path s :
  unescaped path = true -> CodeV3.get path h s = (Throw ERR_UNESCAPED_CHARACTERS, s).
Proof.
  intros U. unfold CodeV3.get, CodeV3.getOptions, Index.getOptions, bind at 1, env_remoteHost,
    env_remotePort, ret. simpl.
  apply CodeV3_httpPromise_refused. exact U.
Qed.

Lemma requester_CodeV3_get path : requester h (Index_call h) (CodeV3.get path).
Proof.
  intros s. destruct (unescaped path) eqn:U.
  - rewrite (CodeV3_get_refused path s U). exists [], []. simpl. rewrite !app_nil_r.
    repeat split. left. reflexivity.
  - rewrite (CodeV3_get_spec path s U).
    exists [Index_request h "GET" path None], []. simpl. rewrite app_nil_r.
    repeat split. right. eexists. split; [reflexivity |]. exists path. left. reflexivity.
Qed.

Lemma requester_CodeV3_put path body : requester h (Index_call h) (CodeV3.put path body).
Proof.
  intros s. destruct (unescaped path) eqn:U.
  - rewrite (CodeV3_put_refused path body h s U). exists [], []. simpl. rewrite !app_nil_r.
    repeat split. left. reflexivity.
  - rewrite (CodeV3_put_spec path body h s U).
    exists [Index_request h "PUT" path (Some body)], []. simpl. rewrite app_nil_r.
    repeat split. right. eexists. split; [reflexivity |].
    exists path. right. exists body. reflexivity.
Qed.

Lemma inert_CodeV3_toAlexaEndpoint endpoint : inert h (CodeV3.toAlexaEndpoint endpoint).
Proof. unfold CodeV3.toAlexaEndpoint, CodeV3.getEndpointCapabilities. inert_steps. Qed.

Lemma CodeV3_invalid_directive Q context directiveName :
  (forall v, versioned_reply (Failed v) -> Q (Failed v)) ->
  responder h Q (CodeV3.failInvalidDirective context directiveName).
Proof.
  intros W. unfold CodeV3.failInvalidDirective, CodeV3.getErrorResponse. peel.
  apply responder_fail; [apply inert_Index_getErrorResponse |].
  intros s r s' E. apply W.
  apply (Index_error_reply h invalidDirective _ (or_intror (or_introl eq_refl)) s r s' E).
Qed.

Lemma CodeV3_discovery_disciplined event context :
  disciplined h (Index_call h) versioned_reply (CodeV3.handleDiscoveryEvent event context).
Proof.
  unfold CodeV3.handleDiscoveryEvent, CodeV3.getDiscoveryAlexaResponse,
    CodeV3.isEndpointSupported.
  peel.
  apply disciplined_chain.
  - apply requester_then; [apply requester_then; [apply requester_CodeV3_get |] |].
    + intros endpointResponse. inert_steps.
    + intros endpoints.
      apply inert_bind;
        [apply inert_method_filter, inert_Index_isEndpointSupported | intros supported].
      apply inert_method_map, inert_CodeV3_toAlexaEndpoint.
  - intros alexaEndpoints.
    apply responder_succeed; [apply inert_Index_discovery_reply | apply Index_discovery_reply].
  - intros getError.
    apply responder_succeed; [apply inert_Index_discovery_reply | apply Index_discovery_reply].
Qed.

Lemma CodeV3_power_disciplined event context :
  disciplined h (Index_call h) versioned_reply (CodeV3.handlePowerControlEvent event context).
Proof.
  unfold CodeV3.handlePowerControlEvent, CodeV3.getDirectiveName, CodeV3.getEndpointId,
    CodeV3.getEndpointToken, CodeV3.getPowerControlAlexaResponse, CodeV3.getPutErrorResponse.
  peel.
  destruct (negb _).
  - apply responder_disciplined, CodeV3_invalid_directive. auto.
  - peel. apply disciplined_chain.
    + apply requester_CodeV3_put.
    + intros endpointResponse.
      apply responder_succeed; [apply inert_Index_power_reply | apply Index_power_reply].
    + intros putError. apply Index_put_error_fails. auto.
Qed.

(** A chain that ends in [context.success]: the only reply it can give is
    the failure of its rejection callback. *)
Lemma CodeV3_success_chain_disciplined Q context path body reply :
  (forall v, versioned_reply (Failed v) -> Q (Failed v)) ->
  (forall r, inert h (reply r)) ->
  disciplined h (Index_call h) Q (CodeV3.success_chain context (CodeV3.put path body) reply).
Proof.
  intros W I. unfold CodeV3.success_chain, CodeV3.getPutErrorResponse.
  apply disciplined_chain.
  - apply requester_CodeV3_put.
  - intros endpointResponse. apply responder_bind; [apply I | intros r].
    apply responder_throw.
  - intros putError. apply Index_put_error_fails, W.
Qed.

Lemma CodeV3_channel_disciplined Q event context :
  (forall v, versioned_reply (Failed v) -> Q (Failed v)) ->
  disciplined h (Index_call h) Q (CodeV3.handleChannelControlEvent event context).
Proof.
  intros W. unfold CodeV3.handleChannelControlEvent, CodeV3.getDirectiveName.
  peel.
  destruct (strict_eq_str _ _).
  - unfold CodeV3.handleChangeChannelEvent, CodeV3.getEndpointId, CodeV3.getEndpointToken.
    peel.
    apply CodeV3_success_chain_disciplined; [exact W | apply inert_Index_channel_reply].
  - destruct (strict_eq_str _ _).
    + unfold CodeV3.handleSkipChannelsEvent, CodeV3.getEndpointId.
      peel.
      apply CodeV3_success_chain_disciplined; [exact W | apply inert_Index_channel_reply].
    + apply responder_disciplined, CodeV3_invalid_directive, W.
Qed.

Lemma CodeV3_input_disciplined Q event context :
  (forall v, versioned_reply (Failed v) -> Q (Failed v)) ->
  disciplined h (Index_call h) Q (CodeV3.handleInputControlEvent event context).
Proof.
  intros W. unfold CodeV3.handleInputControlEvent, CodeV3.getDirectiveName,
    CodeV3.getEndpointId, CodeV3.getEndpointToken.
  peel.
  destruct (strict_eq_str _ _).
  - peel. apply CodeV3_success_chain_disciplined; [exact W |].
    intros r. unfold CodeV3.getInputAlexaResponse, CodeV3.getResponse. inert_steps.
  - apply responder_disciplined, CodeV3_invalid_directive, W.
Qed.

Lemma CodeV3_step_speaker_disciplined Q event context :
  (forall v, versioned_reply (Failed v) -> Q (Failed v)) ->
  disciplined h (Index_call h) Q (CodeV3.handleStepSpeakerEvent event context).
Proof.
  intros W. unfold CodeV3.handleStepSpeakerEvent, CodeV3.getDirectiveName,
    CodeV3.getEndpointId, CodeV3.getEndpointToken.
  peel.
  match goal with |- disciplined _ _ _ (match ?x with _ => _ end) => destruct x end.
  - peel. apply CodeV3_success_chain_disciplined; [exact W |].
    intros r. unfold CodeV3.getStepSpeakerAlexaResponse, CodeV3.getResponse. inert_steps.
  - apply responder_disciplined, CodeV3_invalid_directive, W.
Qed.

Lemma CodeV3_playback_disciplined Q event context :
  (forall v, versioned_reply (Failed v) -> Q (Failed v)) ->
  disciplined h (Index_call h) Q (CodeV3.handlePlaybackControlEvent event context).
Proof.
  intros W. unfold CodeV3.handlePlaybackControlEvent, CodeV3.getDirectiveName,
    CodeV3.getEndpointId, CodeV3.getEndpointToken.
  peel.
  destruct (CodeV3.isPlaybackDirectiveValid _).
  - peel. apply CodeV3_success_chain_disciplined; [exact W |].
    intros r. unfold CodeV3.getPlaybackControlAlexaResponse, CodeV3.getResponse. inert_steps.
  - apply responder_disciplined, CodeV3_invalid_directive, W.
Qed.

Lemma CodeV3_handler_disciplined event context :
  disciplined h (Index_call h) versioned_reply (CodeV3.handler event context).
Proof.
  unfold CodeV3.handler, CodeV3.isEventValid, CodeV3.getErrorResponse.
  apply disciplined_bind; [apply inert_isEventValid | intros valid].
  destruct (truthy valid).
  - apply disciplined_bind; [apply inert_prop_path | intros namespace].
    destruct (strict_eq_str _ _); [apply CodeV3_discovery_disciplined |].
    destruct (strict_eq_str _ _); [apply CodeV3_power_disciplined |].
    destruct (strict_eq_str _ _); [apply CodeV3_input_disciplined; auto |].
    destruct (strict_eq_str _ _); [apply CodeV3_channel_disciplined; auto |].
    destruct (strict_eq_str _ _); [apply CodeV3_step_speaker_disciplined; auto |].
    destruct (strict_eq_str _ _); [apply CodeV3_playback_disciplined; auto |].
    apply responder_disciplined. peel. apply Index_fails. simpl. tauto.
  - apply responder_disciplined, Index_fails. simpl. tauto.
Qed.

End CodeV3Discipline.

(* ------------------------------------------------------------------ *)
(** *** The latest revision *)

Section LatestDiscipline.

Variable h : Host.

Lemma Latest_get_spec path s :
  unescaped path = false ->
  let req := Latest_request h "GET" path None in
  Latest.get path h s =
  (match backend h req with
   | SocketError e => Throw e
   | Response sc hd text =>
       if (sc =? 200)%Z then
         match JSON_parse h text with
         | Some v => Ok v
         | None => Stuck (UncaughtException (SyntaxError "Unexpected token in JSON"))
         end
       else Throw (Error ("HTTP " ++ Number_toString sc))
   end, Latest_issued s req).
Proof.
  intros U. cbv zeta.
  change (Latest.get path h s)
    with (Latest.httpPromise (options (Latest_request h "GET" path None)) None h s).
  apply Latest_httpPromise_spec. exact U.
Qed.

(** A refused GET: the clock was read once, nothing was sent. *)
Lemma Latest_get_refused path s :
  unescaped path = true ->
  Latest.get path h s = (Throw ERR_UNESCAPED_CHARACTERS, ticked s).
Proof.
  intros U.
  change (Latest.get path h s)
    with (Latest.httpPromise (options (Latest_request h "GET" path None)) None h s).
  apply Latest_httpPromise_refused. exact U.
Qed.

Lemma requester_Latest_get path : requester h (Latest_call h) (Latest.get path).
Proof.
  intros s. destruct (unescaped path) eqn:U.
  - rewrite (Latest_get_refused path s U). exists [], []. simpl. rewrite !app_nil_r.
    repeat split. left. reflexivity.
  - rewrite (Latest_get_spec path s U).
    exists [Latest_request h "GET" path None], []. simpl. rewrite app_nil_r.
    repeat split. right. eexists. split; [reflexivity |]. exists path. left. reflexivity.
Qed.

Lemma requester_Latest_post path postData :
  requester h (Latest_call h) (Latest.post path postData).
Proof.
  intros s. destruct (unescaped path) eqn:U.
  - rewrite (Latest_post_refused path postData h s U). exists [], []. simpl.
    rewrite !app_nil_r. repeat split. left. reflexivity.
  - rewrite (Latest_post_spec path postData h s U).
    exists [Latest_request h "POST" path (Some (stringify_object postData))], [].
    simpl. rewrite app_nil_r.
    repeat split. right. eexists. split; [reflexivity |].
    exists path. right. eexists. reflexivity.
Qed.

Lemma inert_Latest_getErrorReply type rest : inert h (Latest.getErrorReply type rest).
Proof. unfold Latest.getErrorReply. inert_steps. Qed.

Lemma Latest_error_reply type rest :
  In type [internalError; invalidDirective; endpointUnreachable] ->
  yields h (Latest.getErrorReply type rest) (fun v => versioned_reply (Failed v)).
Proof.
  intros T. unfold Latest.getErrorReply. yields_envelope.
  simpl in T. destruct T as [<- | [<- | [<- | []]]]; reflexivity.
Qed.

Lemma Latest_fails Q type rest context :
  In type [internalError; invalidDirective; endpointUnreachable] ->
  (forall v, versioned_reply (Failed v) -> Q (Failed v)) ->
  responder h Q (r <- Latest.getErrorReply type rest ;; Latest.fail r context).
Proof.
  intros T W. destruct context as [context |]; simpl.
  - apply responder_fail; [apply inert_Latest_getErrorReply |].
    intros s a s' E. apply W, (Latest_error_reply type rest T s a s' E).
  - apply responder_bind; [apply inert_Latest_getErrorReply | intros r].
    apply responder_throw.
Qed.

Lemma Latest_invalid_directive Q directiveName context :
  (forall v, versioned_reply (Failed v) -> Q (Failed v)) ->
  responder h Q (r <- Latest.getInvalidDirectiveReply directiveName ;;
                 Latest.fail r (Some context)).
Proof.
  intros W. unfold Latest.getInvalidDirectiveReply. apply Latest_fails; [simpl; tauto | exact W].
Qed.

Lemma Latest_service_error Q error context :
  (forall v, versioned_reply (Failed v) -> Q (Failed v)) ->
  responder h Q (r <- Latest.getServiceErrorReply error ;; Latest.fail r context).
Proof.
  intros W. unfold Latest.getServiceErrorReply. apply Latest_fails; [simpl; tauto | exact W].
Qed.

Lemma Latest_succeeds Q reply context :
  Q (Succeeded reply) -> responder h Q (Latest.succeed reply (Some context)).
Proof.
  intros Qr s. exists [], [Succeeded reply]. simpl. rewrite app_nil_r.
  repeat split. eauto.
Qed.

Lemma inert_Latest_isEndpointSupported endpoint : inert h (Latest.isEndpointSupported endpoint).
Proof. unfold Latest.isEndpointSupported. inert_steps. Qed.

Lemma inert_Latest_toAlexaEndpoint endpoint : inert h (Latest.toAlexaEndpoint endpoint).
Proof. unfold Latest.toAlexaEndpoint, Latest.getEndpointCapabilities. inert_steps. Qed.

Lemma inert_Latest_getDiscoveryReply endpoints : inert h (Latest.getDiscoveryReply endpoints).
Proof.
  unfold Latest.getDiscoveryReply.
  apply inert_bind;
    [apply inert_method_filter, inert_Latest_isEndpointSupported | intros supported].
  apply inert_bind;
    [apply inert_method_map, inert_Latest_toAlexaEndpoint | intros compatibleEndpoints].
  inert_steps.
Qed.

Lemma Latest_discovery_reply endpoints :
  yields h (Latest.getDiscoveryReply endpoints) (fun v => versioned_reply (Succeeded v)).
Proof. unfold Latest.getDiscoveryReply. yields_envelope. reflexivity. Qed.

Lemma Latest_discovery_disciplined event context :
  disciplined h (Latest_call h) versioned_reply (Latest.handleDiscoveryEvent event context).
Proof.
  unfold Latest.handleDiscoveryEvent. peel.
  apply (disciplined_chain_yields h _ _ (fun v => versioned_reply (Succeeded v))).
  - apply requester_then; [apply requester_Latest_get | apply inert_Latest_getDiscoveryReply].
  - apply yields_bind. intros endpoints. apply Latest_discovery_reply.
  - intros reply R. apply Latest_succeeds, R.
  - intros error.
    apply responder_succeed;
      [apply inert_Latest_getDiscoveryReply | apply Latest_discovery_reply].
Qed.

(** A chain of the latest revision; [failing] is the context its rejection
    callback hands to [fail]. *)
Lemma Latest_chain_disciplined Q context failing path postData reply :
  (forall v, versioned_reply (Failed v) -> Q (Failed v)) ->
  (forall r, inert h (reply r)) ->
  (forall r, yields h (reply r) (fun v => Q (Succeeded v))) ->
  disciplined h (Latest_call h) Q
    (detach (catch_ (then_ (then_ (Latest.post path postData) reply)
                       (fun r => Latest.succeed r (Some context)))
               (fun error => r <- Latest.getServiceErrorReply error ;;
                             Latest.fail r failing))).
Proof.
  intros W I Y.
  apply (disciplined_chain_yields h _ _ (fun v => Q (Succeeded v))).
  - apply requester_then; [apply requester_Latest_post | exact I].
  - apply yields_bind. exact Y.
  - intros r R. apply Latest_succeeds, R.
  - intros error. apply Latest_service_error, W.
Qed.

Lemma inert_Latest_getEndpointId event : inert h (Latest.getEndpointId event).
Proof. unfold Latest.getEndpointId. inert_steps. Qed.

Ltac latest_reads :=
  unfold Latest.getDirectiveName, Latest.getEndpointToken, Latest.getEndpointId; peel.

Ltac latest_unfold :=
  unfold Latest.getPowerControlReply, Latest.getChannelReply, Latest.getInputReply,
    Latest.getStepSpeakerReply, Latest.getPlaybackControlReply.

Ltac latest_inert := intros ?; latest_unfold; inert_steps.

Ltac latest_yields := intros ?; latest_unfold; yields_envelope; reflexivity.

Lemma Latest_power_disciplined event context :
  disciplined h (Latest_call h) versioned_reply (Latest.handlePowerControlEvent event context).
Proof.
  unfold Latest.handlePowerControlEvent. latest_reads.
  destruct (negb _).
  - apply responder_disciplined, Latest_invalid_directive. auto.
  - latest_reads. apply Latest_chain_disciplined; [auto | latest_inert | latest_yields].
Qed.

Lemma Latest_channel_disciplined event context :
  disciplined h (Latest_call h) versioned_reply
    (Latest.handleChannelControlEvent event context).
Proof.
  unfold Latest.handleChannelControlEvent. latest_reads.
  destruct (strict_eq_str _ _).
  - unfold Latest.handleChangeChannelEvent. latest_reads.
    apply Latest_chain_disciplined; [auto | latest_inert | latest_yields].
  - destruct (strict_eq_str _ _).
    + unfold Latest.handleSkipChannelsEvent. latest_reads.
      apply Latest_chain_disciplined; [auto | latest_inert | latest_yields].
    + apply responder_disciplined, Latest_invalid_directive. auto.
Qed.

(** The input handler: its rejection callback calls [fail] without the
    context, so the only reply of a SelectInput is a success. *)
Lemma Latest_input_disciplined Q event context :
  (forall v, versioned_reply (Failed v) -> Q (Failed v)) ->
  (forall v, versioned_reply (Succeeded v) -> Q (Succeeded v)) ->
  disciplined h (Latest_call h) Q (Latest.handleInputControlEvent event context).
Proof.
  intros WF WS. unfold Latest.handleInputControlEvent. latest_reads.
  destruct (strict_eq_str _ _).
  - peel. apply Latest_chain_disciplined; [exact WF | latest_inert |].
    intros r s0 v s1 E. apply WS. revert s0 v s1 E.
    change (yields h (Latest.getInputReply r) (fun v => versioned_reply (Succeeded v))).
    unfold Latest.getInputReply. yields_envelope. reflexivity.
  - apply responder_disciplined, Latest_invalid_directive, WF.
Qed.

Lemma Latest_step_speaker_disciplined event context :
  disciplined h (Latest_call h) versioned_reply
    (Latest.handleStepSpeakerEvent event context).
Proof.
  unfold Latest.handleStepSpeakerEvent. latest_reads.
  match goal with |- disciplined _ _ _ (match ?x with _ => _ end) => destruct x end.
  - peel. apply Latest_chain_disciplined; [auto | latest_inert | latest_yields].
  - apply responder_disciplined, Latest_invalid_directive. auto.
Qed.

Lemma Latest_playback_disciplined event context :
  disciplined h (Latest_call h) versioned_reply
    (Latest.handlePlaybackControlEvent event context).
Proof.
  unfold Latest.handlePlaybackControlEvent. latest_reads.
  destruct (Latest.isPlaybackDirectiveValid _).
  - peel. apply Latest_chain_disciplined; [auto | latest_inert | latest_yields].
  - apply responder_disciplined, Latest_invalid_directive. auto.
Qed.

Lemma Latest_handler_disciplined event context :
  disciplined h (Latest_call h) versioned_reply (Latest.handler event context).
Proof.
  unfold Latest.handler. change Latest.isEventValid with Index.isEventValid.
  apply disciplined_bind; [apply inert_isEventValid | intros valid].
  destruct (truthy valid).
  - apply disciplined_bind; [apply inert_prop_path | intros namespace].
    destruct (strict_eq_str _ _); [apply Latest_discovery_disciplined |].
    destruct (strict_eq_str _ _); [apply Latest_power_disciplined |].
    destruct (strict_eq_str _ _); [apply Latest_input_disciplined; auto |].
    destruct (strict_eq_str _ _); [apply Latest_channel_disciplined |].
    destruct (strict_eq_str _ _); [apply Latest_step_speaker_disciplined |].
    destruct (strict_eq_str _ _); [apply Latest_playback_disciplined |].
    apply responder_disciplined, Latest_fails; [simpl; tauto | auto].
  - apply responder_disciplined, Latest_fails; [simpl; tauto | auto].
Qed.

Lemma inert_sent {A} (m : M A) : inert h m -> forall s, sent (snd (m h s)) = sent s.
Proof.
  intros I s. destruct (I s) as [rs [ps [Es [_ [-> _]]]]].
  rewrite app_nil_r in Es. exact Es.
Qed.

(** A chain of the latest revision whose path Node accepts issues its one
    request, whatever comes back. *)
Lemma Latest_chain_sent context failing path postData reply s :
  unescaped path = false ->
  (forall r, inert h (reply r)) ->
  sent (snd (detach (catch_ (then_ (then_ (Latest.post path postData) reply)
                               (fun r => Latest.succeed r (Some context)))
                       (fun error => r <- Latest.getServiceErrorReply error ;;
                                     Latest.fail r failing)) h s))
  = (sent s ++ [Latest_request h "POST" path (Some (stringify_object postData))])%list.
Proof.
  intros U I. unfold detach, catch_, then_.
  unfold bind at 1. unfold bind at 1. rewrite (Latest_post_spec _ _ _ _ U).
  destruct (backend h _) as [e | sc hd text]; [destruct failing; reflexivity |].
  destruct (sc =? 200)%Z; [| destruct failing; reflexivity].
  destruct (JSON_parse h text) as [v |]; [| reflexivity].
  pose proof (inert_sent _ (I v)
                (Latest_issued s (Latest_request h "POST" path
                                    (Some (stringify_object postData))))) as Kv.
  destruct (reply v h _) as [[envelope | e | f] s1]; simpl in Kv; simpl;
    try (destruct failing; simpl); rewrite Kv; reflexivity.
Qed.

Section Addressing.

Variables (event : JSValue) (context : Context) (endpointId : string).
Hypothesis Carried :
  at_path event ["directive"; "endpoint"; "endpointId"] = JStr endpointId.
Hypothesis Accepted : unescaped (decode_id endpointId) = false.

Lemma named_readable name :
  header_field event "name" = JStr name ->
  readable event ["directive"; "header"; "name"] = true.
Proof. intros N. apply at_path_defined_readable. unfold header_field in N. rewrite N. discriminate. Qed.

Lemma path_accepted (tail : string) :
  unescaped tail = false ->
  unescaped ("/endpoints/" ++ decode_id endpointId ++ tail) = false.
Proof.
  intros T. rewrite !unescaped_app, Accepted, T. reflexivity.
Qed.

Ltac read_endpoint :=
  rewrite (bind_ok _ _ h start _ _ (Latest_getEndpointId_spec event _ h start Carried));
  fold (decode_id endpointId).

Ltac read_text T :=
  rewrite (bind_ok _ _ h start _ _ (to_string_ok (JStr _) _ h start eq_refl));
  rewrite (bind_ok _ _ h start _ _ (to_string_ok _ _ h start T)).

Ltac posted_by_chain :=
  unfold Latest.reply_chain; eexists;
  rewrite Latest_chain_sent;
  [ reflexivity
  | apply path_accepted; rewrite ?unescaped_app; try reflexivity;
    try match goal with C : unescaped _ = false |- _ => rewrite C; reflexivity end
  | latest_inert ].

Lemma skip_channels_posted :
  readable event ["directive"; "payload"; "channelCount"] = true ->
  posted h ("/endpoints/" ++ decode_id endpointId ++ "/channel")
    (run h (Latest.handleSkipChannelsEvent event context)).
Proof.
  intros Payload. unfold posted, run, Latest.handleSkipChannelsEvent.
  read_endpoint.
  rewrite (bind_ok _ _ h start _ _ (prop_path_readable _ _ h start Payload)).
  rewrite (bind_ok _ _ h start _ _ (to_string_ok (JStr _) _ h start eq_refl)).
  posted_by_chain.
Qed.

Section Token.

Variable token : string.
Hypothesis Scope : readable event ["directive"; "endpoint"; "scope"; "token"] = true.
Hypothesis Token : ToString (at_path event ["directive"; "endpoint"; "scope"; "token"]) = Some token.
Hypothesis Clean : unescaped token = false.

Lemma change_channel_posted :
  readable event ["directive"; "payload"; "channel"] = true ->
  posted h ("/endpoints/" ++ decode_id endpointId ++ "/channel?access_token=" ++ token)
    (run h (Latest.handleChangeChannelEvent event context)).
Proof.
  intros Payload.
  assert (Metadata : readable event ["directive"; "payload"; "channelMetadata"] = true).
  { simpl in Payload |- *. rewrite !andb_true_r in *. exact Payload. }
  unfold posted, run, Latest.handleChangeChannelEvent, Latest.getEndpointToken.
  read_endpoint.
  rewrite (bind_ok _ _ h start _ _ (prop_path_readable _ _ h start Scope)).
  rewrite (bind_ok _ _ h start _ _ (prop_path_readable _ _ h start Metadata)).
  rewrite (bind_ok _ _ h start _ _ (prop_path_readable _ _ h start Payload)).
  read_text Token. posted_by_chain.
Qed.

Lemma power_posted name :
  header_field event "name" = JStr name ->
  In name ["TurnOn"; "TurnOff"] ->
  posted h ("/endpoints/" ++ decode_id endpointId ++ "/power?access_token=" ++ token)
    (run h (Latest.handlePowerControlEvent event context)).
Proof.
  intros Name Supported.
  unfold posted, run, Latest.handlePowerControlEvent, Latest.getDirectiveName,
    Latest.getEndpointToken.
  rewrite (bind_ok _ _ h start _ _ (prop_path_readable _ _ h start (named_readable _ Name))).
  unfold header_field in Name. rewrite Name.
  rewrite (bind_ok _ _ h start _ _ (turn_on_off name h start Supported)).
  simpl (negb _). cbv iota. read_endpoint.
  rewrite (bind_ok _ _ h start _ _ (prop_path_readable _ _ h start Scope)).
  read_text Token. posted_by_chain.
Qed.

Lemma channel_control_posted name :
  header_field event "name" = JStr name ->
  readable event ["directive"; "payload"; "channel"] = true ->
  (name = "ChangeChannel" ->
   posted h ("/endpoints/" ++ decode_id endpointId ++ "/channel?access_token=" ++ token)
     (run h (Latest.handleChannelControlEvent event context)))
  /\ (name = "SkipChannels" ->
      posted h ("/endpoints/" ++ decode_id endpointId ++ "/channel")
        (run h (Latest.handleChannelControlEvent event context))).
Proof.
  intros Name Payload.
  assert (Count : readable event ["directive"; "payload"; "channelCount"] = true).
  { simpl in Payload |- *. rewrite !andb_true_r in *. exact Payload. }
  unfold run, Latest.handleChannelControlEvent, Latest.getDirectiveName.
  rewrite (bind_ok _ _ h start _ _ (prop_path_readable _ _ h start (named_readable _ Name))).
  unfold header_field in Name. rewrite Name.
  split; intros ->; simpl (strict_eq_str _ _); cbv iota.
  - apply (change_channel_posted Payload).
  - apply (skip_channels_posted Count).
Qed.

Lemma select_input_posted :
  header_field event "name" = JStr "SelectInput" ->
  readable event ["directive"; "payload"; "input"] = true ->
  posted h ("/endpoints/" ++ decode_id endpointId ++ "/input?access_token=" ++ token)
    (run h (Latest.handleInputControlEvent event context)).
Proof.
  intros Name Payload.
  unfold posted, run, Latest.handleInputControlEvent, Latest.getDirectiveName,
    Latest.getEndpointToken.
  rewrite (bind_ok _ _ h start _ _ (prop_path_readable _ _ h start (named_readable _ Name))).
  unfold header_field in Name. rewrite Name. read_endpoint.
  rewrite (bind_ok _ _ h start _ _ (prop_path_readable _ _ h start Scope)).
  rewrite (bind_ok _ _ h start _ _ (prop_path_readable _ _ h start Payload)).
  simpl (strict_eq_str _ _). cbv iota.
  read_text Token. posted_by_chain.
Qed.

Lemma step_speaker_posted name :
  header_field event "name" = JStr name ->
  In name ["SetMute"; "AdjustVolume"] ->
  readable event ["directive"; "payload"; "mute"] = true ->
  posted h ("/endpoints/" ++ decode_id endpointId ++ "/volume?accessToken=" ++ token)
    (run h (Latest.handleStepSpeakerEvent event context)).
Proof.
  intros Name Supported Payload.
  assert (Steps : readable event ["directive"; "payload"; "volumeSteps"] = true).
  { simpl in Payload |- *. rewrite !andb_true_r in *. exact Payload. }
  unfold posted, run, Latest.handleStepSpeakerEvent, Latest.getDirectiveName,
    Latest.getEndpointToken.
  rewrite (bind_ok _ _ h start _ _ (prop_path_readable _ _ h start (named_readable _ Name))).
  unfold header_field in Name. rewrite Name. read_endpoint.
  rewrite (bind_ok _ _ h start _ _ (prop_path_readable _ _ h start Scope)).
  simpl in Supported. destruct Supported as [<- | [<- | []]];
    simpl (strict_eq_str _ _); cbv iota.
  - rewrite bind_assoc.
    rewrite (bind_ok _ _ h start _ _ (prop_path_readable _ _ h start Payload)).
    rewrite (bind_ok _ _ h start _ _ (eq_refl : ret _ h start = (Ok _, start))).
    read_text Token. posted_by_chain.
  - rewrite bind_assoc.
    rewrite (bind_ok _ _ h start _ _ (prop_path_readable _ _ h start Steps)).
    rewrite (bind_ok _ _ h start _ _ (eq_refl : ret _ h start = (Ok _, start))).
    read_text Token. posted_by_chain.
Qed.

Lemma playback_posted name :
  header_field event "name" = JStr name ->
  In name SUPPORTED_PLAYBACK_DIRECTIVES ->
  posted h ("/endpoints/" ++ decode_id endpointId ++ "/playback?accessToken=" ++ token)
    (run h (Latest.handlePlaybackControlEvent event context)).
Proof.
  intros Name Supported.
  unfold posted, run, Latest.handlePlaybackControlEvent, Latest.getDirectiveName,
    Latest.getEndpointToken.
  rewrite (bind_ok _ _ h start _ _ (prop_path_readable _ _ h start (named_readable _ Name))).
  unfold header_field in Name. rewrite Name. read_endpoint.
  rewrite (bind_ok _ _ h start _ _ (prop_path_readable _ _ h start Scope)).
  change (Latest.isPlaybackDirectiveValid (JStr name))
    with (CodeV3.isPlaybackDirectiveValid (JStr name)).
  rewrite (proj1 (playback_name_valid name Supported)).
  read_text Token. posted_by_chain.
Qed.

End Token.

End Addressing.

End LatestDiscipline.

(* ------------------------------------------------------------------ *)
(** *** The legacy revision *)

Section LegacyDiscipline.

Variable h : Host.

Lemma Index_getOptions_spec body s :
  Index.getOptions body h s = (Ok (Index_options h body), s).
Proof. reflexivity. Qed.

Lemma inert_Index_getOptions body : inert h (Index.getOptions body).
Proof. apply effect_unchanged. intros s. split; reflexivity. Qed.

Lemma yields_Index_getOptions body :
  yields h (Index.getOptions body) (fun o => o = Index_options h body).
Proof. intros s a s' E. rewrite Index_getOptions_spec in E. injection E as <- _. reflexivity. Qed.

Lemma Legacy_getResponse_spec name namespace payload s :
  Legacy.getResponse name namespace payload h s
  = (Ok (legacy_envelope (clock h (ticks s)) name namespace
           (if is_undefined payload then JObj [] else payload)), ticked s).
Proof. reflexivity. Qed.

Lemma Legacy_get_spec path s :
  unescaped path = false ->
  Legacy.get path (Index_options h None) h s =
  (match backend h (Index_request h "GET" path None) with
   | SocketError e => Throw e
   | Response sc hd text => Ok (response_object sc hd text)
   end, issued s (Index_request h "GET" path None)).
Proof.
  intros U. change (Legacy.get path (Index_options h None) h s)
    with (Index.httpPromise (options (Index_request h "GET" path None)) None h s).
  apply Index_httpPromise_spec. exact U.
Qed.

Lemma Legacy_get_refused path s :
  unescaped path = true ->
  Legacy.get path (Index_options h None) h s = (Throw ERR_UNESCAPED_CHARACTERS, s).
Proof.
  intros U. change (Legacy.get path (Index_options h None) h s)
    with (Index.httpPromise (options (Index_request h "GET" path None)) None h s).
  apply Index_httpPromise_refused. exact U.
Qed.

Lemma Legacy_put_spec path body s :
  unescaped path = false ->
  Legacy.put path body (Index_options h (Some body)) h s =
  (match backend h (Index_request h "PUT" path (Some body)) with
   | SocketError e => Throw e
   | Response sc hd text => Ok (response_object sc hd text)
   end, issued s (Index_request h "PUT" path (Some body))).
Proof.
  intros U. change (Legacy.put path body (Index_options h (Some body)) h s)
    with (Index.httpPromise (options (Index_request h "PUT" path (Some body))) (Some body) h s).
  apply Index_httpPromise_spec. exact U.
Qed.

Lemma Legacy_put_refused path body s :
  unescaped path = true ->
  Legacy.put path body (Index_options h (Some body)) h s
  = (Throw ERR_UNESCAPED_CHARACTERS, s).
Proof.
  intros U. change (Legacy.put path body (Index_options h (Some body)) h s)
    with (Index.httpPromise (options (Index_request h "PUT" path (Some body))) (Some body) h s).
  apply Index_httpPromise_refused. exact U.
Qed.

Lemma requester_Legacy_get path :
  requester h (Index_call h) (Legacy.get path (Index_options h None)).
Proof.
  intros s. destruct (unescaped path) eqn:U.
  - rewrite (Legacy_get_refused path s U). exists [], []. simpl. rewrite !app_nil_r.
    repeat split. left. reflexivity.
  - rewrite (Legacy_get_spec path s U).
    exists [Index_request h "GET" path None], []. simpl. rewrite app_nil_r.
    repeat split. right. eexists. split; [reflexivity |]. exists path. left. reflexivity.
Qed.

Lemma requester_Legacy_put path body :
  requester h (Index_call h) (Legacy.put path body (Index_options h (Some body))).
Proof.
  intros s. destruct (unescaped path) eqn:U.
  - rewrite (Legacy_put_refused path body s U). exists [], []. simpl. rewrite !app_nil_r.
    repeat split. left. reflexivity.
  - rewrite (Legacy_put_spec path body s U).
    exists [Index_request h "PUT" path (Some body)], []. simpl. rewrite app_nil_r.
    repeat split. right. eexists. split; [reflexivity |].
    exists path. right. exists body. reflexivity.
Qed.

Lemma Legacy_replies (accepted : Reply -> Prop) (wrap : JSValue -> Reply) name namespace payload :
  (forall t, accepted (wrap (legacy_envelope t name namespace
                               (if is_undefined payload then JObj [] else payload)))) ->
  yields h (Legacy.getResponse name namespace payload) (fun v => accepted (wrap v)).
Proof.
  intros Q s a s' E. rewrite Legacy_getResponse_spec in E. injection E as <- _. apply Q.
Qed.

Lemma Legacy_unsupported context :
  responder h legacy_reply
    (r <- Legacy.getResponse "UnsupportedOperationError" "Alexa.ConnectedHome.Control"
            JUndefined ;;
     context_fail context r).
Proof.
  apply responder_fail; [apply inert_Legacy_getResponse |].
  apply (Legacy_replies legacy_reply Failed). reflexivity.
Qed.

Lemma Legacy_discovers context discoveredAppliances :
  responder h legacy_reply
    (response <- Legacy.getDiscoveryResponse discoveredAppliances ;;
     context_succeed context response).
Proof.
  unfold Legacy.getDiscoveryResponse.
  apply responder_succeed; [apply inert_Legacy_getResponse |].
  apply (Legacy_replies legacy_reply Succeeded). reflexivity.
Qed.

Lemma inert_Legacy_isApplianceValid appliance : inert h (Legacy.isApplianceValid appliance).
Proof. unfold Legacy.isApplianceValid, Legacy.test_on_off. inert_steps. Qed.

Lemma inert_Legacy_toAppliance appliance : inert h (Legacy.toAppliance appliance).
Proof. unfold Legacy.toAppliance. inert_steps. Qed.

Lemma Legacy_discovery_disciplined event context :
  disciplined h (Index_call h) legacy_reply (Legacy.handleDiscovery event context).
Proof.
  unfold Legacy.handleDiscovery, Legacy.getOptions.
  apply disciplined_bind; [apply inert_prop_path | intros token].
  apply disciplined_bind; [apply inert_method_trim | intros accessToken].
  apply disciplined_bind; [apply inert_to_string | intros tokenText].
  apply (disciplined_bind_yields h _ _ _ _ (fun o => o = Index_options h None));
    [apply inert_Index_getOptions | apply yields_Index_getOptions | intros o ->].
  apply disciplined_chain.
  - apply requester_then; [apply requester_then; [apply requester_Legacy_get |] |].
    + intros response. inert_steps.
    + intros appliances.
      apply inert_bind;
        [apply inert_method_filter, inert_Legacy_isApplianceValid | intros valid].
      apply inert_method_map, inert_Legacy_toAppliance.
  - intros validAppliances. apply Legacy_discovers.
  - intros error. apply Legacy_discovers.
Qed.

Lemma Legacy_control_disciplined event context :
  disciplined h (Index_call h) legacy_reply (Legacy.handleControl event context).
Proof.
  unfold Legacy.handleControl, Legacy.getOptions.
  apply disciplined_bind; [apply inert_prop_path | intros name].
  apply disciplined_bind;
    [unfold Legacy.match_TurnOnOffRequest; inert_steps | intros matched].
  destruct (negb matched); [apply responder_disciplined, Legacy_unsupported |].
  apply disciplined_bind; [apply inert_prop_path | intros applianceId].
  apply disciplined_bind; [apply inert_prop_path | intros token].
  apply disciplined_bind; [apply inert_method_trim | intros accessToken].
  apply disciplined_bind; [apply inert_to_string | intros idText].
  apply disciplined_bind; [apply inert_to_string | intros tokenText].
  apply (disciplined_bind_yields h _ _ _ _
           (fun o => o = Index_options h (Some (stringify_object
              [("level", JStr (if strict_eq_str name "TurnOnRequest" then "on" else "off"))]))));
    [apply inert_Index_getOptions | apply yields_Index_getOptions | intros o ->].
  apply disciplined_chain.
  - apply requester_Legacy_put.
  - intros response.
    apply responder_bind; [unfold Index.status_is_200; inert_steps | intros ok].
    destruct ok.
    + apply responder_succeed; [apply inert_Legacy_getResponse |].
      apply (Legacy_replies legacy_reply Succeeded).
      destruct (strict_eq_str name "TurnOnRequest"); reflexivity.
    + apply responder_bind; [apply inert_prop | intros statusCode].
      apply responder_bind; [apply inert_to_string | intros statusText].
      apply responder_throw.
  - intros error.
    apply responder_fail; [apply inert_Legacy_getResponse |].
    apply (Legacy_replies legacy_reply Failed). reflexivity.
Qed.

Lemma Legacy_handler_disciplined event context :
  disciplined h (Index_call h) legacy_reply (Legacy.handler event context).
Proof.
  unfold Legacy.handler.
  apply disciplined_bind; [apply inert_prop_path | intros namespace].
  destruct (strict_eq_str _ _); [apply Legacy_discovery_disciplined |].
  destruct (strict_eq_str _ _); [apply Legacy_control_disciplined |].
  apply responder_disciplined.
  apply responder_bind; [apply inert_prop_path | intros logged].
  apply responder_bind; [apply inert_to_string | intros text].
  apply Legacy_unsupported.
Qed.

End LegacyDiscipline.

(** Every invocation of a handler tells the Lambda context one thing when
    it completes and nothing when it throws or is left with an unhandled
    rejection or an uncaught exception; it never replies twice.  This holds
    for every event and every host, in [index.js], the third file of
    [code.js], the latest revision and the legacy revision. *)
Theorem handlers_reply_once (h : Host) (event : JSValue) (context : Context) :
  replied_once (run h (Index.handler event context))
  /\ replied_once (run h (CodeV3.handler event context))
  /\ replied_once (run h (Latest.handler event context))
  /\ replied_once (run h (Legacy.handler event context)).
Proof.
  repeat split.
  - apply (disciplined_run h _ _ _ (Index_handler_disciplined h event context)).
  - apply (disciplined_run h _ _ _ (CodeV3_handler_disciplined h event context)).
  - apply (disciplined_run h _ _ _ (Latest_handler_disciplined h event context)).
  - apply (disciplined_run h _ _ _ (Legacy_handler_disciplined h event context)).
Qed.

(** Every invocation issues at most one request to the backend, and that
    request goes to the configured host and port with a JSON content type
    and a [Content-Length] equal to the length of the body written: a GET
    without a body or a PUT with one in [index.js], [code.js] and the
    legacy revision, a GET without a body or a POST with one in the latest
    revision. *)
Theorem handlers_issue_one_request (h : Host) (event : JSValue) (context : Context) :
  let index := sent (snd (run h (Index.handler event context))) in
  let code := sent (snd (run h (CodeV3.handler event context))) in
  let latest := sent (snd (run h (Latest.handler event context))) in
  let legacy := sent (snd (run h (Legacy.handler event context))) in
  ((length index <= 1)%nat /\ Forall (Index_call h) index)
  /\ ((length code <= 1)%nat /\ Forall (Index_call h) code)
  /\ ((length latest <= 1)%nat /\ Forall (Latest_call h) latest)
  /\ ((length legacy <= 1)%nat /\ Forall (Index_call h) legacy).
Proof.
  cbv zeta.
  pose proof (disciplined_run h _ _ _ (Index_handler_disciplined h event context)) as I.
  pose proof (disciplined_run h _ _ _ (CodeV3_handler_disciplined h event context)) as C.
  pose proof (disciplined_run h _ _ _ (Latest_handler_disciplined h event context)) as L.
  pose proof (disciplined_run h _ _ _ (Legacy_handler_disciplined h event context)) as G.
  repeat split; first [apply I | apply C | apply L | apply G].
Qed.

(** In the three versioned revisions, whatever the event and the host,
    [context.succeed] is only ever given an [Alexa]/[Response] or a
    discovery response, and [context.fail] is only ever given an
    [Alexa]/[ErrorResponse] whose type is INTERNAL_ERROR, INVALID_DIRECTIVE
    or ENDPOINT_UNREACHABLE (the other nine error types are never used);
    each envelope carries a string [messageId] and payload version 3. *)
Theorem versioned_replies_are_envelopes (h : Host) (event : JSValue) (context : Context) :
  Forall versioned_reply (replies (snd (run h (Index.handler event context))))
  /\ Forall versioned_reply (replies (snd (run h (CodeV3.handler event context))))
  /\ Forall versioned_reply (replies (snd (run h (Latest.handler event context)))).
Proof.
  repeat split.
  - apply (disciplined_run h _ _ _ (Index_handler_disciplined h event context)).
  - apply (disciplined_run h _ _ _ (CodeV3_handler_disciplined h event context)).
  - apply (disciplined_run h _ _ _ (Latest_handler_disciplined h event context)).
Qed.

(** In the legacy revision, whatever the event and the host,
    [context.succeed] is only ever given a DiscoverAppliancesResponse, a
    TurnOnConfirmation or a TurnOffConfirmation, and [context.fail] an
    UnsupportedOperationError or a DependentServiceUnavailableError (the
    latter in the namespace [Alexa.ContextHome.Control], as the code spells
    it); each envelope carries a string [messageId] and payload version 2. *)
Theorem legacy_replies_are_envelopes (h : Host) (event : JSValue) (context : Context) :
  Forall legacy_reply (replies (snd (run h (Legacy.handler event context)))).
Proof.
  apply (disciplined_run h _ _ _ (Legacy_handler_disciplined h event context)).
Qed.

(* ================================================================== *)
(** ** Handlers that cannot report success, and one that cannot report
       failure *)

Lemma Index_invalid_fails (h : Host) (event : JSValue) (context : Context) :
  truthy (validity event) = false ->
  Forall is_failure (replies (snd (run h (Index.handler event context))))
  /\ Forall is_failure (replies (snd (run h (CodeV3.handler event context)))).
Proof.
  intros Invalid.
  unfold run, Index.handler, CodeV3.handler, CodeV3.isEventValid, CodeV3.getErrorResponse.
  rewrite !(bind_ok _ _ h start _ _ (isEventValid_validity event h start)), Invalid.
  split; repeat constructor.
Qed.

Lemma failure_is_failure (v : JSValue) : versioned_reply (Failed v) -> is_failure (Failed v).
Proof. intros _. exact I. Qed.

(** A 200 on a channel request of [index.js]: whatever the body holds, the
    fulfilment callback throws (while it parses or reads the body, or at
    [context.success]), and what it throws has no enumerable property. *)
Lemma Index_channel_chain_at_200 (h : Host) (context : Context) (path body : string)
    (hd : JSValue) (text : string) :
  unescaped path = false ->
  backend h (Index_request h "PUT" path (Some body)) = Response 200 hd text ->
  exists envelope readings,
    Index.channel_chain context (Index.put path body) h start
      = (Ok tt, mkSt readings [Index_request h "PUT" path (Some body)] [Failed envelope])
    /\ is_error_envelope endpointUnreachable envelope = true
    /\ error_message envelope = "Failed PUT request: {}".
Proof.
  intros U B. unfold Index.channel_chain, detach, catch_, then_.
  unfold bind at 1. rewrite (Index_put_spec path body h start U), B.
  unfold Index.status_is_200, Index.getAlexaChannelResponse, Index.parse_responseText,
    parse, bind. simpl.
  destruct (JSON_parse h text) as [channel |].
  - destruct channel; simpl; (do 2 eexists; split; [reflexivity | split; reflexivity]).
  - simpl. do 2 eexists. split; [reflexivity | split; reflexivity].
Qed.

(** The channel handlers of [index.js] call [context.success], which the
    Lambda context does not have.  Every reply to a directive in the
    [Alexa.ChannelController] namespace is therefore a failure, whatever the
    event and the host.  In particular a ChangeChannel whose endpoint id and
    token convert to text, whose channel [assign] can copy, whose path Node
    accepts and whose PUT is answered with status 200 is reported as
    ENDPOINT_UNREACHABLE with the message [Failed PUT request: {}], whatever
    the body. *)
Theorem index_channel_never_succeeds (h : Host) (event : JSValue) (context : Context) :
  header_field event "namespace" = JStr Alexa_ChannelController ->
  Forall is_failure (replies (snd (run h (Index.handler event context))))
  /\ (header_field event "name" = JStr "ChangeChannel" ->
      readable event ["directive"; "endpoint"; "endpointId"] = true ->
      readable event ["directive"; "endpoint"; "scope"; "token"] = true ->
      readable event ["directive"; "payload"; "channel"] = true ->
      forall idText tokenText combined,
      ToString (at_path event ["directive"; "endpoint"; "endpointId"]) = Some idText ->
      ToString (endpoint_token event) = Some tokenText ->
      assign [("metadata", at_path event ["directive"; "payload"; "channelMetadata"])]
        (at_path event ["directive"; "payload"; "channel"]) = Some combined ->
      let path := "/endpoints/" ++ idText ++ "/channel?access_token=" ++ tokenText in
      let body := stringify_object combined in
      unescaped path = false ->
      forall hd text,
        backend h (Index_request h "PUT" path (Some body)) = Response 200 hd text ->
        exists envelope readings,
          run h (Index.handler event context)
            = (Ok tt, mkSt readings [Index_request h "PUT" path (Some body)] [Failed envelope])
          /\ is_error_envelope endpointUnreachable envelope = true
          /\ error_message envelope = "Failed PUT request: {}").
Proof.
  intros Namespace. split.
  - destruct (truthy (validity event)) eqn:Valid;
      [| apply (Index_invalid_fails h event context Valid)].
    rewrite (Index_handler_routes h event context _ Valid Namespace).
    unfold Index_route. simpl (_ =? _). cbv iota.
    apply (disciplined_run h _ _ _
             (Index_channel_disciplined h is_failure event context failure_is_failure)).
  - intros Name Endpoint Scope Channel idText tokenText combined Id Token Combined.
    cbv zeta. unfold endpoint_token in Token. intros U hd text B.
    assert (Valid : truthy (validity event) = true)
      by (apply (header_strings_valid event _ _ Namespace Name); discriminate).
    assert (Metadata : readable event ["directive"; "payload"; "channelMetadata"] = true).
    { simpl in Channel |- *. rewrite !andb_true_r in *. exact Channel. }
    rewrite (Index_handler_routes h event context _ Valid Namespace).
    unfold Index_route, run, Index.handleChannelControlEvent. simpl (_ =? _). cbv iota.
    rewrite (bind_ok _ _ h start _ _ (read_name h event Valid start)), Name.
    simpl (strict_eq_str _ _). cbv iota. unfold Index.handleChangeChannelEvent.
    rewrite (bind_ok _ _ h start _ _ (prop_path_readable _ _ h start Endpoint)).
    rewrite (bind_ok _ _ h start _ _ (prop_path_readable _ _ h start Scope)).
    rewrite (bind_ok _ _ h start _ _ (prop_path_readable _ _ h start Metadata)).
    rewrite (bind_ok _ _ h start _ _ (prop_path_readable _ _ h start Channel)).
    rewrite (bind_ok _ _ h start _ _ (assignM_ok _ _ _ h start Combined)).
    rewrite (bind_ok _ _ h start _ _ (to_string_ok _ _ h start Id)).
    rewrite (bind_ok _ _ h start _ _ (to_string_ok _ _ h start Token)).
    apply (Index_channel_chain_at_200 h context _ _ hd text U B).
Qed.

(** A ChangeChannel for a television whose PUT is answered with 200 and
    [{}]. *)
Lemma index_channel_never_succeeds_witness :
  let h := example_host (Response 200 (JObj []) "{}") in
  exists envelope readings,
    run h (Index.handler (directive Alexa_ChannelController "ChangeChannel" "tv-1")
             LambdaContext)
      = (Ok tt, mkSt readings
                  [Index_request h "PUT" "/endpoints/tv-1/channel?access_token=tok"
                     (Some "{}")]
                  [Failed envelope])
    /\ is_error_envelope endpointUnreachable envelope = true
    /\ error_message envelope = "Failed PUT request: {}".
Proof.
  cbv zeta.
  destruct (index_channel_never_succeeds (example_host (Response 200 (JObj []) "{}"))
              (directive Alexa_ChannelController "ChangeChannel" "tv-1") LambdaContext
              eq_refl) as [_ At200].
  apply (At200 eq_refl eq_refl eq_refl eq_refl "tv-1" "tok" _ eq_refl eq_refl eq_refl
           eq_refl (JObj []) "{}" eq_refl).
Defined.


(** In the third file of [code.js] the channel, input, step-speaker and
    playback handlers all end their fulfilment callback in
    [context.success]: every reply to a directive in one of these four
    namespaces is a failure, whatever the event and the host.  In
    particular a playback directive whose endpoint id and token convert to
    text, whose path Node accepts and whose PUT is answered with status 200
    is reported as ENDPOINT_UNREACHABLE with the message
    [Failed PUT request: {}]. *)
Theorem code_control_never_succeeds (h : Host) (event : JSValue) (context : Context)
    (namespace : string) :
  header_field event "namespace" = JStr namespace ->
  In namespace [Alexa_ChannelController; Alexa_InputController; Alexa_StepSpeaker;
                Alexa_PlaybackController] ->
  Forall is_failure (replies (snd (run h (CodeV3.handler event context))))
  /\ (forall name idText tokenText,
        namespace = Alexa_PlaybackController ->
        header_field event "name" = JStr name ->
        In name SUPPORTED_PLAYBACK_DIRECTIVES ->
        readable event ["directive"; "endpoint"; "endpointId"] = true ->
        readable event ["directive"; "endpoint"; "scope"; "token"] = true ->
        ToString (at_path event ["directive"; "endpoint"; "endpointId"]) = Some idText ->
        ToString (endpoint_token event) = Some tokenText ->
        let path := "/endpoints/" ++ idText ++ "/playback?accessToken=" ++ tokenText in
        let body := stringify_object [("directive", JStr name)] in
        unescaped path = false ->
        forall hd text,
          backend h (Index_request h "PUT" path (Some body)) = Response 200 hd text ->
          exists envelope,
            run h (CodeV3.handler event context)
              = (Ok tt, mkSt 2 [Index_request h "PUT" path (Some body)] [Failed envelope])
            /\ is_error_envelope endpointUnreachable envelope = true
            /\ error_message envelope = "Failed PUT request: {}").
Proof.
  intros Namespace Which. split.
  - destruct (truthy (validity event)) eqn:Valid;
      [| apply (Index_invalid_fails h event context Valid)].
    rewrite (CodeV3_handler_routes h event context _ Valid Namespace).
    unfold CodeV3_route.
    simpl in Which. destruct Which as [<- | [<- | [<- | [<- | []]]]];
      simpl (_ =? _); cbv iota.
    + apply (disciplined_run h _ _ _
               (CodeV3_channel_disciplined h is_failure event context failure_is_failure)).
    + apply (disciplined_run h _ _ _
               (CodeV3_input_disciplined h is_failure event context failure_is_failure)).
    + apply (disciplined_run h _ _ _
               (CodeV3_step_speaker_disciplined h is_failure event context failure_is_failure)).
    + apply (disciplined_run h _ _ _
               (CodeV3_playback_disciplined h is_failure event context failure_is_failure)).
  - intros name idText tokenText -> Name Supported Endpoint Scope Id Token. cbv zeta.
    unfold endpoint_token in Token. intros U hd text B.
    destruct (playback_name_valid name Supported) as [PV NonEmpty].
    assert (Valid : truthy (validity event) = true)
      by (apply (header_strings_valid event _ _ Namespace Name); [discriminate | exact NonEmpty]).
    rewrite (CodeV3_handler_routes h event context _ Valid Namespace).
    unfold CodeV3_route, run. simpl (_ =? _). cbv iota.
    unfold CodeV3.handlePlaybackControlEvent, CodeV3.getDirectiveName, CodeV3.getEndpointId,
      CodeV3.getEndpointToken.
    rewrite (bind_ok _ _ h start _ _ (read_name h event Valid start)), Name.
    rewrite (bind_ok _ _ h start _ _ (prop_path_readable _ _ h start Endpoint)).
    rewrite (bind_ok _ _ h start _ _ (prop_path_readable _ _ h start Scope)).
    rewrite PV.
    rewrite (bind_ok _ _ h start _ _ (to_string_ok _ _ h start Id)).
    rewrite (bind_ok _ _ h start _ _ (to_string_ok _ _ h start Token)).
    unfold CodeV3.success_chain, detach, catch_, then_.
    unfold bind at 1. rewrite (CodeV3_put_spec _ _ h start U), B.
    simpl. eexists. split; [reflexivity | split; reflexivity].
Qed.

(** A Play whose PUT is answered with 200 and [{}]. *)
Lemma code_control_never_succeeds_witness :
  let h := example_host (Response 200 (JObj []) "{}") in
  exists envelope,
    run h (CodeV3.handler (directive Alexa_PlaybackController "Play" "tv-1") LambdaContext)
      = (Ok tt, mkSt 2
                  [Index_request h "PUT" "/endpoints/tv-1/playback?accessToken=tok"
                     (Some (stringify_object [("directive", JStr "Play")]))]
                  [Failed envelope])
    /\ is_error_envelope endpointUnreachable envelope = true
    /\ error_message envelope = "Failed PUT request: {}".
Proof.
  cbv zeta.
  assert (Which : In Alexa_PlaybackController
                    [Alexa_ChannelController; Alexa_InputController; Alexa_StepSpeaker;
                     Alexa_PlaybackController]) by (simpl; tauto).
  assert (Play : In "Play" SUPPORTED_PLAYBACK_DIRECTIVES) by (simpl; tauto).
  destruct (code_control_never_succeeds (example_host (Response 200 (JObj []) "{}"))
              (directive Alexa_PlaybackController "Play" "tv-1") LambdaContext
              Alexa_PlaybackController eq_refl Which) as [_ At200].
  apply (At200 "Play" "tv-1" "tok" eq_refl eq_refl Play eq_refl eq_refl eq_refl eq_refl
           eq_refl (JObj []) "{}" eq_refl).
Defined.


Lemma Latest_select_input_chain (h : Host) (context : Context) (path : string)
    (postData : list (string * JSValue)) :
  disciplined h (Latest_call h) is_success
    (detach (catch_ (then_ (then_ (Latest.post path postData) Latest.getInputReply)
                       (fun reply => Latest.succeed reply (Some context)))
               (fun error => r <- Latest.getServiceErrorReply error ;; Latest.fail r None))).
Proof.
  apply (disciplined_chain_yields h _ _ (fun _ => True)).
  - apply requester_then; [apply requester_Latest_post |].
    intros r. unfold Latest.getInputReply. inert_steps.
  - apply yields_any.
  - intros r _. apply Latest_succeeds. exact I.
  - intros error. unfold Latest.getServiceErrorReply.
    apply responder_bind; [apply inert_Latest_getErrorReply | intros r].
    apply responder_throw.
Qed.

(** The rejection callback of the input handler of the latest revision
    closes its parenthesis early, [fail(getServiceErrorReply(error))]: it
    calls [fail] without the context.  So a SelectInput never tells the
    context of a failure, whatever the event and the host; and when its
    request is issued (a string endpoint id, a token that converts to text,
    a path Node accepts) and ends in a socket error or in a status other
    than 200, the invocation is left with an unhandled rejection, a
    TypeError, and no reply at all. *)
Theorem latest_select_input_never_fails (h : Host) (event : JSValue) (context : Context) :
  header_field event "namespace" = JStr Alexa_InputController ->
  header_field event "name" = JStr "SelectInput" ->
  Forall is_success (replies (snd (run h (Latest.handler event context))))
  /\ (forall endpointId tokenText,
        at_path event ["directive"; "endpoint"; "endpointId"] = JStr endpointId ->
        readable event ["directive"; "endpoint"; "scope"; "token"] = true ->
        readable event ["directive"; "payload"; "input"] = true ->
        ToString (endpoint_token event) = Some tokenText ->
        let path := "/endpoints/" ++ decode_id endpointId ++ "/input?access_token="
                      ++ tokenText in
        let body := stringify_object
                      [("input", at_path event ["directive"; "payload"; "input"])] in
        let req := Latest_request h "POST" path (Some body) in
        unescaped path = false ->
        is_socket_error (backend h req) || status_is_not_200 (backend h req) = true ->
        exists error,
          err_name error = "TypeError"
          /\ run h (Latest.handler event context)
             = (Stuck (UnhandledRejection error), mkSt 3 [req] [])).
Proof.
  intros Namespace Name.
  assert (Valid : truthy (validity event) = true)
    by (apply (header_strings_valid event _ _ Namespace Name); discriminate).
  rewrite (Latest_handler_routes h event context _ Valid Namespace).
  unfold Latest_route. simpl (_ =? _). cbv iota. split.
  - apply (disciplined_run h (Latest_call h) is_success).
    unfold Latest.handleInputControlEvent, Latest.getDirectiveName.
    apply (disciplined_bind_yields h _ _ _ _ (fun v => v = JStr "SelectInput")).
    + apply inert_prop_path.
    + intros s a s' E. rewrite (read_name h event Valid s), Name in E.
      injection E as <- _. reflexivity.
    + intros directiveName ->.
      apply disciplined_bind; [apply inert_Latest_getEndpointId | intros endpointId].
      unfold Latest.getEndpointToken.
      apply disciplined_bind; [apply inert_prop_path | intros accessToken].
      apply disciplined_bind; [apply inert_prop_path | intros input].
      simpl (strict_eq_str _ _). cbv iota.
      apply disciplined_bind; [apply inert_to_string | intros idText].
      apply disciplined_bind; [apply inert_to_string | intros tokenText].
      apply Latest_select_input_chain.
  - intros endpointId tokenText Endpoint Scope Input Token. cbv zeta.
    unfold endpoint_token in Token. unfold decode_id.
    intros U Failing.
    unfold run, Latest.handleInputControlEvent, Latest.getDirectiveName,
      Latest.getEndpointToken.
    rewrite (bind_ok _ _ h start _ _ (read_name h event Valid start)), Name.
    rewrite (bind_ok _ _ h start _ _ (Latest_getEndpointId_spec event _ h start Endpoint)).
    rewrite (bind_ok _ _ h start _ _ (prop_path_readable _ _ h start Scope)).
    rewrite (bind_ok _ _ h start _ _ (prop_path_readable _ _ h start Input)).
    simpl (strict_eq_str _ _). cbv iota.
    rewrite (bind_ok _ _ h start _ _ (to_string_ok (JStr _) _ h start eq_refl)).
    rewrite (bind_ok _ _ h start _ _ (to_string_ok _ _ h start Token)).
    unfold detach, catch_, then_. unfold bind at 1. unfold bind at 1.
    rewrite (Latest_post_spec _ _ h start U).
    destruct (backend h _) as [e | sc hd text];
      [eexists; split; [| reflexivity]; reflexivity |].
    simpl in Failing. apply negb_true_iff in Failing. rewrite Failing.
    eexists. split; [| reflexivity]. reflexivity.
Qed.

(** A SelectInput whose POST is answered with 503. *)
Lemma latest_select_input_never_fails_witness :
  let h := example_host (Response 503 (JObj []) "busy") in
  exists error,
    err_name error = "TypeError"
    /\ run h (Latest.handler (directive Alexa_InputController "SelectInput" "tv#1")
                LambdaContext)
       = (Stuck (UnhandledRejection error),
          mkSt 3 [Latest_request h "POST" "/endpoints/tv.1/input?access_token=tok"
                    (Some "{}")] []).
Proof.
  cbv zeta.
  destruct (latest_select_input_never_fails (example_host (Response 503 (JObj []) "busy"))
              (directive Alexa_InputController "SelectInput" "tv#1") LambdaContext
              eq_refl eq_refl) as [_ Unreported].
  apply (Unreported "tv#1" "tok" eq_refl eq_refl eq_refl eq_refl eq_refl eq_refl).
Defined.


(* ================================================================== *)
(** ** Discovery, in full *)

(** [isEndpointSupported] never throws, on any value. *)
Ltac not_supported :=
  eexists; split; [reflexivity | split; first [reflexivity | assumption | simpl; assumption]].

Lemma Index_isEndpointSupported_spec (device : JSValue) h s :
  exists r, Index.isEndpointSupported device h s = (r, s)
    /\ match r with
       | Ok v => type_unreadable device = false
                 /\ truthy v = supported_in Index.SUPPORTED_ENDPOINT_TYPES device
       | Throw _ => type_unreadable device = true
       | Stuck _ => False
       end.
Proof.
  unfold Index.isEndpointSupported, supported_in, type_unreadable.
  rewrite and_then_prop. destruct (truthy device) eqn:T; [| not_supported].
  assert (N : is_nullish device = false) by (apply truthy_not_nullish, T).
  unfold and_then.
  destruct (truthy (field device "id")) eqn:T1; [| not_supported].
  rewrite (bind_ok _ _ h s _ _ (prop_field device "name" h s N)).
  destruct (truthy (field device "name")) eqn:T2; [| not_supported].
  rewrite (bind_ok _ _ h s _ _ (prop_field device "description" h s N)).
  destruct (truthy (field device "description")) eqn:T3; [| not_supported].
  rewrite (bind_ok _ _ h s _ _ (prop_field device "manufacturer" h s N)).
  destruct (truthy (field device "manufacturer")) eqn:T4; [| not_supported].
  rewrite (bind_ok _ _ h s _ _ (prop_field device "type" h s N)).
  destruct (ToString (field device "type")) as [key |] eqn:K.
  - rewrite (bind_ok _ _ h s _ _ (to_string_ok _ _ h s K)).
    eexists. split; [reflexivity | split; reflexivity].
  - unfold bind. rewrite (to_string_throws _ h s K).
    eexists. split; [reflexivity | reflexivity].
Qed.

Lemma Latest_isEndpointSupported_spec (device : JSValue) h s :
  exists r, Latest.isEndpointSupported device h s = (r, s)
    /\ match r with
       | Ok v => type_unreadable device = false
                 /\ truthy v = supported_in Latest.SUPPORTED_ENDPOINT_TYPES device
       | Throw _ => type_unreadable device = true
       | Stuck _ => False
       end.
Proof.
  unfold Latest.isEndpointSupported, supported_in, type_unreadable.
  rewrite and_then_prop. destruct (truthy device) eqn:T; [| not_supported].
  assert (N : is_nullish device = false) by (apply truthy_not_nullish, T).
  unfold and_then.
  destruct (truthy (field device "id")) eqn:T1; [| not_supported].
  rewrite (bind_ok _ _ h s _ _ (prop_field device "name" h s N)).
  destruct (truthy (field device "name")) eqn:T2; [| not_supported].
  rewrite (bind_ok _ _ h s _ _ (prop_field device "description" h s N)).
  destruct (truthy (field device "description")) eqn:T3; [| not_supported].
  rewrite (bind_ok _ _ h s _ _ (prop_field device "manufacturer" h s N)).
  destruct (truthy (field device "manufacturer")) eqn:T4; [| not_supported].
  rewrite (bind_ok _ _ h s _ _ (prop_field device "type" h s N)).
  destruct (ToString (field device "type")) as [key |] eqn:K.
  - rewrite (bind_ok _ _ h s _ _ (to_string_ok _ _ h s K)).
    eexists. split; [reflexivity | split; reflexivity].
  - unfold bind. rewrite (to_string_throws _ h s K).
    eexists. split; [reflexivity | reflexivity].
Qed.

(** [filter] with a callback that leaves the state alone: the list filter,
    or what the callback throws at the first element it cannot test. *)
Lemma filterM_filter (keep : JSValue -> M JSValue) (test unreadable : JSValue -> bool)
    devices h s :
  (forall d s, exists r, keep d h s = (r, s)
     /\ match r with
        | Ok v => unreadable d = false /\ truthy v = test d
        | Throw _ => unreadable d = true
        | Stuck _ => False
        end) ->
  exists r, filterM keep devices h s = (r, s)
    /\ match r with
       | Ok kept => existsb unreadable devices = false /\ kept = filter test devices
       | Throw _ => existsb unreadable devices = true
       | Stuck _ => False
       end.
Proof.
  intros K. induction devices as [| d ds IH]; [eexists; split; [reflexivity | split; reflexivity] |].
  simpl. destruct (K d s) as [[v | e | f] [E Post]]; unfold bind at 1; rewrite E.
  - destruct Post as [U T]. rewrite U, <- T. simpl.
    destruct IH as [[kept | e | f] [E' Post']]; unfold bind; rewrite E'.
    + destruct Post' as [U' ->]. eexists. split; [reflexivity | split; [exact U' | reflexivity]].
    + eexists. split; [reflexivity | exact Post'].
    + contradiction.
  - rewrite Post. eexists. split; reflexivity.
  - contradiction.
Qed.
(** A supported device is an object. *)
Lemma mapM_map (f : JSValue -> M JSValue) (g : JSValue -> JSValue) (good : JSValue -> Prop)
    devices h s :
  (forall d s, good d -> f d h s = (Ok (g d), s)) ->
  Forall good devices ->
  mapM f devices h s = (Ok (map g devices), s).
Proof.
  intros F. induction 1 as [| d ds G _ IH]; [reflexivity |]. simpl.
  rewrite (bind_ok _ _ h s _ _ (F d s G)), (bind_ok _ _ h s _ _ IH). reflexivity.
Qed.

(** A supported device is an object. *)
Lemma supported_object types device :
  supported_in types device = true -> exists props, device = JObj props.
Proof.
  unfold supported_in. intros S.
  repeat (apply andb_true_iff in S; destruct S as [S ?]).
  destruct device; try discriminate. eauto.
Qed.

Lemma filter_supported types devices :
  Forall (fun d => supported_in types d = true) (filter (supported_in types) devices).
Proof. apply Forall_forall. intros d I. apply filter_In in I. apply I. Qed.

Lemma Index_capabilities_spec props h s :
  Index.getEndpointCapabilities (JObj props) h s
  = (Ok (JArr (map getCapability (capabilitiesFor (lookup "type" props)))), s).
Proof.
  unfold Index.getEndpointCapabilities, capabilitiesFor, bind, prop, ret.
  by_device_type (lookup "type" props).
Qed.

Lemma CodeV3_capabilities_spec props h s :
  CodeV3.getEndpointCapabilities (JObj props) h s
  = (Ok (JArr (map getCapability (capabilitiesFor_code (lookup "type" props)))), s).
Proof.
  unfold CodeV3.getEndpointCapabilities, capabilitiesFor_code, bind, prop, ret.
  by_device_type (lookup "type" props).
Qed.

Lemma Index_toAlexaEndpoint_spec device h s :
  supported_in Index.SUPPORTED_ENDPOINT_TYPES device = true ->
  Index.toAlexaEndpoint device h s = (Ok (endpoint_of capabilitiesFor device), s).
Proof.
  intros S. destruct (supported_object _ _ S) as [props ->].
  unfold Index.toAlexaEndpoint. unfold bind at 1 2 3 4, prop, ret.
  unfold bind. rewrite Index_capabilities_spec. reflexivity.
Qed.

Lemma CodeV3_toAlexaEndpoint_spec device h s :
  supported_in CodeV3.SUPPORTED_ENDPOINT_TYPES device = true ->
  CodeV3.toAlexaEndpoint device h s = (Ok (endpoint_of capabilitiesFor_code device), s).
Proof.
  intros S. destruct (supported_object _ _ S) as [props ->].
  unfold CodeV3.toAlexaEndpoint. unfold bind at 1 2 3 4, prop, ret.
  unfold bind. rewrite CodeV3_capabilities_spec. reflexivity.
Qed.

(** What the discovery chain of [index.js] makes of a response: the
    endpoints of the body, or a throw when there are none to publish. *)
Lemma Index_endpoints_of_spec sc hd text h s :
  exists r,
    Index_endpoints_of (response_object sc hd text) h s = (r, s)
    /\ match r with
       | Ok endpoints => endpoints = Index_discovered h (Response sc hd text)
       | Throw _ => Index_discovered h (Response sc hd text) = JArr []
       | Stuck _ => False
       end.
Proof.
  unfold Index_endpoints_of, Index_discovered, published_by, Index.parse_responseText.
  rewrite bind_assoc. unfold bind at 1, response_object, prop. simpl lookup. unfold ret at 1.
  rewrite bind_assoc.
  rewrite (bind_ok _ _ h s _ _ (to_string_ok (JStr text) text h s eq_refl)).
  unfold bind at 1, parse.
  destruct (JSON_parse h text) as [body |]; [| eexists; split; [reflexivity | reflexivity]].
  destruct body as [| | b | n | str | devices | props];
    try (eexists; split; [reflexivity | reflexivity]).
  unfold method_filter. rewrite bind_assoc.
  destruct (filterM_filter _ _ _ devices h s (fun d s => Index_isEndpointSupported_spec d h s))
    as [[kept | e | f] [E Post]]; unfold bind at 1; rewrite E.
  - destruct Post as [-> ->].
    rewrite (bind_ok _ _ h s _ _ (eq_refl : ret _ h s = (Ok _, s))). unfold method_map.
    rewrite (bind_ok _ _ h s _ _
               (mapM_map _ _ _ _ h s
                  (fun d s S => Index_toAlexaEndpoint_spec d h s S)
                  (filter_supported _ devices))).
    eexists. split; reflexivity.
  - rewrite Post. eexists. split; reflexivity.
  - contradiction.
Qed.

Lemma CodeV3_endpoints_of_spec hd text h s :
  exists r,
    CodeV3_endpoints_of (response_object 200 hd text) h s = (r, s)
    /\ match r with
       | Ok endpoints => endpoints = CodeV3_discovered h (Response 200 hd text)
       | Throw _ => CodeV3_discovered h (Response 200 hd text) = JArr []
       | Stuck _ => False
       end.
Proof.
  unfold CodeV3_endpoints_of, CodeV3_discovered, published_by, Index.parse_responseText.
  simpl (_ =? _)%Z. cbv iota.
  rewrite bind_assoc. unfold bind at 1, response_object, prop. simpl lookup. unfold ret at 1.
  rewrite bind_assoc.
  rewrite (bind_ok _ _ h s _ _ (to_string_ok (JStr text) text h s eq_refl)).
  unfold bind at 1, parse.
  destruct (JSON_parse h text) as [body |]; [| eexists; split; [reflexivity | reflexivity]].
  destruct body as [| | b | n | str | devices | props];
    try (eexists; split; [reflexivity | reflexivity]).
  unfold method_filter, CodeV3.isEndpointSupported. rewrite bind_assoc.
  destruct (filterM_filter _ _ _ devices h s (fun d s => Index_isEndpointSupported_spec d h s))
    as [[kept | e | f] [E Post]]; unfold bind at 1; rewrite E.
  - destruct Post as [-> ->].
    rewrite (bind_ok _ _ h s _ _ (eq_refl : ret _ h s = (Ok _, s))). unfold method_map.
    rewrite (bind_ok _ _ h s _ _
               (mapM_map _ _ _ _ h s
                  (fun d s S => CodeV3_toAlexaEndpoint_spec d h s S)
                  (filter_supported _ devices))).
    eexists. split; reflexivity.
  - rewrite Post. eexists. split; reflexivity.
  - contradiction.
Qed.

Section Discovery.

Variables (event : JSValue) (name token : string).
Hypothesis Namespace : header_field event "namespace" = JStr Alexa_Discovery.
Hypothesis Name : header_field event "name" = JStr name.
Hypothesis NonEmpty : name <> EmptyString.
Hypothesis Token : at_path event ["directive"; "payload"; "scope"; "token"] = JStr token.

Lemma discovery_valid : truthy (validity event) = true.
Proof.
  apply (header_strings_valid event _ _ Namespace Name); [discriminate | exact NonEmpty].
Qed.

Lemma discovery_token_readable :
  readable event ["directive"; "payload"; "scope"; "token"] = true.
Proof. apply at_path_defined_readable. rewrite Token. discriminate. Qed.

End Discovery.

(** Discovery of [index.js], in full.  For a Discovery directive that
    carries a string token, the handler asks for
    [/endpoints?access_token=<trimmed token>] and succeeds with a discovery
    response.  When Node refuses the path (a token with an inner blank,
    say) no request is issued and the endpoint list is empty.  Otherwise
    one GET is issued and the list is a function of the transport's answer:
    empty on a socket error, on a body that does not parse, on a body that
    is not an array and on an array one of whose devices (truthy, with
    truthy [id], [name], [description] and [manufacturer]) has a [type]
    that does not convert to a property key; otherwise one endpoint for
    each supported device of the body (such a device with a [type] among
    the supported ones), in the order of the body, carrying the device's
    id, names, description and the capabilities of its type.  The status of
    the response is not looked at. *)
Theorem index_discovery_in_full (h : Host) (event : JSValue) (context : Context)
    (name token : string) :
  header_field event "namespace" = JStr Alexa_Discovery ->
  header_field event "name" = JStr name ->
  name <> EmptyString ->
  at_path event ["directive"; "payload"; "scope"; "token"] = JStr token ->
  let path := "/endpoints?access_token=" ++ trim token in
  let req := Index_request h "GET" path None in
  let replied requests endpoints :=
    (Ok tt, mkSt 1 requests [Succeeded (discovery_response (clock h 0) endpoints)]) in
  run h (Index.handler event context)
  = if unescaped path then replied [] (JArr [])
    else replied [req] (Index_discovered h (backend h req)).
Proof.
  intros Namespace Name NonEmpty Token.
  pose proof (discovery_valid event name Namespace Name NonEmpty) as Valid.
  pose proof (discovery_token_readable event token Token) as Readable.
  cbv zeta.
  rewrite (Index_handler_routes h event context _ Valid Namespace).
  unfold Index_route, run, Index.handleDiscoveryEvent. simpl (_ =? _). cbv iota.
  rewrite (bind_ok _ _ h start _ _ (prop_path_readable _ _ h start Readable)),
    Token.
  simpl (method_trim _). unfold bind at 1. unfold ret at 1. cbv iota beta.
  rewrite (bind_ok _ _ h start _ _ (to_string_ok (JStr _) _ h start eq_refl)).
  unfold detach, catch_, then_.
  rewrite !bind_assoc. unfold bind at 1.
  destruct (unescaped ("/endpoints?access_token=" ++ trim token)) eqn:U;
    [rewrite (Index_get_refused _ h start U); reflexivity |].
  rewrite (Index_get_spec _ h start U).
  destruct (backend h _) as [e | sc hd text]; [reflexivity |].
  rewrite <- bind_assoc.
  destruct (Index_endpoints_of_spec sc hd text h
              (issued start (Index_request h "GET"
                 ("/endpoints?access_token=" ++ trim token) None)))
    as [r [E Post]].
  unfold Index_endpoints_of in E. unfold bind at 1. rewrite E.
  destruct r as [endpoints | e | f].
  - rewrite Post. reflexivity.
  - rewrite Post. reflexivity.
  - contradiction.
Qed.

(** Three devices behind a status of 500: the switch and the television are
    published, the device without a name is not, and the status changes
    nothing. *)
Lemma index_discovery_in_full_witness :
  let h := example_host
             (Response 500 (JObj []) (body_of [wall_switch; nameless_device; television])) in
  run h (Index.handler (directive Alexa_Discovery "Discover" "e1") LambdaContext)
  = (Ok tt, mkSt 1 [Index_request h "GET" "/endpoints?access_token=tok" None]
       [Succeeded (discovery_response 1000
          (JArr [endpoint_of capabilitiesFor wall_switch;
                 endpoint_of capabilitiesFor television]))]).
Proof.
  cbv zeta.
  rewrite (index_discovery_in_full
             (example_host
                (Response 500 (JObj []) (body_of [wall_switch; nameless_device; television])))
             (directive Alexa_Discovery "Discover" "e1") LambdaContext "Discover" "tok"
             eq_refl eq_refl ltac:(discriminate) eq_refl).
  reflexivity.
Defined.


(** Discovery of the third file of [code.js], in full: as in [index.js],
    except that every status other than 200 gives an empty endpoint list
    (the shim rejects, and the rejection callback succeeds with no
    endpoints), and that a television is published without the playback
    capability. *)
Theorem code_discovery_in_full (h : Host) (event : JSValue) (context : Context)
    (name token : string) :
  header_field event "namespace" = JStr Alexa_Discovery ->
  header_field event "name" = JStr name ->
  name <> EmptyString ->
  at_path event ["directive"; "payload"; "scope"; "token"] = JStr token ->
  let path := "/endpoints?access_token=" ++ trim token in
  let req := Index_request h "GET" path None in
  let replied requests endpoints :=
    (Ok tt, mkSt 1 requests [Succeeded (discovery_response (clock h 0) endpoints)]) in
  run h (CodeV3.handler event context)
  = if unescaped path then replied [] (JArr [])
    else replied [req] (CodeV3_discovered h (backend h req)).
Proof.
  intros Namespace Name NonEmpty Token.
  pose proof (discovery_valid event name Namespace Name NonEmpty) as Valid.
  pose proof (discovery_token_readable event token Token) as Readable.
  cbv zeta.
  rewrite (CodeV3_handler_routes h event context _ Valid Namespace).
  unfold CodeV3_route, run, CodeV3.handleDiscoveryEvent. simpl (_ =? _). cbv iota.
  rewrite (bind_ok _ _ h start _ _ (prop_path_readable _ _ h start Readable)),
    Token.
  simpl (method_trim _). unfold bind at 1. unfold ret at 1. cbv iota beta.
  rewrite (bind_ok _ _ h start _ _ (to_string_ok (JStr _) _ h start eq_refl)).
  unfold detach, catch_, then_.
  rewrite !bind_assoc. unfold bind at 1.
  destruct (unescaped ("/endpoints?access_token=" ++ trim token)) eqn:U;
    [rewrite (CodeV3_get_refused h _ start U); reflexivity |].
  rewrite (CodeV3_get_spec h _ start U).
  destruct (backend h _) as [e | sc hd text]; [reflexivity |].
  destruct (status_200_cases sc) as [[-> _] | [F _]].
  - simpl (_ =? _)%Z. cbv iota. rewrite <- bind_assoc.
    destruct (CodeV3_endpoints_of_spec hd text h
                (issued start (Index_request h "GET"
                   ("/endpoints?access_token=" ++ trim token) None)))
      as [r [E Post]].
    unfold CodeV3_endpoints_of in E. unfold bind at 1. rewrite E.
    destruct r as [endpoints | e | f].
    + rewrite Post. reflexivity.
    + rewrite Post. reflexivity.
    + contradiction.
  - unfold CodeV3_discovered. rewrite F. reflexivity.
Qed.

(** The same three devices: nothing is published behind a status of 500,
    and behind a 200 the television is published without playback. *)
Lemma code_discovery_in_full_witness :
  let devices := body_of [wall_switch; nameless_device; television] in
  let discover := directive Alexa_Discovery "Discover" "e1" in
  replies (snd (run (example_host (Response 500 (JObj []) devices))
                  (CodeV3.handler discover LambdaContext)))
    = [Succeeded (discovery_response 1000 (JArr []))]
  /\ replies (snd (run (example_host (Response 200 (JObj []) devices))
                     (CodeV3.handler discover LambdaContext)))
    = [Succeeded (discovery_response 1000
         (JArr [endpoint_of capabilitiesFor_code wall_switch;
                endpoint_of capabilitiesFor_code television]))].
Proof.
  cbv zeta. split.
  - rewrite (code_discovery_in_full
               (example_host
                  (Response 500 (JObj []) (body_of [wall_switch; nameless_device; television])))
               (directive Alexa_Discovery "Discover" "e1") LambdaContext "Discover" "tok"
               eq_refl eq_refl ltac:(discriminate) eq_refl).
    reflexivity.
  - rewrite (code_discovery_in_full
               (example_host
                  (Response 200 (JObj []) (body_of [wall_switch; nameless_device; television])))
               (directive Alexa_Discovery "Discover" "e1") LambdaContext "Discover" "tok"
               eq_refl eq_refl ltac:(discriminate) eq_refl).
    reflexivity.
Defined.


Lemma publishable_object device :
  publishable device = true ->
  exists props id, device = JObj props /\ lookup "id" props = JStr id.
Proof.
  unfold publishable, field. destruct device; try discriminate.
  destruct (lookup "id" props) eqn:E; try discriminate.
  intros _. eexists _, _. split; [reflexivity | exact E].
Qed.

Lemma publishable_supported device :
  publishable device = true ->
  supported_in Latest.SUPPORTED_ENDPOINT_TYPES device = true
  /\ type_unreadable device = false.
Proof.
  intros P. destruct (publishable_object device P) as [props [id [-> Id]]].
  unfold publishable, supported_in, type_unreadable, field in *. rewrite Id in *.
  repeat (apply andb_true_iff in P; destruct P as [P ?]).
  destruct (ToString (lookup "type" props)) as [key |]; [| discriminate].
  split; [| rewrite !andb_false_r; reflexivity].
  repeat (apply andb_true_iff; split); try assumption; try reflexivity.
Qed.

Lemma Latest_toAlexaEndpoint_publishable device h s :
  publishable device = true ->
  Latest.toAlexaEndpoint device h s = (Ok (published device), s).
Proof.
  intros P. destruct (publishable_object device P) as [props [id [-> Id]]].
  unfold Latest.toAlexaEndpoint, Latest.getEndpointCapabilities, published, device_id,
    encode_id, bind, prop, ret. simpl. rewrite Id. simpl.
  destruct (strict_eq_str (lookup "type" props) "zwitch"),
    (strict_eq_str (lookup "type" props) "television"),
    (strict_eq_str (lookup "type" props) "roku"); reflexivity.
Qed.

Lemma filter_all (test : JSValue -> bool) devices :
  Forall (fun d => test d = true) devices -> filter test devices = devices.
Proof.
  induction 1 as [| d ds T _ IH]; [reflexivity |]. simpl. rewrite T, IH. reflexivity.
Qed.

Lemma filterM_publishable devices h s :
  Forall (fun d => publishable d = true) devices ->
  filterM Latest.isEndpointSupported devices h s = (Ok devices, s).
Proof.
  intros P.
  assert (Supported : Forall (fun d => supported_in Latest.SUPPORTED_ENDPOINT_TYPES d = true)
                        devices).
  { apply Forall_forall. intros d I.
    apply (publishable_supported d (proj1 (Forall_forall _ _) P d I)). }
  assert (Readable : existsb type_unreadable devices = false).
  { clear Supported. induction P as [| d ds Pd _ IH]; [reflexivity |].
    simpl. rewrite (proj2 (publishable_supported d Pd)). exact IH. }
  destruct (filterM_filter _ _ _ devices h s (fun d s => Latest_isEndpointSupported_spec d h s))
    as [[kept | e | f] [E Post]].
  - destruct Post as [_ ->]. rewrite E, (filter_all _ _ Supported). reflexivity.
  - rewrite Post in Readable. discriminate.
  - contradiction.
Qed.

Lemma mapM_publishable devices h s :
  Forall (fun d => publishable d = true) devices ->
  mapM Latest.toAlexaEndpoint devices h s = (Ok (map published devices), s).
Proof.
  induction 1 as [| d ds P _ IH]; [reflexivity |]. simpl.
  rewrite (bind_ok _ _ h s _ _ (Latest_toAlexaEndpoint_publishable d h s P)).
  rewrite (bind_ok _ _ h s _ _ IH). reflexivity.
Qed.

Lemma supported_string_publishable device :
  supported_in Latest.SUPPORTED_ENDPOINT_TYPES device = true ->
  typeof_string (field device "id") = true ->
  publishable device = true.
Proof.
  unfold supported_in, publishable. intros S T.
  repeat (apply andb_true_iff in S; destruct S as [S ?]).
  destruct (field device "id"); try discriminate T.
  repeat (apply andb_true_iff; split); assumption.
Qed.

Lemma Latest_toAlexaEndpoint_throws device h s :
  supported_in Latest.SUPPORTED_ENDPOINT_TYPES device = true ->
  typeof_string (field device "id") = false ->
  exists e, Latest.toAlexaEndpoint device h s = (Throw e, s).
Proof.
  intros S T. destruct (supported_object _ _ S) as [props ->].
  unfold Latest.toAlexaEndpoint. unfold bind at 1, prop, ret.
  unfold bind at 1. simpl in T.
  destruct (lookup "id" props); try discriminate T; eexists; reflexivity.
Qed.

Lemma Latest_mapM_spec devices h s :
  Forall (fun d => supported_in Latest.SUPPORTED_ENDPOINT_TYPES d = true) devices ->
  exists r,
    mapM Latest.toAlexaEndpoint devices h s = (r, s)
    /\ if forallb (fun d => typeof_string (field d "id")) devices
       then r = Ok (map published devices)
       else exists e, r = Throw e.
Proof.
  induction 1 as [| d ds S _ IH]; [eexists; split; reflexivity |].
  simpl. destruct (typeof_string (field d "id")) eqn:T.
  - rewrite (bind_ok _ _ h s _ _
               (Latest_toAlexaEndpoint_publishable d h s (supported_string_publishable d S T))).
    destruct IH as [r [E Post]]. unfold bind at 1. rewrite E. simpl.
    destruct (forallb _ ds).
    + subst r. eexists. split; reflexivity.
    + destruct Post as [e ->]. eexists. split; [reflexivity | eauto].
  - destruct (Latest_toAlexaEndpoint_throws d h s S T) as [e E].
    unfold bind at 1. rewrite E. eexists. split; [reflexivity | simpl; eauto].
Qed.

(** [getDiscoveryReply] of the latest revision: the reply for the body, or
    a throw when the body publishes nothing. *)
Lemma Latest_getDiscoveryReply_spec body h s :
  Latest.getDiscoveryReply body h s
    = (Ok (discovery_response (clock h (ticks s)) (Latest_published_by body)), ticked s)
  \/ (Latest_published_by body = JArr []
      /\ exists e, Latest.getDiscoveryReply body h s = (Throw e, s)).
Proof.
  destruct (Latest.getDiscoveryReply body h s) as [r s1] eqn:R.
  unfold Latest.getDiscoveryReply in R. unfold Latest_published_by.
  destruct body as [| | b | n | str | devices | props];
    try (injection R as <- <-; right; split; [reflexivity | eexists; reflexivity]).
  unfold method_filter in R. rewrite bind_assoc in R.
  destruct (filterM_filter _ _ _ devices h s (fun d s => Latest_isEndpointSupported_spec d h s))
    as [[kept | e | f] [E Post]]; unfold bind at 1 in R; rewrite E in R.
  - destruct Post as [-> ->]. simpl negb. cbv zeta.
    rewrite (bind_ok _ _ h s _ _ (eq_refl : ret _ h s = (Ok _, s))) in R.
    unfold method_map in R.
    destruct (Latest_mapM_spec _ h s (filter_supported Latest.SUPPORTED_ENDPOINT_TYPES devices))
      as [r' [E' Post]].
    unfold bind in R. rewrite E' in R.
    destruct (forallb _ _).
    + subst r'. injection R as <- <-. left. reflexivity.
    + destruct Post as [e ->]. injection R as <- <-.
      right. split; [reflexivity | eexists; reflexivity].
  - rewrite Post. injection R as <- <-. right. split; [reflexivity | eexists; reflexivity].
  - contradiction.
Qed.

(** Discovery of the latest revision, in full.  For a Discovery directive
    that carries a string token, the handler asks for
    [/endpoints?access_token=<trimmed token>].  When Node refuses the path
    no request is issued and the handler succeeds with an empty endpoint
    list.  Otherwise it issues one GET.  On a socket error and on every
    status other than 200 it succeeds with an empty endpoint list.  On a
    200 whose body parses it succeeds with the endpoints of the supported
    devices of the body, in order, each id with its first ['.'] rewritten
    to ['#']; with an empty list when the body is not an array, when the
    [type] of one of its devices does not convert to a property key, and
    when one supported device has an id that is not a string.  On a 200
    whose body does not parse, the invocation is left with an uncaught
    exception and no reply. *)
Theorem latest_discovery_in_full (h : Host) (event : JSValue) (context : Context)
    (name token : string) :
  header_field event "namespace" = JStr Alexa_Discovery ->
  header_field event "name" = JStr name ->
  name <> EmptyString ->
  at_path event ["directive"; "payload"; "scope"; "token"] = JStr token ->
  let path := "/endpoints?access_token=" ++ trim token in
  let req := Latest_request h "GET" path None in
  let replied endpoints :=
    (Ok tt, mkSt 3 [req] [Succeeded (discovery_response (clock h 2) endpoints)]) in
  run h (Latest.handler event context)
  = if unescaped path
    then (Ok tt, mkSt 2 [] [Succeeded (discovery_response (clock h 1) (JArr []))])
    else
    match backend h req with
    | SocketError _ => replied (JArr [])
    | Response statusCode _ text =>
        if (statusCode =? 200)%Z then
          match JSON_parse h text with
          | Some body => replied (Latest_published_by body)
          | None =>
              (Stuck (UncaughtException (SyntaxError "Unexpected token in JSON")),
               mkSt 2 [req] [])
          end
        else replied (JArr [])
    end.
Proof.
  intros Namespace Name NonEmpty Token. cbv zeta.
  pose proof (discovery_valid event name Namespace Name NonEmpty) as Valid.
  pose proof (discovery_token_readable event token Token) as Readable.
  rewrite (Latest_handler_routes h event context _ Valid Namespace).
  unfold Latest_route, run, Latest.handleDiscoveryEvent. simpl (_ =? _). cbv iota.
  rewrite (bind_ok _ _ h start _ _ (prop_path_readable _ _ h start Readable)), Token.
  simpl (method_trim _). unfold bind at 1. unfold ret at 1. cbv iota beta.
  rewrite (bind_ok _ _ h start _ _ (to_string_ok (JStr _) _ h start eq_refl)).
  unfold detach, catch_, then_.
  unfold bind at 1. unfold bind at 1.
  destruct (unescaped ("/endpoints?access_token=" ++ trim token)) eqn:U;
    [rewrite (Latest_get_refused h _ start U); reflexivity |].
  rewrite (Latest_get_spec h _ start U).
  destruct (backend h _) as [e | sc hd text]; [reflexivity |].
  destruct (sc =? 200)%Z; [| reflexivity].
  destruct (JSON_parse h text) as [body |]; [| reflexivity].
  destruct (Latest_getDiscoveryReply_spec body h
              (Latest_issued start
                 (Latest_request h "GET" ("/endpoints?access_token=" ++ trim token) None)))
    as [E | [Empty [e E]]]; rewrite E.
  - reflexivity.
  - rewrite Empty. reflexivity.
Qed.

(** A Z-Wave device beside a device without a name: one endpoint, its id
    with ['#'] for the dot.  The same device beside a supported device whose
    id is the number 7: no endpoint at all. *)
Lemma latest_discovery_in_full_witness :
  let discover := directive Alexa_Discovery "Discover" "e1" in
  replies (snd (run (example_host
                       (Response 200 (JObj []) (body_of [zway_device; nameless_device])))
                  (Latest.handler discover LambdaContext)))
    = [Succeeded (discovery_response 1002 (JArr [published zway_device]))]
  /\ field (published zway_device) "endpointId" = JStr "ZWayVDev_zway_2-0-37#1"
  /\ replies (snd (run (example_host
                          (Response 200 (JObj []) (body_of [zway_device; numbered_device])))
                     (Latest.handler discover LambdaContext)))
    = [Succeeded (discovery_response 1002 (JArr []))].
Proof.
  cbv zeta. split; [| split; [reflexivity |]].
  - rewrite (latest_discovery_in_full
               (example_host (Response 200 (JObj []) (body_of [zway_device; nameless_device])))
               (directive Alexa_Discovery "Discover" "e1") LambdaContext "Discover" "tok"
               eq_refl eq_refl ltac:(discriminate) eq_refl).
    reflexivity.
  - rewrite (latest_discovery_in_full
               (example_host (Response 200 (JObj []) (body_of [zway_device; numbered_device])))
               (directive Alexa_Discovery "Discover" "e1") LambdaContext "Discover" "tok"
               eq_refl eq_refl ltac:(discriminate) eq_refl).
    reflexivity.
Defined.


(* ================================================================== *)
(** ** C10: endpoint ids through discovery and back *)

(** C10.  In the latest revision, the discovery reply for a list of
    publishable device descriptors lists one endpoint per device, in order,
    whose [endpointId] is the device id with its first ['.'] rewritten to
    ['#'].  For every such device whose id holds no ['#'] and at most one
    ['.'], and every event that carries the published [endpointId]:
    [getEndpointId], through which every control handler reads the inbound
    [endpointId], returns the original device id; and each control handler
    that reaches its request issues exactly one, a POST to
    [/endpoints/<original id>/...].  A handler reaches its request when the
    directive has the name it serves, the payload it reads and a token that
    converts to text, and Node accepts the characters of the id and of the
    token. *)
Theorem endpoint_id_round_trip (h : Host) (s : St) (devices : list JSValue) :
  Forall (fun d => publishable d = true) devices ->
  exists reply,
    fst (Latest.getDiscoveryReply (JArr devices) h s) = Ok reply
    /\ published_ids reply = map (fun d => JStr (replace "." "#" (device_id d))) devices
    /\ forall device event,
         In device devices ->
         includes "#" (device_id device) = false ->
         (count_char "." (device_id device) <= 1)%nat ->
         at_path event ["directive"; "endpoint"; "endpointId"]
           = JStr (replace "." "#" (device_id device)) ->
         (forall h' s',
            Latest.getEndpointId event h' s' = (Ok (JStr (device_id device)), s'))
         /\ forall h' context,
              unescaped (device_id device) = false ->
              let payload := readable event ["directive"; "payload"; "channel"] = true in
              let to tail handler :=
                posted h' ("/endpoints/" ++ device_id device ++ tail)
                  (run h' (handler event context)) in
              (payload -> to "/channel" Latest.handleSkipChannelsEvent)
              /\ forall name token,
                   header_field event "name" = JStr name ->
                   readable event ["directive"; "endpoint"; "scope"; "token"] = true ->
                   ToString (endpoint_token event) = Some token ->
                   unescaped token = false ->
                   (In name ["TurnOn"; "TurnOff"] ->
                    to ("/power?access_token=" ++ token) Latest.handlePowerControlEvent)
                   /\ (payload ->
                       to ("/channel?access_token=" ++ token) Latest.handleChangeChannelEvent)
                   /\ (payload -> name = "ChangeChannel" ->
                       to ("/channel?access_token=" ++ token)
                         Latest.handleChannelControlEvent)
                   /\ (payload -> name = "SkipChannels" ->
                       to "/channel" Latest.handleChannelControlEvent)
                   /\ (payload -> name = "SelectInput" ->
                       to ("/input?access_token=" ++ token) Latest.handleInputControlEvent)
                   /\ (payload -> In name ["SetMute"; "AdjustVolume"] ->
                       to ("/volume?accessToken=" ++ token) Latest.handleStepSpeakerEvent)
                   /\ (In name SUPPORTED_PLAYBACK_DIRECTIVES ->
                       to ("/playback?accessToken=" ++ token)
                         Latest.handlePlaybackControlEvent).
Proof.
  intros P.
  unfold Latest.getDiscoveryReply, method_filter.
  rewrite bind_assoc.
  rewrite (bind_ok _ _ h s _ _ (filterM_publishable devices h s P)).
  unfold bind at 1, ret at 1. cbv iota beta. unfold method_map.
  rewrite bind_assoc.
  rewrite (bind_ok _ _ h s _ _ (mapM_publishable devices h s P)).
  unfold bind at 1, ret at 1. cbv iota beta.
  eexists. split; [reflexivity |]. split.
  - unfold published_ids. simpl. rewrite map_map. reflexivity.
  - intros device event _ NoHash _ Carried.
    pose proof (decode_encode _ NoHash) as Back. unfold encode_id in Back. split.
    + intros h' s'. rewrite (Latest_getEndpointId_spec event _ h' s' Carried).
      fold (decode_id (replace "." "#" (device_id device))). rewrite Back. reflexivity.
    + intros h' context Accepted. cbv zeta. rewrite <- Back in Accepted |- *.
      assert (Keys : forall k, readable event ["directive"; "payload"; "channel"] = true ->
                               readable event ["directive"; "payload"; k] = true).
      { intros k R. simpl in R |- *. rewrite !andb_true_r in *. exact R. }
      split.
      * intros Payload.
        apply (skip_channels_posted h' event context _ Carried Accepted (Keys _ Payload)).
      * intros name token Name Scope Token Clean. unfold endpoint_token in Token.
        repeat split.
        -- apply (power_posted h' event context _ Carried Accepted token Scope Token Clean
                    name Name).
        -- apply (change_channel_posted h' event context _ Carried Accepted token Scope Token
                    Clean).
        -- intros Payload.
           apply (channel_control_posted h' event context _ Carried Accepted token Scope Token
                    Clean name Name Payload).
        -- intros Payload.
           apply (channel_control_posted h' event context _ Carried Accepted token Scope Token
                    Clean name Name Payload).
        -- intros Payload ->.
           apply (select_input_posted h' event context _ Carried Accepted token Scope Token
                    Clean Name (Keys _ Payload)).
        -- intros Payload Supported.
           apply (step_speaker_posted h' event context _ Carried Accepted token Scope Token
                    Clean name Name Supported (Keys _ Payload)).
        -- apply (playback_posted h' event context _ Carried Accepted token Scope Token Clean
                    name Name).
Qed.

(** A Z-Wave device: its id is published with ['#'] for the dot, read back
    with the dot, and a TurnOn for the published id is posted to the
    original id. *)
Lemma endpoint_id_round_trip_witness :
  let h := example_host (Response 200 (JObj []) "{}") in
  let turn_on := directive Alexa_PowerController "TurnOn" "ZWayVDev_zway_2-0-37#1" in
  exists reply,
    fst (Latest.getDiscoveryReply (JArr [zway_device]) h start) = Ok reply
    /\ published_ids reply = [JStr "ZWayVDev_zway_2-0-37#1"]
    /\ Latest.getEndpointId turn_on h start = (Ok (JStr "ZWayVDev_zway_2-0-37.1"), start)
    /\ posted h "/endpoints/ZWayVDev_zway_2-0-37.1/power?access_token=tok"
         (run h (Latest.handlePowerControlEvent turn_on LambdaContext)).
Proof.
  cbv zeta.
  assert (P : Forall (fun d => publishable d = true) [zway_device])
    by (constructor; [reflexivity | constructor]).
  destruct (endpoint_id_round_trip (example_host (Response 200 (JObj []) "{}")) start
              [zway_device] P) as [reply [R [Ids Back]]].
  exists reply. split; [exact R |]. split; [exact Ids |].
  assert (Once : (count_char "." (device_id zway_device) <= 1)%nat) by (vm_compute; lia).
  assert (Listed : In zway_device [zway_device]) by (left; reflexivity).
  assert (Power : In "TurnOn" ["TurnOn"; "TurnOff"]) by (simpl; tauto).
  destruct (Back zway_device
              (directive Alexa_PowerController "TurnOn" "ZWayVDev_zway_2-0-37#1")
              Listed eq_refl Once eq_refl) as [Read Served].
  split; [apply Read |].
  destruct (Served (example_host (Response 200 (JObj []) "{}")) LambdaContext eq_refl)
    as [_ Named].
  destruct (Named "TurnOn" "tok" eq_refl eq_refl eq_refl eq_refl) as [Posted _].
  apply (Posted Power).
Defined.


(* ================================================================== *)
(** ** Power control, in full *)

Lemma power_valid (event : JSValue) (name : string) :
  header_field event "namespace" = JStr Alexa_PowerController ->
  header_field event "name" = JStr name ->
  In name ["TurnOn"; "TurnOff"] ->
  truthy (validity event) = true.
Proof.
  intros Namespace Name Supported.
  apply (header_strings_valid event _ _ Namespace Name); [discriminate |].
  simpl in Supported. destruct Supported as [<- | [<- | []]]; discriminate.
Qed.

Lemma power_endpoint_readable (event : JSValue) :
  readable event ["directive"; "endpoint"; "scope"; "token"] = true ->
  readable event ["directive"; "endpoint"; "endpointId"] = true.
Proof. simpl. rewrite !andb_true_iff. tauto. Qed.

Lemma power_body (name : string) :
  stringify_object [("state", JStr (if strict_eq_str (JStr name) "TurnOn" then "on" else "off"))]
  = stringify_object [("state", JStr (requested_state name))].
Proof. reflexivity. Qed.

(** What [index.js] does with a TurnOn or a TurnOff, by the transport's
    answer. *)
Lemma Index_power_outcome (h : Host) (event : JSValue) (context : Context)
    (name endpointId token : string) :
  header_field event "namespace" = JStr Alexa_PowerController ->
  header_field event "name" = JStr name ->
  In name ["TurnOn"; "TurnOff"] ->
  readable event ["directive"; "endpoint"; "scope"; "token"] = true ->
  ToString (at_path event ["directive"; "endpoint"; "endpointId"]) = Some endpointId ->
  ToString (endpoint_token event) = Some token ->
  unescaped (power_path endpointId token) = false ->
  let body := stringify_object [("state", JStr (requested_state name))] in
  let req := Index_request h "PUT" (power_path endpointId token) (Some body) in
  let t := clock h 0 in
  run h (Index.handler event context)
  = (Ok tt, mkSt 1 [req]
      [match backend h req with
       | SocketError error =>
           Failed (error_envelope t endpointUnreachable
                     ("Failed PUT request: " ++ stringify (JObj (enumerable error))))
       | Response statusCode _ text =>
           if (statusCode =? 200)%Z then
             match JSON_parse h text with
             | Some power =>
                 if is_nullish power
                 then Failed (error_envelope t endpointUnreachable "Failed PUT request: {}")
                 else Succeeded (power_response t power)
             | None => Failed (error_envelope t endpointUnreachable "Failed PUT request: {}")
             end
           else Failed (error_envelope t internalError
                          ("Unexpected HTTP statusCode: " ++ Number_toString statusCode))
       end]).
Proof.
  intros Namespace Name Supported Scope Id Token U. cbv zeta.
  unfold power_path in *. unfold endpoint_token in Token.
  pose proof (power_valid event name Namespace Name Supported) as Valid.
  pose proof (power_endpoint_readable event Scope) as Endpoint.
  rewrite (Index_handler_routes h event context _ Valid Namespace).
  unfold Index_route, run, Index.handlePowerControlEvent. simpl (_ =? _). cbv iota.
  rewrite (bind_ok _ _ h start _ _ (read_name h event Valid start)), Name.
  rewrite (bind_ok _ _ h start _ _ (turn_on_off name h start Supported)).
  simpl (negb _). cbv iota.
  rewrite (bind_ok _ _ h start _ _ (prop_path_readable _ _ h start Endpoint)).
  rewrite (bind_ok _ _ h start _ _ (prop_path_readable _ _ h start Scope)).
  rewrite power_body.
  rewrite (bind_ok _ _ h start _ _ (to_string_ok _ _ h start Id)).
  rewrite (bind_ok _ _ h start _ _ (to_string_ok _ _ h start Token)).
  unfold detach, catch_, then_. unfold bind at 1. rewrite (Index_put_spec _ _ h start U).
  destruct (backend h _) as [e | sc hd text]; [reflexivity |].
  destruct (status_200_cases sc) as [[-> _] | [F NE]].
  - unfold Index.status_is_200, Index.getPowerControlAlexaResponse, Index.parse_responseText,
      parse, bind. simpl.
    destruct (JSON_parse h text) as [power |]; [| reflexivity].
    destruct power; reflexivity.
  - rewrite F. unfold Index.status_is_200, bind. simpl.
    destruct sc as [| p | p]; try reflexivity.
    do 8 (destruct p as [p | p |]; try reflexivity). discriminate NE.
Qed.

(** Power control of [index.js], in full.  A TurnOn or TurnOff whose
    endpoint scope can be read, whose endpoint id and token convert to text
    and whose path Node accepts issues one PUT to
    [/endpoints/<endpointId>/power?access_token=<token>] with the body
    [{"state":"on"}] or [{"state":"off"}], and tells the context exactly one
    thing, by the transport's answer: on a socket error, ENDPOINT_UNREACHABLE
    with the JSON of the error's enumerable properties; on a status other
    than 200, INTERNAL_ERROR with the status; on a 200 whose body does not
    parse, or parses to [null], ENDPOINT_UNREACHABLE with the message
    [Failed PUT request: {}]; on a 200 whose body parses to anything else, a
    response that reports the [state] of the body. *)
Theorem index_power_control_in_full (h : Host) (event : JSValue) (context : Context)
    (name endpointId token : string) :
  header_field event "namespace" = JStr Alexa_PowerController ->
  header_field event "name" = JStr name ->
  In name ["TurnOn"; "TurnOff"] ->
  readable event ["directive"; "endpoint"; "scope"; "token"] = true ->
  ToString (at_path event ["directive"; "endpoint"; "endpointId"]) = Some endpointId ->
  ToString (endpoint_token event) = Some token ->
  unescaped (power_path endpointId token) = false ->
  let body := stringify_object [("state", JStr (requested_state name))] in
  let req := Index_request h "PUT" (power_path endpointId token) (Some body) in
  let t := clock h 0 in
  run h (Index.handler event context)
  = (Ok tt, mkSt 1 [req]
      [match backend h req with
       | SocketError error =>
           Failed (error_envelope t endpointUnreachable
                     ("Failed PUT request: " ++ stringify (JObj (enumerable error))))
       | Response statusCode _ text =>
           if (statusCode =? 200)%Z then
             match JSON_parse h text with
             | Some power =>
                 if is_nullish power
                 then Failed (error_envelope t endpointUnreachable "Failed PUT request: {}")
                 else Succeeded (power_response t power)
             | None => Failed (error_envelope t endpointUnreachable "Failed PUT request: {}")
             end
           else Failed (error_envelope t internalError
                          ("Unexpected HTTP statusCode: " ++ Number_toString statusCode))
       end]).
Proof. exact (Index_power_outcome h event context name endpointId token). Qed.

(** A TurnOff answered with 503: INTERNAL_ERROR, with the status in the
    message. *)
Lemma index_power_control_in_full_witness :
  let h := example_host (Response 503 (JObj []) "busy") in
  run h (Index.handler (directive Alexa_PowerController "TurnOff" "switch-1") LambdaContext)
  = (Ok tt, mkSt 1
       [Index_request h "PUT" "/endpoints/switch-1/power?access_token=tok"
          (Some (stringify_object [("state", JStr "off")]))]
       [Failed (error_envelope 1000 internalError "Unexpected HTTP statusCode: 503")]).
Proof.
  cbv zeta.
  assert (Name : In "TurnOff" ["TurnOn"; "TurnOff"]) by (simpl; tauto).
  rewrite (index_power_control_in_full (example_host (Response 503 (JObj []) "busy"))
             (directive Alexa_PowerController "TurnOff" "switch-1") LambdaContext "TurnOff"
             "switch-1" "tok" eq_refl eq_refl Name eq_refl eq_refl eq_refl eq_refl).
  reflexivity.
Defined.


(** Power control of the third file of [code.js], in full: the request of
    [index.js], but a status other than 200 is reported as
    ENDPOINT_UNREACHABLE with the message [Failed PUT request: {}] (the
    shim rejects with an [Error] that has no enumerable property), where
    [index.js] reports INTERNAL_ERROR with the status. *)
Theorem code_power_control_in_full (h : Host) (event : JSValue) (context : Context)
    (name endpointId token : string) :
  header_field event "namespace" = JStr Alexa_PowerController ->
  header_field event "name" = JStr name ->
  In name ["TurnOn"; "TurnOff"] ->
  readable event ["directive"; "endpoint"; "scope"; "token"] = true ->
  ToString (at_path event ["directive"; "endpoint"; "endpointId"]) = Some endpointId ->
  ToString (endpoint_token event) = Some token ->
  unescaped (power_path endpointId token) = false ->
  let body := stringify_object [("state", JStr (requested_state name))] in
  let req := Index_request h "PUT" (power_path endpointId token) (Some body) in
  let t := clock h 0 in
  run h (CodeV3.handler event context)
  = (Ok tt, mkSt 1 [req]
      [match backend h req with
       | SocketError error =>
           Failed (error_envelope t endpointUnreachable
                     ("Failed PUT request: " ++ stringify (JObj (enumerable error))))
       | Response statusCode _ text =>
           if (statusCode =? 200)%Z then
             match JSON_parse h text with
             | Some power =>
                 if is_nullish power
                 then Failed (error_envelope t endpointUnreachable "Failed PUT request: {}")
                 else Succeeded (power_response t power)
             | None => Failed (error_envelope t endpointUnreachable "Failed PUT request: {}")
             end
           else Failed (error_envelope t endpointUnreachable "Failed PUT request: {}")
       end]).
Proof.
  intros Namespace Name Supported Scope Id Token U. cbv zeta.
  unfold power_path in *. unfold endpoint_token in Token.
  pose proof (power_valid event name Namespace Name Supported) as Valid.
  pose proof (power_endpoint_readable event Scope) as Endpoint.
  rewrite (CodeV3_handler_routes h event context _ Valid Namespace).
  unfold CodeV3_route, run, CodeV3.handlePowerControlEvent, CodeV3.getDirectiveName,
    CodeV3.getEndpointId, CodeV3.getEndpointToken.
  simpl (_ =? _). cbv iota.
  rewrite (bind_ok _ _ h start _ _ (read_name h event Valid start)), Name.
  rewrite (bind_ok _ _ h start _ _ (turn_on_off name h start Supported)).
  simpl (negb _). cbv iota.
  rewrite (bind_ok _ _ h start _ _ (prop_path_readable _ _ h start Endpoint)).
  rewrite (bind_ok _ _ h start _ _ (prop_path_readable _ _ h start Scope)).
  rewrite power_body.
  rewrite (bind_ok _ _ h start _ _ (to_string_ok _ _ h start Id)).
  rewrite (bind_ok _ _ h start _ _ (to_string_ok _ _ h start Token)).
  unfold detach, catch_, then_. unfold bind at 1. rewrite (CodeV3_put_spec _ _ h start U).
  destruct (backend h _) as [e | sc hd text]; [reflexivity |].
  destruct (sc =? 200)%Z; [| reflexivity].
  unfold CodeV3.getPowerControlAlexaResponse, Index.getPowerControlAlexaResponse,
    Index.parse_responseText, parse, bind.
  simpl.
  destruct (JSON_parse h text) as [power |]; [| reflexivity].
  destruct power; reflexivity.
Qed.

(** The same TurnOff in [code.js]: ENDPOINT_UNREACHABLE, and the status is
    lost. *)
Lemma code_power_control_in_full_witness :
  let h := example_host (Response 503 (JObj []) "busy") in
  run h (CodeV3.handler (directive Alexa_PowerController "TurnOff" "switch-1") LambdaContext)
  = (Ok tt, mkSt 1
       [Index_request h "PUT" "/endpoints/switch-1/power?access_token=tok"
          (Some (stringify_object [("state", JStr "off")]))]
       [Failed (error_envelope 1000 endpointUnreachable "Failed PUT request: {}")]).
Proof.
  cbv zeta.
  assert (Name : In "TurnOff" ["TurnOn"; "TurnOff"]) by (simpl; tauto).
  rewrite (code_power_control_in_full (example_host (Response 503 (JObj []) "busy"))
             (directive Alexa_PowerController "TurnOff" "switch-1") LambdaContext "TurnOff"
             "switch-1" "tok" eq_refl eq_refl Name eq_refl eq_refl eq_refl eq_refl).
  reflexivity.
Defined.


(** What the latest revision does with a TurnOn or a TurnOff, by the
    transport's answer. *)
Lemma Latest_power_outcome (h : Host) (event : JSValue) (context : Context)
    (name endpointId token : string) :
  header_field event "namespace" = JStr Alexa_PowerController ->
  header_field event "name" = JStr name ->
  In name ["TurnOn"; "TurnOff"] ->
  at_path event ["directive"; "endpoint"; "endpointId"] = JStr endpointId ->
  readable event ["directive"; "endpoint"; "scope"; "token"] = true ->
  ToString (endpoint_token event) = Some token ->
  unescaped (power_path (decode_id endpointId) token) = false ->
  let body := stringify_object [("state", JStr (requested_state name))] in
  let req := Latest_request h "POST" (power_path (decode_id endpointId) token) (Some body) in
  let t := clock h 2 in
  let told reply := (Ok tt, mkSt 3 [req] [reply]) in
  run h (Latest.handler event context)
  = match backend h req with
    | SocketError error =>
        told (Failed (error_envelope t endpointUnreachable
                        (stringify (JObj (enumerable error)))))
    | Response statusCode _ text =>
        if (statusCode =? 200)%Z then
          match JSON_parse h text with
          | Some power =>
              if is_nullish power
              then told (Failed (error_envelope t endpointUnreachable "{}"))
              else told (Succeeded (power_response t power))
          | None =>
              (Stuck (UncaughtException (SyntaxError "Unexpected token in JSON")),
               mkSt 2 [req] [])
          end
        else told (Failed (error_envelope t endpointUnreachable "{}"))
    end.
Proof.
  intros Namespace Name Supported Endpoint Scope Token U. cbv zeta.
  unfold power_path, decode_id in *. unfold endpoint_token in Token.
  pose proof (power_valid event name Namespace Name Supported) as Valid.
  rewrite (Latest_handler_routes h event context _ Valid Namespace).
  unfold Latest_route, run, Latest.handlePowerControlEvent, Latest.getDirectiveName,
    Latest.getEndpointToken.
  simpl (_ =? _). cbv iota.
  rewrite (bind_ok _ _ h start _ _ (read_name h event Valid start)), Name.
  rewrite (bind_ok _ _ h start _ _ (turn_on_off name h start Supported)).
  simpl (negb _). cbv iota.
  rewrite (bind_ok _ _ h start _ _ (Latest_getEndpointId_spec event _ h start Endpoint)).
  rewrite (bind_ok _ _ h start _ _ (prop_path_readable _ _ h start Scope)).
  rewrite (bind_ok _ _ h start _ _ (to_string_ok (JStr _) _ h start eq_refl)).
  rewrite (bind_ok _ _ h start _ _ (to_string_ok _ _ h start Token)).
  unfold Latest.reply_chain, detach, catch_, then_.
  unfold bind at 1. unfold bind at 1. rewrite (Latest_post_spec _ _ h start U).
  change (stringify_object
            [("state", JStr (if strict_eq_str (JStr name) "TurnOn" then "on" else "off"))])
    with (stringify_object [("state", JStr (requested_state name))]).
  destruct (backend h _) as [e | sc hd text]; [reflexivity |].
  destruct (sc =? 200)%Z; [| reflexivity].
  destruct (JSON_parse h text) as [power |]; [| reflexivity].
  unfold Latest.getPowerControlReply, bind.
  destruct power; reflexivity.
Qed.

(** Power control of the latest revision, in full.  A TurnOn or TurnOff
    that carries a string endpoint id and a token that converts to text,
    and whose path Node accepts, issues one POST to
    [/endpoints/<id>/power?access_token=<token>], where [<id>] is the
    endpoint id with its first ['#'] rewritten to ['.'], with the body
    [{"state":"on"}] or [{"state":"off"}].  On a socket error the context is
    told ENDPOINT_UNREACHABLE with the JSON of the error's enumerable
    properties; on a status other than 200, and on a 200 whose body parses
    to [null], ENDPOINT_UNREACHABLE with the message [{}]; on a 200 whose
    body parses to anything else, a response that reports the [state] of
    the body.  On a 200 whose body does not parse, the invocation is left
    with an uncaught exception and no reply. *)
Theorem latest_power_control_in_full (h : Host) (event : JSValue) (context : Context)
    (name endpointId token : string) :
  header_field event "namespace" = JStr Alexa_PowerController ->
  header_field event "name" = JStr name ->
  In name ["TurnOn"; "TurnOff"] ->
  at_path event ["directive"; "endpoint"; "endpointId"] = JStr endpointId ->
  readable event ["directive"; "endpoint"; "scope"; "token"] = true ->
  ToString (endpoint_token event) = Some token ->
  unescaped (power_path (decode_id endpointId) token) = false ->
  let body := stringify_object [("state", JStr (requested_state name))] in
  let req := Latest_request h "POST" (power_path (decode_id endpointId) token) (Some body) in
  let t := clock h 2 in
  let told reply := (Ok tt, mkSt 3 [req] [reply]) in
  run h (Latest.handler event context)
  = match backend h req with
    | SocketError error =>
        told (Failed (error_envelope t endpointUnreachable
                        (stringify (JObj (enumerable error)))))
    | Response statusCode _ text =>
        if (statusCode =? 200)%Z then
          match JSON_parse h text with
          | Some power =>
              if is_nullish power
              then told (Failed (error_envelope t endpointUnreachable "{}"))
              else told (Succeeded (power_response t power))
          | None =>
              (Stuck (UncaughtException (SyntaxError "Unexpected token in JSON")),
               mkSt 2 [req] [])
          end
        else told (Failed (error_envelope t endpointUnreachable "{}"))
    end.
Proof. exact (Latest_power_outcome h event context name endpointId token). Qed.

(** A TurnOn for a published Z-Wave id, answered with the state of the
    device: the request goes to the id with its dot, and the reply reports
    the state. *)
Lemma latest_power_control_in_full_witness :
  let h := example_host (Response 200 (JObj []) state_on_text) in
  run h (Latest.handler (directive Alexa_PowerController "TurnOn" "ZWayVDev_zway_2-0-37#1")
           LambdaContext)
  = (Ok tt, mkSt 3
       [Latest_request h "POST" "/endpoints/ZWayVDev_zway_2-0-37.1/power?access_token=tok"
          (Some (stringify_object [("state", JStr "on")]))]
       [Succeeded (power_response 1002 (JObj [("state", JStr "on")]))]).
Proof.
  cbv zeta.
  assert (Name : In "TurnOn" ["TurnOn"; "TurnOff"]) by (simpl; tauto).
  rewrite (latest_power_control_in_full (example_host (Response 200 (JObj []) state_on_text))
             (directive Alexa_PowerController "TurnOn" "ZWayVDev_zway_2-0-37#1") LambdaContext
             "TurnOn" "ZWayVDev_zway_2-0-37#1" "tok" eq_refl eq_refl Name eq_refl eq_refl
             eq_refl eq_refl).
  reflexivity.
Defined.


(* ================================================================== *)
(** ** Events that lack what a handler reads *)

(** A chain of property reads returns what is at the path or throws a
    TypeError, and leaves the state alone. *)
Lemma prop_path_cases ks : forall v h s,
  prop_path v ks h s = (Ok (at_path v ks), s)
  \/ exists e, err_name e = "TypeError" /\ prop_path v ks h s = (Throw e, s).
Proof.
  induction ks as [| k ks IH]; intros v h s; [left; reflexivity |].
  simpl. destruct (is_nullish v) eqn:N.
  - right. destruct v; try discriminate N; eexists; (split; [| reflexivity]); reflexivity.
  - rewrite (bind_ok _ _ h s _ _ (prop_field v k h s N)). apply IH.
Qed.

Lemma trim_not_a_string v h s :
  typeof_string v = false ->
  exists e, err_name e = "TypeError" /\ method_trim v h s = (Throw e, s).
Proof. destruct v; try discriminate; intros _; eexists; (split; [| reflexivity]); reflexivity. Qed.

Lemma replace_not_a_string v pat rep h s :
  typeof_string v = false ->
  exists e, err_name e = "TypeError" /\ method_replace v pat rep h s = (Throw e, s).
Proof. destruct v; try discriminate; intros _; eexists; (split; [| reflexivity]); reflexivity. Qed.

(** A Discovery directive without a string token: the handler reads
    [event.directive.payload.scope.token] and calls [trim] on it before it
    builds its promise chain, so the invocation ends in a TypeError, with no
    request issued and nothing told to the context.  This holds in the
    three versioned revisions. *)
Theorem discovery_without_token_throws (h : Host) (event : JSValue) (context : Context)
    (name : string) :
  header_field event "namespace" = JStr Alexa_Discovery ->
  header_field event "name" = JStr name ->
  name <> EmptyString ->
  typeof_string (at_path event ["directive"; "payload"; "scope"; "token"]) = false ->
  exists e,
    err_name e = "TypeError"
    /\ run h (Index.handler event context) = (Throw e, start)
    /\ run h (CodeV3.handler event context) = (Throw e, start)
    /\ run h (Latest.handler event context) = (Throw e, start).
Proof.
  intros Namespace Name NonEmpty NoToken.
  assert (Valid : truthy (validity event) = true)
    by (apply (header_strings_valid event _ _ Namespace Name); [discriminate | exact NonEmpty]).
  rewrite (Index_handler_routes h event context _ Valid Namespace).
  rewrite (CodeV3_handler_routes h event context _ Valid Namespace).
  rewrite (Latest_handler_routes h event context _ Valid Namespace).
  unfold Index_route, CodeV3_route, Latest_route, run. simpl (_ =? _). cbv iota.
  unfold Index.handleDiscoveryEvent, CodeV3.handleDiscoveryEvent, Latest.handleDiscoveryEvent.
  destruct (prop_path_cases ["directive"; "payload"; "scope"; "token"] event h start)
    as [E | [e [T E]]].
  - rewrite !(bind_ok _ _ h start _ _ E).
    destruct (trim_not_a_string _ h start NoToken) as [e [T Et]].
    exists e. unfold bind. rewrite Et. repeat split. exact T.
  - exists e. unfold bind. rewrite E. repeat split. exact T.
Qed.

(** A Discover that has a header and nothing else. *)
Lemma discovery_without_token_throws_witness :
  exists e,
    err_name e = "TypeError"
    /\ run (example_host (Response 200 (JObj []) "[]"))
          (Index.handler (bare_directive Alexa_Discovery "Discover") LambdaContext)
       = (Throw e, start).
Proof.
  destruct (discovery_without_token_throws (example_host (Response 200 (JObj []) "[]"))
              (bare_directive Alexa_Discovery "Discover") LambdaContext "Discover"
              eq_refl eq_refl ltac:(discriminate) eq_refl) as [e [T [Index _]]].
  exists e. split; assumption.
Defined.


(** A TurnOn or TurnOff without an endpoint.  When the directive has no
    [endpoint] object, each versioned revision throws a TypeError while it
    reads [endpoint.endpointId]: no request is issued and the context is
    told nothing.  The latest revision also throws when the endpoint id is
    not a string, since it calls [replace] on it. *)
Theorem power_without_endpoint_throws (h : Host) (event : JSValue) (context : Context)
    (name : string) :
  header_field event "namespace" = JStr Alexa_PowerController ->
  header_field event "name" = JStr name ->
  In name ["TurnOn"; "TurnOff"] ->
  (is_nullish (at_path event ["directive"; "endpoint"]) = true ->
   exists e,
     err_name e = "TypeError"
     /\ run h (Index.handler event context) = (Throw e, start)
     /\ run h (CodeV3.handler event context) = (Throw e, start)
     /\ run h (Latest.handler event context) = (Throw e, start))
  /\ (typeof_string (at_path event ["directive"; "endpoint"; "endpointId"]) = false ->
      exists e,
        err_name e = "TypeError"
        /\ run h (Latest.handler event context) = (Throw e, start)).
Proof.
  intros Namespace Name Supported.
  pose proof (power_valid event name Namespace Name Supported) as Valid.
  rewrite (Index_handler_routes h event context _ Valid Namespace).
  rewrite (CodeV3_handler_routes h event context _ Valid Namespace).
  rewrite (Latest_handler_routes h event context _ Valid Namespace).
  unfold Index_route, CodeV3_route, Latest_route, run. simpl (_ =? _). cbv iota.
  unfold Index.handlePowerControlEvent, CodeV3.handlePowerControlEvent,
    Latest.handlePowerControlEvent, CodeV3.getDirectiveName, Latest.getDirectiveName,
    CodeV3.getEndpointId, Latest.getEndpointId.
  rewrite !(bind_ok _ _ h start _ _ (read_name h event Valid start)), Name.
  rewrite !(bind_ok _ _ h start _ _ (turn_on_off name h start Supported)).
  simpl (negb _). cbv iota.
  split.
  - intros NoEndpoint.
    assert (E : exists e, err_name e = "TypeError"
                  /\ prop_path event ["directive"; "endpoint"; "endpointId"] h start
                     = (Throw e, start)).
    { pose proof (valid_header_readable event "name" Valid) as R.
      simpl in R. apply andb_true_iff in R. destruct R as [N1 R].
      apply andb_true_iff in R. destruct R as [N2 _].
      apply negb_true_iff in N1, N2.
      simpl. rewrite (bind_ok _ _ h start _ _ (prop_field event "directive" h start N1)).
      rewrite (bind_ok _ _ h start _ _
                 (prop_field (field event "directive") "endpoint" h start N2)).
      unfold at_path in NoEndpoint. simpl in NoEndpoint.
      destruct (field (field event "directive") "endpoint"); try discriminate NoEndpoint;
        eexists; (split; [| reflexivity]); reflexivity. }
    destruct E as [e [T E]]. exists e. unfold bind. rewrite E. repeat split. exact T.
  - intros NotString.
    destruct (prop_path_cases ["directive"; "endpoint"; "endpointId"] event h start)
      as [E | [e [T E]]].
    + destruct (replace_not_a_string _ "#" "." h start NotString) as [e [T Er]].
      exists e. unfold bind. rewrite E, Er. split; [exact T | reflexivity].
    + exists e. unfold bind. rewrite E. split; [exact T | reflexivity].
Qed.

(** A TurnOn that has a header and nothing else. *)
Lemma power_without_endpoint_throws_witness :
  exists e,
    err_name e = "TypeError"
    /\ run (example_host (Response 200 (JObj []) "{}"))
          (Latest.handler (bare_directive Alexa_PowerController "TurnOn") LambdaContext)
       = (Throw e, start).
Proof.
  assert (Name : In "TurnOn" ["TurnOn"; "TurnOff"]) by (simpl; tauto).
  destruct (power_without_endpoint_throws (example_host (Response 200 (JObj []) "{}"))
              (bare_directive Alexa_PowerController "TurnOn") LambdaContext "TurnOn"
              eq_refl eq_refl Name) as [NoEndpoint _].
  destruct (NoEndpoint eq_refl) as [e [T [_ [_ Latest]]]].
  exists e. split; assumption.
Defined.


(* ================================================================== *)
(** ** [assign] *)

Lemma lookup_set_prop k v props k' :
  lookup k' (set_prop k v props) = if k =? k' then v else lookup k' props.
Proof.
  induction props as [| [k0 v0] rest IH]; simpl.
  - destruct (k =? k'); reflexivity.
  - destruct (String.eqb_spec k0 k) as [-> | NE]; simpl.
    + destruct (k =? k'); reflexivity.
    + rewrite IH. destruct (String.eqb_spec k0 k') as [-> | NE'].
      * destruct (String.eqb_spec k k') as [-> | _]; [contradiction | reflexivity].
      * reflexivity.
Qed.

Lemma has_key_set_prop k v props k' :
  has_key k' (set_prop k v props) = (k =? k') || has_key k' props.
Proof.
  induction props as [| [k0 v0] rest IH]; simpl.
  - rewrite orb_false_r. reflexivity.
  - destruct (String.eqb_spec k0 k) as [-> | NE]; simpl.
    + destruct (k =? k'); reflexivity.
    + rewrite IH. destruct (k0 =? k'), (k =? k'); reflexivity.
Qed.

Lemma keys_set_prop k v props :
  map fst (set_prop k v props)
  = (map fst props ++ (if has_key k props then [] else [k]))%list.
Proof.
  induction props as [| [k0 v0] rest IH]; simpl; [reflexivity |].
  destruct (String.eqb_spec k0 k) as [-> | NE]; simpl.
  - rewrite app_nil_r. reflexivity.
  - rewrite IH. reflexivity.
Qed.

Lemma has_key_in k (props : list (string * JSValue)) :
  has_key k props = true <-> In k (map fst props).
Proof.
  induction props as [| [k0 v0] rest IH]; simpl; [split; [discriminate | tauto] |].
  destruct (String.eqb_spec k0 k) as [-> | NE]; simpl; [tauto |].
  rewrite IH. split; [tauto | intros [E | I]; [contradiction | exact I]].
Qed.

Lemma lookup_absent k props : has_key k props = false -> lookup k props = JUndefined.
Proof.
  induction props as [| [k0 v0] rest IH]; simpl; [reflexivity |].
  destruct (k0 =? k); [discriminate | exact IH].
Qed.

Lemma lookup_present k props : has_key k props = true -> In (k, lookup k props) props.
Proof.
  induction props as [| [k0 v0] rest IH]; simpl; [discriminate |].
  destruct (String.eqb_spec k0 k) as [-> | NE]; simpl; [left; reflexivity |].
  intros H. right. apply IH, H.
Qed.

Lemma lookup_unique k v props :
  NoDup (map fst props) -> In (k, v) props -> lookup k props = v.
Proof.
  induction props as [| [k0 v0] rest IH]; simpl; [contradiction |].
  intros U I. inversion U as [| ? ? Fresh U']; subst.
  destruct I as [E | I].
  - injection E as -> ->. rewrite String.eqb_refl. reflexivity.
  - destruct (String.eqb_spec k0 k) as [-> | NE]; [| apply IH; assumption].
    exfalso. apply Fresh. apply (in_map fst) in I. exact I.
Qed.

(** Among properties of distinct keys, the order does not matter to a
    lookup. *)
Lemma has_key_permutation k (props props' : list (string * JSValue)) :
  Permutation props props' -> has_key k props = has_key k props'.
Proof.
  intros P. apply eq_true_iff_eq. rewrite !has_key_in.
  split; apply Permutation_in, Permutation_map; [exact P | apply Permutation_sym, P].
Qed.

Lemma lookup_permutation k props props' :
  Permutation props props' -> NoDup (map fst props) -> lookup k props' = lookup k props.
Proof.
  intros P U. destruct (has_key k props) eqn:H.
  - apply lookup_unique.
    + apply (Permutation_NoDup (Permutation_map fst P) U).
    + apply (Permutation_in _ P), lookup_present, H.
  - rewrite (lookup_absent _ _ H). apply lookup_absent.
    rewrite <- (has_key_permutation k _ _ P). exact H.
Qed.

Lemma seen_spec k seen : existsb (String.eqb k) seen = true <-> In k seen.
Proof.
  rewrite existsb_exists. split.
  - intros [x [I E]]. apply String.eqb_eq in E. subst x. exact I.
  - intros I. exists k. split; [exact I | apply String.eqb_refl].
Qed.

Lemma distinct_keys (props : list (string * JSValue)) : forall seen,
  NoDup (map fst (distinct seen props))
  /\ forall k, In k seen -> ~ In k (map fst (distinct seen props)).
Proof.
  induction props as [| [k0 v0] rest IH]; intros seen; simpl.
  - split; [constructor | tauto].
  - destruct (existsb (String.eqb k0) seen) eqn:S; [apply IH |].
    destruct (IH (k0 :: seen)) as [U Fresh]. split.
    + simpl. constructor; [apply Fresh; left; reflexivity | exact U].
    + intros k I [E | I'].
      * simpl in E. subst k0. apply seen_spec in I. rewrite I in S. discriminate.
      * apply (Fresh k); [right; exact I | exact I'].
Qed.

Lemma distinct_lookup k (props : list (string * JSValue)) : forall seen,
  ~ In k seen ->
  lookup k (distinct seen props) = lookup k props
  /\ has_key k (distinct seen props) = has_key k props.
Proof.
  induction props as [| [k0 v0] rest IH]; intros seen Fresh; simpl; [split; reflexivity |].
  destruct (existsb (String.eqb k0) seen) eqn:S.
  - apply seen_spec in S.
    destruct (String.eqb_spec k0 k) as [-> | NE]; [contradiction | apply IH, Fresh].
  - simpl. destruct (String.eqb_spec k0 k) as [-> | NE]; [split; reflexivity |].
    apply IH. intros [E | I]; [apply NE, E | apply Fresh, I].
Qed.

Lemma insert_index_permutation {V} n (kv : string * V) sorted :
  Permutation (map snd (insert_index n kv sorted)) (kv :: map snd sorted).
Proof.
  induction sorted as [| [m kv'] rest IH]; simpl; [reflexivity |].
  destruct (n <? m)%Z; simpl; [reflexivity |].
  rewrite IH. apply perm_swap.
Qed.

(** To enumerate is to reorder the first bindings. *)
Lemma own_properties_permutation (props : list (string * JSValue)) :
  Permutation (own_properties props) (distinct [] props).
Proof.
  unfold own_properties. generalize (distinct [] props). intros ps.
  induction ps as [| [k v] rest IH]; simpl; [reflexivity |].
  unfold named_property at 1. simpl.
  destruct (array_index k) as [n |].
  - rewrite insert_index_permutation. simpl. constructor. exact IH.
  - rewrite <- Permutation_middle. constructor. exact IH.
Qed.

Lemma own_properties_keys (props : list (string * JSValue)) :
  NoDup (map fst (own_properties props)).
Proof.
  apply (Permutation_NoDup
           (Permutation_map fst (Permutation_sym (own_properties_permutation props)))).
  apply distinct_keys.
Qed.

Lemma own_properties_lookup k (props : list (string * JSValue)) :
  lookup k (own_properties props) = lookup k props
  /\ has_key k (own_properties props) = has_key k props.
Proof.
  destruct (distinct_lookup k props [] (fun I => I)) as [L H].
  rewrite <- L, <- H. split.
  - apply lookup_permutation;
      [apply Permutation_sym, own_properties_permutation | apply distinct_keys].
  - apply has_key_permutation, own_properties_permutation.
Qed.

(** The loop, over entries of distinct keys. *)
Lemma fold_assign_prop entries : forall target k,
  NoDup (map fst entries) ->
  lookup k (fold_left assign_prop entries target)
    = (if copied k entries then lookup k entries else lookup k target)
  /\ has_key k (fold_left assign_prop entries target) = has_key k target || copied k entries
  /\ map fst (fold_left assign_prop entries target)
     = (map fst target
        ++ filter (fun k' => negb (has_key k' target) && negb (k' =? "__proto__"))
             (map fst entries))%list.
Proof.
  unfold copied.
  induction entries as [| [k1 v1] rest IH]; intros target k U; simpl.
  - rewrite orb_false_r, app_nil_r. repeat split.
  - inversion U as [| ? ? Fresh U']; subst.
    destruct (IH (assign_prop target (k1, v1)) k U') as [L [H K]].
    rewrite L, H, K. unfold assign_prop. simpl fst. simpl snd.
    assert (Rest : filter (fun k' => negb (has_key k'
                       (if k1 =? "__proto__" then target else set_prop k1 v1 target))
                     && negb (k' =? "__proto__")) (map fst rest)
                   = filter (fun k' => negb (has_key k' target) && negb (k' =? "__proto__"))
                       (map fst rest)).
    { apply filter_ext_in. intros k' I.
      destruct (k1 =? "__proto__"); [reflexivity |].
      rewrite has_key_set_prop.
      destruct (String.eqb_spec k1 k') as [-> | _]; [contradiction | reflexivity]. }
    rewrite Rest.
    destruct (k1 =? "__proto__") eqn:Proto.
    + apply String.eqb_eq in Proto. subst k1. repeat split.
      * destruct (String.eqb_spec "__proto__" k) as [<- | NE]; simpl; [| reflexivity].
        rewrite andb_false_r. reflexivity.
      * destruct (String.eqb_spec "__proto__" k) as [<- | NE]; simpl; [| reflexivity].
        rewrite andb_false_r, orb_false_r. reflexivity.
      * simpl. rewrite andb_false_r. reflexivity.
    + rewrite lookup_set_prop, has_key_set_prop, keys_set_prop.
      simpl negb. rewrite andb_true_r. repeat split.
      * destruct (String.eqb_spec k1 k) as [-> | NE]; simpl.
        -- rewrite Proto. simpl.
           destruct (has_key k rest) eqn:Hk; [| reflexivity].
           exfalso. apply Fresh, has_key_in, Hk.
        -- reflexivity.
      * destruct (String.eqb_spec k1 k) as [-> | NE]; simpl.
        -- rewrite Proto. simpl. destruct (has_key k target), (has_key k rest); reflexivity.
        -- reflexivity.
      * rewrite <- app_assoc. destruct (has_key k1 target); reflexivity.
Qed.

(** [assign(target, source)] for a source object without a property
    [hasOwnProperty] of its own (with one, the loop calls a value that is
    no function and throws).  The own property [k] of the result is the
    source's when the source has [k] and [k] is not [__proto__], and the
    target's otherwise; the result has the keys of the target, in their
    places, followed by the new keys of the source in the order in which
    the loop meets them: array indices ascending, then the other keys in
    the order of their creation. *)
Theorem assign_overrides (target source : list (string * JSValue)) (k : string) :
  has_key "hasOwnProperty" source = false ->
  exists result,
    assign target (JObj source) = Some result
    /\ lookup k result = (if copied k source then lookup k source else lookup k target)
    /\ has_key k result = has_key k target || copied k source
    /\ map fst result
       = (map fst target
          ++ filter (fun k' => negb (has_key k' target) && negb (k' =? "__proto__"))
               (map fst (own_properties source)))%list.
Proof.
  intros Plain. unfold assign. rewrite Plain. eexists. split; [reflexivity |].
  unfold Object_assign, own_enumerable.
  destruct (fold_assign_prop (own_properties source) target k (own_properties_keys source))
    as [L [H K]].
  destruct (own_properties_lookup k source) as [Ls Hs].
  unfold copied in *. rewrite Hs, Ls in L. rewrite Hs in H.
  split; [exact L | split; [exact H | exact K]].
Qed.

(** A channel with a number and a property named [7] over its metadata:
    the new keys follow the target's, the index first; an enumeration of
    the result then lists the index before [metadata]. *)
Lemma assign_overrides_witness :
  let target := [("metadata", JStr "m")] in
  let source := [("number", JNum 5); ("7", JStr "x")] in
  exists result,
    assign target (JObj source) = Some result
    /\ lookup "number" result = JNum 5
    /\ map fst result = ["metadata"; "7"; "number"]
    /\ map fst (own_properties result) = ["7"; "metadata"; "number"].
Proof.
  cbv zeta.
  destruct (assign_overrides [("metadata", JStr "m")] [("number", JNum 5); ("7", JStr "x")]
              "number" eq_refl) as [result [A [L [_ K]]]].
  exists result. split; [exact A |]. split; [exact L |]. split; [exact K |].
  injection A as <-. reflexivity.
Defined.


(* ================================================================== *)
(** ** Which ids survive discovery and a control directive *)

Lemma round_trip_exactly (id : string) :
  decode_id (encode_id id) = id <-> hash_before_dot id = false.
Proof.
  unfold decode_id, encode_id.
  induction id as [| c rest IH]; [split; reflexivity |].
  rewrite replace_char_cons. cbn [hash_before_dot].
  destruct (Ascii.eqb_spec "." c) as [<- | NotDot].
  - simpl. split; reflexivity.
  - rewrite replace_char_cons.
    destruct (Ascii.eqb_spec "#" c) as [<- | NotHash].
    + split; [| discriminate]. intros E. simpl in E. discriminate E.
    + rewrite <- IH. split.
      * intros E. injection E as E. exact E.
      * intros E. rewrite E. reflexivity.
Qed.

(** In the latest revision, a device whose id is a string is published
    under the id with its first ['.'] rewritten to ['#'], and a control
    directive that carries the published id is served with the original id
    exactly when no ['#'] occurs in the original before its first ['.'].
    (An id such as [a#b] is published as [a#b] and read back as [a.b].) *)
Theorem endpoint_id_round_trip_exactly (h : Host) (s : St)
    (props : list (string * JSValue)) (id : string) :
  lookup "id" props = JStr id ->
  exists endpoint,
    fst (Latest.toAlexaEndpoint (JObj props) h s) = Ok endpoint
    /\ field endpoint "endpointId" = JStr (encode_id id)
    /\ forall event h' s',
         at_path event ["directive"; "endpoint"; "endpointId"] = field endpoint "endpointId" ->
         (Latest.getEndpointId event h' s' = (Ok (JStr id), s')
          <-> hash_before_dot id = false).
Proof.
  intros Id.
  unfold Latest.toAlexaEndpoint, Latest.getEndpointCapabilities, bind, prop, ret.
  rewrite Id. simpl. eexists. split; [reflexivity |]. split; [reflexivity |].
  intros event h' s' Carried. simpl in Carried.
  rewrite (Latest_getEndpointId_spec event _ h' s' Carried).
  fold (decode_id (replace "." "#" id)). fold (encode_id id).
  rewrite <- round_trip_exactly. split.
  - intros E. injection E as E. exact E.
  - intros E. rewrite E. reflexivity.
Qed.

(** An id with a ['#'] and no dot is published as it is and read back with a
    dot. *)
Lemma endpoint_id_round_trip_exactly_witness :
  let h := example_host (Response 200 (JObj []) "{}") in
  exists endpoint,
    fst (Latest.toAlexaEndpoint (JObj [("id", JStr "a#b")]) h start) = Ok endpoint
    /\ field endpoint "endpointId" = JStr "a#b"
    /\ Latest.getEndpointId (directive Alexa_PowerController "TurnOn" "a#b") h start
       = (Ok (JStr "a.b"), start)
    /\ hash_before_dot "a#b" = true.
Proof.
  cbv zeta.
  destruct (endpoint_id_round_trip_exactly (example_host (Response 200 (JObj []) "{}")) start
              [("id", JStr "a#b")] "a#b" eq_refl) as [endpoint [Published [Id _]]].
  exists endpoint. split; [exact Published |]. split; [exact Id |].
  split; reflexivity.
Defined.


(* ================================================================== *)
(** ** The legacy revision *)

Lemma Legacy_isApplianceValid_spec appliance h s :
  exists r, Legacy.isApplianceValid appliance h s = (r, s)
    /\ match r with
       | Ok v => is_nullish appliance || level_unreadable appliance = false
                 /\ truthy v = appliance_valid appliance
       | Throw _ => is_nullish appliance || level_unreadable appliance = true
       | Stuck _ => False
       end.
Proof.
  destruct (is_nullish appliance) eqn:N.
  { destruct appliance; try discriminate N; eexists; split; reflexivity. }
  simpl orb.
  unfold Legacy.isApplianceValid, appliance_valid, level_unreadable, at_path. simpl fold_left.
  rewrite (bind_ok _ _ h s _ _ (prop_field appliance "id" h s N)).
  unfold and_then.
  destruct (truthy (field appliance "id")) eqn:T1; [| not_supported].
  rewrite (bind_ok _ _ h s _ _ (prop_field appliance "metrics" h s N)).
  destruct (truthy (field appliance "metrics")) eqn:T2; [| not_supported].
  assert (N2 : is_nullish (field appliance "metrics") = false)
    by (apply truthy_not_nullish, T2).
  rewrite (bind_ok _ _ h s _ _ (prop_field _ "title" h s N2)).
  destruct (truthy (field (field appliance "metrics") "title")) eqn:T3; [| not_supported].
  rewrite (bind_ok _ _ h s _ _ (prop_field _ "level" h s N2)).
  destruct (truthy (field (field appliance "metrics") "level")) eqn:T4; [| not_supported].
  unfold Legacy.test_on_off.
  destruct (ToString (field (field appliance "metrics") "level")) as [level |] eqn:L.
  - rewrite bind_assoc, (bind_ok _ _ h s _ _ (to_string_ok _ _ h s L)).
    eexists. split; [reflexivity | split; reflexivity].
  - rewrite bind_assoc. unfold bind. rewrite (to_string_throws _ h s L).
    eexists. split; [reflexivity | reflexivity].
Qed.

Lemma Legacy_toAppliance_spec appliance h s :
  appliance_valid appliance = true ->
  Legacy.toAppliance appliance h s = (Ok (appliance_of appliance), s).
Proof.
  unfold appliance_valid. intros V.
  repeat (apply andb_true_iff in V; destruct V as [V ?]).
  assert (N : is_nullish appliance = false)
    by (destruct appliance; try reflexivity; discriminate V).
  assert (R : readable appliance ["metrics"; "title"] = true).
  { simpl. rewrite N. rewrite truthy_not_nullish by assumption. reflexivity. }
  unfold Legacy.toAppliance.
  rewrite (bind_ok _ _ h s _ _ (prop_field appliance "id" h s N)).
  rewrite (bind_ok _ _ h s _ _ (prop_path_readable _ _ h s R)).
  reflexivity.
Qed.

Lemma filter_valid appliances :
  Forall (fun a => appliance_valid a = true) (filter appliance_valid appliances).
Proof. apply Forall_forall. intros a I. apply filter_In in I. apply I. Qed.

(** The first callback of the legacy discovery, on a response. *)
Lemma Legacy_read_body sc hd text h s :
  (responseText <- prop (response_object sc hd text) "responseText" ;;
   to_string responseText ;;
   Index.parse_responseText (response_object sc hd text)) h s
  = parse text h s.
Proof. reflexivity. Qed.

Lemma Legacy_appliances_of_spec sc hd text h s :
  exists r,
    Legacy_appliances_of (response_object sc hd text) h s = (r, s)
    /\ match r with
       | Ok appliances => appliances = Legacy_discovered h (Response sc hd text)
       | Throw _ => Legacy_discovered h (Response sc hd text) = JArr []
       | Stuck _ => False
       end.
Proof.
  unfold Legacy_appliances_of, Legacy_discovered.
  unfold bind at 1. rewrite Legacy_read_body. unfold parse.
  destruct (JSON_parse h text) as [body |]; [| eexists; split; [reflexivity | reflexivity]].
  destruct body as [| | b | n | str | appliances | props];
    try (eexists; split; [reflexivity | reflexivity]).
  unfold method_filter. rewrite bind_assoc.
  destruct (filterM_filter _ _ _ appliances h s
              (fun a s => Legacy_isApplianceValid_spec a h s))
    as [[kept | e | f] [E Post]]; unfold bind at 1; rewrite E.
  - destruct Post as [-> ->].
    rewrite (bind_ok _ _ h s _ _ (eq_refl : ret _ h s = (Ok _, s))). unfold method_map.
    rewrite (bind_ok _ _ h s _ _
               (mapM_map _ _ _ _ h s
                  (fun a s V => Legacy_toAppliance_spec a h s V)
                  (filter_valid appliances))).
    eexists. split; reflexivity.
  - rewrite Post. eexists. split; reflexivity.
  - contradiction.
Qed.

(** Discovery of the legacy revision, in full.  A request in the namespace
    [Alexa.ConnectedHome.Discovery] that carries a string access token asks
    for [/devices?access_token=<trimmed token>] and succeeds with a
    DiscoverAppliancesResponse whose payload is the appliance list itself.
    When Node refuses the path no request is issued and the list is empty.
    Otherwise one GET is issued, and the list is empty on a socket error,
    on a body that does not parse or is not an array, on an array that
    holds a [null], and on an array one of whose devices (with an id and a
    title) has a truthy level that does not convert to text; otherwise it
    has one appliance for each device with an id, a title and a level that
    reads ["on"] or ["off"], in the order of the body.  The status of the
    response is not looked at. *)
Theorem legacy_discovery_in_full (h : Host) (event : JSValue) (context : Context)
    (token : string) :
  at_path event ["header"; "namespace"] = JStr "Alexa.ConnectedHome.Discovery" ->
  at_path event ["payload"; "accessToken"] = JStr token ->
  let path := "/devices?access_token=" ++ trim token in
  let req := Index_request h "GET" path None in
  let replied requests appliances :=
    (Ok tt, mkSt 1 requests
       [Succeeded (legacy_envelope (clock h 0) "DiscoverAppliancesResponse"
                     "Alexa.ConnectedHome.Discovery" appliances)]) in
  run h (Legacy.handler event context)
  = if unescaped path then replied [] (JArr [])
    else replied [req] (Legacy_discovered h (backend h req)).
Proof.
  intros Namespace Token. cbv zeta.
  assert (RN : readable event ["header"; "namespace"] = true)
    by (apply at_path_defined_readable; rewrite Namespace; discriminate).
  assert (RT : readable event ["payload"; "accessToken"] = true)
    by (apply at_path_defined_readable; rewrite Token; discriminate).
  unfold run, Legacy.handler.
  rewrite (bind_ok _ _ h start _ _ (prop_path_readable _ _ h start RN)), Namespace.
  simpl (strict_eq_str _ _). cbv iota. unfold Legacy.handleDiscovery, Legacy.getOptions.
  rewrite (bind_ok _ _ h start _ _ (prop_path_readable _ _ h start RT)), Token.
  simpl (method_trim _). unfold bind at 1. unfold ret at 1. cbv iota beta.
  rewrite (bind_ok _ _ h start _ _ (to_string_ok (JStr _) _ h start eq_refl)).
  rewrite (bind_ok _ _ h start _ _ (Index_getOptions_spec h None start)).
  unfold detach, catch_, then_.
  rewrite !bind_assoc. unfold bind at 1.
  destruct (unescaped ("/devices?access_token=" ++ trim token)) eqn:U;
    [rewrite (Legacy_get_refused h _ start U); reflexivity |].
  rewrite (Legacy_get_spec h _ start U).
  destruct (backend h _) as [e | sc hd text]; [reflexivity |].
  rewrite <- bind_assoc.
  destruct (Legacy_appliances_of_spec sc hd text h
              (issued start (Index_request h "GET"
                 ("/devices?access_token=" ++ trim token) None)))
    as [r [E Post]].
  unfold Legacy_appliances_of in E. unfold bind at 1. rewrite E.
  destruct r as [appliances | e | f].
  - rewrite Post. unfold Legacy_discovered.
    destruct (JSON_parse h text) as [[| | | | | xs |] |]; try reflexivity.
    destruct (existsb _ xs); reflexivity.
  - rewrite Post. reflexivity.
  - contradiction.
Qed.

(** A lamp and a dimmer whose level is a number: the lamp is published.  The
    same two beside a [null]: nothing is. *)
Lemma legacy_discovery_in_full_witness :
  let discover := legacy_request "Alexa.ConnectedHome.Discovery" "DiscoverAppliancesRequest" in
  replies (snd (run (example_host
                       (Response 200 (JObj []) (body_of [legacy_lamp; legacy_dimmer])))
                  (Legacy.handler discover LambdaContext)))
    = [Succeeded (legacy_envelope 1000 "DiscoverAppliancesResponse"
                    "Alexa.ConnectedHome.Discovery" (JArr [appliance_of legacy_lamp]))]
  /\ replies (snd (run (example_host
                          (Response 200 (JObj []) (body_of [legacy_lamp; JNull; legacy_dimmer])))
                     (Legacy.handler discover LambdaContext)))
    = [Succeeded (legacy_envelope 1000 "DiscoverAppliancesResponse"
                    "Alexa.ConnectedHome.Discovery" (JArr []))].
Proof.
  cbv zeta. split.
  - rewrite (legacy_discovery_in_full
               (example_host (Response 200 (JObj []) (body_of [legacy_lamp; legacy_dimmer])))
               (legacy_request "Alexa.ConnectedHome.Discovery" "DiscoverAppliancesRequest")
               LambdaContext " tok " eq_refl eq_refl).
    reflexivity.
  - rewrite (legacy_discovery_in_full
               (example_host
                  (Response 200 (JObj []) (body_of [legacy_lamp; JNull; legacy_dimmer])))
               (legacy_request "Alexa.ConnectedHome.Discovery" "DiscoverAppliancesRequest")
               LambdaContext " tok " eq_refl eq_refl).
    reflexivity.
Defined.


(** What the legacy revision does with a TurnOnRequest or a TurnOffRequest,
    by the transport's answer. *)
Lemma Legacy_control_outcome (h : Host) (event : JSValue) (context : Context)
    (name applianceId token : string) :
  at_path event ["header"; "namespace"] = JStr "Alexa.ConnectedHome.Control" ->
  at_path event ["header"; "name"] = JStr name ->
  In name ["TurnOnRequest"; "TurnOffRequest"] ->
  readable event ["payload"; "appliance"; "applianceId"] = true ->
  ToString (at_path event ["payload"; "appliance"; "applianceId"]) = Some applianceId ->
  at_path event ["payload"; "accessToken"] = JStr token ->
  let path := "/devices/" ++ applianceId ++ "?access_token=" ++ trim token in
  let body := stringify_object [("level", JStr (requested_level name))] in
  let req := Index_request h "PUT" path (Some body) in
  let unavailable :=
    Failed (legacy_envelope (clock h 0) "DependentServiceUnavailableError"
              "Alexa.ContextHome.Control"
              (JObj [("dependentServiceName", JStr "z-way-relay")])) in
  unescaped path = false ->
  run h (Legacy.handler event context)
  = (Ok tt, mkSt 1 [req]
       [match backend h req with
        | SocketError _ => unavailable
        | Response statusCode _ _ =>
            if (statusCode =? 200)%Z
            then Succeeded (legacy_envelope (clock h 0) (confirmation_name name)
                              "Alexa.ConnectedHome.Control" (JObj []))
            else unavailable
        end]).
Proof.
  intros Namespace Name Supported Appliance Id Token. cbv zeta. intros U.
  assert (RN : readable event ["header"; "namespace"] = true)
    by (apply at_path_defined_readable; rewrite Namespace; discriminate).
  assert (RM : readable event ["header"; "name"] = true)
    by (apply at_path_defined_readable; rewrite Name; discriminate).
  assert (RT : readable event ["payload"; "accessToken"] = true)
    by (apply at_path_defined_readable; rewrite Token; discriminate).
  assert (Matched : (name =? "TurnOnRequest") || (name =? "TurnOffRequest") = true)
    by (simpl in Supported; destruct Supported as [<- | [<- | []]]; reflexivity).
  unfold run, Legacy.handler.
  rewrite (bind_ok _ _ h start _ _ (prop_path_readable _ _ h start RN)), Namespace.
  simpl (strict_eq_str _ _). cbv iota. unfold Legacy.handleControl, Legacy.getOptions.
  rewrite (bind_ok _ _ h start _ _ (prop_path_readable _ _ h start RM)), Name.
  simpl (Legacy.match_TurnOnOffRequest _). unfold bind at 1. unfold ret at 1.
  cbv iota beta. rewrite Matched. simpl (negb _). cbv iota.
  rewrite (bind_ok _ _ h start _ _ (prop_path_readable _ _ h start Appliance)).
  rewrite (bind_ok _ _ h start _ _ (prop_path_readable _ _ h start RT)), Token.
  simpl (method_trim _). unfold bind at 1. unfold ret at 1. cbv iota beta.
  change (stringify_object
            [("level", JStr (if strict_eq_str (JStr name) "TurnOnRequest" then "on" else "off"))])
    with (stringify_object [("level", JStr (requested_level name))]).
  rewrite (bind_ok _ _ h start _ _ (to_string_ok _ _ h start Id)).
  rewrite (bind_ok _ _ h start _ _ (to_string_ok (JStr _) _ h start eq_refl)).
  rewrite (bind_ok _ _ h start _ _ (Index_getOptions_spec h _ start)).
  unfold detach, catch_, then_. unfold bind at 1. rewrite (Legacy_put_spec h _ _ start U).
  destruct (backend h _) as [e | sc hd text]; [reflexivity |].
  destruct (status_200_cases sc) as [[-> _] | [F NE]].
  - reflexivity.
  - rewrite F. unfold Index.status_is_200, bind. simpl.
    destruct sc as [| p | p]; try reflexivity.
    do 8 (destruct p as [p | p |]; try reflexivity). discriminate NE.
Qed.

(** Control in the legacy revision, in full.  A TurnOnRequest or
    TurnOffRequest with an appliance whose id converts to text, a string
    access token and a path Node accepts issues one PUT to
    [/devices/<applianceId>?access_token=<trimmed token>] with the body
    [{"level":"on"}] or [{"level":"off"}].  On a 200 it succeeds with a
    TurnOnConfirmation or a TurnOffConfirmation, whatever the body of the
    response; on a socket error and on every other status it fails with a
    DependentServiceUnavailableError that names [z-way-relay], in the
    namespace the code spells [Alexa.ContextHome.Control]. *)
Theorem legacy_control_in_full (h : Host) (event : JSValue) (context : Context)
    (name applianceId token : string) :
  at_path event ["header"; "namespace"] = JStr "Alexa.ConnectedHome.Control" ->
  at_path event ["header"; "name"] = JStr name ->
  In name ["TurnOnRequest"; "TurnOffRequest"] ->
  readable event ["payload"; "appliance"; "applianceId"] = true ->
  ToString (at_path event ["payload"; "appliance"; "applianceId"]) = Some applianceId ->
  at_path event ["payload"; "accessToken"] = JStr token ->
  let path := "/devices/" ++ applianceId ++ "?access_token=" ++ trim token in
  let body := stringify_object [("level", JStr (requested_level name))] in
  let req := Index_request h "PUT" path (Some body) in
  let unavailable :=
    Failed (legacy_envelope (clock h 0) "DependentServiceUnavailableError"
              "Alexa.ContextHome.Control"
              (JObj [("dependentServiceName", JStr "z-way-relay")])) in
  unescaped path = false ->
  run h (Legacy.handler event context)
  = (Ok tt, mkSt 1 [req]
       [match backend h req with
        | SocketError _ => unavailable
        | Response statusCode _ _ =>
            if (statusCode =? 200)%Z
            then Succeeded (legacy_envelope (clock h 0) (confirmation_name name)
                              "Alexa.ConnectedHome.Control" (JObj []))
            else unavailable
        end]).
Proof. exact (Legacy_control_outcome h event context name applianceId token). Qed.

(** A TurnOnRequest answered with 200 and a body that is not JSON: the
    token is trimmed, and the request is confirmed. *)
Lemma legacy_control_in_full_witness :
  let h := example_host (Response 200 (JObj []) "<html>") in
  run h (Legacy.handler (legacy_request "Alexa.ConnectedHome.Control" "TurnOnRequest")
           LambdaContext)
  = (Ok tt, mkSt 1
       [Index_request h "PUT" "/devices/lamp-1?access_token=tok"
          (Some (stringify_object [("level", JStr "on")]))]
       [Succeeded (legacy_envelope 1000 "TurnOnConfirmation" "Alexa.ConnectedHome.Control"
                     (JObj []))]).
Proof.
  cbv zeta.
  assert (Name : In "TurnOnRequest" ["TurnOnRequest"; "TurnOffRequest"]) by (simpl; tauto).
  rewrite (legacy_control_in_full (example_host (Response 200 (JObj []) "<html>"))
             (legacy_request "Alexa.ConnectedHome.Control" "TurnOnRequest") LambdaContext
             "TurnOnRequest" "lamp-1" " tok " eq_refl eq_refl Name eq_refl eq_refl eq_refl
             eq_refl).
  reflexivity.
Defined.


Lemma prop_path_unreadable ks : forall v h s,
  readable v ks = false ->
  exists e, err_name e = "TypeError" /\ prop_path v ks h s = (Throw e, s).
Proof.
  induction ks as [| k ks IH]; intros v h s U; [discriminate U |].
  simpl in U |- *. destruct (is_nullish v) eqn:N.
  - destruct v; try discriminate N; eexists; (split; [| reflexivity]); reflexivity.
  - rewrite (bind_ok _ _ h s _ _ (prop_field v k h s N)). apply IH. exact U.
Qed.

(** What the legacy revision does with a request it does not serve.  It
    does not validate the envelope: a request without a header ends in a
    TypeError, with nothing told to the context, and so does a Control
    request whose name is not a string.  A request whose namespace is
    neither Discovery nor Control fails with an UnsupportedOperationError
    once the namespace is logged, and ends in a TypeError, with nothing
    told to the context, when the namespace does not convert to text.  A
    Control request whose name is neither TurnOnRequest nor TurnOffRequest
    fails with an UnsupportedOperationError.  No request is issued in any
    of these cases. *)
Theorem legacy_unsupported_requests (h : Host) (event : JSValue) (context : Context) :
  let unsupported :=
    (Ok tt, mkSt 1 []
       [Failed (legacy_envelope (clock h 0) "UnsupportedOperationError"
                  "Alexa.ConnectedHome.Control" (JObj []))]) in
  (readable event ["header"; "namespace"] = false ->
   exists e, err_name e = "TypeError"
             /\ run h (Legacy.handler event context) = (Throw e, start))
  /\ (readable event ["header"; "namespace"] = true ->
      strict_eq_str (at_path event ["header"; "namespace"]) "Alexa.ConnectedHome.Discovery"
        = false ->
      strict_eq_str (at_path event ["header"; "namespace"]) "Alexa.ConnectedHome.Control"
        = false ->
      match ToString (at_path event ["header"; "namespace"]) with
      | Some _ => run h (Legacy.handler event context) = unsupported
      | None =>
          exists e, err_name e = "TypeError"
                    /\ run h (Legacy.handler event context) = (Throw e, start)
      end)
  /\ (at_path event ["header"; "namespace"] = JStr "Alexa.ConnectedHome.Control" ->
      (forall name,
         at_path event ["header"; "name"] = JStr name ->
         ~ In name ["TurnOnRequest"; "TurnOffRequest"] ->
         run h (Legacy.handler event context) = unsupported)
      /\ (typeof_string (at_path event ["header"; "name"]) = false ->
          exists e, err_name e = "TypeError"
                    /\ run h (Legacy.handler event context) = (Throw e, start))).
Proof.
  cbv zeta. unfold run, Legacy.handler. split; [| split].
  - intros U. destruct (prop_path_unreadable _ event h start U) as [e [T E]].
    exists e. unfold bind. rewrite E. split; [exact T | reflexivity].
  - intros R ND NC.
    rewrite (bind_ok _ _ h start _ _ (prop_path_readable _ _ h start R)), ND, NC.
    rewrite (bind_ok _ _ h start _ _ (prop_path_readable _ _ h start R)).
    destruct (ToString (at_path event ["header"; "namespace"])) as [text |] eqn:T.
    + rewrite (bind_ok _ _ h start _ _ (to_string_ok _ _ h start T)). reflexivity.
    + unfold bind at 1. rewrite (to_string_throws _ h start T).
      eexists. split; [| reflexivity]. reflexivity.
  - intros Namespace.
    assert (RN : readable event ["header"; "namespace"] = true)
      by (apply at_path_defined_readable; rewrite Namespace; discriminate).
    assert (RM : readable event ["header"; "name"] = true)
      by (simpl in RN |- *; exact RN).
    rewrite (bind_ok _ _ h start _ _ (prop_path_readable _ _ h start RN)), Namespace.
    simpl (strict_eq_str _ _). cbv iota. unfold Legacy.handleControl.
    rewrite (bind_ok _ _ h start _ _ (prop_path_readable _ _ h start RM)).
    split.
    + intros name Name Unsupported. rewrite Name.
      simpl (Legacy.match_TurnOnOffRequest _). unfold bind at 1. unfold ret at 1.
      cbv iota beta.
      destruct (String.eqb_spec name "TurnOnRequest") as [-> | _];
        [exfalso; apply Unsupported; simpl; tauto |].
      destruct (String.eqb_spec name "TurnOffRequest") as [-> | _];
        [exfalso; apply Unsupported; simpl; tauto |].
      reflexivity.
    + intros NotString.
      destruct (at_path event ["header"; "name"]); try discriminate NotString;
        eexists; (split; [| reflexivity]); reflexivity.
Qed.

(** The empty object has no header; a SetPercentageRequest is not served;
    a namespace that is an object with a property [toString] cannot be
    logged. *)
Lemma legacy_unsupported_requests_witness :
  let h := example_host (Response 200 (JObj []) "{}") in
  (exists e, err_name e = "TypeError"
             /\ run h (Legacy.handler (JObj []) LambdaContext) = (Throw e, start))
  /\ run h (Legacy.handler
              (legacy_request "Alexa.ConnectedHome.Control" "SetPercentageRequest")
              LambdaContext)
     = (Ok tt, mkSt 1 []
          [Failed (legacy_envelope 1000 "UnsupportedOperationError"
                     "Alexa.ConnectedHome.Control" (JObj []))])
  /\ (exists e, err_name e = "TypeError"
                /\ run h (Legacy.handler
                            (JObj [("header",
                                    JObj [("namespace", JObj [("toString", JNum 1)])])])
                            LambdaContext) = (Throw e, start)).
Proof.
  cbv zeta. split; [| split].
  - destruct (legacy_unsupported_requests (example_host (Response 200 (JObj []) "{}"))
                (JObj []) LambdaContext) as [NoHeader _].
    apply (NoHeader eq_refl).
  - destruct (legacy_unsupported_requests (example_host (Response 200 (JObj []) "{}"))
                (legacy_request "Alexa.ConnectedHome.Control" "SetPercentageRequest")
                LambdaContext) as [_ [_ Control]].
    destruct (Control eq_refl) as [Named _].
    apply (Named "SetPercentageRequest" eq_refl).
    simpl. intros [E | [E | []]]; discriminate E.
  - destruct (legacy_unsupported_requests (example_host (Response 200 (JObj []) "{}"))
                (JObj [("header", JObj [("namespace", JObj [("toString", JNum 1)])])])
                LambdaContext) as [_ [Other _]].
    apply (Other eq_refl eq_refl eq_refl).
Defined.


(* ================================================================== *)
(** ** The callback revision *)

Lemma Callback_isDeviceValid_spec device h s :
  is_nullish device = false ->
  exists v, Callback.isDeviceValid device h s = (Ok v, s)
            /\ truthy v = device_valid device.
Proof.
  intros N. unfold Callback.isDeviceValid, device_valid, at_path. simpl fold_left.
  rewrite (bind_ok _ _ h s _ _ (prop_field device "id" h s N)).
  unfold and_then.
  destruct (truthy (field device "id")) eqn:T1;
    [| eexists; split; [reflexivity | simpl; assumption]].
  rewrite (bind_ok _ _ h s _ _ (prop_field device "metrics" h s N)).
  destruct (truthy (field device "metrics")) eqn:T2;
    [| eexists; split; [reflexivity | simpl; assumption]].
  assert (N2 : is_nullish (field device "metrics") = false)
    by (apply truthy_not_nullish, T2).
  rewrite (bind_ok _ _ h s _ _ (prop_field _ "title" h s N2)).
  destruct (truthy (field (field device "metrics") "title")) eqn:T3;
    [| eexists; split; [reflexivity | simpl; assumption]].
  rewrite (bind_ok _ _ h s _ _ (prop_field _ "level" h s N2)).
  destruct (truthy (field (field device "metrics") "level")) eqn:T4;
    [| eexists; split; [reflexivity | simpl; assumption]].
  eexists. split; reflexivity.
Qed.

Lemma Callback_toAppliance_spec device h s :
  device_valid device = true ->
  Callback.toAppliance device h s = (Ok (appliance_of device), s).
Proof.
  unfold device_valid. intros V.
  repeat (apply andb_true_iff in V; destruct V as [V ?]).
  assert (N : is_nullish device = false)
    by (destruct device; try reflexivity; discriminate V).
  assert (R : readable device ["metrics"; "title"] = true).
  { simpl. rewrite N. rewrite truthy_not_nullish by assumption. reflexivity. }
  unfold Callback.toAppliance.
  rewrite (bind_ok _ _ h s _ _ (prop_field device "id" h s N)).
  rewrite (bind_ok _ _ h s _ _ (prop_path_readable _ _ h s R)).
  reflexivity.
Qed.

(** The [forEach]: every valid device of the body is pushed, in order,
    unless the body holds a [null], on which the callback throws. *)
Lemma Callback_collect_spec devices : forall discovered h s,
  exists r,
    Callback.collect devices discovered h s = (r, s)
    /\ if existsb is_nullish devices
       then exists e, r = Throw e
       else r = Ok (discovered ++ map appliance_of (filter device_valid devices))%list.
Proof.
  induction devices as [| d rest IH]; intros discovered h s.
  - eexists. split; [reflexivity |]. simpl. rewrite app_nil_r. reflexivity.
  - simpl. destruct (is_nullish d) eqn:N.
    + assert (E : exists e, Callback.isDeviceValid d h s = (Throw e, s))
        by (destruct d; try discriminate N; eexists; reflexivity).
      destruct E as [e E]. unfold bind at 1. rewrite E.
      eexists. split; [reflexivity | simpl; eauto].
    + destruct (Callback_isDeviceValid_spec d h s N) as [v [E T]].
      rewrite (bind_ok _ _ h s _ _ E), T. simpl.
      destruct (device_valid d) eqn:V.
      * rewrite (bind_ok _ _ h s _ _ (Callback_toAppliance_spec d h s V)).
        destruct (IH (discovered ++ [appliance_of d])%list h s) as [r [Er Post]].
        exists r. split; [exact Er |].
        destruct (existsb is_nullish rest); [exact Post |].
        rewrite Post, <- app_assoc. reflexivity.
      * apply IH.
Qed.

(** A listener runs its steps one after the other; what one of them throws
    is caught by nobody. *)
Lemma listener_bind {A B} (m : M A) (k : A -> M B) h s r s1 :
  m h s = (r, s1) ->
  listener (bind m k) h s
  = match r with
    | Ok a => listener (k a) h s1
    | Throw e => (Stuck (UncaughtException e), s1)
    | Stuck f => (Stuck f, s1)
    end.
Proof. intros E. unfold listener, bind. rewrite E. destruct r; reflexivity. Qed.

Lemma listener_bind_parse {B} text (k : JSValue -> M B) h s :
  listener (bind (parse text) k) h s
  = match JSON_parse h text with
    | Some v => listener (k v) h s
    | None => (Stuck (UncaughtException (SyntaxError "Unexpected token in JSON")), s)
    end.
Proof. unfold listener, bind, parse. destruct (JSON_parse h text); reflexivity. Qed.

(** Discovery of the callback revision, in full.  A Discovery request that
    can be logged (the event converts to text) and carries a string access
    token, on a host whose name and port convert to text, issues one GET,
    to the URL [http://<host>:<port>/devices?access_token=<trimmed token>].
    On a socket error it succeeds with an empty appliance list.  On a
    response (of any status) whose body parses to an array without a
    [null], it succeeds with one appliance for each device that has an id,
    a title and the level ["on"] or ["off"], in the order of the body.  On
    any other body the ['end'] listener throws: the invocation is left with
    an uncaught exception and no reply. *)
Theorem callback_discovery_in_full (h : Host) (event : JSValue) (context : Context)
    (logged host port token : string) :
  ToString event = Some logged ->
  at_path event ["header"; "namespace"] = JStr "Alexa.ConnectedHome.Discovery" ->
  at_path event ["payload"; "accessToken"] = JStr token ->
  ToString (remoteHost h) = Some host ->
  ToString (remotePort h) = Some port ->
  let req := Callback_get host port (trim token) in
  match Callback_discovered h (backend h req) with
  | Some appliances =>
      run h (Callback.handler event context)
      = (Ok tt, mkSt 1 [req]
           [Succeeded (callback_discovery_response (clock h 0) appliances)])
  | None =>
      exists e,
        run h (Callback.handler event context)
        = (Stuck (UncaughtException e), mkSt 0 [req] [])
  end.
Proof.
  intros Logged Namespace Token HostText PortText. cbv zeta.
  assert (RN : readable event ["header"; "namespace"] = true)
    by (apply at_path_defined_readable; rewrite Namespace; discriminate).
  assert (RT : readable event ["payload"; "accessToken"] = true)
    by (apply at_path_defined_readable; rewrite Token; discriminate).
  unfold run, Callback.handler.
  rewrite (bind_ok _ _ h start _ _ (to_string_ok _ _ h start Logged)).
  rewrite (bind_ok _ _ h start _ _ (prop_path_readable _ _ h start RN)), Namespace.
  simpl (strict_eq_str _ _). cbv iota. unfold Callback.handleDiscovery.
  rewrite (bind_ok _ _ h start _ _ (prop_path_readable _ _ h start RT)), Token.
  rewrite (bind_ok _ _ h start _ _
             (eq_refl : method_trim (JStr token) h start = (Ok (JStr (trim token)), start))).
  rewrite (bind_ok _ _ h start _ _
             (eq_refl : env_remoteHost h start = (Ok (remoteHost h), start))).
  rewrite (bind_ok _ _ h start _ _ (to_string_ok _ _ h start HostText)).
  rewrite (bind_ok _ _ h start _ _
             (eq_refl : env_remotePort h start = (Ok (remotePort h), start))).
  rewrite (bind_ok _ _ h start _ _ (to_string_ok _ _ h start PortText)).
  rewrite (bind_ok _ _ h start _ _ (to_string_ok (JStr _) _ h start eq_refl)).
  rewrite (bind_ok _ _ h start _ _
             (eq_refl : request (options (Callback_get host port (trim token))) None h start
                        = (Ok (backend h (Callback_get host port (trim token))),
                           issued start (Callback_get host port (trim token))))).
  unfold Callback_discovered.
  destruct (backend h _) as [e | sc hd text]; [reflexivity |].
  rewrite listener_bind_parse.
  destruct (JSON_parse h text) as [body |]; [| eexists; reflexivity].
  destruct body as [| | b | n | str | devices | props]; try (eexists; reflexivity).
  unfold Callback.method_forEach.
  destruct (Callback_collect_spec devices [] h
              (issued start (Callback_get host port (trim token))))
    as [r [E Post]].
  rewrite (listener_bind _ _ _ _ _ _ E).
  destruct (existsb is_nullish devices).
  - destruct Post as [e ->]. eexists. reflexivity.
  - subst r. reflexivity.
Qed.

(** A lamp beside a dimmer whose level is a number, behind a status of
    404: the lamp is published.  A body that is an object and not an array:
    no reply. *)
Lemma callback_discovery_in_full_witness :
  let discover := legacy_request "Alexa.ConnectedHome.Discovery" "DiscoverAppliancesRequest" in
  run (example_host (Response 404 (JObj []) (body_of [legacy_lamp; legacy_dimmer])))
      (Callback.handler discover LambdaContext)
    = (Ok tt, mkSt 1 [mkRequest (JStr "http://backend.local:8083/devices?access_token=tok")
                        None]
         [Succeeded (callback_discovery_response 1000 (JArr [appliance_of legacy_lamp]))])
  /\ exists e,
       run (example_host (Response 200 (JObj []) "{}"))
           (Callback.handler discover LambdaContext)
       = (Stuck (UncaughtException e),
          mkSt 0 [mkRequest (JStr "http://backend.local:8083/devices?access_token=tok") None]
            []).
Proof.
  cbv zeta. split.
  - apply (callback_discovery_in_full
             (example_host (Response 404 (JObj []) (body_of [legacy_lamp; legacy_dimmer])))
             (legacy_request "Alexa.ConnectedHome.Discovery" "DiscoverAppliancesRequest")
             LambdaContext "[object Object]" "backend.local" "8083" " tok "
             eq_refl eq_refl eq_refl eq_refl eq_refl).
  - apply (callback_discovery_in_full (example_host (Response 200 (JObj []) "{}"))
             (legacy_request "Alexa.ConnectedHome.Discovery" "DiscoverAppliancesRequest")
             LambdaContext "[object Object]" "backend.local" "8083" " tok "
             eq_refl eq_refl eq_refl eq_refl eq_refl).
Defined.

(** What the callback revision does with a TurnOnRequest or a
    TurnOffRequest, by the transport's answer. *)
Lemma Callback_control_outcome (h : Host) (event : JSValue) (context : Context)
    (logged name applianceId token : string) :
  ToString event = Some logged ->
  at_path event ["header"; "namespace"] = JStr "Alexa.ConnectedHome.Control" ->
  at_path event ["header"; "name"] = JStr name ->
  In name ["TurnOnRequest"; "TurnOffRequest"] ->
  readable event ["payload"; "appliance"; "applianceId"] = true ->
  ToString (at_path event ["payload"; "appliance"; "applianceId"]) = Some applianceId ->
  at_path event ["payload"; "accessToken"] = JStr token ->
  let path := "/devices/" ++ applianceId ++ "?access_token=" ++ trim token in
  let body := stringify_object [("level", JStr (requested_level name))] in
  let req := Callback_put h path body in
  unescaped path = false ->
  run h (Callback.handler event context)
  = (Ok tt, mkSt 1 [req]
       [match backend h req with
        | SocketError _ =>
            Failed (callback_envelope (clock h 0) "Alexa.ConnectedHome.Control"
                      "DependentServiceUnavailableError")
        | Response _ _ _ =>
            Succeeded (callback_envelope (clock h 0) "Alexa.ConnectedHome.Control"
                         (confirmation_name name))
        end]).
Proof.
  intros Logged Namespace Name Supported Appliance Id Token. cbv zeta. intros U.
  assert (RN : readable event ["header"; "namespace"] = true)
    by (apply at_path_defined_readable; rewrite Namespace; discriminate).
  assert (RM : readable event ["header"; "name"] = true)
    by (apply at_path_defined_readable; rewrite Name; discriminate).
  assert (RT : readable event ["payload"; "accessToken"] = true)
    by (apply at_path_defined_readable; rewrite Token; discriminate).
  assert (Matched : (name =? "TurnOnRequest") || (name =? "TurnOffRequest") = true)
    by (simpl in Supported; destruct Supported as [<- | [<- | []]]; reflexivity).
  unfold run, Callback.handler.
  rewrite (bind_ok _ _ h start _ _ (to_string_ok _ _ h start Logged)).
  rewrite (bind_ok _ _ h start _ _ (prop_path_readable _ _ h start RN)), Namespace.
  simpl (strict_eq_str _ _). cbv iota. unfold Callback.handleControl.
  rewrite (bind_ok _ _ h start _ _ (prop_path_readable _ _ h start RM)), Name.
  rewrite (bind_ok _ _ h start _ _
             (eq_refl : Legacy.match_TurnOnOffRequest (JStr name) h start
                        = (Ok ((name =? "TurnOnRequest") || (name =? "TurnOffRequest")), start))).
  rewrite Matched. simpl (negb _). cbv iota.
  rewrite (bind_ok _ _ h start _ _ (prop_path_readable _ _ h start Appliance)).
  rewrite (bind_ok _ _ h start _ _ (prop_path_readable _ _ h start RT)), Token.
  rewrite (bind_ok _ _ h start _ _
             (eq_refl : method_trim (JStr token) h start = (Ok (JStr (trim token)), start))).
  rewrite (bind_ok _ _ h start _ _ (to_string_ok _ _ h start Id)).
  rewrite (bind_ok _ _ h start _ _ (to_string_ok (JStr _) _ h start eq_refl)).
  rewrite (bind_ok _ _ h start _ _
             (eq_refl : env_remoteHost h start = (Ok (remoteHost h), start))).
  rewrite (bind_ok _ _ h start _ _
             (eq_refl : env_remotePort h start = (Ok (remotePort h), start))).
  set (req := Callback_put h
                ("/devices/" ++ applianceId ++ "?access_token=" ++ trim token)
                (stringify_object [("level", JStr (requested_level name))])).
  assert (Accepted : refused (options req) = false) by exact U.
  rewrite (bind_ok _ _ h start _ _ (request_issued (options req) (written req) h start Accepted)).
  destruct (backend h _) as [e | sc hd text]; reflexivity.
Qed.

(** Control in the callback revision, in full.  A TurnOnRequest or
    TurnOffRequest that can be logged, with an appliance whose id converts
    to text, a string access token and a path Node accepts issues one PUT
    to [/devices/<applianceId>?access_token=<trimmed token>] with the body
    [{"level":"on"}] or [{"level":"off"}].  Every response is confirmed
    with a TurnOnConfirmation or a TurnOffConfirmation: neither the status
    nor the body is looked at.  Only a socket error fails, with a
    DependentServiceUnavailableError. *)
Theorem callback_control_in_full (h : Host) (event : JSValue) (context : Context)
    (logged name applianceId token : string) :
  ToString event = Some logged ->
  at_path event ["header"; "namespace"] = JStr "Alexa.ConnectedHome.Control" ->
  at_path event ["header"; "name"] = JStr name ->
  In name ["TurnOnRequest"; "TurnOffRequest"] ->
  readable event ["payload"; "appliance"; "applianceId"] = true ->
  ToString (at_path event ["payload"; "appliance"; "applianceId"]) = Some applianceId ->
  at_path event ["payload"; "accessToken"] = JStr token ->
  let path := "/devices/" ++ applianceId ++ "?access_token=" ++ trim token in
  let body := stringify_object [("level", JStr (requested_level name))] in
  let req := Callback_put h path body in
  unescaped path = false ->
  run h (Callback.handler event context)
  = (Ok tt, mkSt 1 [req]
       [match backend h req with
        | SocketError _ =>
            Failed (callback_envelope (clock h 0) "Alexa.ConnectedHome.Control"
                      "DependentServiceUnavailableError")
        | Response _ _ _ =>
            Succeeded (callback_envelope (clock h 0) "Alexa.ConnectedHome.Control"
                         (confirmation_name name))
        end]).
Proof. exact (Callback_control_outcome h event context logged name applianceId token). Qed.

(** A TurnOffRequest answered with 500: confirmed all the same. *)
Lemma callback_control_in_full_witness :
  let h := example_host (Response 500 (JObj []) "oops") in
  run h (Callback.handler (legacy_request "Alexa.ConnectedHome.Control" "TurnOffRequest")
           LambdaContext)
  = (Ok tt, mkSt 1
       [Callback_put h "/devices/lamp-1?access_token=tok"
          (stringify_object [("level", JStr "off")])]
       [Succeeded (callback_envelope 1000 "Alexa.ConnectedHome.Control"
                     "TurnOffConfirmation")]).
Proof.
  cbv zeta.
  assert (Name : In "TurnOffRequest" ["TurnOnRequest"; "TurnOffRequest"]) by (simpl; tauto).
  rewrite (callback_control_in_full (example_host (Response 500 (JObj []) "oops"))
             (legacy_request "Alexa.ConnectedHome.Control" "TurnOffRequest") LambdaContext
             "[object Object]" "TurnOffRequest" "lamp-1" " tok "
             eq_refl eq_refl eq_refl Name eq_refl eq_refl eq_refl eq_refl).
  reflexivity.
Defined.

(** What the callback revision does with a request it does not serve.  The
    handler logs the event first: an event that does not convert to text
    ends in a TypeError.  A request without a header ends in a TypeError,
    with nothing told to the context.  A request whose namespace is neither
    Discovery nor Control fails with the bare string
    ["Something went wrong"], which is not an envelope, once the event and
    the namespace are logged; it ends in a TypeError when one of them does
    not convert to text.  A Control request that can be logged and whose
    name is neither TurnOnRequest nor TurnOffRequest fails with an
    UnsupportedOperationError.  No request is issued. *)
Theorem callback_unsupported_requests (h : Host) (event : JSValue) (context : Context) :
  (readable event ["header"; "namespace"] = false ->
   exists e, err_name e = "TypeError"
             /\ run h (Callback.handler event context) = (Throw e, start))
  /\ (readable event ["header"; "namespace"] = true ->
      strict_eq_str (at_path event ["header"; "namespace"]) "Alexa.ConnectedHome.Discovery"
        = false ->
      strict_eq_str (at_path event ["header"; "namespace"]) "Alexa.ConnectedHome.Control"
        = false ->
      match ToString event, ToString (at_path event ["header"; "namespace"]) with
      | Some _, Some _ =>
          run h (Callback.handler event context)
          = (Ok tt, mkSt 0 [] [Failed (JStr "Something went wrong")])
      | _, _ =>
          exists e, err_name e = "TypeError"
                    /\ run h (Callback.handler event context) = (Throw e, start)
      end)
  /\ (at_path event ["header"; "namespace"] = JStr "Alexa.ConnectedHome.Control" ->
      forall logged name,
        ToString event = Some logged ->
        at_path event ["header"; "name"] = JStr name ->
        ~ In name ["TurnOnRequest"; "TurnOffRequest"] ->
        run h (Callback.handler event context)
        = (Ok tt, mkSt 1 []
             [Failed (callback_envelope (clock h 0) "Alexa.ConnectedHome.Control"
                        "UnsupportedOperationError")])).
Proof.
  unfold run, Callback.handler. split; [| split].
  - intros U. destruct (ToString event) as [logged |] eqn:Logged.
    + rewrite (bind_ok _ _ h start _ _ (to_string_ok _ _ h start Logged)).
      destruct (prop_path_unreadable _ event h start U) as [e [T E]].
      exists e. unfold bind. rewrite E. split; [exact T | reflexivity].
    + unfold bind at 1. rewrite (to_string_throws _ h start Logged).
      eexists. split; [| reflexivity]. reflexivity.
  - intros R ND NC. destruct (ToString event) as [logged |] eqn:Logged.
    + rewrite (bind_ok _ _ h start _ _ (to_string_ok _ _ h start Logged)).
      rewrite (bind_ok _ _ h start _ _ (prop_path_readable _ _ h start R)), ND, NC.
      rewrite (bind_ok _ _ h start _ _ (prop_path_readable _ _ h start R)).
      destruct (ToString (at_path event ["header"; "namespace"])) as [text |] eqn:T.
      * rewrite (bind_ok _ _ h start _ _ (to_string_ok _ _ h start T)). reflexivity.
      * unfold bind at 1. rewrite (to_string_throws _ h start T).
        eexists. split; [| reflexivity]. reflexivity.
    + unfold bind at 1. rewrite (to_string_throws _ h start Logged).
      eexists. split; [| reflexivity]. reflexivity.
  - intros Namespace logged name Logged Name Unsupported.
    assert (RN : readable event ["header"; "namespace"] = true)
      by (apply at_path_defined_readable; rewrite Namespace; discriminate).
    assert (RM : readable event ["header"; "name"] = true)
      by (simpl in RN |- *; exact RN).
    rewrite (bind_ok _ _ h start _ _ (to_string_ok _ _ h start Logged)).
    rewrite (bind_ok _ _ h start _ _ (prop_path_readable _ _ h start RN)), Namespace.
    simpl (strict_eq_str _ _). cbv iota. unfold Callback.handleControl.
    rewrite (bind_ok _ _ h start _ _ (prop_path_readable _ _ h start RM)), Name.
    rewrite (bind_ok _ _ h start _ _
               (eq_refl : Legacy.match_TurnOnOffRequest (JStr name) h start
                          = (Ok ((name =? "TurnOnRequest") || (name =? "TurnOffRequest")),
                             start))).
    destruct (String.eqb_spec name "TurnOnRequest") as [-> | _];
      [exfalso; apply Unsupported; simpl; tauto |].
    destruct (String.eqb_spec name "TurnOffRequest") as [-> | _];
      [exfalso; apply Unsupported; simpl; tauto |].
    reflexivity.
Qed.

(** A request in a namespace of the versioned protocol; and the same
    request with a property [toString], which cannot be logged. *)
Lemma callback_unsupported_requests_witness :
  let h := example_host (Response 200 (JObj []) "{}") in
  run h (Callback.handler (legacy_request "Alexa.PowerController" "TurnOn") LambdaContext)
  = (Ok tt, mkSt 0 [] [Failed (JStr "Something went wrong")])
  /\ exists e,
       err_name e = "TypeError"
       /\ run h (Callback.handler
                   (JObj [("toString", JNum 1);
                          ("header", JObj [("namespace", JStr "Alexa.PowerController")])])
                   LambdaContext)
          = (Throw e, start).
Proof.
  cbv zeta. split.
  - destruct (callback_unsupported_requests (example_host (Response 200 (JObj []) "{}"))
                (legacy_request "Alexa.PowerController" "TurnOn") LambdaContext)
      as [_ [Unknown _]].
    apply (Unknown eq_refl eq_refl eq_refl).
  - destruct (callback_unsupported_requests (example_host (Response 200 (JObj []) "{}"))
                (JObj [("toString", JNum 1);
                       ("header", JObj [("namespace", JStr "Alexa.PowerController")])])
                LambdaContext)
      as [_ [Unknown _]].
    apply (Unknown eq_refl eq_refl eq_refl).
Defined.

(* ================================================================== *)
(** ** C5: TurnOn *)





(* ================================================================== *)
(** ** The callback revision, for every event *)

Section CallbackDiscipline.

Variable h : Host.

(** A listener changes how a computation ends, not what it sends or
    answers. *)
Lemma responder_listener {A} Q (m : M A) : responder h Q m -> responder h Q (listener m).
Proof.
  intros R s. destruct (R s) as [rs [ps [Es [Ep [-> Post]]]]].
  exists [], ps. unfold listener.
  destruct (m h s) as [[a | e | f] s1]; simpl in *; repeat split; assumption.
Qed.

(** A request followed by code that answers; a refused request throws and
    nothing follows. *)
Lemma disciplined_request {B} P Q opts postData (k : Answer -> M B) :
  P (mkRequest opts postData) ->
  (forall answer, responder h Q (k answer)) ->
  disciplined h P Q (bind (request opts postData) k).
Proof.
  intros Pr Rk s. unfold bind, request. destruct (refused opts).
  { exists [], []. simpl. rewrite !app_nil_r. repeat split. left. reflexivity. }
  destruct (Rk (backend h (mkRequest opts postData))
              (mkSt (ticks s) (sent s ++ [mkRequest opts postData]) (replies s)))
    as [rs [ps [Es [Ep [-> Post]]]]].
  simpl in Es, Ep. rewrite app_nil_r in Es.
  exists [mkRequest opts postData], ps. repeat split; try assumption.
  right. eexists. split; [reflexivity | exact Pr].
Qed.

Lemma inert_Callback_isDeviceValid device : inert h (Callback.isDeviceValid device).
Proof. unfold Callback.isDeviceValid. inert_steps. Qed.

Lemma inert_Callback_toAppliance device : inert h (Callback.toAppliance device).
Proof. unfold Callback.toAppliance. inert_steps. Qed.

Lemma inert_Callback_collect devices :
  forall discoveredAppliances, inert h (Callback.collect devices discoveredAppliances).
Proof.
  induction devices as [| device rest IH]; intros found; simpl; [apply inert_ret |].
  apply inert_bind; [apply inert_Callback_isDeviceValid | intros valid].
  destruct (truthy valid); [| apply IH].
  apply inert_bind; [apply inert_Callback_toAppliance | intros appliance; apply IH].
Qed.

Lemma inert_Callback_forEach v found : inert h (Callback.method_forEach v found).
Proof. destruct v; simpl; first [apply inert_Callback_collect | apply inert_throw]. Qed.

Lemma Callback_getDiscoveryResponse_spec appliances s :
  Callback.getDiscoveryResponse appliances h s
  = (Ok (callback_discovery_response (clock h (ticks s)) appliances), ticked s).
Proof. reflexivity. Qed.

Lemma Callback_generateError_spec name namespace s :
  Callback.generateError name namespace h s
  = (Ok (callback_envelope (clock h (ticks s)) namespace name), ticked s).
Proof. reflexivity. Qed.

Lemma Callback_discovers context appliances :
  responder h callback_reply
    (result <- Callback.getDiscoveryResponse appliances ;;
     context_succeed context result).
Proof.
  apply responder_succeed.
  - apply effect_unchanged. intros s. split; reflexivity.
  - intros s a s' E. rewrite Callback_getDiscoveryResponse_spec in E.
    injection E as <- _. reflexivity.
Qed.

Lemma Callback_fails context name :
  In name ["UnsupportedOperationError"; "DependentServiceUnavailableError"] ->
  responder h callback_reply
    (r <- Callback.generateError name "Alexa.ConnectedHome.Control" ;;
     context_fail context r).
Proof.
  intros Name. apply responder_fail.
  - apply effect_unchanged. intros s. split; reflexivity.
  - intros s a s' E. rewrite Callback_generateError_spec in E. injection E as <- _.
    right. simpl in Name. destruct Name as [<- | [<- | []]]; reflexivity.
Qed.

Lemma Callback_discovery_disciplined event context :
  disciplined h (Callback_call h) callback_reply (Callback.handleDiscovery event context).
Proof.
  unfold Callback.handleDiscovery.
  apply disciplined_bind; [apply inert_prop_path | intros token].
  apply disciplined_bind; [apply inert_method_trim | intros accessToken].
  apply (disciplined_bind_yields h _ _ _ _ (fun v => v = remoteHost h));
    [apply inert_env_remoteHost
    | intros s a s' E; injection E as <- _; reflexivity
    | intros host ->].
  apply (disciplined_bind_yields h _ _ _ _
           (fun text => ToString (remoteHost h) = Some text));
    [apply inert_to_string | apply yields_to_string | intros hostText HostText].
  apply (disciplined_bind_yields h _ _ _ _ (fun v => v = remotePort h));
    [apply inert_env_remotePort
    | intros s a s' E; injection E as <- _; reflexivity
    | intros port ->].
  apply (disciplined_bind_yields h _ _ _ _
           (fun text => ToString (remotePort h) = Some text));
    [apply inert_to_string | apply yields_to_string | intros portText PortText].
  apply disciplined_bind; [apply inert_to_string | intros tokenText].
  apply disciplined_request.
  - left. exists hostText, portText, tokenText. repeat split; assumption.
  - intros [error | statusCode headers message]; apply responder_listener.
    + apply Callback_discovers.
    + apply responder_bind; [apply inert_parse | intros body].
      apply responder_bind; [apply inert_Callback_forEach | intros found].
      apply Callback_discovers.
Qed.

Lemma Callback_control_disciplined event context :
  disciplined h (Callback_call h) callback_reply (Callback.handleControl event context).
Proof.
  unfold Callback.handleControl.
  apply disciplined_bind; [apply inert_prop_path | intros name].
  apply disciplined_bind;
    [unfold Legacy.match_TurnOnOffRequest; inert_steps | intros matched].
  destruct (negb matched).
  { apply responder_disciplined, Callback_fails. simpl. tauto. }
  apply disciplined_bind; [apply inert_prop_path | intros applianceId].
  apply disciplined_bind; [apply inert_prop_path | intros token].
  apply disciplined_bind; [apply inert_method_trim | intros accessToken].
  apply disciplined_bind; [apply inert_to_string | intros idText].
  apply disciplined_bind; [apply inert_to_string | intros tokenText].
  apply (disciplined_bind_yields h _ _ _ _ (fun v => v = remoteHost h));
    [apply inert_env_remoteHost
    | intros s a s' E; injection E as <- _; reflexivity
    | intros host ->].
  apply (disciplined_bind_yields h _ _ _ _ (fun v => v = remotePort h));
    [apply inert_env_remotePort
    | intros s a s' E; injection E as <- _; reflexivity
    | intros port ->].
  apply disciplined_request.
  - right. eexists. eexists. reflexivity.
  - intros [error | statusCode headers message]; apply responder_listener.
    + apply Callback_fails. simpl. tauto.
    + apply responder_bind; [apply inert_Date_now | intros now].
      apply responder_bind; [apply inert_to_string | intros messageId].
      intros s. exists [], [Succeeded
        (JObj [("header", JObj [
                  ("messageId", JStr messageId);
                  ("namespace", JStr "Alexa.ConnectedHome.Control");
                  ("name", JStr (if strict_eq_str name "TurnOnRequest"
                                 then "TurnOnConfirmation" else "TurnOffConfirmation"));
                  ("payloadVersion", JStr "2")]);
               ("payload", JObj [])])].
      rewrite app_nil_r. simpl. repeat split. eexists. split; [reflexivity |].
      destruct (strict_eq_str name "TurnOnRequest"); reflexivity.
Qed.

Lemma Callback_handler_disciplined event context :
  disciplined h (Callback_call h) callback_reply (Callback.handler event context).
Proof.
  unfold Callback.handler.
  apply disciplined_bind; [apply inert_to_string | intros logged].
  apply disciplined_bind; [apply inert_prop_path | intros namespace].
  destruct (strict_eq_str _ _); [apply Callback_discovery_disciplined |].
  destruct (strict_eq_str _ _); [apply Callback_control_disciplined |].
  apply responder_disciplined.
  apply responder_bind; [apply inert_prop_path | intros unknown].
  apply responder_bind; [apply inert_to_string | intros text].
  intros s. exists [], [Failed (JStr "Something went wrong")].
  rewrite app_nil_r. simpl. repeat split. eexists. split; [reflexivity |]. left. reflexivity.
Qed.

End CallbackDiscipline.

(** Every invocation of the callback revision, whatever the event and the
    host, issues at most one request (the GET of discovery or the PUT of a
    control request) and tells the context one thing when it completes,
    nothing when it throws or a listener does.  [context.succeed] is only
    given a DiscoverAppliancesResponse, a TurnOnConfirmation or a
    TurnOffConfirmation; [context.fail] an UnsupportedOperationError, a
    DependentServiceUnavailableError or the bare string
    ["Something went wrong"]. *)
Theorem callback_invocations (h : Host) (event : JSValue) (context : Context) :
  let outcome := run h (Callback.handler event context) in
  replied_once outcome
  /\ (length (sent (snd outcome)) <= 1)%nat
  /\ Forall (Callback_call h) (sent (snd outcome))
  /\ Forall callback_reply (replies (snd outcome)).
Proof.
  cbv zeta.
  pose proof (Callback_handler_disciplined h event context) as D.
  apply (disciplined_run h _ _ _ D).
Qed.
